(* ===== verification/_CoqProject ===== *)
-Q . S2P
Prelude.v
GoNet.v
TimeVal.v
Packet.v
PacketCodec.v
PacketRelay.v
Events.v
DiffSync.v
Neighbor.v
MprSelection.v
NeighborTables.v
NeighborInvariant.v
Topology.v
Hna.v
Heap.v
Dijkstra.v
Spf.v
SpfRoutes.v
SpfSync.v
Molsr.v
MolsrFacts.v
EventBus.v
Config.v
Daemon.v
DaemonFacts.v
LinkSensing.v
Network.v
Zebra.v
ZebraFacts.v
ZebraSync.v
Effects.v
GoStrings.v
Mroute.v
MrouteFacts.v
MrouteSync.v
LoopPrevention.v
LoopPreventionFacts.v
Monitor.v
Api.v
ApiFacts.v
Floats.v
ApiLimit.v
ApiClaims.v
DaemonOps.v
DaemonInvariant.v
RouteInputs.v
Process.v
ProcessFacts.v
ProcessInvariant.v
ProcessRoutes.v
Uroute.v
Standalone.v
Interleaved.v
InterleavedRoutes.v
AddressSafety.v
Installer.v
InstallerFacts.v
TwoHops.v
Forwarding.v
Locking.v
LockingFacts.v
Metrics.v
