(* ===== verification/Prelude.v ===== *)
(** * The olsr-go routing daemon, verified

    The daemon (under src/) routes IPv4 packets in a mesh network with OLSR
    (RFC 3626) and a multicast extension.  It hears HELLO, TC, MID, HNA and
    multicast messages on a UDP socket, keeps what it learns in managers, relays
    messages, calculates unicast and multicast routes, and publishes changes on
    an event bus whose subscribers install them through Zebra or the kernel.
    This library translates that program into Rocq and proves what makes it
    correct.

    ** Files and sources

    - [Prelude]: results of fallible code ([res]: value, error, panic, no
      termination), machine integers, byte order, the [MapOrder] of Go's map
      iterations, range loops, shared lemmas, the [olsr] hint database.
    - [GoNet]: the functions of Go's net package the code calls.
    - [TimeVal], [Packet] (internal/olsr/packet.go): the Vtime codes in
      binary64 arithmetic, the message types, [SerializePacket],
      [DeserializePacket].  [PacketCodec]: the wire grammar, round trip,
      termination, panics.  [PacketRelay]: what was parsed serializes again.
    - [Events], [EventBus] (internal/eventbus/bus.go): payloads; subscriptions,
      channels and publications as interleaved atomic steps.
    - [Neighbor] (internal/olsr/neighbor.go): link sensing, 2-hop neighbors, MPR
      selection, aging.  [MprSelection], [NeighborTables], [NeighborInvariant]:
      its correctness.
    - [Topology] (topology.go) and [Hna] (hna.go): operations and correctness.
    - [Heap], [Dijkstra], [Spf] (spf.go): the priority queue, the shortest
      paths, the engine.  [Dijkstra] is proved against the interface [MinQueue],
      of which [Heap] is an instance.  [SpfRoutes]: the routing table is right.
      [SpfSync]: its publication, and the next-hop lookup.
    - [Molsr] (molsr.go) and [MolsrFacts]: the multicast extension.
    - [DiffSync]: the argument [SpfSync] and [MolsrFacts] share, that a consumer
      of published differences follows the table.
    - [Config] (internal/config/config.go): validation, loading, rollback.
    - [Daemon] (cmd/olsrd/daemon.go): the handlers over all managers, from the
      bytes of a received packet to the bytes sent and the events published.
      [DaemonFacts]: relaying, duplicates, interfaces.  [LinkSensing]: HELLOs
      between two daemons.  [Network]: any number of daemons.
    - [Zebra] (internal/zebra/client.go, zapi_multicast.go): frames and
      connection.  [ZebraFacts]: the frames read back, the connection's
      invariant.  [ZebraSync]: engine, event queue, installer and client.
    - [Effects]: state, errors and calls to the system in one small monad, with
      what it preserves; [GoStrings]: the functions of Go's strings package.
    - [Mroute] (internal/mroute/mroute_linux.go, mroute_vtysh.go): the kernel's
      multicast router, its interface numbers and socket options, and the vtysh
      commands.  [MrouteFacts]: each router; [MrouteSync]: the MOLSR manager,
      the installer and a router together.
    - [LoopPrevention] (loopprevention_linux.go, arp.go): the nftables rules, the
      packet queue with its hook, the ARP lookup.  [LoopPreventionFacts].
    - [Monitor] (internal/netlink): both interface monitors.
    - [Api] (internal/api/server.go, handlers.go): middlewares and handlers.
      [ApiFacts]: access and audit; [Floats]: rounding errors of binary64;
      [ApiLimit]: the rate limit; [ApiClaims]: source claims.
    - [Uroute] (internal/uroute/uroute_linux.go): the kernel's unicast routes.
      [Standalone]: engine, installer and kernel without Zebra.
    - [Process] (cmd/olsrd/main.go, daemon.go): the start, the loops, signals,
      reloads, requests, broadcasts, snapshots and gauges.  [DaemonOps]: each
      handler is a sequence of operations of the managers; [DaemonInvariant]:
      what these preserve; [RouteInputs]: what they announce.  [ProcessFacts],
      [ProcessInvariant], [ProcessRoutes]: the process.
    - [Interleaved]: the process with its route calculation in the steps between
      which other goroutines run.  [InterleavedRoutes]: what its routes are;
      [AddressSafety]: the addresses it looks up.
    - [Installer] (daemon.go): the installation loop over the unicast router, the
      Zebra client, the multicast router and the loop prevention at once, their
      start and [Daemon.Stop].  [InstallerFacts]: errors, the multicast cache,
      the shutdown.
    - [TwoHops], [Forwarding]: how far routes reach in a network, and that packets
      arrive.
    - [Locking] (all packages): each operation as the locks it takes and the
      channels it sends to.  [LockingFacts]: no data race, no deadlock,
      and a starvation.
    - [Metrics] (internal/metrics): the counters.

    ** How the code is translated

    A manager's state is a record with the fields of the Go struct, maps as
    [gmap], and each method that takes the lock is a function from state to
    state that also returns the events it publishes, in order.  The pointers
    kept in a manager's maps are held by one map only, so an update through a
    pointer is an insertion.  Where the code interleaves (the bus, the
    network, the Zebra client, the engine with the installer) the parts between
    two points of blocking or locking are the steps of a relation, and the
    theorems are about every reachable state.

    - Iteration over a map follows [MapOrder]: an order that may differ at each
      execution of a loop, told apart by paths.  The theorems hold for all.
    - Times and durations are integers of nanoseconds; an operation gets the
      result of each [time.Now()] as an argument.  The zero time is [time_zero].
    - Slices of bytes are lists of integers from 0 to 255; unsigned fields wrap
      around ([u8], [u16], [u32], [u64]).  An [int] is unbounded: the code only
      counts, indexes and compares with it.
    - An index or slice out of range is the result [Panic].
    - Floating point is computed by the library's binary64; the one conversion
      the language leaves to the implementation is a parameter ([FloatConv]).

    Loops that are not over a list have fuel, and theorems that the fuel
    suffices: the parser's is the length of its input
    ([DeserializePacket_returns]); the relay selection's is the number of
    2-hop neighbors ([recalculateMPRs_correct]); Dijkstra's is the number of pushes
    that are possible, and the walk along predecessors is bounded by the number
    of nodes ([runDijkstra_correct]); the sift loops of the heap halve or
    double their index within its length.

    ** What is shown

    - Codec: a packet that serializes parses back to its canonical form; the
      parser accepts exactly the packets of the grammar, returns on every
      input, and panics on a message size below the header's.
    - Neighbors: the effect of each operation on each table, the consistency of
      all tables in every reachable state, and a relay selection that covers
      every 2-hop neighbor that can be covered.
    - Topology and gateways: the tuples each message makes and aging removes;
      the duplicate check agrees with one that never forgets.
    - Routes: the table holds the best route for each prefix, found by
      Dijkstra's algorithm; the published events always lead a consumer to the
      same forwarding table; the next-hop lookup is longest-prefix matching.
    - Multicast: the forwarding entries and their publication likewise.
    - Bus: its invariant, delivery, and the panic of a race with [Unsubscribe].
    - Daemon: exactly the messages of the relaying rule are sent on, with one
      hop less; a message is handled once while it is remembered; the bytes of
      a HELLO set the receiver's link as link sensing demands, and three of
      them make a link symmetric.  In a network of these daemons nobody is
      ever chosen as relay, since HELLOs do not announce the choice.
    - Zebra: the frames carry the route; exactly one party is due to restore the
      connection; an undisturbed synchronization writes every route, and a
      disturbed one can leave a withdrawn route behind.
    - Kernel: the multicast cache follows the MOLSR manager's entries, within
      32 interface numbers; the unicast table of a standalone daemon follows the
      engine while no next hop changes, and keeps the old next hop when one
      does; the vtysh router keeps interfaces that an entry has lost.
    - Loop prevention: the hook drops exactly the packets of a known route that
      come from another neighbor; the rules and the queue decide alike while no
      command but the removal of an old table fails; a next hop that changes on
      its interface goes unnoticed.
    - API: only a valid token changes the daemon or sees its data under /api/v1;
      the rate limit's floats follow an exact token bucket, up to a drift that
      cannot let a request too many pass within [2 ^ 18] requests, but can
      refuse one that finds exactly one token; source claims on every
      branch, with the overflow of the lifetime; the audit log names the user
      the client claims to be.
    - Process: in every state a started process can reach, the tables of all
      managers are well formed and the loops' type assertions hold; once the
      queues are empty the routes are the best for the announced inputs, also
      when other goroutines run between the reads of a calculation; the
      interface lookups of a calculation never panic; a reload does not reach
      the managers and the tickers.
    - Installer: the handling of any events never panics, and an error stays in
      its outlet; a standalone kernel's multicast cache is the manager's table as
      long as no failure was counted; [Stop] clears the cache, and the rules if
      nft removes its table then, and lets the Zebra client's loop end, though
      it may still connect once more; it leaves the unicast routes, which a
      restart then cannot replace.
    - Forwarding: with symmetric links a packet to a host within two hops
      arrives, hop by hop, by the tables that the daemons calculate, each at its
      own time, if no gateway announces the host's own prefix.  No route leads
      farther than to the neighbors of those a daemon has heard, since nobody
      is chosen as relay; with one interface each that is two hops.
    - Goroutines: no two of them access the same fields at once, one to write;
      the operations take their locks in one order, so that no schedule
      deadlocks and every operation ends; while the installer waits for the engine's
      lock, a calculation loses every route event that does not fit into the
      channel.

    ** Assumptions and limits

    - A manager's operation is one step for the others, because it holds the
      manager's lock ([no_data_race]).  A route calculation reads the managers
      one after the other; [Process] lets it read them at one moment,
      [Interleaved] does not, and includes the former ([process_interleaves]).
    - A handler returns the bytes it broadcasts; [Process.datagrams] repeats them
      for each usable interface.  Failed socket writes are only logged.
    - The bus's buffers hold at least one event; the configured ones do.  In
      [Process] a buffer may be full at any time, and then the event is lost.
    - In [Process] a handler is one step; [Interleaved] has the single operations,
      too, and the finer interleavings are those of [EventBus], [ZebraSync],
      [Installer] and [Locking].  A frame that makes the parser panic ends the
      process: it has no step.
    - The engine's interface lookup gives an index only: when the next hop is
      not IPv4, which makes [findOutgoingInterface] panic, the model gives 0;
      this never happens ([route_lookups_safe]).
    - [Locking] has the locks and sends of an operation and not its data: what an
      operation looks up or publishes is open there.
    - The system calls and commands of the routers succeed or fail as a
      parameter says ([Kernel], [Shell]); the kernel's cache and the rules in
      force are read off the log of those that succeeded.  The netlink library
      ([Netlink]) and the JWT library ([Jwt]) are classes, the first with the
      documented behaviour as laws.
    - The ARP table is given as the lines read from it, a request's body as its
      decoded JSON value, what the system lists of interfaces as an argument.
    - Reading files, YAML decoding, sockets, random jitter and the operating
      system are arguments or choices of a relation.

    Not modelled, because nothing of it decides anything: the registration of
    the metrics, the version, the stubs for other systems (which only log),
    marshalling and writing the snapshots, the listeners and their shutdown, log
    lines. *)

From stdpp Require Export base gmap strings list fin_maps.
From Stdlib Require Export ZArith Lia Bool.

#[global] Open Scope Z_scope.

(** * Outcomes of Go code

    [Ok] is a normal return, [Err] a return with a non-nil [error] (the string
    is the constant part of the message, which tells the failing check),
    [Panic] a run-time panic (index or slice bounds out of range), and
    [Diverge] marks a loop whose fuel ran out: every theorem about a loop shows
    that it is not reached. *)
Inductive res (A : Type) : Type :=
  | Ok (a : A)
  | Err (e : string)
  | Panic
  | Diverge.
Arguments Ok {A} a.
Arguments Err {A} e.
Arguments Panic {A}.
Arguments Diverge {A}.

#[export] Instance res_ret : MRet res := λ A a, Ok a.
#[export] Instance res_bind : MBind res := λ A B f r,
  match r with Ok a => f a | Err e => Err e | Panic => Panic | Diverge => Diverge end.
#[export] Instance res_fmap : FMap res := λ A B f r,
  match r with Ok a => Ok (f a) | Err e => Err e | Panic => Panic | Diverge => Diverge end.

(** [for _, x := range xs { if err := f(x); err != nil { return err } }]. *)
Fixpoint res_mapM {A B} (f : A → res B) (l : list A) : res (list B) :=
  match l with
  | [] => Ok []
  | x :: l => y ← f x; ys ← res_mapM f l; Ok (y :: ys)
  end.

(** A check that returns an error: [if !b { return fmt.Errorf(msg) }]. *)
Definition check (b : bool) (msg : string) : res unit :=
  if b then Ok tt else Err msg.

(** * Machine integers, as [Z] with the wrap-around written out *)
Definition u8 (z : Z) : Z := z `mod` 2 ^ 8.
Definition u16 (z : Z) : Z := z `mod` 2 ^ 16.
Definition u32 (z : Z) : Z := z `mod` 2 ^ 32.
Definition u64 (z : Z) : Z := z `mod` 2 ^ 64.
Definition is_u8 (z : Z) : Prop := 0 ≤ z < 256.
Definition is_u16 (z : Z) : Prop := 0 ≤ z < 65536.

#[export] Instance is_u8_dec z : Decision (is_u8 z).
Proof. unfold is_u8. apply _. Defined.
#[export] Instance is_u16_dec z : Decision (is_u16 z).
Proof. unfold is_u16. apply _. Defined.

(** * Byte slices *)

(** [b[i]] *)
Definition go_index (b : list Z) (i : nat) : res Z :=
  match b !! i with Some x => Ok x | None => Panic end.

(** [b[lo:hi]]; every slice expression of the code has [hi] bounded by the
    length of the slice, so the capacity beyond the length is not reached. *)
Definition go_slice (b : list Z) (lo hi : nat) : res (list Z) :=
  if (lo <=? hi)%nat && (hi <=? length b)%nat then Ok (take (hi - lo) (drop lo b)) else Panic.

(** [binary.BigEndian.Uint16(b)] *)
Definition Uint16 (b : list Z) : res Z :=
  match b with
  | b0 :: b1 :: _ => Ok (Z.lor b1 (Z.shiftl b0 8))
  | _ => Panic
  end.

(** The bytes [binary.Write(buf, binary.BigEndian, v)] appends for a [uint16]
    and for a [uint32]. *)
Definition be16 (v : Z) : list Z := [u8 (Z.shiftr v 8); u8 v].
Definition be32 (v : Z) : list Z :=
  [u8 (Z.shiftr v 24); u8 (Z.shiftr v 16); u8 (Z.shiftr v 8); u8 v].

(** [binary.BigEndian.PutUint16(b[i:i+2], v)] *)
Definition PutUint16 (b : list Z) (i : nat) (v : Z) : list Z :=
  <[S i := u8 v]> (<[i := u8 (Z.shiftr v 8)]> b).

(** * Time

    A [time.Time] is a number of nanoseconds since the Unix epoch, a
    [time.Duration] a number of nanoseconds. *)
Definition Second : Z := 1000000000.
Definition Millisecond : Z := 1000000.
(** The zero [time.Time], January 1 of year 1. *)
Definition time_zero : Z := -62135596800 * Second.
Definition After (t u : Z) : bool := u <? t.
Definition Before (t u : Z) : bool := t <? u.

(** * Go maps

    [range m] visits the entries of a map once each, in an order the language
    leaves open and which may differ each time.  [MapOrder] is that choice: the
    order is any function of the map and of a path [p] that identifies the
    execution of the loop (the caller's path, extended by the keys or counters
    of the enclosing loops), so that two executions of the same loop may use
    different orders.  Every theorem holds for every [MapOrder]. *)
Class MapOrder := {
  range {K} `{Countable K} {V} : list positive → gmap K V → list (K * V);
  range_perm {K} `{Countable K} {V} (p : list positive) (m : gmap K V) :
    range p m ≡ₚ map_to_list m;
}.

(** One order, for concrete evaluation. *)
Definition canonical_order : MapOrder :=
  {| range := λ _ _ _ _ _ m, map_to_list m; range_perm := λ _ _ _ _ _ m, reflexivity _ |}.

(** [m[k]] on a [map[K]bool]: a missing key reads as [false]. *)
Definition map_bool {K} `{Countable K} (m : gmap K bool) (k : K) : bool :=
  default false (m !! k).

(** [m[k]] with [m == nil] standing for a missing inner map. *)
Definition map_map {K1 K2} `{Countable K1} `{Countable K2} {V}
    (m : gmap K1 (gmap K2 V)) (k : K1) : gmap K2 V := default ∅ (m !! k).

Section range_loops.
Context {MO : MapOrder} {K : Type} `{Countable K} {V : Type}.

(** The purge loop of the aging functions: visit every entry [(k, v)], write
    back or delete it as [step] says, and remember whether some step reported
    a change. *)
Definition range_update (step : list positive → K → V → option V * bool)
    (p : list positive) (m : gmap K V) : gmap K V * bool :=
  foldl (λ acc kv,
    let r := step (encode kv.1 :: p) kv.1 kv.2 in
    (match r.1 with Some v => <[kv.1 := v]> acc.1 | None => delete kv.1 acc.1 end,
     acc.2 || r.2)) (m, false) (range p m).
End range_loops.

Section range_facts.
Context {MO : MapOrder} {K : Type} `{Countable K} {V : Type}.
Implicit Types (p : list positive) (m : gmap K V).

Lemma elem_of_range p m k v : (k, v) ∈ range p m ↔ m !! k = Some v.
Proof. by rewrite range_perm, elem_of_map_to_list. Qed.

Lemma NoDup_range_keys p m : NoDup (range p m).*1.
Proof. rewrite range_perm. apply NoDup_fst_map_to_list. Qed.

Lemma list_to_map_range p m : list_to_map (range p m) = m.
Proof.
  rewrite <-(list_to_map_to_list m) at 2.
  apply list_to_map_proper; [apply NoDup_range_keys | apply range_perm].
Qed.

Lemma length_range p m : length (range p m) = size m.
Proof. rewrite range_perm. apply length_map_to_list. Qed.

(** Induction over an execution of [for k, v := range m]: [P m' x] relates the
    entries visited so far to the loop state. *)
Lemma range_fold_ind {A} (P : gmap K V → A → Prop) (f : A → K * V → A) a p m :
  P ∅ a →
  (∀ k v m' x, m' ⊆ m → m !! k = Some v → m' !! k = None →
     P m' x → P (<[k:=v]> m') (f x (k, v))) →
  P m (foldl f a (range p m)).
Proof.
  intros Hnil Hstep.
  cut (∀ l, NoDup l.*1 → (∀ kv, kv ∈ l → m !! kv.1 = Some kv.2) →
    P (list_to_map l) (foldl f a l)).
  { intros Hl. rewrite <-(list_to_map_range p m) at 1. apply Hl.
    - apply NoDup_range_keys.
    - intros [k v] Hkv%elem_of_range. done. }
  intros l. induction l as [|[k v] l IH] using rev_ind; intros Hnd Hin; [done|].
  rewrite fmap_app, NoDup_app in Hnd. destruct Hnd as (Hnd & Hk & _).
  assert (k ∉ l.*1) as Hk' by (intros Hkl; by apply (Hk k Hkl), list_elem_of_singleton).
  rewrite list_to_map_snoc, foldl_app by done. simpl.
  assert (∀ kv, kv ∈ l → m !! kv.1 = Some kv.2) as Hin' by (intros; apply Hin; set_solver).
  apply Hstep.
  - apply map_subseteq_spec. intros i x Hi%elem_of_list_to_map_2. by apply (Hin' (i, x)).
  - apply (Hin (k, v)). set_solver.
  - by apply not_elem_of_list_to_map_1.
  - by apply IH.
Qed.

Lemma range_existsb p m (f : K * V → bool) :
  existsb f (range p m) = true ↔ ∃ k v, m !! k = Some v ∧ f (k, v) = true.
Proof.
  rewrite existsb_exists. split.
  - intros ([k v] & Hin & Hf). rewrite <-list_elem_of_In, elem_of_range in Hin. eauto.
  - intros (k & v & Hin & Hf). exists (k, v).
    by rewrite <-list_elem_of_In, elem_of_range.
Qed.

Context (step : list positive → K → V → option V * bool).

(** A purge loop acts on each entry by itself, whatever the order. *)
Lemma range_update_lookup p m k :
  (range_update step p m).1 !! k = m !! k ≫= λ v, (step (encode k :: p) k v).1.
Proof.
  enough (∀ j, (range_update step p m).1 !! j =
      match m !! j with Some v => (step (encode j :: p) j v).1 | None => m !! j end) as Hk
    by (rewrite Hk; by destruct (m !! k)).
  clear k. unfold range_update.
  apply (range_fold_ind (λ m' acc, ∀ k, acc.1 !! k =
      match m' !! k with Some v => (step (encode k :: p) k v).1 | None => m !! k end)); simpl.
  - intros k. by rewrite lookup_empty.
  - intros k v m' [a c] _ Hkv Hk' IH k'. simpl in *.
    destruct (decide (k = k')) as [<-|Hne].
    + rewrite lookup_insert_eq. destruct (step _ k v).1; by simplify_map_eq.
    + rewrite lookup_insert_ne by done. rewrite <-IH.
      destruct (step _ k v).1; by simplify_map_eq.
Qed.

Lemma range_update_changed p m :
  (range_update step p m).2 = true ↔
  ∃ k v, m !! k = Some v ∧ (step (encode k :: p) k v).2 = true.
Proof.
  unfold range_update.
  apply (range_fold_ind (λ m' acc, acc.2 = true ↔
     ∃ k v, m' !! k = Some v ∧ (step (encode k :: p) k v).2 = true)); simpl.
  - split; [done|]. intros (k & v & Hk & _). by rewrite lookup_empty in Hk.
  - intros k v m' [a c] _ Hkv Hk' IH. simpl in *. rewrite orb_true_iff, IH. split.
    + intros [(k1 & v1 & ? & ?)|?].
      * exists k1, v1. rewrite lookup_insert_ne by congruence. done.
      * exists k, v. by rewrite lookup_insert_eq.
    + intros (k1 & v1 & [[-> ->]|[? ?]]%lookup_insert_Some & ?); [by right | left; eauto].
Qed.
End range_facts.

(** ** Purging expired entries *)

(** [if now.After(v.exp) { delete(m, k); changed = true }]. *)
Definition purge_expired {K V} (exp : V → Z) (now : Z) (_ : list positive) (_ : K) (v : V)
    : option V * bool :=
  if After now (exp v) then (None, true) else (Some v, false).

(** The purge of a map of maps also deletes an inner map that is left empty. *)
Definition purge_nested {MO : MapOrder} {K1 K2 V} `{Countable K2}
    (step : list positive → K2 → V → option V * bool) (p : list positive) (_ : K1)
    (inner : gmap K2 V) : option (gmap K2 V) * bool :=
  let r := range_update step p inner in
  (if (size r.1 =? 0)%nat then None else Some r.1, r.2).

(** The entries that have not expired. *)
Definition live {K V} `{Countable K} (exp : V → Z) (now : Z) (m : gmap K V) : gmap K V :=
  filter (λ kv, now ≤ exp kv.2) m.

Definition nonempty {K V} `{Countable K} (m : gmap K V) : option (gmap K V) :=
  if decide (m = ∅) then None else Some m.

Definition live_nested {K1 K2 V} `{Countable K1} `{Countable K2} (exp : V → Z) (now : Z)
    (m : gmap K1 (gmap K2 V)) : gmap K1 (gmap K2 V) := omap (λ i, nonempty (live exp now i)) m.

Section purge_facts.
Context {MO : MapOrder}.

Lemma live_lookup {K V} `{Countable K} (exp : V → Z) now (m : gmap K V) k v :
  live exp now m !! k = Some v ↔ m !! k = Some v ∧ now ≤ exp v.
Proof. unfold live. by rewrite map_lookup_filter_Some. Qed.

Lemma purge_expired_live {K V} `{Countable K} (exp : V → Z) now p (m : gmap K V) :
  (range_update (purge_expired exp now) p m).1 = live exp now m.
Proof.
  apply map_eq. intros k. rewrite range_update_lookup. apply option_eq. intros v.
  rewrite live_lookup. destruct (m !! k) as [w|]; simpl; [|naive_solver].
  unfold purge_expired, After. destruct (Z.ltb_spec (exp w) now); simpl; naive_solver lia.
Qed.

Lemma purge_expired_changed {K V} `{Countable K} (exp : V → Z) now p (m : gmap K V) :
  (range_update (purge_expired exp now) p m).2 = true ↔ ∃ k v, m !! k = Some v ∧ exp v < now.
Proof.
  rewrite range_update_changed. unfold purge_expired, After.
  split; intros (k & v & ? & E); exists k, v; (split; [done|]);
    destruct (Z.ltb_spec (exp v) now); simpl in *; done || lia.
Qed.

Lemma size_nonempty {K V} `{Countable K} (m : gmap K V) :
  (if (size m =? 0)%nat then None else Some m) = nonempty m.
Proof.
  unfold nonempty. case_decide as E.
  - by rewrite E, map_size_empty.
  - destruct (Nat.eqb_spec (size m) 0) as [E'|]; [|done]. by apply map_size_empty_inv in E'.
Qed.

Lemma purge_nested_lookup {K1 K2 V} `{Countable K1} `{Countable K2}
    (step : list positive → K2 → V → option V * bool) p (m : gmap K1 (gmap K2 V)) k :
  (range_update (purge_nested step) p m).1 !! k =
  m !! k ≫= λ i, nonempty (range_update step (encode k :: p) i).1.
Proof.
  rewrite range_update_lookup. destruct (m !! k); simpl; [|done]. apply size_nonempty.
Qed.

Lemma purge_nested_live {K1 K2 V} `{Countable K1} `{Countable K2} (exp : V → Z) now p
    (m : gmap K1 (gmap K2 V)) :
  (range_update (purge_nested (purge_expired exp now)) p m).1 = live_nested exp now m.
Proof.
  apply map_eq. intros k. rewrite purge_nested_lookup. unfold live_nested. rewrite lookup_omap.
  destruct (m !! k); simpl; [|done]. by rewrite purge_expired_live.
Qed.

Lemma purge_nested_changed {K1 K2 V} `{Countable K1} `{Countable K2} (exp : V → Z) now p
    (m : gmap K1 (gmap K2 V)) :
  (range_update (purge_nested (purge_expired exp now)) p m).2 = true ↔
  ∃ k i k' v, m !! k = Some i ∧ i !! k' = Some v ∧ exp v < now.
Proof.
  rewrite range_update_changed. unfold purge_nested. simpl. setoid_rewrite purge_expired_changed.
  naive_solver.
Qed.

Lemma live_idemp {K V} `{Countable K} (exp : V → Z) now (m : gmap K V) :
  live exp now (live exp now m) = live exp now m.
Proof. apply map_filter_id. intros k v. rewrite live_lookup. naive_solver. Qed.

Lemma live_nested_idemp {K1 K2 V} `{Countable K1} `{Countable K2} (exp : V → Z) now
    (m : gmap K1 (gmap K2 V)) :
  live_nested exp now (live_nested exp now m) = live_nested exp now m.
Proof.
  apply map_eq. intros k. unfold live_nested. rewrite !lookup_omap.
  destruct (m !! k) as [i|]; simpl; [|done]. unfold nonempty at 2 3. case_decide; simpl; [done|].
  rewrite live_idemp. unfold nonempty. by rewrite decide_False.
Qed.

Lemma live_nested_lookup {K1 K2 V} `{Countable K1} `{Countable K2} (exp : V → Z) now
    (m : gmap K1 (gmap K2 V)) k i' :
  live_nested exp now m !! k = Some i' ↔
  ∃ i, m !! k = Some i ∧ i' = live exp now i ∧ i' ≠ ∅.
Proof.
  unfold live_nested, nonempty. rewrite lookup_omap_Some. split.
  - intros (i & Hi & ?). case_decide; simplify_eq. eauto.
  - intros (i & ? & -> & ?). exists i. by rewrite decide_False.
Qed.
End purge_facts.

(** * Automation *)

Create HintDb olsr discriminated.
Create Rewrite HintDb olsr.

(** Case analysis on the booleans and options the code branches on. *)
Ltac go_case :=
  repeat (case_match || case_decide || case_bool_decide); simplify_eq/=.

(** Turn the boolean tests of the code into propositions. *)
Ltac to_prop :=
  repeat match goal with
  | H : (_ <? _) = true |- _ => apply Z.ltb_lt in H
  | H : (_ <? _) = false |- _ => apply Z.ltb_ge in H
  | H : (_ <=? _) = true |- _ => apply Z.leb_le in H
  | H : (_ <=? _) = false |- _ => apply Z.leb_gt in H
  | H : (_ =? _) = true |- _ => apply Z.eqb_eq in H
  | H : (_ =? _) = false |- _ => apply Z.eqb_neq in H
  | H : (_ <? _)%nat = true |- _ => apply Nat.ltb_lt in H
  | H : (_ <? _)%nat = false |- _ => apply Nat.ltb_ge in H
  | H : (_ <=? _)%nat = true |- _ => apply Nat.leb_le in H
  | H : (_ <=? _)%nat = false |- _ => apply Nat.leb_gt in H
  | H : (_ =? _)%nat = true |- _ => apply Nat.eqb_eq in H
  | H : (_ =? _)%nat = false |- _ => apply Nat.eqb_neq in H
  | H : (_ && _) = true |- _ => apply andb_true_iff in H as [? ?]
  | H : (_ || _) = false |- _ => apply orb_false_iff in H as [? ?]
  | H : negb _ = true |- _ => apply negb_true_iff in H
  | H : negb _ = false |- _ => apply negb_false_iff in H
  end.

(** * Lemmas on slices and words *)

Lemma u8_range z : is_u8 (u8 z).
Proof. unfold is_u8, u8. apply Z.mod_pos_bound. lia. Qed.

Lemma u8_id z : is_u8 z → u8 z = z.
Proof. unfold is_u8, u8. intros. by apply Z.mod_small. Qed.

Lemma u16_range z : is_u16 (u16 z).
Proof. unfold is_u16, u16. apply Z.mod_pos_bound. lia. Qed.

Lemma u16_id z : is_u16 z → u16 z = z.
Proof. unfold is_u16, u16. intros. by apply Z.mod_small. Qed.

Lemma lor_shift_add a b : is_u8 a → Z.lor a (Z.shiftl b 8) = 256 * b + a.
Proof.
  unfold is_u8. intros Ha.
  assert (Z.land a (Z.shiftl b 8) = 0) as Hand.
  { apply Z.bits_inj'. intros i Hi. rewrite Z.land_spec, Z.bits_0.
    destruct (decide (i < 8)).
    - rewrite Z.shiftl_spec_low by lia. by rewrite andb_false_r.
    - rewrite <-(Z.mod_small a (2 ^ 8)) by lia. by rewrite Z.mod_pow2_bits_high by lia. }
  pose proof (Z.add_lor_land a (Z.shiftl b 8)) as E.
  rewrite Hand in E. rewrite Z.shiftl_mul_pow2 in * by lia. lia.
Qed.

Lemma Uint16_be16 v l : is_u16 v → Uint16 (be16 v ++ l) = Ok v.
Proof.
  intros Hv. unfold Uint16, be16. simpl. rewrite lor_shift_add by apply u8_range.
  rewrite Z.shiftr_div_pow2 by lia. unfold u8, is_u16 in *.
  change (2 ^ 8) with 256. pose proof (Z.div_mod v 256 ltac:(lia)).
  pose proof (Z.mod_pos_bound v 256 ltac:(lia)).
  rewrite (Z.mod_small (v `div` 256)) by lia. f_equal. lia.
Qed.

Lemma Uint16_is_u16 b v : Forall is_u8 b → Uint16 b = Ok v → is_u16 v.
Proof.
  intros Hb. destruct b as [|b0 [|b1 b]]; simpl; try done. intros [= <-].
  inversion_clear Hb as [|?? H0 Hb']. inversion_clear Hb' as [|?? H1 _].
  rewrite lor_shift_add by done. unfold is_u8, is_u16 in *. lia.
Qed.

Lemma be16_u8 v : Forall is_u8 (be16 v).
Proof. repeat constructor; apply u8_range. Qed.

Lemma be32_u8 v : Forall is_u8 (be32 v).
Proof. repeat constructor; apply u8_range. Qed.

Lemma length_be16 v : length (be16 v) = 2%nat.
Proof. done. Qed.

Lemma length_PutUint16 b i v : length (PutUint16 b i v) = length b.
Proof. unfold PutUint16. by rewrite !length_insert. Qed.

(** Filling a two-byte placeholder in the middle of a buffer. *)
Lemma PutUint16_app b0 x y b1 v :
  PutUint16 (b0 ++ x :: y :: b1) (length b0) v = b0 ++ be16 v ++ b1.
Proof.
  unfold PutUint16. rewrite insert_app_r_alt by lia. rewrite Nat.sub_diag. simpl.
  rewrite insert_app_r_alt by lia. by replace (S (length b0) - length b0)%nat with 1%nat by lia.
Qed.

Lemma go_slice_length b lo hi s : go_slice b lo hi = Ok s → length s = (hi - lo)%nat.
Proof.
  unfold go_slice. case_match; [|done]. to_prop. intros [= <-].
  rewrite length_take, length_drop. lia.
Qed.

Lemma go_slice_all b n : n = length b → go_slice b 0 n = Ok b.
Proof.
  intros ->. unfold go_slice. rewrite Nat.leb_refl. simpl.
  by rewrite Nat.sub_0_r, firstn_all.
Qed.

Lemma go_slice_app_r b0 b lo hi :
  go_slice (b0 ++ b) (length b0 + lo) (length b0 + hi) = go_slice b lo hi.
Proof.
  unfold go_slice. rewrite length_app.
  replace (length b0 + lo <=? length b0 + hi)%nat with (lo <=? hi)%nat
    by (apply eq_true_iff_eq; rewrite !Nat.leb_le; lia).
  replace (length b0 + hi <=? length b0 + length b)%nat with (hi <=? length b)%nat
    by (apply eq_true_iff_eq; rewrite !Nat.leb_le; lia).
  rewrite drop_app_add. by replace (length b0 + hi - (length b0 + lo))%nat with (hi - lo)%nat by lia.
Qed.

Lemma go_slice_app_l b0 b : go_slice (b0 ++ b) 0 (length b0) = Ok b0.
Proof.
  unfold go_slice. rewrite length_app. simpl.
  replace (length b0 <=? length b0 + length b)%nat with true by (symmetry; apply Nat.leb_le; lia).
  by rewrite Nat.sub_0_r, drop_0, take_app_length.
Qed.

Lemma go_index_app_r b0 b i : go_index (b0 ++ b) (length b0 + i) = go_index b i.
Proof. unfold go_index. rewrite lookup_app_r by lia. by replace (length b0 + i - length b0)%nat with i by lia. Qed.

Lemma go_slice_mid b0 b b1 : go_slice (b0 ++ b ++ b1) (length b0) (length b0 + length b) = Ok b.
Proof.
  rewrite <-(Nat.add_0_r (length b0)) at 1. rewrite go_slice_app_r. apply go_slice_app_l.
Qed.

Lemma go_slice_to_end b0 b : go_slice (b0 ++ b) (length b0) (length (b0 ++ b)) = Ok b.
Proof. rewrite length_app, <-(app_nil_r b) at 1. apply go_slice_mid. Qed.

Lemma go_index_app_r0 b0 b : go_index (b0 ++ b) (length b0) = go_index b 0.
Proof. rewrite <-(Nat.add_0_r (length b0)). apply go_index_app_r. Qed.

Lemma go_slice_Forall (P : Z → Prop) b lo hi s :
  Forall P b → go_slice b lo hi = Ok s → Forall P s.
Proof. unfold go_slice. case_match; [|done]. intros Hb [= <-]. by apply Forall_take, Forall_drop. Qed.

Lemma go_index_Forall (P : Z → Prop) b i x : Forall P b → go_index b i = Ok x → P x.
Proof.
  unfold go_index. intros Hb. case_match eqn:E; [|done]. intros [= <-].
  by eapply Forall_lookup_1.
Qed.

Lemma go_index_Ok b i : (i < length b)%nat → ∃ x, go_index b i = Ok x.
Proof. intros Hi. unfold go_index. destruct (lookup_lt_is_Some_2 b i Hi) as [x ->]. eauto. Qed.

(** * Lemmas on outcomes *)

Lemma bind_Ok {A B} (r : res A) (f : A → res B) b :
  r ≫= f = Ok b ↔ ∃ a, r = Ok a ∧ f a = Ok b.
Proof.
  destruct r; simpl; (split; [|intros (a' & E & ?)]); try discriminate; eauto. by injection E as ->.
Qed.

Lemma res_bind_Ok {A B} (a : A) (f : A → res B) : Ok a ≫= f = f a.
Proof. done. Qed.

Lemma Ok_inj {A} (a b : A) : Ok a = Ok b → a = b.
Proof. congruence. Qed.

Lemma check_Ok b msg u : check b msg = Ok u ↔ b = true.
Proof. unfold check. destruct b, u; naive_solver. Qed.

Lemma check_true b msg : b = true → check b msg = Ok tt.
Proof. by intros ->. Qed.

Lemma bind_not_Diverge {A B} (r : res A) (f : A → res B) :
  r ≠ Diverge → (∀ a, r = Ok a → f a ≠ Diverge) → r ≫= f ≠ Diverge.
Proof. destruct r; simpl; naive_solver. Qed.

Lemma fmap_not_Diverge {A B} (r : res A) (f : A → B) : r ≠ Diverge → f <$> r ≠ Diverge.
Proof. by destruct r. Qed.

Lemma check_not_Diverge b msg : check b msg ≠ Diverge.
Proof. by destruct b. Qed.

Lemma go_index_not_Diverge b i : go_index b i ≠ Diverge.
Proof. unfold go_index. by case_match. Qed.

Lemma go_slice_not_Diverge b lo hi : go_slice b lo hi ≠ Diverge.
Proof. unfold go_slice. by case_match. Qed.

Lemma Uint16_not_Diverge b : Uint16 b ≠ Diverge.
Proof. unfold Uint16. by repeat case_match. Qed.

Lemma res_mapM_not_Diverge {A B} (f : A → res B) l :
  (∀ x, f x ≠ Diverge) → res_mapM f l ≠ Diverge.
Proof.
  intros Hf. induction l as [|x l IH]; [done|]. simpl.
  apply bind_not_Diverge; [done|]. intros y _. apply bind_not_Diverge; [done|]. done.
Qed.

Lemma res_mapM_Ok {A B} (f : A → res B) l k :
  res_mapM f l = Ok k ↔ Forall2 (λ x y, f x = Ok y) l k.
Proof.
  revert k. induction l as [|x l IH]; intros k; simpl.
  - split; [by intros [= <-] | by inversion 1].
  - rewrite bind_Ok. setoid_rewrite bind_Ok. setoid_rewrite IH. split.
    + intros (y & ? & ys & ? & [= <-]). by constructor.
    + inversion 1; subst. eauto.
Qed.

#[export] Hint Resolve bind_not_Diverge fmap_not_Diverge check_not_Diverge go_index_not_Diverge
  go_slice_not_Diverge Uint16_not_Diverge res_mapM_not_Diverge : olsr.

(** A computation whose steps all return returns. *)
Ltac solve_returns :=
  repeat (apply bind_not_Diverge; [auto with olsr | intros ? ?]); try done.

(** Peel the successful steps of a monadic computation off a hypothesis. *)
Ltac res_steps H :=
  repeat (apply bind_Ok in H as (? & ? & H));
  repeat match goal with
  | C : check _ _ = Ok _ |- _ => apply check_Ok in C
  end.

#[export] Hint Resolve u8_range u8_id u16_range u16_id be16_u8 be32_u8 : olsr.
#[export] Hint Rewrite length_be16 length_PutUint16 go_slice_app_r go_slice_app_l go_index_app_r : olsr.
