(* ===== verification/GoNet.v ===== *)
(** * The parts of Go's [net] package the daemon calls

    [net.IP], [net.IPMask] and [net.IPNet] with [To4], [String], [ParseIP],
    [ParseCIDR], [Mask], [Size] and [Contains], as functions on byte lists and
    strings.  A nil slice is the empty list.  The lemmas give the two facts the
    managers' string keys rest on: printing an IPv4 address is injective, and
    parsing a printed IPv4 address gives the address back. *)

From Stdlib Require Import Ascii.
From S2P Require Import Prelude.
Local Open Scope string_scope.
Local Open Scope list_scope.
Local Open Scope Z_scope.

Definition IP := list Z.
Definition IPMask := list Z.
Record IPNet := MkIPNet { net_IP : IP; net_Mask : IPMask }.

#[export] Instance IPNet_eq_dec : EqDecision IPNet.
Proof. solve_decision. Defined.

(** The 12-byte prefix of an IPv4 address in 16-byte form. *)
Definition v4InV6Prefix : list Z := [0; 0; 0; 0; 0; 0; 0; 0; 0; 0; 255; 255].

(** [net.IPv4(a, b, c, d)] *)
Definition IPv4 (a b c d : Z) : IP := v4InV6Prefix ++ [a; b; c; d].

(** [ip.To4()]: [None] is nil. *)
Definition To4 (ip : IP) : option IP :=
  if (length ip =? 4)%nat then Some ip
  else if (length ip =? 16)%nat && bool_decide (take 12 ip = v4InV6Prefix) then Some (drop 12 ip)
  else None.

(** ** Printing *)

Definition digit (d : Z) : string := String (ascii_of_nat (Z.to_nat (48 + d))) "".

(** Decimal form of a number below 1000, without leading zeros. *)
Definition appendDecimal (x : Z) : string :=
  (if 100 <=? x then digit (x `div` 100) else "") +:+
  (if 10 <=? x then digit ((x `div` 10) `mod` 10) else "") +:+
  digit (x `mod` 10).

Definition hexDigit (d : Z) : string :=
  if d <? 10 then digit d else String (ascii_of_nat (Z.to_nat (87 + d))) "".

(** Hexadecimal form of a 16-bit group, without leading zeros. *)
Definition appendHex (x : Z) : string :=
  (if 4096 <=? x then hexDigit (x `div` 4096) else "") +:+
  (if 256 <=? x then hexDigit ((x `div` 256) `mod` 16) else "") +:+
  (if 16 <=? x then hexDigit ((x `div` 16) `mod` 16) else "") +:+
  hexDigit (x `mod` 16).

Definition hexString (b : list Z) : string :=
  foldr (λ x s, hexDigit (x `div` 16) +:+ hexDigit (x `mod` 16) +:+ s) "" b.

Definition dotted (ip : IP) : string :=
  match ip with
  | [a; b; c; d] =>
      appendDecimal a +:+ "." +:+ appendDecimal b +:+ "." +:+ appendDecimal c +:+ "." +:+ appendDecimal d
  | _ => ""
  end.

(** The eight 16-bit groups of a 16-byte address. *)
Fixpoint groups (ip : list Z) : list Z :=
  match ip with
  | a :: b :: ip => 256 * a + b :: groups ip
  | _ => []
  end.

(** Number of leading zero groups. *)
Fixpoint zero_run (g : list Z) : nat :=
  match g with
  | x :: g => if x =? 0 then S (zero_run g) else 0%nat
  | [] => 0%nat
  end.

(** Start and end of the longest run of at least two zero groups, the first one
    when several have that length. *)
Definition longest_run (g : list Z) : option (nat * nat) :=
  foldl (λ best i,
    let l := zero_run (drop i g) in
    if (2 <=? l)%nat && (match best with Some (s, e) => (e - s <? l)%nat | None => true end)
    then Some (i, i + l)%nat else best) None (seq 0 (length g)).

Definition join_groups (g : list Z) : string :=
  match g with
  | [] => ""
  | x :: g => appendHex x +:+ foldr (λ y s, ":" +:+ appendHex y +:+ s) "" g
  end.

Definition ipv6String (ip : IP) : string :=
  let g := groups ip in
  match longest_run g with
  | Some (s, e) => join_groups (take s g) +:+ "::" +:+ join_groups (drop e g)
  | None => join_groups g
  end.

(** [ip.String()] *)
Definition IP_String (ip : IP) : string :=
  if (length ip =? 0)%nat then "<nil>"
  else match To4 ip with
  | Some p4 => dotted p4
  | None => if (length ip =? 16)%nat then ipv6String ip else "?" +:+ hexString ip
  end.

Definition IPMask_String (m : IPMask) : string :=
  if (length m =? 0)%nat then "<nil>" else hexString m.

(** ** Masks and networks *)

(** Leading one bits of a byte, [None] when a one follows a zero. *)
Definition byte_ones (v : Z) : option Z :=
  if v =? 0 then Some 0 else if v =? 128 then Some 1 else if v =? 192 then Some 2
  else if v =? 224 then Some 3 else if v =? 240 then Some 4 else if v =? 248 then Some 5
  else if v =? 252 then Some 6 else if v =? 254 then Some 7 else None.

(** [simpleMaskLength(mask)]: -1 when the mask is not ones followed by zeros. *)
Fixpoint simpleMaskLength (mask : IPMask) : Z :=
  match mask with
  | [] => 0
  | v :: mask =>
      if v =? 255 then let n := simpleMaskLength mask in if n =? -1 then -1 else 8 + n
      else match byte_ones v with
           | Some n => if forallb (λ b, b =? 0) mask then n else -1
           | None => -1
           end
  end.

(** The first result of [mask.Size()]. *)
Definition Mask_Size (m : IPMask) : Z :=
  let ones := simpleMaskLength m in if ones =? -1 then 0 else ones.

Definition networkNumberAndMask (n : IPNet) : option (IP * IPMask) :=
  let m := net_Mask n in
  let with_mask (ip : IP) :=
    if (length m =? 4)%nat then (if (length ip =? 4)%nat then Some (ip, m) else None)
    else if (length m =? 16)%nat then Some (ip, if (length ip =? 4)%nat then drop 12 m else m)
    else None in
  match To4 (net_IP n) with
  | Some ip => with_mask ip
  | None => if (length (net_IP n) =? 16)%nat then with_mask (net_IP n) else None
  end.

(** [n.String()] *)
Definition IPNet_String (n : IPNet) : string :=
  match networkNumberAndMask n with
  | None => "<nil>"
  | Some (nn, m) =>
      let l := simpleMaskLength m in
      if l =? -1 then IP_String nn +:+ "/" +:+ IPMask_String m
      else IP_String nn +:+ "/" +:+ appendDecimal l
  end.

(** [n.Contains(ip)] *)
Definition Contains (n : IPNet) (ip : IP) : bool :=
  let ip := default ip (To4 ip) in
  match networkNumberAndMask n with
  | None => (length ip =? 0)%nat
  | Some (nn, m) =>
      (length ip =? length nn)%nat &&
      forallb (λ '(x, y, k), Z.land x k =? Z.land y k) (zip (zip nn ip) m)
  end.

(** [net.CIDRMask(ones, bits)] *)
Definition CIDRMask (ones bits : Z) : IPMask :=
  map (λ i, let n := ones - 8 * Z.of_nat i in
            if 8 <=? n then 255 else if n <=? 0 then 0 else 256 - 2 ^ (8 - n))
      (seq 0 (Z.to_nat (bits `div` 8))).

(** [ip.Mask(mask)] *)
Definition Mask (ip : IP) (mask : IPMask) : IP :=
  let mask := if (length mask =? 16)%nat && (length ip =? 4)%nat
                 && forallb (λ b, b =? 255) (take 12 mask) then drop 12 mask else mask in
  let ip := if (length mask =? 4)%nat && (length ip =? 16)%nat
               && bool_decide (take 12 ip = v4InV6Prefix) then drop 12 ip else ip in
  if (length ip =? length mask)%nat then zip_with Z.land ip mask else [].

(** ** Parsing *)

Definition char_digit (c : ascii) : option Z :=
  let n := Z.of_nat (nat_of_ascii c) in
  if (48 <=? n) && (n <=? 57) then Some (n - 48) else None.

Definition char_hex (c : ascii) : option Z :=
  let n := Z.of_nat (nat_of_ascii c) in
  if (48 <=? n) && (n <=? 57) then Some (n - 48)
  else if (97 <=? n) && (n <=? 102) then Some (n - 87)
  else if (65 <=? n) && (n <=? 70) then Some (n - 55)
  else None.

Definition is_char (c : ascii) (d : ascii) : bool := Ascii.eqb c d.

(** [parseIPv4Fields]: [prev] is the character before the current one, [val] and
    [digLen] the octet read so far, [fields] the octets already complete. *)
Fixpoint parseIPv4Fields (s : string) (prev : option ascii) (val digLen : Z)
    (fields : list Z) : option (list Z) :=
  match s with
  | EmptyString => if (length fields <? 3)%nat then None else Some (fields ++ [val])
  | String c s =>
      match char_digit c with
      | Some d =>
          if (digLen =? 1) && (val =? 0) then None
          else let val := val * 10 + d in
               if 255 <? val then None else parseIPv4Fields s (Some c) val (digLen + 1) fields
      | None =>
          if is_char c "." then
            if bool_decide (prev = None) || bool_decide (s = "") || bool_decide (prev = Some "."%char)
            then None
            else if (length fields =? 3)%nat then None
            else parseIPv4Fields s (Some c) 0 0 (fields ++ [val])
          else None
      end
  end.

Definition parseIPv4 (s : string) : option IP :=
  match parseIPv4Fields s None 0 0 [] with
  | Some f => Some (v4InV6Prefix ++ f)
  | None => None
  end.

(** One group of hexadecimal digits: its value, the number of digits, the rest. *)
Fixpoint hex_group (s : string) (off : nat) (acc : Z) : option (Z * nat * string) :=
  match s with
  | String c s' =>
      match char_hex c with
      | Some d =>
          let acc := acc * 16 + d in
          if (3 <? off)%nat || (65535 <? acc) then None else hex_group s' (S off) acc
      | None => Some (acc, off, s)
      end
  | EmptyString => Some (acc, off, s)
  end.

(** The loop of [parseIPv6]; a run reads at most eight groups.  [ip] holds the
    bytes read so far, [ell] the position of the ellipsis.  [None] is a parse
    error, the last component the unread input. *)
Fixpoint parseIPv6_loop (fuel : nat) (s : string) (ip : list Z) (ell : option nat)
    : option (list Z * option nat * string) :=
  match fuel with
  | O => Some (ip, ell, s)
  | S fuel =>
      match hex_group s 0 0 with
      | None => None
      | Some (acc, off, rest) =>
          if (off =? 0)%nat then None
          else match rest with
          | EmptyString => Some (ip ++ [acc `div` 256; acc `mod` 256], ell, "")
          | String c rest' =>
              if is_char c "." then
                if bool_decide (ell = None) && negb (length ip =? 12)%nat then None
                else if (16 <? length ip + 4)%nat then None
                else match parseIPv4Fields s None 0 0 [] with
                     | Some f => Some (ip ++ f, ell, "")
                     | None => None
                     end
              else if negb (is_char c ":") then None
              else
                let ip := ip ++ [acc `div` 256; acc `mod` 256] in
                match rest' with
                | EmptyString => None
                | String c' rest'' =>
                    if is_char c' ":" then
                      if bool_decide (ell = None) then
                        match rest'' with
                        | EmptyString => Some (ip, Some (length ip), "")
                        | _ => parseIPv6_loop fuel rest'' ip (Some (length ip))
                        end
                      else None
                    else parseIPv6_loop fuel rest' ip ell
                end
          end
      end
  end.

Definition expand_ellipsis (ip : list Z) (ell : option nat) : option IP :=
  if (length ip <? 16)%nat then
    match ell with
    | None => None
    | Some e => Some (take e ip ++ replicate (16 - length ip) 0 ++ drop e ip)
    end
  else match ell with Some _ => None | None => Some ip end.

Definition parseIPv6 (s : string) : option IP :=
  let run s ell :=
    match parseIPv6_loop 8 s [] ell with
    | Some (ip, ell, EmptyString) => expand_ellipsis ip ell
    | _ => None
    end in
  match s with
  | String ":" (String ":" EmptyString) => Some (replicate 16 0)
  | String ":" (String ":" s) => run s (Some 0%nat)
  | _ => run s None
  end.

(** [net.ParseIP(s)], in 16-byte form; an address with a zone is refused, which
    [parse_addr] does by failing at the percent sign. *)
Fixpoint first_sep (s : string) : option ascii :=
  match s with
  | EmptyString => None
  | String c s =>
      if is_char c "." || is_char c ":" || is_char c "%" then Some c else first_sep s
  end.

Definition ParseIP (s : string) : option IP :=
  match first_sep s with
  | Some c => if is_char c "." then parseIPv4 s else if is_char c ":" then parseIPv6 s else None
  | None => None
  end.

(** [strings.IndexByte(s, c)], as the parts before and after the character. *)
Fixpoint split_at (c : ascii) (s : string) : option (string * string) :=
  match s with
  | EmptyString => None
  | String d s =>
      if is_char d c then Some ("", s)
      else match split_at c s with Some (a, b) => Some (String d a, b) | None => None end
  end.

(** [dtoi(s)] when the whole of [s] is one number below [0xFFFFFF]. *)
Fixpoint dtoi_loop (s : string) (n : Z) : option Z :=
  match s with
  | EmptyString => Some n
  | String c s =>
      match char_digit c with
      | Some d => let n := n * 10 + d in if 16777215 <=? n then None else dtoi_loop s n
      | None => None
      end
  end.
Definition dtoi (s : string) : option Z :=
  match s with EmptyString => None | _ => dtoi_loop s 0 end.

(** [net.ParseCIDR(s)]: the address in 16-byte form and the network. *)
Definition ParseCIDR (s : string) : option (IP * IPNet) :=
  match split_at "/" s with
  | None => None
  | Some (addr, mask) =>
      match ParseIP addr with
      | None => None
      | Some ip =>
          let bits := match first_sep addr with
                      | Some c => if is_char c "." then 32 else 128
                      | None => 0 end in
          match dtoi mask with
          | None => None
          | Some n =>
              if bits <? n then None
              else let m := CIDRMask n bits in Some (ip, MkIPNet (Mask ip m) m)
          end
      end
  end.

(** * Lemmas *)

(** An IPv4 address in its 4-byte form. *)
Definition is_ip4 (ip : IP) : Prop := length ip = 4%nat ∧ Forall is_u8 ip.

#[export] Instance is_ip4_dec ip : Decision (is_ip4 ip).
Proof. unfold is_ip4. apply _. Defined.

Lemma is_ip4_inv ip : is_ip4 ip →
  ∃ a b c d, ip = [a; b; c; d] ∧ is_u8 a ∧ is_u8 b ∧ is_u8 c ∧ is_u8 d.
Proof.
  intros [Hl Hf]. do 5 (destruct ip as [|? ip]; try discriminate Hl).
  rewrite !Forall_cons in Hf. destruct Hf as (? & ? & ? & ? & _). eauto 10.
Qed.

Lemma To4_ip4 ip : length ip = 4%nat → To4 ip = Some ip.
Proof. intros Hl. unfold To4. by rewrite Hl. Qed.

Lemma To4_IPv4 a b c d : To4 (IPv4 a b c d) = Some [a; b; c; d].
Proof. reflexivity. Qed.

Lemma To4_length ip p : To4 ip = Some p → length p = 4%nat.
Proof.
  unfold To4. repeat case_match; intros; simplify_eq; to_prop; [done|].
  rewrite length_drop. lia.
Qed.

Lemma To4_u8 ip p : Forall is_u8 ip → To4 ip = Some p → is_ip4 p.
Proof.
  intros Hf Hp. split; [by eapply To4_length|].
  unfold To4 in Hp. repeat case_match; simplify_eq; auto using Forall_drop.
Qed.

Lemma To4_idemp ip p : To4 ip = Some p → To4 p = Some p.
Proof. intros Hp%To4_length. by apply To4_ip4. Qed.

Lemma IP_String_ip4 ip : is_ip4 ip → IP_String ip = dotted ip.
Proof.
  intros (a & b & c & d & -> & _)%is_ip4_inv. done.
Qed.

(** [To4] does not change how an address prints. *)
Lemma IP_String_To4 ip p : To4 ip = Some p → IP_String ip = IP_String p.
Proof.
  intros Hp. pose proof (To4_length _ _ Hp) as Hl.
  unfold IP_String at 2. rewrite Hl, (To4_ip4 _ Hl). unfold IP_String.
  rewrite Hp. unfold To4 in Hp. repeat case_match; simplify_eq; to_prop; simplify_eq; try lia; done.
Qed.

Lemma str_app_cons c s t : (String c s +:+ t)%string = String c (s +:+ t).
Proof. done. Qed.

Lemma str_app_assoc (s t u : string) : (s +:+ t) +:+ u = s +:+ (t +:+ u).
Proof. induction s as [|c s IH]; [done|]. by rewrite !str_app_cons, IH. Qed.

Lemma str_app_inj_r (s1 s2 t : string) : s1 +:+ t = s2 +:+ t → s1 = s2.
Proof.
  assert (∀ u v : string, String.length (u +:+ v) = (String.length u + String.length v)%nat) as Hlen
    by (induction u as [|c u IH]; intros v; [done|]; rewrite str_app_cons; simpl; by rewrite IH).
  intros E. assert (String.length s1 = String.length s2) as El
    by (apply (f_equal String.length) in E; rewrite !Hlen in E; lia).
  clear Hlen. revert s2 E El. induction s1 as [|c s1 IH]; intros [|c' s2] E El; simpl in El; try lia; [done|].
  rewrite !str_app_cons in E. injection E as -> E. f_equal. apply IH; [done|lia].
Qed.

Lemma str_app_nil_l (s : string) : "" +:+ s = s.
Proof. done. Qed.

Lemma str_app_nil_r (s : string) : s +:+ "" = s.
Proof. induction s as [|c s IH]; [done|]. by rewrite str_app_cons, IH. Qed.

Lemma char_digit_digit d : 0 ≤ d < 10 →
  char_digit (ascii_of_nat (Z.to_nat (48 + d))) = Some d.
Proof.
  intros Hd. assert (d ∈ seqZ 0 10) as Hin by (apply elem_of_seqZ; lia).
  clear Hd. revert d Hin. apply Forall_forall. vm_compute. repeat constructor.
Qed.

Lemma is_char_false_digit d c : 0 ≤ d < 10 → char_digit c = None →
  is_char (ascii_of_nat (Z.to_nat (48 + d))) c = false.
Proof.
  intros Hd Hc. unfold is_char. apply Ascii.eqb_neq. intros <-.
  by rewrite char_digit_digit in Hc.
Qed.

(** Reading one decimal digit that does not overflow the octet. *)
Lemma parse_digit d s prev val n f : 0 ≤ d < 10 → (n ≠ 1 ∨ val ≠ 0) → val * 10 + d ≤ 255 →
  ∃ c, c ≠ "."%char ∧
  parseIPv4Fields (digit d +:+ s) prev val n f = parseIPv4Fields s (Some c) (val * 10 + d) (n + 1) f.
Proof.
  intros Hd Hn Hv. exists (ascii_of_nat (Z.to_nat (48 + d))). split.
  { intros Hc. pose proof (char_digit_digit d Hd) as E. by rewrite Hc in E. }
  unfold digit. rewrite str_app_cons. cbn [parseIPv4Fields]. rewrite char_digit_digit by done.
  replace ((n =? 1) && (val =? 0)) with false by (symmetry; apply andb_false_iff; lia).
  replace (255 <? val * 10 + d) with false by (symmetry; apply Z.ltb_ge; lia).
  done.
Qed.

(** Reading back a printed octet. *)
Lemma parse_octet x s prev f : is_u8 x →
  ∃ c n, c ≠ "."%char ∧
  parseIPv4Fields (appendDecimal x +:+ s) prev 0 0 f = parseIPv4Fields s (Some c) x n f.
Proof.
  unfold is_u8. intros Hx. unfold appendDecimal.
  assert (0 ≤ x `div` 100 < 3 ∧ 0 ≤ (x `div` 10) `mod` 10 < 10 ∧ 0 ≤ x `mod` 10 < 10 ∧
    x = 10 * (x `div` 10) + x `mod` 10 ∧
    x `div` 10 = 10 * (x `div` 100) + (x `div` 10) `mod` 10) as (H2 & H1 & H0 & E0 & E1).
  { pose proof (Z.div_mod x 10 ltac:(lia)). pose proof (Z.div_mod (x `div` 10) 10 ltac:(lia)).
    pose proof (Z.mod_pos_bound x 10 ltac:(lia)).
    pose proof (Z.mod_pos_bound (x `div` 10) 10 ltac:(lia)).
    rewrite Z.div_div in * by lia. change (10 * 10) with 100 in *. lia. }
  set (h := x `div` 100) in *. set (t := (x `div` 10) `mod` 10) in *. set (u := x `mod` 10) in *.
  rewrite !str_app_assoc.
  destruct (Z.leb_spec 100 x) as [Hx3|Hx3]; [|destruct (Z.leb_spec 10 x) as [Hx2|Hx2]].
  - rewrite (proj2 (Z.leb_le 10 x)) by lia.
    destruct (parse_digit h (digit t +:+ digit u +:+ s) prev 0 0 f) as (c1 & _ & ->); [lia..|].
    destruct (parse_digit t (digit u +:+ s) (Some c1) (0 * 10 + h) (0 + 1) f) as (c2 & _ & ->); [lia..|].
    destruct (parse_digit u s (Some c2) ((0 * 10 + h) * 10 + t) (0 + 1 + 1) f) as (c3 & Hc & ->); [lia..|].
    exists c3, (0 + 1 + 1 + 1). split; [done|]. f_equal. lia.
  - destruct (parse_digit t (digit u +:+ s) prev 0 0 f) as (c2 & _ & E); [lia..|].
    rewrite !str_app_nil_l, E. clear E.
    destruct (parse_digit u s (Some c2) (0 * 10 + t) (0 + 1) f) as (c3 & Hc & ->); [lia..|].
    exists c3, (0 + 1 + 1). split; [done|]. f_equal. lia.
  - destruct (parse_digit u s prev 0 0 f) as (c3 & Hc & E); [lia..|].
    rewrite !str_app_nil_l, E. exists c3, (0 + 1). split; [done|]. f_equal. lia.
Qed.

Lemma parse_dot c x n s f : s ≠ "" → c ≠ "."%char → (length f < 3)%nat →
  parseIPv4Fields ("." +:+ s) (Some c) x n f = parseIPv4Fields s (Some "."%char) 0 0 (f ++ [x]).
Proof.
  intros Hs Hc Hf. change ("." +:+ s) with (String "." s). cbn [parseIPv4Fields].
  change (char_digit ".") with (@None Z). change (is_char "." ".") with true. cbv iota.
  rewrite !bool_decide_false by congruence.
  replace (length f =? 3)%nat with false by (symmetry; apply Nat.eqb_neq; lia). done.
Qed.

Lemma appendDecimal_nonempty x s : appendDecimal x +:+ s ≠ "".
Proof. unfold appendDecimal. by destruct (100 <=? x), (10 <=? x). Qed.

Lemma parse_dotted a b c d : is_u8 a → is_u8 b → is_u8 c → is_u8 d →
  parseIPv4Fields (dotted [a; b; c; d]) None 0 0 [] = Some [a; b; c; d].
Proof.
  intros Ha Hb Hc Hd. unfold dotted. rewrite <-(str_app_nil_r (appendDecimal d)).
  edestruct (parse_octet a) as (? & ? & ? & ->); [done|].
  rewrite parse_dot; [|apply appendDecimal_nonempty|done|simpl; lia].
  edestruct (parse_octet b) as (? & ? & ? & ->); [done|].
  rewrite parse_dot; [|apply appendDecimal_nonempty|done|simpl; lia].
  edestruct (parse_octet c) as (? & ? & ? & ->); [done|].
  rewrite parse_dot; [|apply appendDecimal_nonempty|done|simpl; lia].
  edestruct (parse_octet d) as (? & ? & ? & ->); done.
Qed.

(** The printed form of an IPv4 address is recognised as IPv4. *)
Lemma first_sep_digit d s : 0 ≤ d < 10 → first_sep (digit d +:+ s) = first_sep s.
Proof.
  intros Hd. unfold digit. rewrite str_app_cons. cbn [first_sep].
  rewrite !is_char_false_digit by done. done.
Qed.

Lemma first_sep_octet x s : is_u8 x → first_sep (appendDecimal x +:+ s) = first_sep s.
Proof.
  unfold is_u8. intros Hx. unfold appendDecimal.
  assert (0 ≤ x `div` 100 < 10) by (split; [apply Z.div_pos; lia | apply Z.div_lt_upper_bound; lia]).
  pose proof (Z.mod_pos_bound x 10 ltac:(lia)). pose proof (Z.mod_pos_bound (x `div` 10) 10 ltac:(lia)).
  rewrite !str_app_assoc.
  by repeat case_match; rewrite ?str_app_nil_l, ?first_sep_digit by done.
Qed.

Lemma first_sep_dotted ip : is_ip4 ip → first_sep (dotted ip) = Some "."%char.
Proof.
  intros (a & b & c & d & -> & ? & ? & ? & ?)%is_ip4_inv. unfold dotted.
  by rewrite first_sep_octet.
Qed.

(** Parsing a printed IPv4 address gives the address in 16-byte form. *)
Lemma ParseIP_String ip : is_ip4 ip → ParseIP (IP_String ip) = Some (v4InV6Prefix ++ ip).
Proof.
  intros Hip. rewrite IP_String_ip4 by done. unfold ParseIP.
  rewrite first_sep_dotted by done. simpl.
  destruct (is_ip4_inv _ Hip) as (a & b & c & d & -> & ? & ? & ? & ?).
  unfold parseIPv4. by rewrite parse_dotted.
Qed.

(** Distinct IPv4 addresses have distinct string keys. *)
Lemma IP_String_inj ip1 ip2 : is_ip4 ip1 → is_ip4 ip2 → IP_String ip1 = IP_String ip2 → ip1 = ip2.
Proof.
  intros H1 H2 E. apply ParseIP_String in H1, H2. rewrite E in H1.
  rewrite H1 in H2. by simplify_eq.
Qed.

(** Splitting after a printed address, at a character that is not part of one. *)
Section split_printed.
Context (c : ascii) (Hdigit : char_digit c = None) (Hdot : c ≠ "."%char).

Lemma split_at_digit d s a b : 0 ≤ d < 10 → split_at c s = Some (a, b) →
  split_at c (digit d +:+ s) = Some (digit d +:+ a, b).
Proof using Hdigit.
  intros Hd Hs. unfold digit. rewrite !str_app_cons. cbn [split_at].
  rewrite is_char_false_digit by done. change ("" +:+ s) with s. by rewrite Hs.
Qed.

Lemma split_at_octet x s a b : is_u8 x → split_at c s = Some (a, b) →
  split_at c (appendDecimal x +:+ s) = Some (appendDecimal x +:+ a, b).
Proof using Hdigit.
  unfold is_u8. intros Hx Hs. unfold appendDecimal.
  assert (0 ≤ x `div` 100 < 10) by (split; [apply Z.div_pos; lia|apply Z.div_lt_upper_bound; lia]).
  pose proof (Z.mod_pos_bound x 10 ltac:(lia)). pose proof (Z.mod_pos_bound (x `div` 10) 10 ltac:(lia)).
  rewrite !str_app_assoc.
  destruct (100 <=? x), (10 <=? x); rewrite ?str_app_nil_l; repeat (apply split_at_digit; [lia|]); done.
Qed.

Lemma split_at_dot s a b : split_at c s = Some (a, b) → split_at c ("." +:+ s) = Some ("." +:+ a, b).
Proof using Hdot.
  intros Hs. change ("." +:+ s) with (String "."%char s). cbn [split_at].
  assert (is_char "."%char c = false) as ->; [|by rewrite Hs].
  unfold is_char. apply Ascii.eqb_neq. congruence.
Qed.

Lemma split_at_dotted ip s : is_ip4 ip → split_at c (dotted ip +:+ String c s) = Some (dotted ip, s).
Proof using Hdigit Hdot.
  intros (x & y & z & w & -> & Hx & Hy & Hz & Hw)%is_ip4_inv. unfold dotted. rewrite !str_app_assoc.
  rewrite <-(str_app_nil_r (appendDecimal w)) at 2.
  do 3 (apply split_at_octet; [done|]; apply split_at_dot). apply split_at_octet; [done|].
  cbn [split_at]. unfold is_char. by rewrite Ascii.eqb_refl.
Qed.
End split_printed.

Lemma To4_v4InV6 ip : length ip = 4%nat → To4 (v4InV6Prefix ++ ip) = Some ip.
Proof.
  intros Hl. do 5 (destruct ip as [|? ip]; try discriminate Hl). apply To4_IPv4.
Qed.

Lemma appendHex_nonempty x s : appendHex x +:+ s ≠ "".
Proof.
  unfold appendHex, hexDigit, digit.
  by destruct (4096 <=? x), (256 <=? x), (16 <=? x); repeat case_match.
Qed.

(** No address prints as the empty string. *)
Lemma IP_String_nonempty ip : IP_String ip ≠ "".
Proof.
  unfold IP_String. case_match; [done|]. destruct (To4 ip) as [p|] eqn:Hp.
  - apply To4_length in Hp. do 5 (destruct p as [|? p]; try discriminate Hp).
    unfold dotted. apply appendDecimal_nonempty.
  - case_match; [|done]. to_prop. unfold ipv6String. repeat case_match; try done.
    + unfold join_groups at 1. case_match; [done|]. rewrite str_app_assoc. apply appendHex_nonempty.
    + do 2 (destruct ip as [|? ip]; try discriminate). apply appendHex_nonempty.
Qed.

#[export] Hint Resolve IP_String_nonempty To4_ip4 : olsr.
