(* ===== verification/TimeVal.v ===== *)
(** * Vtime and Htime codes (internal/olsr/packet.go, [DecodeTimeVal] and
    [EncodeTimeVal])

    Go's [float64] arithmetic is IEEE binary64 with rounding to nearest even,
    which the library's [SpecFloat] computes on integers.  The conversion of a
    float outside the [int64] range is left to the implementation by the
    language: it is the parameter [int64_overflow]. *)

From Corelib Require Import SpecFloat.
From S2P Require Import Prelude.

Definition float64 := spec_float.
Definition fmul : float64 → float64 → float64 := SFmul 53 1024.
Definition fadd : float64 → float64 → float64 := SFadd 53 1024.
Definition fsub : float64 → float64 → float64 := SFsub 53 1024.
Definition fdiv : float64 → float64 → float64 := SFdiv 53 1024.
Definition flt : float64 → float64 → bool := SFltb.
Definition fneg : float64 → float64 := SFopp.
(** [float64(z)] for an integer [z]. *)
Definition float_of_int (z : Z) : float64 := binary_normalize 53 1024 z 0 false.
(** The float constant [n / d], correctly rounded. *)
Definition float_const (n d : Z) : float64 := fdiv (float_of_int n) (float_of_int d).

Definition is_int64 (z : Z) : Prop := - 2 ^ 63 ≤ z < 2 ^ 63.
#[export] Instance is_int64_dec z : Decision (is_int64 z).
Proof. unfold is_int64. apply _. Defined.

(** What [int64(f)] gives when [f], truncated, is not an [int64]. *)
Class FloatConv := {
  int64_overflow : float64 → Z;
  int64_overflow_range f : is_int64 (int64_overflow f);
}.

(** amd64: the conversion instruction returns the least [int64]. *)
Definition amd64_conv : FloatConv.
Proof. refine {| int64_overflow := λ _, - 2 ^ 63 |}. intros _. by vm_compute. Defined.

(** [f] rounded towards zero, when it is finite. *)
Definition float_trunc (f : float64) : option Z :=
  match f with
  | S754_zero _ => Some 0
  | S754_finite s m e =>
      let v := Z.shiftl (Z.pos m) e in Some (if s then - v else v)
  | _ => None
  end.

Section time_codes.
Context {FC : FloatConv}.

(** [int64(f)] *)
Definition int64_of_float (f : float64) : Z :=
  match float_trunc f with
  | Some z => if bool_decide (is_int64 z) then z else int64_overflow f
  | None => int64_overflow f
  end.

Fixpoint times10 (n : nat) (t : float64) : float64 :=
  match n with O => t | S n => times10 n (fmul t (float_of_int 10)) end.

(** [0.06 * (1.0 + float64(a)/16.0)] multiplied [b] times by ten. *)
Definition code_seconds (a b : Z) : float64 :=
  times10 (Z.to_nat b)
    (fmul (float_const 6 100)
       (fadd (float_of_int 1) (fdiv (float_of_int a) (float_of_int 16)))).

Definition DecodeTimeVal (val : Z) : Z :=
  let a := Z.shiftr val 4 in
  let b := Z.land val 15 in
  int64_of_float (fmul (code_seconds a b) (float_of_int Second)).

(** The loop nest over [a] and [b]; the state is [(bestVal, minDiff)]. *)
Definition encode_step (sec : float64) (st : Z * float64) (ab : Z * Z) : Z * float64 :=
  let diff0 := fsub (code_seconds ab.1 ab.2) sec in
  let diff := if flt diff0 (float_of_int 0) then fneg diff0 else diff0 in
  if flt st.2 (float_of_int 0) || flt diff st.2
  then (Z.lor (u8 (Z.shiftl ab.1 4)) ab.2, diff) else st.

Definition code_pairs : list (Z * Z) :=
  a ← seqZ 0 16; b ← seqZ 0 16; [(a, b)].

Definition EncodeTimeVal (d : Z) : Z :=
  let sec := fdiv (float_of_int d) (float_of_int Second) in
  (foldl (encode_step sec) (0, float_of_int (-1)) code_pairs).1.

(** [d.Seconds()] of a duration. *)
Definition Duration_Seconds (d : Z) : float64 :=
  fadd (float_of_int (Z.quot d Second)) (fdiv (float_of_int (Z.rem d Second)) (float_of_int 1000000000)).
End time_codes.

(** * Lemmas *)

(** Floats compare by sign, then exponent, then mantissa: a strict order. *)
Lemma flt_trans x y z : flt x y = true → flt y z = true → flt x z = true.
Proof.
  unfold flt, SFltb, SFcompare.
  destruct x as [?|[]| |[] mx ex], y as [?|[]| |[] my ey], z as [?|[]| |[] mz ez]; try done;
    repeat match goal with
    | |- context [Z.compare ?a ?b] => destruct (Z.compare_spec a b)
    | |- context [Pos.compare_cont Eq ?a ?b] =>
        change (Pos.compare_cont Eq a b) with (Pos.compare a b); destruct (Pos.compare_spec a b)
    end; subst; simpl; intros; try done; lia.
Qed.

Lemma flt_abs x : flt (if flt x (float_of_int 0) then fneg x else x) (float_of_int 0) = false.
Proof. by destruct x as [[]|[]| |[] m e]. Qed.

Section time_code_facts.
Context {FC : FloatConv}.

(** Distance in seconds between a code and a duration, as the code computes it. *)
Definition code_error (sec : float64) (ab : Z * Z) : float64 :=
  let diff := fsub (code_seconds ab.1 ab.2) sec in
  if flt diff (float_of_int 0) then fneg diff else diff.

Definition code_of (ab : Z * Z) : Z := Z.lor (u8 (Z.shiftl ab.1 4)) ab.2.

Lemma encode_step_eq sec st ab :
  encode_step sec st ab =
  if flt st.2 (float_of_int 0) || flt (code_error sec ab) st.2
  then (code_of ab, code_error sec ab) else st.
Proof. done. Qed.

Lemma elem_of_code_pairs a b : (a, b) ∈ code_pairs ↔ 0 ≤ a < 16 ∧ 0 ≤ b < 16.
Proof.
  unfold code_pairs. rewrite list_elem_of_bind. split.
  - intros (a' & (b' & Hin%list_elem_of_singleton & Hb)%list_elem_of_bind & Ha).
    simplify_eq. apply elem_of_seqZ in Ha, Hb. lia.
  - intros [Ha Hb]. exists a. split; [|apply elem_of_seqZ; lia].
    apply list_elem_of_bind. exists b. split; [by apply list_elem_of_singleton | apply elem_of_seqZ; lia].
Qed.

(** The state after a non-empty prefix of the codes: a code of the prefix that
    no code of the prefix beats. *)
Definition best_of (sec : float64) (l : list (Z * Z)) (st : Z * float64) : Prop :=
  ∃ ab, ab ∈ l ∧ st = (code_of ab, code_error sec ab) ∧
    ∀ ab', ab' ∈ l → flt (code_error sec ab') (code_error sec ab) = false.

Lemma encode_fold_best sec l : l ≠ [] →
  best_of sec l (foldl (encode_step sec) (0, float_of_int (-1)) l).
Proof.
  induction l as [|ab l IH] using rev_ind; [done|]. intros _.
  rewrite foldl_app. cbn [foldl]. rewrite encode_step_eq.
  assert (∀ ab, flt (code_error sec ab) (code_error sec ab) = false) as Hirr.
  { intros ab'. destruct (flt (code_error sec ab') (code_error sec ab')) eqn:E; [|done].
    revert E. unfold flt, SFltb. destruct (code_error sec ab') as [?|[]| |[] m e]; simpl; try done;
      rewrite Z.compare_refl, Pos.compare_cont_refl; done. }
  destruct (decide (l = [])) as [->|Hl].
  { exists ab. split_and!; [by apply list_elem_of_singleton|done|]. by intros ab' ->%list_elem_of_singleton. }
  destruct (IH Hl) as (ab1 & Hin & -> & Hbest). simpl.
  unfold code_error at 1. rewrite flt_abs. simpl.
  destruct (flt (code_error sec ab) (code_error sec ab1)) eqn:Hlt.
  - exists ab. split_and!; [apply elem_of_app; right; by apply list_elem_of_singleton|done|]. intros ab' [Hab'| ->%list_elem_of_singleton]%elem_of_app; [|done].
    destruct (flt (code_error sec ab') _) eqn:Hlt'; [|done].
    rewrite <-(Hbest _ Hab'). symmetry. by eapply flt_trans.
  - exists ab1. split_and!; [apply elem_of_app; by left|done|]. by intros ab' [?| ->%list_elem_of_singleton]%elem_of_app; auto.
Qed.

Lemma code_of_split a b : 0 ≤ a < 16 → 0 ≤ b < 16 →
  is_u8 (code_of (a, b)) ∧ Z.shiftr (code_of (a, b)) 4 = a ∧ Z.land (code_of (a, b)) 15 = b.
Proof.
  intros Ha Hb.
  assert ((a, b) ∈ code_pairs) as Hin by (by apply elem_of_code_pairs).
  change ((λ ab, is_u8 (code_of ab) ∧ Z.shiftr (code_of ab) 4 = ab.1 ∧ Z.land (code_of ab) 15 = ab.2) (a, b)).
  clear Ha Hb. revert Hin. generalize (a, b). apply Forall_forall.
  apply (bool_decide_unpack _). vm_compute. done.
Qed.

Lemma EncodeTimeVal_best d :
  ∃ a b, 0 ≤ a < 16 ∧ 0 ≤ b < 16 ∧ EncodeTimeVal d = code_of (a, b) ∧
    ∀ a' b', 0 ≤ a' < 16 → 0 ≤ b' < 16 →
      let sec := fdiv (float_of_int d) (float_of_int Second) in
      flt (code_error sec (a', b')) (code_error sec (a, b)) = false.
Proof.
  unfold EncodeTimeVal.
  destruct (encode_fold_best (fdiv (float_of_int d) (float_of_int Second)) code_pairs)
    as ([a b] & Hin & E & Hbest); [done|].
  apply elem_of_code_pairs in Hin as [Ha Hb]. exists a, b. rewrite E.
  split_and!; try lia; [done|]. intros a' b' ??. apply Hbest. by apply elem_of_code_pairs.
Qed.

Lemma EncodeTimeVal_u8 d : is_u8 (EncodeTimeVal d).
Proof. destruct (EncodeTimeVal_best d) as (a & b & ? & ? & -> & _). by apply code_of_split. Qed.
End time_code_facts.

#[export] Hint Resolve EncodeTimeVal_u8 : olsr.
