(* ===== verification/Packet.v ===== *)
(** * OLSR packets (internal/olsr/packet.go)

    The message types, [SerializePacket] and [DeserializePacket].  A
    [bytes.Buffer] is the list of bytes written so far; its writes never fail,
    so the [err != nil] branches after them are unreachable and not modelled.
    A serializer returns the bytes it appends.  The two parse loops are
    fuelled by the length of their input; [DeserializePacket_returns] shows
    that the fuel is never exhausted. *)

From S2P Require Import Prelude GoNet TimeVal.

(** ** Constants *)
Definition MsgTypeHello : Z := 1.
Definition MsgTypeTC : Z := 2.
Definition MsgTypeMID : Z := 3.
Definition MsgTypeHNA : Z := 4.
Definition MsgTypeSourceClaim : Z := 108.
Definition MsgTypeConfirmParent : Z := 109.

Definition LinkTypeUnspec : Z := 0.
Definition LinkTypeAsym : Z := 1.
Definition LinkTypeSym : Z := 2.
Definition LinkTypeLost : Z := 3.

Definition NeighTypeNotNeigh : Z := 0.
Definition NeighTypeSym : Z := 1.
Definition NeighTypeMPR : Z := 2.

Definition WillNever : Z := 0.
Definition WillLow : Z := 1.
Definition WillDefault : Z := 3.
Definition WillHigh : Z := 6.
Definition WillAlways : Z := 7.

(** ** Data *)

Record PacketHeader := MkPacketHeader {
  PacketLength : Z;  (* includes the header *)
  PacketSeqNum : Z;
}.

Record MessageHeader := MkMessageHeader {
  msg_Type : Z;
  Vtime : Z;
  OriginatorAddress : IP;
  TTL : Z;
  HopCount : Z;
  SeqNum : Z;
}.

Record HelloLinkMessage := MkHelloLinkMessage {
  LinkCode : Z;
  link_NeighborAddresses : list IP;
}.

Record HelloMessage := MkHelloMessage {
  Htime : Z;
  Willingness : Z;
  LinkMessages : list HelloLinkMessage;
}.

Record TCMessage := MkTCMessage {
  ANSN : Z;
  tc_NeighborAddresses : list IP;
}.

Record MIDMessage := MkMIDMessage { Addresses : list IP }.

Record HNAAssociation := MkHNAAssociation {
  assoc_Address : IP;
  assoc_Netmask : IPNet;
}.

Record HNAMessage := MkHNAMessage { Associations : list HNAAssociation }.

Record SourceClaimMessage := MkSourceClaimMessage {
  sc_SourceIP : IP;
  sc_GroupID : IP;
}.

Record ConfirmParentMessage := MkConfirmParentMessage {
  cp_SourceIP : IP;
  cp_GroupID : IP;
  cp_ParentIP : IP;
}.

(** The dynamic types a [Message.Body] can have; [BodyRaw] is the [[]byte] kept
    for an unknown message type. *)
Inductive Body :=
  | BodyHello (b : HelloMessage)
  | BodyTC (b : TCMessage)
  | BodyMID (b : MIDMessage)
  | BodyHNA (b : HNAMessage)
  | BodySourceClaim (b : SourceClaimMessage)
  | BodyConfirmParent (b : ConfirmParentMessage)
  | BodyRaw (b : list Z).

Record Message := MkMessage {
  msg_Header : MessageHeader;
  msg_Body : Body;
}.

Record Packet := MkPacket {
  pkt_Header : PacketHeader;
  Messages : list Message;
}.

Section codec.
Context {FC : FloatConv}.

(** ** Serialization *)

(** [ip.To4()] with the nil check that follows each call. *)
Definition To4_or (msg : string) (ip : IP) : res IP :=
  match To4 ip with Some p => Ok p | None => Err msg end.

Definition serializeHelloLink (lm : HelloLinkMessage) : res (list Z) :=
  addrs ← res_mapM (To4_or "invalid IPv4 address for neighbor") (link_NeighborAddresses lm);
  let linkBytes := [LinkCode lm; 0] ++ be16 0 ++ concat addrs in
  _ ← check (Z.of_nat (length linkBytes) <=? 65535) "link message size exceeds maximum uint16 size";
  Ok (PutUint16 linkBytes 2 (u16 (Z.of_nat (length linkBytes)))).

Definition serializeHelloMessage (body : HelloMessage) : res (list Z) :=
  links ← res_mapM serializeHelloLink (LinkMessages body);
  Ok (be16 0 ++ [EncodeTimeVal (Htime body); Willingness body] ++ concat links).

Definition serializeTCMessage (body : TCMessage) : res (list Z) :=
  addrs ← res_mapM (To4_or "invalid IPv4 address") (tc_NeighborAddresses body);
  Ok (be16 (ANSN body) ++ be16 0 ++ concat addrs).

Definition serializeMIDMessage (body : MIDMessage) : res (list Z) :=
  addrs ← res_mapM (To4_or "invalid IPv4 address") (Addresses body);
  Ok (concat addrs).

Definition serializeHNAAssociation (assoc : HNAAssociation) : res (list Z) :=
  match To4 (assoc_Address assoc), To4 (net_Mask (assoc_Netmask assoc)) with
  | Some addrIPv4, Some maskIPv4 => Ok (addrIPv4 ++ maskIPv4)
  | _, _ => Err "invalid IPv4 address/mask"
  end.

Definition serializeHNAMessage (body : HNAMessage) : res (list Z) :=
  assocs ← res_mapM serializeHNAAssociation (Associations body);
  Ok (concat assocs).

Definition serializeSourceClaimMessage (body : SourceClaimMessage) : res (list Z) :=
  match To4 (sc_SourceIP body), To4 (sc_GroupID body) with
  | Some srcIPv4, Some grpIPv4 => Ok (srcIPv4 ++ grpIPv4)
  | _, _ => Err "invalid IPv4 multicast source/group"
  end.

Definition serializeConfirmParentMessage (body : ConfirmParentMessage) : res (list Z) :=
  match To4 (cp_SourceIP body), To4 (cp_GroupID body), To4 (cp_ParentIP body) with
  | Some srcIPv4, Some grpIPv4, Some parentIPv4 => Ok (srcIPv4 ++ grpIPv4 ++ parentIPv4)
  | _, _, _ => Err "invalid IPv4 Source/Group/Parent"
  end.

Definition serializeBody (body : Body) : res (list Z) :=
  match body with
  | BodyHello b => serializeHelloMessage b
  | BodyTC b => serializeTCMessage b
  | BodyMID b => serializeMIDMessage b
  | BodyHNA b => serializeHNAMessage b
  | BodySourceClaim b => serializeSourceClaimMessage b
  | BodyConfirmParent b => serializeConfirmParentMessage b
  | BodyRaw _ => Err "unsupported message body type"
  end.

(** One iteration of the loop over [p.Messages]: the bytes written to [buf]. *)
Definition serializeMessage (msg : Message) : res (list Z) :=
  let h := msg_Header msg in
  origIPv4 ← To4_or "invalid IPv4 address for originator" (OriginatorAddress h);
  body ← serializeBody (msg_Body msg);
  let msgBytes := [msg_Type h; EncodeTimeVal (Vtime h)] ++ be16 0 ++ origIPv4
                  ++ [TTL h; HopCount h] ++ be16 (SeqNum h) ++ body in
  _ ← check (Z.of_nat (length msgBytes) <=? 65535) "message size exceeds maximum uint16 size";
  Ok (PutUint16 msgBytes 2 (u16 (Z.of_nat (length msgBytes)))).

Definition SerializePacket (p : Packet) : res (list Z) :=
  msgs ← res_mapM serializeMessage (Messages p);
  let packetBytes := be16 0 ++ be16 (PacketSeqNum (pkt_Header p)) ++ concat msgs in
  _ ← check (Z.of_nat (length packetBytes) <=? 65535) "packet size exceeds maximum uint16 size";
  Ok (PutUint16 packetBytes 0 (u16 (Z.of_nat (length packetBytes)))).

(** ** Deserialization *)

Definition cloneIP (b : list Z) : IP := match b with [] => [] | _ => b end.
Definition cloneMask (b : list Z) : IPMask := match b with [] => [] | _ => b end.

(** [addrs := make([]net.IP, len(d)/4)] and the loop that fills it. *)
Definition parse_addrs (addrData : list Z) : res (list IP) :=
  res_mapM (λ i, s ← go_slice addrData (i * 4) ((i + 1) * 4); Ok (cloneIP s))
    (seq 0 (length addrData / 4)).

Fixpoint parse_links (fuel : nat) (data : list Z) (linkOffset : nat)
    (linkMsgs : list HelloLinkMessage) : res (list HelloLinkMessage) :=
  if (linkOffset <? length data)%nat then
    match fuel with
    | O => Diverge
    | S fuel =>
        _ ← check (4 <=? length data - linkOffset)%nat "invalid HelloLinkMessage header";
        linkCode ← go_index data linkOffset;
        sizeBytes ← go_slice data (linkOffset + 2) (linkOffset + 4);
        linkMsgSize ← Uint16 sizeBytes;
        let size := Z.to_nat linkMsgSize in
        _ ← check (linkOffset + size <=? length data)%nat "HelloLinkMessage size exceeds HELLO body";
        addrData ← go_slice data (linkOffset + 4) (linkOffset + size);
        _ ← check (length addrData mod 4 =? 0)%nat "invalid addresses length in Link Message";
        addrs ← parse_addrs addrData;
        parse_links fuel data (linkOffset + size) (linkMsgs ++ [MkHelloLinkMessage linkCode addrs])
    end
  else Ok linkMsgs.

Definition deserializeHelloMessage (data : list Z) : res HelloMessage :=
  _ ← check (4 <=? length data)%nat "invalid HELLO message body length";
  htimeVal ← go_index data 2;
  will ← go_index data 3;
  linkMsgs ← parse_links (length data) data 4 [];
  Ok (MkHelloMessage (DecodeTimeVal htimeVal) will linkMsgs).

Definition deserializeTCMessage (data : list Z) : res TCMessage :=
  _ ← check (4 <=? length data)%nat "invalid TC message body length";
  ansnBytes ← go_slice data 0 2;
  ansn ← Uint16 ansnBytes;
  addrData ← go_slice data 4 (length data);
  _ ← check (length addrData mod 4 =? 0)%nat "invalid addresses length in TC Message";
  addrs ← parse_addrs addrData;
  Ok (MkTCMessage ansn addrs).

Definition deserializeMIDMessage (data : list Z) : res MIDMessage :=
  _ ← check (length data mod 4 =? 0)%nat "invalid addresses length in MID Message";
  addrs ← parse_addrs data;
  Ok (MkMIDMessage addrs).

Definition deserializeHNAMessage (data : list Z) : res HNAMessage :=
  _ ← check (length data mod 8 =? 0)%nat "invalid associations length in HNA Message";
  assocs ← res_mapM (λ i,
      a ← go_slice data (i * 8) (i * 8 + 4);
      m ← go_slice data (i * 8 + 4) (i * 8 + 8);
      let addr := cloneIP a in
      Ok (MkHNAAssociation addr (MkIPNet addr (cloneMask m))))
    (seq 0 (length data / 8));
  Ok (MkHNAMessage assocs).

Definition deserializeSourceClaimMessage (data : list Z) : res SourceClaimMessage :=
  _ ← check (8 <=? length data)%nat "invalid SOURCE CLAIM message body length";
  src ← go_slice data 0 4;
  grp ← go_slice data 4 8;
  Ok (MkSourceClaimMessage (cloneIP src) (cloneIP grp)).

Definition deserializeConfirmParentMessage (data : list Z) : res ConfirmParentMessage :=
  _ ← check (12 <=? length data)%nat "invalid CONFIRM PARENT message body length";
  src ← go_slice data 0 4;
  grp ← go_slice data 4 8;
  parent ← go_slice data 8 12;
  Ok (MkConfirmParentMessage (cloneIP src) (cloneIP grp) (cloneIP parent)).

(** The [switch msgType]. *)
Definition deserializeBody (msgType : Z) (data : list Z) : res Body :=
  if msgType =? MsgTypeHello then BodyHello <$> deserializeHelloMessage data
  else if msgType =? MsgTypeTC then BodyTC <$> deserializeTCMessage data
  else if msgType =? MsgTypeMID then BodyMID <$> deserializeMIDMessage data
  else if msgType =? MsgTypeHNA then BodyHNA <$> deserializeHNAMessage data
  else if msgType =? MsgTypeSourceClaim then BodySourceClaim <$> deserializeSourceClaimMessage data
  else if msgType =? MsgTypeConfirmParent then BodyConfirmParent <$> deserializeConfirmParentMessage data
  else Ok (BodyRaw data).

(** One iteration of the message loop at [offset]: the message and its size. *)
Definition parse_message (data : list Z) (pktLen offset : nat) : res (Message * nat) :=
  _ ← check (12 <=? length data - offset)%nat "incomplete message header";
  msgType ← go_index data offset;
  vtimeVal ← go_index data (offset + 1);
  sizeBytes ← go_slice data (offset + 2) (offset + 4);
  msgSize ← Uint16 sizeBytes;
  orig ← go_slice data (offset + 4) (offset + 8);
  ttl ← go_index data (offset + 8);
  hopCount ← go_index data (offset + 9);
  seqBytes ← go_slice data (offset + 10) (offset + 12);
  msgSeq ← Uint16 seqBytes;
  let size := Z.to_nat msgSize in
  _ ← check (offset + size <=? pktLen)%nat "message size exceeds packet length";
  msgBodyData ← go_slice data (offset + 12) (offset + size);
  body ← deserializeBody msgType msgBodyData;
  Ok (MkMessage (MkMessageHeader msgType (DecodeTimeVal vtimeVal) (cloneIP orig) ttl hopCount msgSeq) body,
      size).

Fixpoint parse_messages (fuel : nat) (data : list Z) (pktLen offset : nat)
    (messages : list Message) : res (list Message) :=
  if (offset <? pktLen)%nat then
    match fuel with
    | O => Diverge
    | S fuel =>
        r ← parse_message data pktLen offset;
        parse_messages fuel data pktLen (offset + r.2) (messages ++ [r.1])
    end
  else Ok messages.

Definition DeserializePacket (data : list Z) : res Packet :=
  _ ← check (4 <=? length data)%nat "packet data too short";
  lenBytes ← go_slice data 0 2;
  pktLen ← Uint16 lenBytes;
  seqBytes ← go_slice data 2 4;
  pktSeq ← Uint16 seqBytes;
  _ ← check (4 <=? pktLen) "invalid packet length";
  _ ← check (Z.to_nat pktLen <=? length data)%nat "packet length mismatch";
  messages ← parse_messages (length data) data (Z.to_nat pktLen) 4 [];
  Ok (MkPacket (MkPacketHeader pktLen pktSeq) messages).
End codec.
