(* ===== verification/PacketCodec.v ===== *)
(** * Correctness of the packet codec

    The wire grammar [framed] is the specification of the message area of a
    packet; [DeserializePacket] accepts exactly the packets that follow it, a
    serialized packet parses back to its canonical form, the parser returns on
    every input, and it panics on messages whose size field is smaller than the
    message header. *)

From S2P Require Import Prelude GoNet TimeVal Packet.

(** ** Specification: canonical form and wire grammar *)

Section specification.
Context {FC : FloatConv}.

(** What a field becomes on its way through the wire: an address in 4-byte
    form, a duration rounded to a code. *)
Definition canon_ip (ip : IP) : IP := default [] (To4 ip).
Definition canon_time (d : Z) : Z := DecodeTimeVal (EncodeTimeVal d).

Definition canon_link (lm : HelloLinkMessage) : HelloLinkMessage :=
  MkHelloLinkMessage (LinkCode lm) (canon_ip <$> link_NeighborAddresses lm).

Definition canon_assoc (a : HNAAssociation) : HNAAssociation :=
  MkHNAAssociation (canon_ip (assoc_Address a))
    (MkIPNet (canon_ip (assoc_Address a)) (canon_ip (net_Mask (assoc_Netmask a)))).

Definition canon_body (b : Body) : Body :=
  match b with
  | BodyHello b => BodyHello (MkHelloMessage (canon_time (Htime b)) (Willingness b)
                                (canon_link <$> LinkMessages b))
  | BodyTC b => BodyTC (MkTCMessage (ANSN b) (canon_ip <$> tc_NeighborAddresses b))
  | BodyMID b => BodyMID (MkMIDMessage (canon_ip <$> Addresses b))
  | BodyHNA b => BodyHNA (MkHNAMessage (canon_assoc <$> Associations b))
  | BodySourceClaim b =>
      BodySourceClaim (MkSourceClaimMessage (canon_ip (sc_SourceIP b)) (canon_ip (sc_GroupID b)))
  | BodyConfirmParent b =>
      BodyConfirmParent (MkConfirmParentMessage (canon_ip (cp_SourceIP b))
        (canon_ip (cp_GroupID b)) (canon_ip (cp_ParentIP b)))
  | BodyRaw b => BodyRaw b
  end.

Definition canon_message (m : Message) : Message :=
  let h := msg_Header m in
  MkMessage (MkMessageHeader (msg_Type h) (canon_time (Vtime h)) (canon_ip (OriginatorAddress h))
               (TTL h) (HopCount h) (SeqNum h))
    (canon_body (msg_Body m)).

(** The body has the Go type its header announces, and the 16-bit fields are
    16-bit numbers. *)
Definition body_matches (t : Z) (b : Body) : Prop :=
  match b with
  | BodyHello _ => t = MsgTypeHello
  | BodyTC b => t = MsgTypeTC ∧ is_u16 (ANSN b)
  | BodyMID _ => t = MsgTypeMID
  | BodyHNA _ => t = MsgTypeHNA
  | BodySourceClaim _ => t = MsgTypeSourceClaim
  | BodyConfirmParent _ => t = MsgTypeConfirmParent
  | BodyRaw _ => True
  end.

Definition wf_message (m : Message) : Prop :=
  is_u16 (SeqNum (msg_Header m)) ∧ body_matches (msg_Type (msg_Header m)) (msg_Body m).

Definition wf_packet (p : Packet) : Prop :=
  is_u16 (PacketSeqNum (pkt_Header p)) ∧ Forall wf_message (Messages p).

(** A message on the wire: a 12-byte header, whose size field counts header
    and body, and a body its type's parser accepts. *)
Inductive framed : list Z → list Message → Prop :=
  | framed_nil : framed [] []
  | framed_cons t v s0 s1 o0 o1 o2 o3 ttl hc q0 q1 data body rest ms :
      Z.lor s1 (Z.shiftl s0 8) = Z.of_nat (12 + length data) →
      deserializeBody t data = Ok body →
      framed rest ms →
      framed ([t; v; s0; s1; o0; o1; o2; o3; ttl; hc; q0; q1] ++ data ++ rest)
        (MkMessage (MkMessageHeader t (DecodeTimeVal v) [o0; o1; o2; o3] ttl hc
           (Z.lor q1 (Z.shiftl q0 8))) body :: ms).
End specification.

#[local] Opaque EncodeTimeVal DecodeTimeVal.

(** ** Fixed-width chunks *)

Lemma length_concat_const n (cs : list (list Z)) :
  Forall (λ c, length c = n) cs → length (concat cs) = (length cs * n)%nat.
Proof. induction 1; [done|]. simpl. rewrite length_app. lia. Qed.

(** The [i]-th chunk of a concatenation, with what stands before and after. *)
Lemma concat_chunk n (cs : list (list Z)) i c :
  Forall (λ c, length c = n) cs → cs !! i = Some c →
  length c = n ∧ ∃ pre post, concat cs = pre ++ c ++ post ∧ length pre = (i * n)%nat.
Proof.
  intros Hcs Hi. split; [exact (Forall_lookup_1 _ _ _ _ Hcs Hi)|].
  exists (concat (take i cs)), (concat (drop (S i) cs)). split.
  - by rewrite <-(take_drop_middle _ _ _ Hi) at 1; rewrite concat_app.
  - rewrite (length_concat_const n) by (by apply Forall_take).
    rewrite length_take. apply lookup_lt_Some in Hi. f_equal. lia.
Qed.

Lemma cloneIP_id b : cloneIP b = b.
Proof. by destruct b. Qed.
Lemma cloneMask_id b : cloneMask b = b.
Proof. by destruct b. Qed.

Lemma res_mapM_seq {B} (f : nat → res B) (k : list B) :
  (∀ i y, k !! i = Some y → f i = Ok y) → res_mapM f (seq 0 (length k)) = Ok k.
Proof.
  intros Hf. apply res_mapM_Ok, Forall2_same_length_lookup_2; [by rewrite length_seq|].
  intros i x y [-> _]%lookup_seq Hy. by apply Hf.
Qed.

Lemma parse_addrs_concat (ips : list IP) :
  Forall (λ ip, length ip = 4%nat) ips → parse_addrs (concat ips) = Ok ips.
Proof.
  intros Hips. unfold parse_addrs. rewrite (length_concat_const 4), Nat.div_mul by done.
  apply res_mapM_seq. intros i ip Hi.
  destruct (concat_chunk 4 ips i ip Hips Hi) as (Hl & pre & post & -> & Hpre).
  replace ((i + 1) * 4)%nat with (length pre + length ip)%nat by lia. rewrite <-Hpre.
  rewrite go_slice_mid, res_bind_Ok. by rewrite cloneIP_id.
Qed.

Lemma To4_or_mapM msg ips ps :
  res_mapM (To4_or msg) ips = Ok ps → ps = canon_ip <$> ips ∧ Forall (λ ip, length ip = 4%nat) ps.
Proof.
  rewrite res_mapM_Ok. unfold To4_or, canon_ip. induction 1 as [|ip p ips ps Hp _ [-> IH]]; [done|].
  destruct (To4 ip) as [q|] eqn:Hq; simplify_eq/=. split; [by rewrite Hq|].
  constructor; [by eapply To4_length | done].
Qed.

(** ** Bodies *)

Section bodies.
Context {FC : FloatConv}.

Lemma concat_mod n (cs : list (list Z)) : n ≠ 0%nat →
  Forall (λ c, length c = n) cs → (length (concat cs) mod n =? 0)%nat = true.
Proof.
  intros Hn Hcs. rewrite (length_concat_const n) by done.
  by rewrite Nat.Div0.mod_mul.
Qed.

Lemma serializeHelloLink_Ok lm bs : serializeHelloLink lm = Ok bs →
  ∃ addrs, addrs = canon_ip <$> link_NeighborAddresses lm ∧ Forall (λ ip, length ip = 4%nat) addrs ∧
    bs = [LinkCode lm; 0] ++ be16 (Z.of_nat (4 + length (concat addrs))) ++ concat addrs ∧
    Z.of_nat (4 + length (concat addrs)) ≤ 65535.
Proof.
  unfold serializeHelloLink. intros H. res_steps H. simplify_eq/=. to_prop.
  apply To4_or_mapM in H0 as [-> Hf]. eexists; split_and!; [done..| |lia].
  rewrite u16_id by (unfold is_u16; lia).
  apply (PutUint16_app [LinkCode lm; 0]).
Qed.

Lemma parse_links_step fuel pre lc addrs rest acc :
  Forall (λ ip, length ip = 4%nat) addrs → Z.of_nat (4 + length (concat addrs)) ≤ 65535 →
  let link := [lc; 0] ++ be16 (Z.of_nat (4 + length (concat addrs))) ++ concat addrs in
  parse_links (S fuel) (pre ++ link ++ rest) (length pre) acc =
  parse_links fuel (pre ++ link ++ rest) (length pre + length link) (acc ++ [MkHelloLinkMessage lc addrs]).
Proof.
  intros Hf Hl link.
  assert (length link = (4 + length (concat addrs))%nat) as Hlink by done.
  cbn [parse_links]. rewrite !length_app.
  replace (length pre <? _)%nat with true by (symmetry; apply Nat.ltb_lt; lia).
  rewrite check_true by (apply Nat.leb_le; lia). rewrite res_bind_Ok.
  rewrite go_index_app_r0, !go_slice_app_r.
  change (go_index (link ++ rest) 0) with (Ok lc). rewrite res_bind_Ok.
  change (go_slice (link ++ rest) 2 4) with (Ok (be16 (Z.of_nat (4 + length (concat addrs))))).
  rewrite res_bind_Ok, <-(app_nil_r (be16 _)), Uint16_be16 by (unfold is_u16; lia).
  rewrite res_bind_Ok, Nat2Z.id, check_true by (apply Nat.leb_le; lia). rewrite res_bind_Ok.
  rewrite go_slice_app_r. replace (go_slice (link ++ rest) 4 _) with (Ok (concat addrs))
    by (symmetry; apply (go_slice_mid ([lc; 0] ++ be16 _) (concat addrs) rest)).
  rewrite res_bind_Ok, check_true by (by apply concat_mod). rewrite res_bind_Ok.
  rewrite parse_addrs_concat by done. rewrite res_bind_Ok. by rewrite Hlink.
Qed.

Lemma parse_links_all links : ∀ lms fuel pre acc,
  Forall2 (λ lm bs, serializeHelloLink lm = Ok bs) lms links →
  (length (concat links) ≤ fuel)%nat →
  parse_links fuel (pre ++ concat links) (length pre) acc = Ok (acc ++ (canon_link <$> lms)).
Proof.
  induction links as [|bs links IH]; intros lms fuel pre acc H2 Hfuel.
  - inversion_clear H2. rewrite !app_nil_r. destruct fuel; simpl; by rewrite Nat.ltb_irrefl.
  - inversion H2 as [|lm ? lms' ? Hlm H2']; subst.
    apply serializeHelloLink_Ok in Hlm as (addrs & -> & Hf & -> & Hl).
    set (link := _ ++ be16 _ ++ _) in *. cbn [concat] in Hfuel |- *. rewrite length_app in Hfuel.
    destruct fuel as [|fuel]; [simpl in Hfuel; lia|].
    unfold link at 1. rewrite parse_links_step by done. fold link.
    rewrite app_assoc, <-length_app, (IH lms'); [|done|unfold link in Hfuel; simpl in Hfuel; lia].
    by rewrite <-app_assoc.
Qed.

Lemma hello_roundtrip b bs : serializeHelloMessage b = Ok bs →
  deserializeHelloMessage bs =
    Ok (MkHelloMessage (canon_time (Htime b)) (Willingness b) (canon_link <$> LinkMessages b)).
Proof.
  unfold serializeHelloMessage. intros H. res_steps H. simplify_eq/=.
  apply res_mapM_Ok in H0. set (pre := [u8 0; u8 0; EncodeTimeVal (Htime b); Willingness b]).
  change (u8 _ :: _) with (pre ++ concat x).
  assert (length (concat x) ≤ length (pre ++ concat x))%nat as Hl by (rewrite length_app; lia).
  pose proof (parse_links_all x (LinkMessages b) _ pre [] H0 Hl) as Hp.
  unfold deserializeHelloMessage. rewrite check_true by reflexivity. rewrite res_bind_Ok.
  change (go_index (pre ++ concat x) 2) with (Ok (EncodeTimeVal (Htime b))).
  change (go_index (pre ++ concat x) 3) with (Ok (Willingness b)).
  rewrite !res_bind_Ok. change (length pre) with 4%nat in Hp. by rewrite Hp.
Qed.

Lemma tc_roundtrip b bs : serializeTCMessage b = Ok bs → is_u16 (ANSN b) →
  deserializeTCMessage bs = Ok (MkTCMessage (ANSN b) (canon_ip <$> tc_NeighborAddresses b)).
Proof.
  unfold serializeTCMessage. intros H Ha. res_steps H. apply Ok_inj in H as <-.
  apply To4_or_mapM in H0 as [-> Hf]. set (addrs := canon_ip <$> _) in *.
  unfold deserializeTCMessage. rewrite check_true by reflexivity. rewrite res_bind_Ok.
  change (go_slice (be16 (ANSN b) ++ be16 0 ++ concat addrs) 0 2) with (Ok (be16 (ANSN b))).
  rewrite res_bind_Ok, <-(app_nil_r (be16 (ANSN b))), Uint16_be16, res_bind_Ok by done.
  rewrite app_nil_r, app_assoc.
  rewrite (go_slice_to_end (be16 (ANSN b) ++ be16 0)), res_bind_Ok.
  rewrite check_true, res_bind_Ok by (by apply concat_mod).
  by rewrite parse_addrs_concat.
Qed.

Lemma mid_roundtrip b bs : serializeMIDMessage b = Ok bs →
  deserializeMIDMessage bs = Ok (MkMIDMessage (canon_ip <$> Addresses b)).
Proof.
  unfold serializeMIDMessage. intros H. res_steps H. simplify_eq/=.
  apply To4_or_mapM in H0 as [-> Hf].
  unfold deserializeMIDMessage. rewrite check_true, res_bind_Ok by (by apply concat_mod).
  by rewrite parse_addrs_concat.
Qed.

Lemma serializeHNAAssociation_Ok a bs : serializeHNAAssociation a = Ok bs →
  ∃ ip m, length ip = 4%nat ∧ length m = 4%nat ∧ bs = ip ++ m ∧
    canon_assoc a = MkHNAAssociation ip (MkIPNet ip m).
Proof.
  unfold serializeHNAAssociation, canon_assoc, canon_ip. intros H.
  destruct (To4 (assoc_Address a)) as [ip|] eqn:Hi; [|done].
  destruct (To4 (net_Mask _)) as [m|] eqn:Hm; simplify_eq/=. eauto 10 using To4_length.
Qed.

Lemma hna_roundtrip b bs : serializeHNAMessage b = Ok bs →
  deserializeHNAMessage bs = Ok (MkHNAMessage (canon_assoc <$> Associations b)).
Proof.
  unfold serializeHNAMessage. intros H. res_steps H. simplify_eq/=.
  apply res_mapM_Ok in H0.
  assert (Forall (λ c, length c = 8%nat) x) as Hf.
  { apply (Forall2_Forall_r _ _ _ _ H0), Forall_forall.
    intros a _ y (ip & m & Hi & Hm & -> & _)%serializeHNAAssociation_Ok. rewrite length_app. lia. }
  unfold deserializeHNAMessage. rewrite check_true, res_bind_Ok by (by apply concat_mod).
  rewrite (length_concat_const 8), Nat.div_mul by done.
  rewrite <-(Forall2_length _ _ _ H0), <-(length_fmap canon_assoc (Associations b)).
  rewrite (res_mapM_seq _ (canon_assoc <$> Associations b)); [done|].
  intros i y (a & -> & Ha)%list_lookup_fmap_Some.
  destruct (Forall2_lookup_l _ _ _ _ _ H0 Ha) as (bs & Hbs & Hser).
  apply serializeHNAAssociation_Ok in Hser as (ip & m & Hi & Hm & -> & ->).
  destruct (concat_chunk 8 x i _ Hf Hbs) as (_ & pre & post & -> & Hpre).
  rewrite <-Hpre, <-app_assoc.
  replace (length pre + 8)%nat with (length (pre ++ ip) + length m)%nat by (rewrite length_app; lia).
  replace (length pre + 4)%nat with (length pre + length ip)%nat by lia.
  rewrite go_slice_mid, res_bind_Ok, app_assoc, <-length_app, go_slice_mid, res_bind_Ok.
  by rewrite cloneIP_id, cloneMask_id.
Qed.

Lemma source_claim_roundtrip b bs : serializeSourceClaimMessage b = Ok bs →
  deserializeSourceClaimMessage bs =
    Ok (MkSourceClaimMessage (canon_ip (sc_SourceIP b)) (canon_ip (sc_GroupID b))).
Proof.
  unfold serializeSourceClaimMessage, canon_ip. intros H.
  destruct (To4 (sc_SourceIP b)) as [a|] eqn:Ha, (To4 (sc_GroupID b)) as [c|] eqn:Hc; simplify_eq/=.
  apply To4_length in Ha, Hc.
  do 5 (destruct a as [|? a]; try discriminate Ha).
  by do 5 (destruct c as [|? c]; try discriminate Hc).
Qed.

Lemma confirm_parent_roundtrip b bs : serializeConfirmParentMessage b = Ok bs →
  deserializeConfirmParentMessage bs =
    Ok (MkConfirmParentMessage (canon_ip (cp_SourceIP b)) (canon_ip (cp_GroupID b))
          (canon_ip (cp_ParentIP b))).
Proof.
  unfold serializeConfirmParentMessage, canon_ip. intros H.
  destruct (To4 (cp_SourceIP b)) as [a|] eqn:Ha, (To4 (cp_GroupID b)) as [c|] eqn:Hc,
    (To4 (cp_ParentIP b)) as [d|] eqn:Hd; simplify_eq/=.
  apply To4_length in Ha, Hc, Hd.
  do 5 (destruct a as [|? a]; try discriminate Ha).
  do 5 (destruct c as [|? c]; try discriminate Hc).
  by do 5 (destruct d as [|? d]; try discriminate Hd).
Qed.

Lemma body_roundtrip t b bs :
  serializeBody b = Ok bs → body_matches t b → deserializeBody t bs = Ok (canon_body b).
Proof.
  destruct b as [b|b|b|b|b|b|b]; simpl; intros H; [..|done].
  - intros ->. unfold deserializeBody. simpl. by rewrite (hello_roundtrip _ _ H).
  - intros [-> Ha]. unfold deserializeBody. simpl. by rewrite (tc_roundtrip _ _ H).
  - intros ->. unfold deserializeBody. simpl. by rewrite (mid_roundtrip _ _ H).
  - intros ->. unfold deserializeBody. simpl. by rewrite (hna_roundtrip _ _ H).
  - intros ->. unfold deserializeBody. simpl. by rewrite (source_claim_roundtrip _ _ H).
  - intros ->. unfold deserializeBody. simpl. by rewrite (confirm_parent_roundtrip _ _ H).
Qed.
End bodies.

(** ** Messages *)

Section messages.
Context {FC : FloatConv}.

Lemma parse_message_app pre t v s0 s1 o0 o1 o2 o3 ttl hc q0 q1 rest pktLen :
  let hdr := [t; v; s0; s1; o0; o1; o2; o3; ttl; hc; q0; q1] in
  let size := Z.to_nat (Z.lor s1 (Z.shiftl s0 8)) in
  parse_message (pre ++ hdr ++ rest) pktLen (length pre) =
  (_ ← check (length pre + size <=? pktLen)%nat "message size exceeds packet length";
   data ← go_slice (hdr ++ rest) 12 size;
   body ← deserializeBody t data;
   Ok (MkMessage (MkMessageHeader t (DecodeTimeVal v) [o0; o1; o2; o3] ttl hc
         (Z.lor q1 (Z.shiftl q0 8))) body, size)).
Proof.
  intros hdr size. unfold parse_message. rewrite !length_app.
  rewrite check_true by (apply Nat.leb_le; simpl; lia). rewrite res_bind_Ok.
  rewrite go_index_app_r0. change (go_index (hdr ++ rest) 0) with (Ok t).
  rewrite res_bind_Ok, (go_index_app_r _ _ 1). change (go_index (hdr ++ rest) 1) with (Ok v).
  rewrite res_bind_Ok, (go_slice_app_r _ _ 2 4). change (go_slice (hdr ++ rest) 2 4) with (Ok [s0; s1]).
  rewrite res_bind_Ok. change (Uint16 [s0; s1]) with (Ok (Z.lor s1 (Z.shiftl s0 8))).
  rewrite res_bind_Ok, (go_slice_app_r _ _ 4 8). change (go_slice (hdr ++ rest) 4 8) with (Ok [o0; o1; o2; o3]).
  rewrite res_bind_Ok, (go_index_app_r _ _ 8). change (go_index (hdr ++ rest) 8) with (Ok ttl).
  rewrite res_bind_Ok, (go_index_app_r _ _ 9). change (go_index (hdr ++ rest) 9) with (Ok hc).
  rewrite res_bind_Ok, (go_slice_app_r _ _ 10 12). change (go_slice (hdr ++ rest) 10 12) with (Ok [q0; q1]).
  rewrite res_bind_Ok. change (Uint16 [q0; q1]) with (Ok (Z.lor q1 (Z.shiftl q0 8))).
  rewrite res_bind_Ok. cbv zeta. fold size.
  unfold check. destruct (length pre + size <=? pktLen)%nat; [|done].
  by rewrite !res_bind_Ok, (go_slice_app_r _ _ 12 size).
Qed.

(** The data part of a message, given its size field. *)
Lemma message_data_slice (hdr rest : list Z) size : length hdr = 12%nat →
  go_slice (hdr ++ rest) 12 size =
  if (size <? 12)%nat then Panic else go_slice rest 0 (size - 12).
Proof.
  intros Hh. destruct (Nat.ltb_spec size 12).
  - unfold go_slice. by replace (12 <=? size)%nat with false by (symmetry; apply Nat.leb_gt; lia).
  - replace size with (length hdr + (size - 12))%nat at 1 by lia.
    rewrite <-Hh at 1. rewrite <-(Nat.add_0_r (length hdr)) at 1. apply go_slice_app_r.
Qed.

(** Parsing runs through a framed area and continues after it. *)
Lemma parse_messages_framed area ms : framed area ms → ∀ fuel pre post pktLen acc,
  (length (pre ++ area) ≤ pktLen)%nat → (length area ≤ fuel)%nat →
  ∃ fuel', (fuel ≤ fuel' + length area)%nat ∧
    parse_messages fuel (pre ++ area ++ post) pktLen (length pre) acc =
    parse_messages fuel' (pre ++ area ++ post) pktLen (length (pre ++ area)) (acc ++ ms).
Proof.
  induction 1 as [|t v s0 s1 o0 o1 o2 o3 ttl hc q0 q1 data body rest ms Hsize Hbody _ IH];
    intros fuel pre post pktLen acc Hlen Hfuel.
  - exists fuel. rewrite !app_nil_r. simpl. split; [lia | done].
  - set (hdr := [t; v; s0; s1; o0; o1; o2; o3; ttl; hc; q0; q1]) in *.
    rewrite !length_app in Hlen. rewrite !length_app in Hfuel.
    change (length hdr) with 12%nat in Hlen, Hfuel.
    destruct fuel as [|fuel]; [lia|]. cbn [parse_messages].
    replace (length pre <? pktLen)%nat with true by (symmetry; apply Nat.ltb_lt; lia).
    rewrite <-!(app_assoc hdr), <-(app_assoc data).
    pose proof (parse_message_app pre t v s0 s1 o0 o1 o2 o3 ttl hc q0 q1 (data ++ rest ++ post) pktLen) as Hpm.
    cbv zeta in Hpm. fold hdr in Hpm. rewrite Hpm, Hsize, Nat2Z.id. clear Hpm.
    rewrite check_true, res_bind_Ok by (apply Nat.leb_le; lia).
    rewrite message_data_slice by done.
    replace (12 + length data <? 12)%nat with false by (symmetry; apply Nat.ltb_ge; lia).
    replace (12 + length data - 12)%nat with (length data) by lia.
    rewrite go_slice_app_l, res_bind_Ok, Hbody, !res_bind_Ok. cbn [fst snd]. fold hdr.
    set (m := MkMessage _ _).
    destruct (IH fuel (pre ++ hdr ++ data) post pktLen (acc ++ [m])) as (fuel' & Hf' & E);
      [rewrite !length_app; change (length hdr) with 12%nat; lia | lia |].
    exists fuel'. split; [rewrite !length_app; change (length hdr) with 12%nat; lia|].
    rewrite <-!app_assoc in E.
    replace (length pre + (12 + length data))%nat with (length (pre ++ hdr ++ data))
      by (rewrite !length_app; change (length hdr) with 12%nat; lia).
    by rewrite E.
Qed.

(** What a successfully parsed message says about the input. *)
Lemma parse_message_inv data pktLen offset m size :
  parse_message data pktLen offset = Ok (m, size) → (offset < pktLen ≤ length data)%nat →
  ∃ t v s0 s1 o0 o1 o2 o3 ttl hc q0 q1 d body rest,
    drop offset data = [t; v; s0; s1; o0; o1; o2; o3; ttl; hc; q0; q1] ++ d ++ rest ∧
    size = (12 + length d)%nat ∧ (offset + size ≤ pktLen)%nat ∧
    Z.lor s1 (Z.shiftl s0 8) = Z.of_nat (12 + length d) ∧
    deserializeBody t d = Ok body ∧
    m = MkMessage (MkMessageHeader t (DecodeTimeVal v) [o0; o1; o2; o3] ttl hc
           (Z.lor q1 (Z.shiftl q0 8))) body.
Proof.
  intros H Hoff.
  assert (12 ≤ length (drop offset data))%nat as Hl.
  { unfold parse_message in H. apply bind_Ok in H as (u & Hc & _). apply check_Ok in Hc. to_prop.
    rewrite length_drop. lia. }
  assert (∃ pre, data = pre ++ drop offset data ∧ length pre = offset) as (pre & Hdata & Hpre).
  { exists (take offset data). rewrite take_drop, length_take. split; [done | lia]. }
  destruct (drop offset data) as [|t [|v [|s0 [|s1 [|o0 [|o1 [|o2 [|o3 [|ttl [|hc [|q0 [|q1 rest]]]]]]]]]]]];
    simpl in Hl; try lia. clear Hl. subst data offset.
  change (t :: v :: s0 :: s1 :: o0 :: o1 :: o2 :: o3 :: ttl :: hc :: q0 :: q1 :: rest)
    with ([t; v; s0; s1; o0; o1; o2; o3; ttl; hc; q0; q1] ++ rest) in *.
  rewrite parse_message_app in H.
  res_steps H. to_prop. apply Ok_inj in H. simplify_eq.
  rewrite message_data_slice in H1 by done.
  destruct (Nat.ltb_spec (Z.to_nat (Z.lor s1 (s0 ≪ 8))) 12) as [|Hs]; [done|].
  pose proof (go_slice_length _ _ _ _ H1) as Hlen. rewrite Nat.sub_0_r in Hlen.
  exists t, v, s0, s1, o0, o1, o2, o3, ttl, hc, q0, q1, x0, x1, (drop (length x0) rest).
  assert (x0 = take (length x0) rest) as Hx.
  { unfold go_slice in H1. case_match; [|done]. apply Ok_inj in H1.
    rewrite drop_0, Nat.sub_0_r in H1. by rewrite Hlen. }
  rewrite Hx at 1. rewrite take_drop.
  split_and!; [done|lia|lia|lia|done|done].
Qed.

Lemma parse_messages_inv fuel : ∀ data pktLen offset acc res,
  parse_messages fuel data pktLen offset acc = Ok res → (offset ≤ pktLen ≤ length data)%nat →
  ∃ ms, res = acc ++ ms ∧ framed (take (pktLen - offset) (drop offset data)) ms.
Proof.
  induction fuel as [|fuel IH]; intros data pktLen offset acc res H Hoff; cbn [parse_messages] in H.
  - destruct (Nat.ltb_spec offset pktLen); [done|]. apply Ok_inj in H as <-.
    exists []. rewrite app_nil_r. replace (pktLen - offset)%nat with 0%nat by lia.
    split; [done | constructor].
  - destruct (Nat.ltb_spec offset pktLen).
    + apply bind_Ok in H as ([m size] & Hm & H). simpl in H.
      apply parse_message_inv in Hm as (t & v & s0 & s1 & o0 & o1 & o2 & o3 & ttl & hc & q0 & q1 & d & body &
        rest & Hdrop & -> & Hle & Hsize & Hbody & ->); [|lia].
      apply IH in H as (ms & -> & Hms); [|lia].
      eexists (_ :: ms). rewrite <-app_assoc. split; [done|].
      replace (pktLen - offset)%nat with (12 + (length d + (pktLen - (offset + (12 + length d)))))%nat by lia.
      rewrite Hdrop. rewrite <-drop_drop, Hdrop in Hms.
      set (hdr := [t; v; s0; s1; o0; o1; o2; o3; ttl; hc; q0; q1]) in *.
      change 12%nat with (length hdr) in Hms at 2 |- * at 1.
      rewrite app_assoc, <-length_app, drop_app_length in Hms.
      rewrite take_app_add, take_app_add. by constructor.
    + apply Ok_inj in H as <-. exists []. rewrite app_nil_r.
      replace (pktLen - offset)%nat with 0%nat by lia. split; [done | constructor].
Qed.
End messages.

(** ** Packets *)

Section packets.
Context {FC : FloatConv}.

Lemma DeserializePacket_header l0 l1 q0 q1 rest :
  let data := [l0; l1; q0; q1] ++ rest in
  let pktLen := Z.lor l1 (Z.shiftl l0 8) in
  DeserializePacket data =
  (_ ← check (4 <=? pktLen) "invalid packet length";
   _ ← check (Z.to_nat pktLen <=? length data)%nat "packet length mismatch";
   messages ← parse_messages (length data) data (Z.to_nat pktLen) 4 [];
   Ok (MkPacket (MkPacketHeader pktLen (Z.lor q1 (Z.shiftl q0 8))) messages)).
Proof. done. Qed.

Lemma parse_messages_end fuel data pktLen acc : parse_messages fuel data pktLen pktLen acc = Ok acc.
Proof. destruct fuel; simpl; by rewrite Nat.ltb_irrefl. Qed.

Lemma deserialize_accepts l0 l1 q0 q1 area post ms :
  framed area ms → Z.lor l1 (Z.shiftl l0 8) = Z.of_nat (4 + length area) →
  DeserializePacket ([l0; l1; q0; q1] ++ area ++ post) =
    Ok (MkPacket (MkPacketHeader (Z.of_nat (4 + length area)) (Z.lor q1 (Z.shiftl q0 8))) ms).
Proof.
  intros Hms Hlen. rewrite DeserializePacket_header. cbv zeta. rewrite Hlen, Nat2Z.id, !length_app.
  rewrite (check_true _ "invalid packet length"), res_bind_Ok by (apply Z.leb_le; lia).
  rewrite check_true, res_bind_Ok by (apply Nat.leb_le; simpl; lia).
  edestruct (λ fuel, parse_messages_framed area ms Hms fuel [l0; l1; q0; q1] post (4 + length area) [])
    as (fuel' & _ & E); cycle 2.
  - change (length [l0; l1; q0; q1]) with 4%nat in E. rewrite E, length_app.
    change (length [l0; l1; q0; q1]) with 4%nat. by rewrite parse_messages_end.
  - simpl. lia.
  - simpl. lia.
Qed.

Lemma deserialize_inv data p : DeserializePacket data = Ok p →
  ∃ l0 l1 q0 q1 area post, data = [l0; l1; q0; q1] ++ area ++ post ∧
    Z.lor l1 (Z.shiftl l0 8) = Z.of_nat (4 + length area) ∧
    pkt_Header p = MkPacketHeader (Z.of_nat (4 + length area)) (Z.lor q1 (Z.shiftl q0 8)) ∧
    framed area (Messages p).
Proof.
  intros H. destruct data as [|l0 [|l1 [|q0 [|q1 rest]]]]; try done.
  change (l0 :: _) with ([l0; l1; q0; q1] ++ rest) in H |- *.
  rewrite DeserializePacket_header in H. cbv zeta in H. res_steps H. to_prop.
  apply Ok_inj in H. rewrite length_app in H1. simpl in H1.
  apply parse_messages_inv in H2 as (ms & -> & Hms); [|rewrite length_app; simpl; lia].
  set (n := (Z.to_nat (Z.lor l1 (l0 ≪ 8)) - 4)%nat) in *.
  change (drop 4 ([l0; l1; q0; q1] ++ rest)) with rest in Hms.
  assert (length (take n rest) = n) as Hn by (rewrite length_take; lia).
  exists l0, l1, q0, q1, (take n rest), (drop n rest). rewrite take_drop, Hn.
  assert (Z.lor l1 (l0 ≪ 8) = Z.of_nat (4 + n)) as Hl by lia.
  rewrite <-H, <-Hl. done.
Qed.

Lemma framed_intro t v o ttl hc sq data body rest ms :
  length o = 4%nat → is_u16 sq → Z.of_nat (12 + length data) ≤ 65535 →
  deserializeBody t data = Ok body → framed rest ms →
  framed ([t; v] ++ be16 (Z.of_nat (12 + length data)) ++ o ++ [ttl; hc] ++ be16 sq ++ data ++ rest)
    (MkMessage (MkMessageHeader t (DecodeTimeVal v) o ttl hc sq) body :: ms).
Proof.
  intros Ho Hsq Hlen Hbody Hms. do 5 (destruct o as [|? o]; try discriminate Ho).
  pose proof (Uint16_be16 sq [] Hsq) as Hq. apply Ok_inj in Hq.
  pose proof (Uint16_be16 (Z.of_nat (12 + length data)) [] ltac:(unfold is_u16; lia)) as Hu.
  apply Ok_inj in Hu.
  pose proof (framed_cons t v _ _ z z0 z1 z2 ttl hc (u8 (Z.shiftr sq 8)) (u8 sq) _ _ _ _ Hu Hbody Hms) as F.
  by rewrite Hq in F.
Qed.

Lemma serializeMessage_framed m bs area ms :
  serializeMessage m = Ok bs → wf_message m → framed area ms →
  framed (bs ++ area) (canon_message m :: ms).
Proof.
  unfold serializeMessage. intros H [Hseq Hm] Hms. res_steps H. to_prop. apply Ok_inj in H.
  unfold To4_or in H0. destruct (To4 (OriginatorAddress _)) as [o|] eqn:Ho; simplify_eq.
  pose proof (To4_length _ _ Ho) as Hlo.
  set (t := msg_Type _) in *. set (v := EncodeTimeVal _) in *.
  set (hdr2 := x ++ [TTL (msg_Header m); HopCount (msg_Header m)] ++ be16 (SeqNum (msg_Header m)) ++ x0) in *.
  assert (length hdr2 = 8 + length x0)%nat as Hl2.
  { unfold hdr2. rewrite !length_app, Hlo. simpl. lia. }
  rewrite length_app in H2 |- *. rewrite length_app in H2 |- *. rewrite Hl2 in *. simpl length in *.
  rewrite u16_id by (unfold is_u16; lia).
  change (PutUint16 _ 2 ?n) with (PutUint16 ([t; v] ++ u8 (0 ≫ 8) :: u8 0 :: hdr2) (length [t; v]) n).
  rewrite PutUint16_app. unfold hdr2, canon_message, canon_ip, canon_time. rewrite Ho. fold t v.
  rewrite <-!app_assoc. simpl default.
  apply (framed_intro t v x (TTL (msg_Header m)) (HopCount (msg_Header m)) (SeqNum (msg_Header m)) x0);
    [done | done | lia | by apply body_roundtrip | done].
Qed.

Lemma serialize_framed ms bss :
  Forall2 (λ m bs, serializeMessage m = Ok bs) ms bss → Forall wf_message ms →
  framed (concat bss) (canon_message <$> ms).
Proof.
  induction 1 as [|m bs ms bss Hm _ IH]; intros Hwf; [constructor|].
  inversion_clear Hwf. simpl. apply serializeMessage_framed; auto.
Qed.

Lemma SerializePacket_Ok p data : SerializePacket p = Ok data →
  ∃ bss, Forall2 (λ m bs, serializeMessage m = Ok bs) (Messages p) bss ∧
    data = be16 (Z.of_nat (length data)) ++ be16 (PacketSeqNum (pkt_Header p)) ++ concat bss ∧
    Z.of_nat (length data) ≤ 65535.
Proof.
  unfold SerializePacket. intros H. res_steps H. to_prop. apply Ok_inj in H.
  apply res_mapM_Ok in H0. exists x. split; [done|].
  set (rest := be16 (PacketSeqNum _) ++ concat x) in *.
  assert (length data = 2 + length rest)%nat as Hl by (by rewrite <-H, length_PutUint16).
  change (length (be16 0 ++ rest)) with (2 + length rest)%nat in *. rewrite <-Hl in *.
  rewrite <-H at 1. rewrite u16_id by (unfold is_u16; lia). split; [|done].
  apply (PutUint16_app []).
Qed.
End packets.

(** ** The parse loops return *)

Section termination.
Context {FC : FloatConv}.

Lemma parse_links_not_Diverge fuel : ∀ data off acc,
  (length data - off ≤ fuel)%nat → parse_links fuel data off acc ≠ Diverge.
Proof.
  induction fuel as [|fuel IH]; intros data off acc Hf; cbn [parse_links];
    destruct (Nat.ltb_spec off (length data)); try done; [lia|].
  solve_returns.
  - apply res_mapM_not_Diverge. intros i. auto with olsr.
  - apply IH. match goal with Hs : go_slice data (off + 4) (off + ?n) = Ok _ |- _ =>
      unfold go_slice in Hs; destruct (Nat.leb_spec (off + 4) (off + n)); [|done] end. lia.
Qed.

Lemma deserializeBody_not_Diverge t data : deserializeBody t data ≠ Diverge.
Proof.
  assert (∀ d, parse_addrs d ≠ Diverge) as Ha.
  { intros d. apply res_mapM_not_Diverge. intros i. auto with olsr. }
  unfold deserializeBody. repeat case_match; [..|done]; apply fmap_not_Diverge.
  all: solve_returns.
  apply parse_links_not_Diverge. lia.
Qed.

Lemma parse_message_not_Diverge data pktLen off : parse_message data pktLen off ≠ Diverge.
Proof.
  unfold parse_message.
  solve_returns. apply deserializeBody_not_Diverge.
Qed.

Lemma parse_messages_not_Diverge fuel : ∀ data pktLen off acc,
  (pktLen ≤ length data)%nat → (pktLen - off ≤ fuel)%nat →
  parse_messages fuel data pktLen off acc ≠ Diverge.
Proof.
  induction fuel as [|fuel IH]; intros data pktLen off acc Hl Hf; cbn [parse_messages];
    destruct (Nat.ltb_spec off pktLen); try done; [lia|].
  apply bind_not_Diverge; [apply parse_message_not_Diverge|]. intros [m size] Hm.
  apply parse_message_inv in Hm as (t & v & s0 & s1 & o0 & o1 & o2 & o3 & ttl & hc & q0 & q1 & d & body &
    rest & _ & -> & _); [|lia].
  apply IH; simpl; lia.
Qed.
End termination.

(** * Properties *)

Section properties.
Context {FC : FloatConv}.

Lemma deserialize_serialize p data :
  SerializePacket p = Ok data → wf_packet p →
  DeserializePacket data =
    Ok (MkPacket (MkPacketHeader (Z.of_nat (length data)) (PacketSeqNum (pkt_Header p)))
          (canon_message <$> Messages p)).
Proof.
  intros H [Hseq Hwf]. apply SerializePacket_Ok in H as (bss & Hbss & Hdata & Hlen).
  pose proof (serialize_framed _ _ Hbss Hwf) as Hf.
  assert (length data = 4 + length (concat bss))%nat as Hl by (by rewrite Hdata).
  set (n := Z.of_nat (length data)) in *. rewrite Hdata.
  pose proof (Uint16_be16 n [] ltac:(unfold is_u16; lia)) as Hu. apply Ok_inj in Hu.
  pose proof (Uint16_be16 _ [] Hseq) as Hq. apply Ok_inj in Hq.
  epose proof (deserialize_accepts (u8 (Z.shiftr n 8)) (u8 n) _ _ (concat bss) [] _ Hf) as E.
  rewrite app_nil_r in E. rewrite <-Hq at 2. etransitivity; [apply E; rewrite Hu; lia|].
  do 3 f_equal. lia.
Qed.

(** C1. Round trip: when [SerializePacket] succeeds on a packet whose bodies have the Go type
    their headers announce, [DeserializePacket] accepts the bytes and returns the packet in
    canonical form: the length field is the number of bytes, addresses are in 4-byte form,
    durations are rounded to their code, everything else is unchanged. *)
Theorem serialize_deserialize_roundtrip p data :
  SerializePacket p = Ok data → wf_packet p →
  DeserializePacket data =
    Ok (MkPacket (MkPacketHeader (Z.of_nat (length data)) (PacketSeqNum (pkt_Header p)))
          (canon_message <$> Messages p)).
Proof. apply deserialize_serialize. Qed.

(** C2. Framing: [DeserializePacket] accepts a byte string exactly when it starts with a packet
    header whose length field counts the header and an area of well-framed messages; it
    returns those messages, and ignores the bytes after the declared length. *)
Theorem DeserializePacket_spec data p :
  DeserializePacket data = Ok p ↔
  ∃ l0 l1 q0 q1 area post,
    data = [l0; l1; q0; q1] ++ area ++ post ∧
    Z.lor l1 (Z.shiftl l0 8) = Z.of_nat (4 + length area) ∧
    pkt_Header p = MkPacketHeader (Z.of_nat (4 + length area)) (Z.lor q1 (Z.shiftl q0 8)) ∧
    framed area (Messages p).
Proof.
  split; [apply deserialize_inv|].
  intros (l0 & l1 & q0 & q1 & area & post & -> & Hlen & Hh & Hf).
  rewrite (deserialize_accepts _ _ _ _ _ _ _ Hf Hlen). destruct p; simpl in *. by subst.
Qed.

(** C38. Termination: on every input the parser returns, it never loops: the fuel of both parse
    loops (the number of input bytes) is enough, because a message or link message whose size
    field would not advance the offset is a slice-bounds panic. *)
Theorem DeserializePacket_returns data : DeserializePacket data ≠ Diverge.
Proof.
  unfold DeserializePacket. solve_returns.
  match goal with H : check (_ <=? length data)%nat _ = Ok _ |- _ => apply check_Ok in H end.
  to_prop. apply parse_messages_not_Diverge; lia.
Qed.

(** C39. Malformed message size: after any well-framed messages, a message header whose size
    field is below 12 (inside a packet long enough to hold the header) makes
    [DeserializePacket] panic with slice bounds out of range instead of returning an error. *)
Theorem DeserializePacket_short_size_panics l0 l1 q0 q1 area ms hdr post :
  framed area ms → length hdr = 12%nat →
  (∀ s0 s1, hdr !! 2%nat = Some s0 → hdr !! 3%nat = Some s1 → 0 ≤ Z.lor s1 (Z.shiftl s0 8) < 12) →
  Z.of_nat (4 + length area + 12) ≤ Z.lor l1 (Z.shiftl l0 8)
    ≤ Z.of_nat (4 + length area + 12 + length post) →
  DeserializePacket ([l0; l1; q0; q1] ++ area ++ hdr ++ post) = Panic.
Proof.
  intros Hf Hhdr Hsz Hlen. rewrite DeserializePacket_header. cbv zeta. rewrite !length_app, Hhdr.
  set (n := Z.to_nat (Z.lor l1 (l0 ≪ 8))).
  assert (4 + length area + 12 ≤ n ≤ 4 + length area + 12 + length post)%nat as Hn by (unfold n; lia).
  rewrite (check_true _ "invalid packet length"), res_bind_Ok by (apply Z.leb_le; lia).
  rewrite check_true, res_bind_Ok by (apply Nat.leb_le; simpl; lia).
  edestruct (λ fuel, parse_messages_framed area ms Hf fuel [l0; l1; q0; q1] (hdr ++ post) n [])
    as (fuel' & Hfuel & E); cycle 2.
  { change (length [l0; l1; q0; q1]) with 4%nat in E. rewrite E. clear E. shelve. }
  - simpl. lia.
  - simpl. lia.
  Unshelve.
  destruct fuel' as [|fuel']; [simpl in Hfuel; lia|]. cbn [parse_messages].
  replace (_ <? n)%nat with true by (symmetry; apply Nat.ltb_lt; rewrite length_app; simpl; lia).
  destruct hdr as [|t [|v [|s0 [|s1 [|o0 [|o1 [|o2 [|o3 [|ttl [|hc [|h0 [|h1 [|]]]]]]]]]]]]]; try done.
  specialize (Hsz s0 s1 eq_refl eq_refl).
  rewrite app_assoc, parse_message_app.
  rewrite check_true by (apply Nat.leb_le; rewrite length_app; simpl; lia). rewrite res_bind_Ok.
  rewrite message_data_slice by done.
  by replace (_ <? 12)%nat with true by (symmetry; apply Nat.ltb_lt; lia).
Qed.
End properties.

(** * Concrete inputs *)

(** A SOURCE CLAIM of 10.0.0.1 for 239.1.1.1, valid for 6 seconds. *)
Definition claim_packet : Packet :=
  MkPacket (MkPacketHeader 0 42)
    [MkMessage (MkMessageHeader MsgTypeSourceClaim (6 * Second) (IPv4 1 1 1 1) 255 0 300)
       (BodySourceClaim (MkSourceClaimMessage (IPv4 10 0 0 1) [239; 1; 1; 1]))].

Definition claim_bytes : list Z :=
  [0; 24; 0; 42; 108; 2; 0; 20; 1; 1; 1; 1; 255; 0; 1; 44; 10; 0; 0; 1; 239; 1; 1; 1].

Lemma roundtrip_witness :
  @SerializePacket claim_packet = Ok claim_bytes ∧
  @DeserializePacket amd64_conv claim_bytes =
    Ok (MkPacket (MkPacketHeader (Z.of_nat (length claim_bytes)) 42)
          (@canon_message amd64_conv <$> Messages claim_packet)).
Proof.
  assert (@SerializePacket claim_packet = Ok claim_bytes) as H by (vm_compute; reflexivity).
  split; [exact H|]. apply (@serialize_deserialize_roundtrip amd64_conv claim_packet); [exact H|].
  split; [vm_compute; split; [discriminate | reflexivity]|].
  repeat constructor; vm_compute; try discriminate; reflexivity.
Defined.

(** A HELLO header with size field 4 after the packet header: the 16 bytes kill the receiver. *)
Lemma short_size_panics_witness :
  @DeserializePacket amd64_conv ([0; 16; 0; 1] ++ [] ++ [1; 2; 0; 4; 10; 0; 0; 9; 1; 0; 0; 7] ++ []) = Panic.
Proof.
  apply (@DeserializePacket_short_size_panics amd64_conv 0 16 0 1 [] []).
  - constructor.
  - reflexivity.
  - intros s0 s1 [= <-] [= <-]. vm_compute. split; [discriminate | reflexivity].
  - vm_compute. split; discriminate.
Defined.
