(* ===== verification/PacketRelay.v ===== *)
(** * Serializing parsed messages again (internal/olsr/packet.go)

    What forwarding needs of the codec: a message that came off the wire, of any
    known type but HELLO, serializes again, to at most the bytes it had, and
    parses back with the same fields. *)

From S2P Require Import Prelude GoNet TimeVal Packet PacketCodec.

(** The message types that have a parser. *)
Definition known_type (t : Z) : Prop :=
  t = MsgTypeHello ∨ t = MsgTypeTC ∨ t = MsgTypeMID ∨ t = MsgTypeHNA ∨
  t = MsgTypeSourceClaim ∨ t = MsgTypeConfirmParent.

#[export] Instance known_type_dec t : Decision (known_type t).
Proof. unfold known_type. apply _. Defined.

#[local] Opaque EncodeTimeVal DecodeTimeVal.

Lemma To4_or_id msg ips : Forall (λ ip, length ip = 4%nat) ips → res_mapM (To4_or msg) ips = Ok ips.
Proof.
  intros Hips. apply res_mapM_Ok. induction Hips as [|ip ips Hip _ IH]; constructor; [|done].
  unfold To4_or. by rewrite To4_ip4.
Qed.

Lemma canon_ip_id ip : length ip = 4%nat → canon_ip ip = ip.
Proof. intros Hip. unfold canon_ip. by rewrite To4_ip4. Qed.

Lemma canon_ips_id ips : Forall (λ ip, length ip = 4%nat) ips → canon_ip <$> ips = ips.
Proof.
  induction 1 as [|ip ips Hip _ IH]; [done|]. cbn [fmap list_fmap]. f_equal; [by apply canon_ip_id|exact IH].
Qed.

Lemma parse_addrs_inv data addrs : parse_addrs data = Ok addrs →
  Forall (λ ip, length ip = 4%nat) addrs ∧ (length (concat addrs) ≤ length data)%nat.
Proof.
  unfold parse_addrs. intros H%res_mapM_Ok.
  assert (Forall (λ ip, length ip = 4%nat) addrs) as Hf.
  { apply (Forall2_Forall_r _ _ _ _ H), Forall_forall. intros i _ y Hy. res_steps Hy.
    apply Ok_inj in Hy. rewrite cloneIP_id in Hy. subst. apply go_slice_length in H0. lia. }
  split; [done|]. pose proof (length_concat_const 4 addrs Hf). apply Forall2_length in H.
  rewrite length_seq in H. pose proof (Nat.div_mod_eq (length data) 4).
  change (list IP) with (list (list Z)) in *. unfold IP in *. lia.
Qed.

(** The lengths of all slices taken. *)
Ltac slice_lengths :=
  repeat match goal with H : go_slice _ _ _ = Ok _ |- _ => apply go_slice_length in H end.

Section relay.
Context {FC : FloatConv}.

(** A body that serializes again into at most [n] bytes and is in canonical form. *)
Definition relayable_body (t : Z) (body : Body) (n : nat) : Prop :=
  body_matches t body ∧ canon_body body = body ∧
  ∃ bs, serializeBody body = Ok bs ∧ (length bs ≤ n)%nat.

Lemma relay_tc data b : Forall is_u8 data → deserializeTCMessage data = Ok b →
  relayable_body MsgTypeTC (BodyTC b) (length data).
Proof.
  intros Hu8 H. unfold deserializeTCMessage in H. res_steps H. apply Ok_inj in H as <-. to_prop.
  pose proof (parse_addrs_inv _ _ H5) as [Hf Hl]. apply go_slice_length in H3 as Hl3.
  split; [|split]; simpl.
  - split; [done|]. eapply Uint16_is_u16; [|exact H2]. eapply go_slice_Forall; [exact Hu8|exact H1].
  - by rewrite canon_ips_id.
  - unfold serializeTCMessage. cbn [tc_NeighborAddresses ANSN]. rewrite To4_or_id, res_bind_Ok by done.
    eexists. split; [done|]. rewrite !length_app. simpl. lia.
Qed.

Lemma relay_mid data b : deserializeMIDMessage data = Ok b →
  relayable_body MsgTypeMID (BodyMID b) (length data).
Proof.
  intros H. unfold deserializeMIDMessage in H. res_steps H. apply Ok_inj in H as <-.
  pose proof (parse_addrs_inv _ _ H1) as [Hf Hl]. split; [done|]. split; simpl.
  - by rewrite canon_ips_id.
  - unfold serializeMIDMessage. cbn [Addresses]. rewrite To4_or_id, res_bind_Ok by done. eauto.
Qed.

(** An association as the parser builds it. *)
Definition parsed_assoc (a : HNAAssociation) : Prop :=
  length (assoc_Address a) = 4%nat ∧ net_IP (assoc_Netmask a) = assoc_Address a ∧
  length (net_Mask (assoc_Netmask a)) = 4%nat.

Lemma relay_assocs l : Forall parsed_assoc l →
  canon_assoc <$> l = l ∧
  ∃ bss, res_mapM serializeHNAAssociation l = Ok bss ∧ length (concat bss) = (8 * length l)%nat.
Proof.
  induction 1 as [|[ip [nip m]] l (Hip & Hn & Hm) _ (IH1 & bss & IH2 & Hl)]; [by eauto|].
  simpl in Hip, Hn, Hm. subst nip. split.
  - cbn [fmap list_fmap]. f_equal; [|exact IH1]. unfold canon_assoc. simpl. by rewrite !canon_ip_id.
  - exists ((ip ++ m) :: bss). split.
    + apply res_mapM_Ok. constructor; [|by apply res_mapM_Ok]. unfold serializeHNAAssociation. simpl.
      by rewrite !To4_ip4.
    + cbn [concat length]. rewrite !length_app. lia.
Qed.

Lemma relay_hna data b : deserializeHNAMessage data = Ok b →
  relayable_body MsgTypeHNA (BodyHNA b) (length data).
Proof.
  intros H. unfold deserializeHNAMessage in H. res_steps H. apply Ok_inj in H as <-.
  apply res_mapM_Ok in H1. pose proof (Forall2_length _ _ _ H1) as Hl. rewrite length_seq in Hl.
  assert (Forall parsed_assoc x0) as Hf.
  { apply (Forall2_Forall_r _ _ _ _ H1), Forall_forall. intros i _ y Hy. res_steps Hy.
    apply Ok_inj in Hy as <-. rewrite cloneIP_id, cloneMask_id.
    slice_lengths. split_and!; simpl; (done || lia). }
  destruct (relay_assocs _ Hf) as (Hc & bss & Hs & Hbl). split; [done|]. split; simpl.
  - by rewrite Hc.
  - unfold serializeHNAMessage. cbn [Associations]. rewrite Hs, res_bind_Ok. eexists. split; [done|].
    pose proof (Nat.div_mod_eq (length data) 8). lia.
Qed.

Lemma relay_source_claim data b : deserializeSourceClaimMessage data = Ok b →
  relayable_body MsgTypeSourceClaim (BodySourceClaim b) (length data).
Proof.
  intros H. unfold deserializeSourceClaimMessage in H. res_steps H. apply Ok_inj in H as <-. to_prop.
  rewrite !cloneIP_id. slice_lengths. split; [done|]. split; simpl.
  - by rewrite !canon_ip_id by lia.
  - unfold serializeSourceClaimMessage. cbn [sc_SourceIP sc_GroupID].
    rewrite !To4_ip4 by lia. eexists. split; [done|]. rewrite length_app. lia.
Qed.

Lemma relay_confirm_parent data b : deserializeConfirmParentMessage data = Ok b →
  relayable_body MsgTypeConfirmParent (BodyConfirmParent b) (length data).
Proof.
  intros H. unfold deserializeConfirmParentMessage in H. res_steps H. apply Ok_inj in H as <-. to_prop.
  rewrite !cloneIP_id. slice_lengths. split; [done|]. split; simpl.
  - by rewrite !canon_ip_id by lia.
  - unfold serializeConfirmParentMessage. cbn [cp_SourceIP cp_GroupID cp_ParentIP].
    rewrite !To4_ip4 by lia. eexists. split; [done|]. rewrite !length_app. lia.
Qed.

(** The types' tests, one after the other. *)
Lemma deserializeBody_cases t data body : deserializeBody t data = Ok body →
  (t = MsgTypeHello ∧ ∃ b, body = BodyHello b ∧ deserializeHelloMessage data = Ok b) ∨
  (t = MsgTypeTC ∧ ∃ b, body = BodyTC b ∧ deserializeTCMessage data = Ok b) ∨
  (t = MsgTypeMID ∧ ∃ b, body = BodyMID b ∧ deserializeMIDMessage data = Ok b) ∨
  (t = MsgTypeHNA ∧ ∃ b, body = BodyHNA b ∧ deserializeHNAMessage data = Ok b) ∨
  (t = MsgTypeSourceClaim ∧ ∃ b, body = BodySourceClaim b ∧ deserializeSourceClaimMessage data = Ok b) ∨
  (t = MsgTypeConfirmParent ∧ ∃ b, body = BodyConfirmParent b ∧ deserializeConfirmParentMessage data = Ok b) ∨
  (¬ known_type t ∧ body = BodyRaw data).
Proof.
  assert (∀ {A} (r : res A) (f : A → Body), f <$> r = Ok body → ∃ b, body = f b ∧ r = Ok b) as Hf.
  { intros A [b| | |] f E; try done. apply Ok_inj in E as <-. eauto. }
  unfold deserializeBody, known_type.
  repeat match goal with |- context [if t =? ?c then _ else _] => destruct (Z.eqb_spec t c) as [->|?] end;
    intros H; try apply Hf in H; try tauto.
  apply Ok_inj in H as <-. naive_solver.
Qed.

Lemma relay_body t data body : Forall is_u8 data → deserializeBody t data = Ok body →
  known_type t → t ≠ MsgTypeHello → relayable_body t body (length data).
Proof.
  intros Hu8 H%deserializeBody_cases Hk Hh.
  destruct H as [(-> & _)|[(-> & b & -> & H)|[(-> & b & -> & H)|[(-> & b & -> & H)|
    [(-> & b & -> & H)|[(-> & b & -> & H)|(? & _)]]]]]]; try done.
  - by apply relay_tc.
  - by apply relay_mid.
  - by apply relay_hna.
  - by apply relay_source_claim.
  - by apply relay_confirm_parent.
Qed.

(** ** Messages off the wire *)

(** A message parsed from an area of [n] bytes. *)
Record parsed_message (n : Z) (m : Message) : Prop := {
  pm_orig : is_ip4 (OriginatorAddress (msg_Header m));
  pm_ttl : is_u8 (TTL (msg_Header m));
  pm_hop : is_u8 (HopCount (msg_Header m));
  pm_seq : is_u16 (SeqNum (msg_Header m));
  pm_body : ∃ data, Forall is_u8 data ∧ 12 + Z.of_nat (length data) ≤ n ∧
    deserializeBody (msg_Type (msg_Header m)) data = Ok (msg_Body m);
}.

Lemma framed_parsed area ms : framed area ms → Forall is_u8 area →
  ∀ n, Z.of_nat (length area) ≤ n → Forall (parsed_message n) ms.
Proof.
  induction 1 as [|t v s0 s1 o0 o1 o2 o3 ttl hc q0 q1 data body rest ms Hsz Hbody Hms IH]; intros Hu8 n Hn;
    [constructor|].
  rewrite !length_app in Hn. simpl in Hn.
  rewrite !Forall_app in Hu8. destruct Hu8 as (Hh & Hd & Hr). rewrite !Forall_cons in Hh.
  destruct Hh as (? & ? & ? & ? & ? & ? & ? & ? & ? & ? & ? & ? & _).
  constructor; [|apply IH; (done || lia)]. split; simpl; try done.
  - split; [done|]. by repeat apply Forall_cons_2.
  - apply (Uint16_is_u16 [q0; q1]); [by repeat apply Forall_cons_2|done].
  - exists data. split; [done|]. split; [lia|done].
Qed.

Lemma deserialize_parsed data p : Forall is_u8 data → DeserializePacket data = Ok p →
  is_u16 (PacketSeqNum (pkt_Header p)) ∧ Forall (parsed_message 65531) (Messages p).
Proof.
  intros Hu8 (l0 & l1 & q0 & q1 & area & post & -> & Hl & -> & Hf)%deserialize_inv.
  rewrite !Forall_app in Hu8. destruct Hu8 as (Hh & Ha & _). rewrite !Forall_cons in Hh.
  destruct Hh as (? & ? & ? & ? & _).
  assert (is_u16 (Z.lor l1 (l0 ≪ 8))) as Hu by (apply (Uint16_is_u16 [l0; l1]); [by repeat apply Forall_cons_2|done]).
  split; [apply (Uint16_is_u16 [q0; q1]); [by repeat apply Forall_cons_2|done]|].
  eapply framed_parsed; [done|done|]. rewrite Hl in Hu. unfold is_u16 in Hu. lia.
Qed.

(** ** Addresses off the wire *)

(** The addresses a body lists are IPv4 addresses. *)
Definition body_addresses (b : Body) : Prop :=
  match b with
  | BodyHello b => Forall (λ lm, Forall is_ip4 (link_NeighborAddresses lm)) (LinkMessages b)
  | BodyTC b => Forall is_ip4 (tc_NeighborAddresses b)
  | _ => True
  end.

Lemma parse_addrs_ip4 data addrs : Forall is_u8 data → parse_addrs data = Ok addrs → Forall is_ip4 addrs.
Proof.
  intros Hu8 H. pose proof (parse_addrs_inv _ _ H) as [Hl _]. unfold parse_addrs in H. apply res_mapM_Ok in H.
  assert (Forall (Forall is_u8) addrs) as Hb.
  { apply (Forall2_Forall_r _ _ _ _ H), Forall_forall. intros i _ y Hy. res_steps Hy.
    apply Ok_inj in Hy. rewrite cloneIP_id in Hy. subst. eapply go_slice_Forall; [exact Hu8|exact H0]. }
  rewrite Forall_forall in *. intros ip Hip. split; [by apply Hl|by apply Hb].
Qed.

Lemma parse_links_ip4 data : Forall is_u8 data → ∀ fuel off acc lms,
  Forall (λ lm, Forall is_ip4 (link_NeighborAddresses lm)) acc → parse_links fuel data off acc = Ok lms →
  Forall (λ lm, Forall is_ip4 (link_NeighborAddresses lm)) lms.
Proof.
  intros Hu8. induction fuel as [|fuel IH]; intros off acc lms Hacc H; cbn [parse_links] in H;
    destruct (off <? length data)%nat; try done; try by apply Ok_inj in H as <-.
  res_steps H. eapply IH; [|exact H]. apply Forall_app. split; [done|]. apply Forall_singleton. simpl.
  eapply parse_addrs_ip4; [|eassumption]. eapply go_slice_Forall; [exact Hu8|eassumption].
Qed.

Lemma deserializeBody_addresses t data body : Forall is_u8 data → deserializeBody t data = Ok body → body_addresses body.
Proof.
  intros Hu8 [(_ & b & -> & H)|[(_ & b & -> & H)|[(_ & b & -> & _)|[(_ & b & -> & _)|
    [(_ & b & -> & _)|[(_ & b & -> & _)|(_ & ->)]]]]]]%deserializeBody_cases; simpl; try done.
  - unfold deserializeHelloMessage in H. res_steps H. apply Ok_inj in H as <-. simpl.
    eapply parse_links_ip4; [exact Hu8| |eassumption]. apply Forall_nil_2.
  - unfold deserializeTCMessage in H. res_steps H. apply Ok_inj in H as <-. simpl.
    eapply parse_addrs_ip4; [|eassumption]. eapply go_slice_Forall; [exact Hu8|eassumption].
Qed.

(** A parsed message, with other hop fields, crosses the wire again. *)
Lemma relay_roundtrip hdr m m' :
  is_u16 (PacketSeqNum hdr) → parsed_message 65531 m →
  known_type (msg_Type (msg_Header m)) → msg_Type (msg_Header m) ≠ MsgTypeHello →
  msg_Type (msg_Header m') = msg_Type (msg_Header m) →
  OriginatorAddress (msg_Header m') = OriginatorAddress (msg_Header m) →
  SeqNum (msg_Header m') = SeqNum (msg_Header m) → msg_Body m' = msg_Body m →
  ∃ data, SerializePacket (MkPacket hdr [m']) = Ok data ∧
    DeserializePacket data =
      Ok (MkPacket (MkPacketHeader (Z.of_nat (length data)) (PacketSeqNum hdr))
            [MkMessage (MkMessageHeader (msg_Type (msg_Header m)) (canon_time (Vtime (msg_Header m')))
               (OriginatorAddress (msg_Header m)) (TTL (msg_Header m')) (HopCount (msg_Header m'))
               (SeqNum (msg_Header m))) (msg_Body m)]).
Proof.
  intros Hseq [[Ho _] _ _ Hsq (d & Hu8 & Hd & Hb)] Hk Hh Et Eo Es Eb.
  destruct (relay_body _ _ _ Hu8 Hb Hk Hh) as (Hm & Hc & bs & Hbs & Hlen).
  assert (∃ mb, serializeMessage m' = Ok mb ∧ Z.of_nat (length mb) ≤ 65531) as (mb & Hmb & Hmbl).
  { unfold serializeMessage, To4_or. rewrite Eo, Eb, To4_ip4, res_bind_Ok, Hbs, res_bind_Ok by done.
    set (bytes := _ ++ _). assert (length bytes = 12 + length bs)%nat as Hl.
    { unfold bytes. rewrite !length_app, Ho. simpl. lia. }
    rewrite check_true, res_bind_Ok by (apply Z.leb_le; lia).
    eexists. split; [done|]. rewrite length_PutUint16. lia. }
  assert (∃ data, SerializePacket (MkPacket hdr [m']) = Ok data) as [data Hdata].
  { unfold SerializePacket. simpl. rewrite Hmb, !res_bind_Ok. cbn [concat]. rewrite app_nil_r.
    rewrite check_true by (apply Z.leb_le; simpl length; lia). eauto. }
  exists data. split; [done|]. rewrite (deserialize_serialize _ _ Hdata).
  - cbn [Messages pkt_Header fmap list_fmap]. unfold canon_message. rewrite Et, Eo, Es, Eb, Hc.
    by rewrite canon_ip_id.
  - split; [done|]. constructor; [|done]. split; [by rewrite Es|]. by rewrite Et, Eb.
Qed.
End relay.
