(* ===== verification/Events.v ===== *)
(** * Events and their payloads

    The values the managers hand to [EventBus.Publish] (internal/eventbus/bus.go,
    [Event]; the payloads come from internal/olsr/spf.go and molsr.go).  A
    manager's operation returns the list of events it publishes, in order; the
    delivery of an event to the subscribers is modelled in [EventBus]. *)

From S2P Require Import Prelude TimeVal.

Definition EventType := string.
Definition EventInterfaceUpdate : EventType := "interface_update".
Definition EventNeighborUpdate : EventType := "neighbor_update".
Definition EventTopologyUpdate : EventType := "topology_update".
Definition EventSPFTrigger : EventType := "spf_trigger".
Definition EventRouteInstall : EventType := "route_install".

(** A unicast route of the SPF engine. *)
Record Route := MkRoute {
  Prefix : string;     (* CIDR form *)
  NextHop : string;
  Metric : Z;
  IfaceIndex : Z;
}.

(** A multicast forwarding entry of the MOLSR manager. *)
Record MulticastForwardingEntry := MkMFE {
  mfe_SourceIP : string;
  mfe_GroupID : string;
  IIF : Z;
  OIFs : list Z;
}.

#[export] Instance Route_eq_dec : EqDecision Route.
Proof. solve_decision. Defined.
#[export] Instance MulticastForwardingEntry_eq_dec : EqDecision MulticastForwardingEntry.
Proof. solve_decision. Defined.

(** The dynamic values published as [Event.Data]: a string, or one of the
    [map[string]interface{}] literals of the code, by their keys. *)
Inductive EventData :=
  | DataString (s : string)
  | DataRoute (action : string) (route : Route)
  | DataMulticast (action : string) (entry : MulticastForwardingEntry)
  | DataStatus (status : string)
  | DataSPF (duration : float64) (route_count : Z).

Record Event := MkEvent { ev_Type : EventType; ev_Data : EventData }.
