(* ===== verification/DiffSync.v ===== *)
(** * Publishing the difference of two tables

    Both the SPF engine and the multicast manager publish the difference
    between their active and new tables as "add" and "delete" events, one loop
    over the old entries and one over the new.  This file has the argument they
    share: a consumer that applies the events follows the table. *)

From S2P Require Import Prelude Events.

Section sync.
Context {MO : MapOrder} {V F : Type}.
(** The key of an entry, the part of it the consumer forwards by, the test of a
    change, and the two events. *)
Context (key : V → string) (fwd : V → F) (changed : V → V → bool) (add del : V → Event).
(** The consumer. *)
Context (apply : gmap string V → Event → gmap string V).

Definition diff_events (p : list positive) (active new : gmap string V) : list Event :=
  omap (λ kv,
    match new !! kv.1 with
    | None => Some (del kv.2)
    | Some v' => if changed kv.2 v' then Some (add v') else None
    end) (range (1%positive :: p) active) ++
  omap (λ kv, match active !! kv.1 with None => Some (add kv.2) | Some _ => None end)
    (range (2%positive :: p) new).

(** Each entry is stored under its key. *)
Definition keyed (t : gmap string V) : Prop := ∀ k v, t !! k = Some v → key v = k.

Definition agrees (t t' : gmap string V) : Prop := fwd <$> t = fwd <$> t'.

Context (Hadd : ∀ t v, apply t (add v) = <[key v := v]> t).
Context (Hdel : ∀ t v, apply t (del v) = delete (key v) t).
Context (Hchanged : ∀ v v', changed v v' = false ↔ fwd v = fwd v').

Lemma foldl_omap {A B C} (g : C → B → C) (f : A → option B) c l :
  foldl g c (omap f l) = foldl (λ c x, match f x with Some y => g c y | None => c end) c l.
Proof. revert c. induction l as [|x l IH]; intros c; simpl; [done|]. by destruct (f x); simpl. Qed.

(** The old entries: withdrawn, replaced when changed, else kept. *)
Lemma withdraw_lookup p (active new t : gmap string V) k :
  keyed active → keyed new →
  foldl apply t (omap (λ kv,
    match new !! kv.1 with
    | None => Some (del kv.2)
    | Some v' => if changed kv.2 v' then Some (add v') else None
    end) (range p active)) !! k =
  match active !! k with
  | Some v => match new !! k with
              | None => None
              | Some v' => if changed v v' then Some v' else t !! k
              end
  | None => t !! k
  end.
Proof.
  intros Ha Hn. rewrite foldl_omap. revert k.
  apply (range_fold_ind (λ m t', ∀ k, t' !! k =
    match m !! k with
    | Some v => match new !! k with
                | None => None
                | Some v' => if changed v v' then Some v' else t !! k
                end
    | None => t !! k
    end)); simpl.
  - intros k. by rewrite lookup_empty.
  - intros k v m t' _ Hk Hm IH k'. pose proof (IH k) as IHk. rewrite Hm in IHk.
    destruct (decide (k = k')) as [<-|Hkk].
    + rewrite lookup_insert_eq. destruct (new !! k) as [v'|] eqn:En.
      * destruct (changed v v'); [|done]. rewrite Hadd, (Hn _ _ En). apply lookup_insert_eq.
      * rewrite Hdel, (Ha _ _ Hk). apply lookup_delete_eq.
    + rewrite lookup_insert_ne by done. rewrite <-IH. destruct (new !! k) as [v'|] eqn:En.
      * destruct (changed v v'); [|done]. rewrite Hadd, (Hn _ _ En). by apply lookup_insert_ne.
      * rewrite Hdel, (Ha _ _ Hk). by apply lookup_delete_ne.
Qed.

(** The new keys. *)
Lemma install_lookup p (active new t : gmap string V) k :
  keyed new →
  foldl apply t (omap (λ kv, match active !! kv.1 with None => Some (add kv.2) | Some _ => None end)
    (range p new)) !! k =
  match new !! k with
  | Some v => match active !! k with None => Some v | Some _ => t !! k end
  | None => t !! k
  end.
Proof.
  intros Hn. rewrite foldl_omap. revert k.
  apply (range_fold_ind (λ m t', ∀ k, t' !! k =
    match m !! k with
    | Some v => match active !! k with None => Some v | Some _ => t !! k end
    | None => t !! k
    end)); simpl.
  - intros k. by rewrite lookup_empty.
  - intros k v m t' _ Hk Hm IH k'. pose proof (IH k) as IHk. rewrite Hm in IHk.
    destruct (decide (k = k')) as [<-|Hkk].
    + rewrite lookup_insert_eq. destruct (active !! k); [done|].
      rewrite Hadd, (Hn _ _ Hk). apply lookup_insert_eq.
    + rewrite lookup_insert_ne by done. rewrite <-IH. destruct (active !! k); [done|].
      rewrite Hadd, (Hn _ _ Hk). by apply lookup_insert_ne.
Qed.

Lemma diff_events_agrees p active new t :
  keyed active → keyed new → agrees t active → agrees (foldl apply t (diff_events p active new)) new.
Proof.
  intros Ha Hn Ht. unfold diff_events. rewrite foldl_app.
  apply map_eq. intros k. apply (f_equal (.!! k)) in Ht. rewrite !lookup_fmap in *.
  rewrite install_lookup, withdraw_lookup by done.
  destruct (active !! k) as [v|], (new !! k) as [v'|]; simpl in *; try done.
  destruct (changed v v') eqn:E; simpl; [done|]. rewrite Ht. simpl. f_equal. by apply Hchanged.
Qed.

(** ** Withdrawals carry what they withdraw *)

(** Along the events, each withdrawal finds in the table an entry that forwards
    like the one it carries. *)
Fixpoint tracked (t : gmap string V) (evs : list Event) : Prop :=
  match evs with
  | [] => True
  | e :: evs => (∀ v, e = del v → fwd <$> t !! key v = Some (fwd v)) ∧ tracked (apply t e) evs
  end.

Lemma tracked_app t l1 l2 : tracked t (l1 ++ l2) ↔ tracked t l1 ∧ tracked (foldl apply t l1) l2.
Proof. revert t. induction l1 as [|e l1 IH]; intros t; simpl; [tauto|]. rewrite IH. tauto. Qed.

Context (Hdel_inj : ∀ v v', del v = del v' → v = v') (Hadd_del : ∀ v v', add v ≠ del v').

Lemma tracked_withdraw (new t : gmap string V) l : keyed new → NoDup l.*1 →
  (∀ kv, kv ∈ l → key kv.2 = kv.1 ∧ fwd <$> t !! kv.1 = Some (fwd kv.2)) →
  tracked t (omap (λ kv,
    match new !! kv.1 with
    | None => Some (del kv.2)
    | Some v' => if changed kv.2 v' then Some (add v') else None
    end) l).
Proof.
  intros Hn. revert t. induction l as [|[k v] l IH]; intros t Hnd Hl; [done|].
  apply NoDup_cons in Hnd as [Hk Hnd]. destruct (Hl (k, v)) as [Hkey Hv]; [by left|].
  assert (∀ kv, kv ∈ l → kv.1 ≠ k) as Hne by (intros kv Hkv E; apply Hk; rewrite <-E; exact (list_elem_of_fmap_2 fst l kv Hkv)).
  simpl. destruct (new !! k) as [v'|] eqn:E; [destruct (changed v v')|]; simpl.
  - split; [by intros v0 ?%Hadd_del|]. apply IH; [done|]. intros kv Hkv. destruct (Hl kv) as [H1 H2]; [by right|].
    split; [done|]. rewrite Hadd, (Hn _ _ E), lookup_insert_ne; [done|]. by apply not_eq_sym, Hne.
  - apply IH; [done|]. intros kv Hkv. apply Hl. by right.
  - split; [intros v0 <-%Hdel_inj; simpl in Hkey; by rewrite Hkey|]. apply IH; [done|].
    intros kv Hkv. destruct (Hl kv) as [H1 H2]; [by right|]. split; [done|].
    simpl in Hkey. rewrite Hdel, Hkey, lookup_delete_ne; [done|]. by apply not_eq_sym, Hne.
Qed.

Lemma tracked_install (active t : gmap string V) l :
  tracked t (omap (λ kv, match active !! kv.1 with None => Some (add kv.2) | Some _ => None end) l).
Proof.
  revert t. induction l as [|[k v] l IH]; intros t; [done|]. simpl. destruct (active !! k); simpl; [done|].
  split; [by intros v0 ?%Hadd_del|done].
Qed.

Lemma diff_events_tracked p active new t :
  keyed active → keyed new → agrees t active → tracked t (diff_events p active new).
Proof.
  intros Ha Hn Ht. unfold diff_events. rewrite tracked_app. split; [|apply tracked_install].
  apply tracked_withdraw; [done|apply NoDup_range_keys|]. intros [k v] Hkv%elem_of_range. simpl.
  split; [by apply Ha|]. apply (f_equal (.!! k)) in Ht. rewrite !lookup_fmap, Hkv in Ht. exact Ht.
Qed.

(** Entries that forward alike under the same keys make no event. *)
Lemma diff_events_quiet p active new : agrees active new → diff_events p active new = [].
Proof.
  intros Hag. unfold agrees in Hag.
  assert (∀ k, fwd <$> active !! k = fwd <$> new !! k) as Hk.
  { intros k. apply (f_equal (.!! k)) in Hag. by rewrite !lookup_fmap in Hag. }
  assert (∀ {A B} (f : A → option B) (l : list A), (∀ x, x ∈ l → f x = None) → omap f l = []) as Homap.
  { intros A B f l Hf. induction l as [|x l IH]; [done|]. simpl. rewrite Hf by constructor.
    apply IH. intros y Hy. apply Hf. by constructor. }
  unfold diff_events. rewrite !Homap; [done|..]; intros [k v] Hkv%elem_of_range; simpl; specialize (Hk k);
    rewrite Hkv in Hk; simpl in Hk.
  - by destruct (active !! k).
  - destruct (new !! k) as [v'|]; simpl in Hk; [|done]. injection Hk as Hk.
    apply Hchanged in Hk. by rewrite Hk.
Qed.
End sync.
