(* ===== verification/Neighbor.v ===== *)
(** * Link sensing and MPR selection (internal/olsr/neighbor.go)

    The [NeighborManager] state, [ProcessHello], [recalculateMPRs] with its
    helpers, [AgeOut] and the getters.  Operations run under [nm.mu], so each is
    one step from state to state; the pointers in the maps ([*LinkTuple],
    [*NeighborTuple]) are held by one map only, so updating through them is an
    insertion.  [now] is the operation's [time.Now()]; [now'] is the later one
    read inside [buildTwoHopNeighborsMap].  [p] identifies the execution for the
    order of map iterations. *)

From S2P Require Import Prelude GoNet TimeVal Packet Events.

Inductive LinkState :=
  | LinkStatePending
  | LinkStateAsymmetric
  | LinkStateSymmetric
  | LinkStateLost.

#[export] Instance LinkState_eq_dec : EqDecision LinkState.
Proof. solve_decision. Defined.

Definition LinkState_String (s : LinkState) : string :=
  match s with
  | LinkStatePending => "Pending"
  | LinkStateAsymmetric => "Asymmetric"
  | LinkStateSymmetric => "Symmetric"
  | LinkStateLost => "Lost"
  end.

Record LinkTuple := MkLinkTuple {
  LocalIP : string;
  link_NeighborIP : string;
  State : LinkState;
  AsymTime : Z;
  SymTime : Z;
  link_ExpirationTime : Z;
}.

Record NeighborTuple := MkNeighborTuple {
  neigh_NeighborIP : string;
  Symmetric : bool;
  neigh_Willingness : Z;
}.

Record NeighborManager := MkNeighborManager {
  nm_routerID : string;
  links : gmap string LinkTuple;                 (* by neighbor IP *)
  neighbors : gmap string NeighborTuple;         (* by neighbor IP *)
  twoHopLinks : gmap string (gmap string Z);     (* 1-hop IP, 2-hop IP, expiration *)
  mprSet : gmap string bool;                     (* by neighbor IP *)
  mprSelectors : gmap string Z;                  (* selector IP, expiration *)
}.

Definition NewNeighborManager (routerID : string) : NeighborManager :=
  MkNeighborManager routerID ∅ ∅ ∅ ∅ ∅.

(** Field assignments. *)
Definition set_links nm l :=
  MkNeighborManager (nm_routerID nm) l (neighbors nm) (twoHopLinks nm) (mprSet nm) (mprSelectors nm).
Definition set_neighbors nm n :=
  MkNeighborManager (nm_routerID nm) (links nm) n (twoHopLinks nm) (mprSet nm) (mprSelectors nm).
Definition set_twoHopLinks nm t :=
  MkNeighborManager (nm_routerID nm) (links nm) (neighbors nm) t (mprSet nm) (mprSelectors nm).
Definition set_mprSet nm s :=
  MkNeighborManager (nm_routerID nm) (links nm) (neighbors nm) (twoHopLinks nm) s (mprSelectors nm).
Definition set_mprSelectors nm s :=
  MkNeighborManager (nm_routerID nm) (links nm) (neighbors nm) (twoHopLinks nm) (mprSet nm) s.

(** [lm.LinkCode & 0x03] and [(lm.LinkCode >> 2) & 0x03]. *)
Definition linkType (lm : HelloLinkMessage) : Z := Z.land (LinkCode lm) 3.
Definition neighType (lm : HelloLinkMessage) : Z := Z.land (Z.shiftr (LinkCode lm) 2) 3.

Definition lists_address (id : string) (lm : HelloLinkMessage) : bool :=
  existsb (λ addr, bool_decide (IP_String addr = id)) (link_NeighborAddresses lm).

Definition checkLocalSymmetricLink (routerID : string) (hello : HelloMessage) : bool :=
  existsb (λ lm, lists_address routerID lm &&
      ((linkType lm =? LinkTypeSym) || (linkType lm =? LinkTypeAsym) ||
       (neighType lm =? NeighTypeSym) || (neighType lm =? NeighTypeMPR)))
    (LinkMessages hello).

Definition checkMPRSelection (routerID : string) (hello : HelloMessage) : bool :=
  existsb (λ lm, (neighType lm =? NeighTypeMPR) && lists_address routerID lm) (LinkMessages hello).

Definition updateTwoHopLinks (routerID : string) (twoHop : gmap string (gmap string Z))
    (origStr : string) (hello : HelloMessage) (expTime : Z) (symmetric : bool)
    : gmap string (gmap string Z) :=
  if symmetric then
    foldl (λ t lm,
      if (neighType lm =? NeighTypeSym) || (neighType lm =? NeighTypeMPR) then
        foldl (λ t addr,
          let addrStr := IP_String addr in
          if bool_decide (addrStr ≠ routerID) && bool_decide (addrStr ≠ origStr)
          then <[origStr := <[addrStr := expTime]> (map_map t origStr)]> t else t)
          t (link_NeighborAddresses lm)
      else t) (<[origStr := ∅]> twoHop) (LinkMessages hello)
  else delete origStr twoHop.

Section mpr.
Context {MO : MapOrder}.

(** The symmetric neighbors willing to relay. *)
Definition symmetric_1hop (p : list positive) (ns : gmap string NeighborTuple)
    : gmap string NeighborTuple :=
  foldl (λ acc kv, if Symmetric kv.2 && (WillNever <? neigh_Willingness kv.2)
                   then <[kv.1 := kv.2]> acc else acc) ∅ (range p ns).

Definition buildTwoHopNeighborsMap (p : list positive) (now : Z)
    (twoHop : gmap string (gmap string Z)) (symmetric1Hop : gmap string NeighborTuple)
    : gmap string (gmap string bool) :=
  foldl (λ acc kv,
    match symmetric1Hop !! kv.1 with
    | None => acc
    | Some n =>
        if negb (Symmetric n) then acc else
        foldl (λ acc te,
          if After now te.2 then acc
          else if bool_decide (is_Some (symmetric1Hop !! te.1)) then acc
          else <[te.1 := <[kv.1 := true]> (map_map acc te.1)]> acc)
          acc (range (encode kv.1 :: p) kv.2)
    end) ∅ (range p twoHop).

(** [for _, oneHops := range uncovered { if oneHops[ip] { coverCount++ } }] *)
Definition coverCount (p : list positive) (uncovered : gmap string (gmap string bool))
    (oneHopIP : string) : Z :=
  foldl (λ c kv, if map_bool kv.2 oneHopIP then c + 1 else c) 0 (range p uncovered).

(** Loop state of [selectGreedyMPR]: [bestOneHop], [bestCoverCount], [bestWill]. *)
Record Greedy := MkGreedy { bestOneHop : string; bestCoverCount : Z; bestWill : Z }.

Definition greedy_step (p : list positive) (twoHop : gmap string (gmap string Z))
    (uncovered : gmap string (gmap string bool)) (g : Greedy) (kv : string * NeighborTuple) : Greedy :=
  let cover := coverCount (encode kv.1 :: p) uncovered kv.1 in
  let will := neigh_Willingness kv.2 in
  if cover =? 0 then g
  else if bestCoverCount g <? cover then MkGreedy kv.1 cover will
  else if cover =? bestCoverCount g then
    if bestWill g <? will then MkGreedy kv.1 (bestCoverCount g) will
    else if will =? bestWill g then
      if (size (map_map twoHop (bestOneHop g)) <? size (map_map twoHop kv.1))%nat
      then MkGreedy kv.1 (bestCoverCount g) (bestWill g) else g
    else g
  else g.

Definition selectGreedyMPR (p : list positive) (twoHop : gmap string (gmap string Z))
    (symmetric1Hop : gmap string NeighborTuple) (uncovered : gmap string (gmap string bool)) : string :=
  bestOneHop (foldl (greedy_step p twoHop uncovered) (MkGreedy "" (-1) 0) (range p symmetric1Hop)).

(** The 2-hop neighbors that some single 1-hop neighbor alone reaches. *)
Definition forced_mprs (p : list positive) (twoHopNeighbors : gmap string (gmap string bool))
    : gmap string bool :=
  foldl (λ acc kv,
    if (size kv.2 =? 1)%nat
    then foldl (λ acc ob, <[ob.1 := true]> acc) acc (range (encode kv.1 :: p) kv.2)
    else acc) ∅ (range p twoHopNeighbors).

Definition covered_by (p : list positive) (newMpr oneHops : gmap string bool) : bool :=
  existsb (λ mb, map_bool oneHops mb.1) (range p newMpr).

Definition uncovered_nodes (p : list positive) (twoHopNeighbors : gmap string (gmap string bool))
    (newMpr : gmap string bool) : gmap string (gmap string bool) :=
  foldl (λ acc kv, if covered_by (encode kv.1 :: p) newMpr kv.2 then acc else <[kv.1 := kv.2]> acc)
    ∅ (range p twoHopNeighbors).

(** The greedy loop; [None] would be a loop that does not end ([mpr_loop_total]
    excludes it).  The path of an iteration carries the remaining fuel. *)
Fixpoint mpr_loop (fuel : nat) (p : list positive) (twoHop : gmap string (gmap string Z))
    (symmetric1Hop : gmap string NeighborTuple) (twoHopNeighbors : gmap string (gmap string bool))
    (newMpr : gmap string bool) : option (gmap string bool) :=
  match fuel with
  | O => None
  | S fuel =>
      let q := Pos.of_succ_nat fuel :: p in
      let uncovered := uncovered_nodes (1%positive :: q) twoHopNeighbors newMpr in
      if (size uncovered =? 0)%nat then Some newMpr
      else
        let best := selectGreedyMPR (2%positive :: q) twoHop symmetric1Hop uncovered in
        if bool_decide (best = "") then Some newMpr
        else mpr_loop fuel p twoHop symmetric1Hop twoHopNeighbors (<[best := true]> newMpr)
  end.

(** The new MPR set.  The loop runs at most once per 2-hop neighbor. *)
Definition computeMPRs (p : list positive) (now : Z) (nm : NeighborManager)
    : option (gmap string bool) :=
  let symmetric1Hop := symmetric_1hop (1%positive :: p) (neighbors nm) in
  let twoHopNeighbors := buildTwoHopNeighborsMap (2%positive :: p) now (twoHopLinks nm) symmetric1Hop in
  let newMpr := forced_mprs (3%positive :: p) twoHopNeighbors in
  mpr_loop (S (size twoHopNeighbors)) (4%positive :: p) (twoHopLinks nm) symmetric1Hop twoHopNeighbors newMpr.

Definition recalculateMPRs (p : list positive) (now : Z) (nm : NeighborManager) : NeighborManager :=
  match computeMPRs p now nm with
  | Some newMpr => set_mprSet nm newMpr
  | None => nm
  end.

(** ** Operations *)

Definition ProcessHello (p : list positive) (now now' : Z) (nm : NeighborManager)
    (senderIP originatorIP : IP) (hello : HelloMessage) (vtime : Z)
    : NeighborManager * list Event :=
  let senderStr := IP_String senderIP in
  let origStr := IP_String originatorIP in
  let expTime := now + vtime in
  (* 1. link state *)
  let link := default (MkLinkTuple (nm_routerID nm) senderStr LinkStateAsymmetric
                         time_zero time_zero time_zero) (links nm !! senderStr) in
  let isLocalSymmetric := checkLocalSymmetricLink (nm_routerID nm) hello in
  let oldState := State link in
  let link' :=
    if isLocalSymmetric
    then MkLinkTuple (LocalIP link) (link_NeighborIP link) LinkStateSymmetric (AsymTime link) expTime expTime
    else MkLinkTuple (LocalIP link) (link_NeighborIP link) LinkStateAsymmetric expTime (SymTime link) expTime in
  let nm := set_links nm (<[senderStr := link']> (links nm)) in
  (* 2. neighbor tuple *)
  let neigh := default (MkNeighborTuple origStr false 0) (neighbors nm !! origStr) in
  let symmetric := bool_decide (State link' = LinkStateSymmetric) in
  let neigh' := MkNeighborTuple (neigh_NeighborIP neigh) symmetric (Willingness hello) in
  let nm := set_neighbors nm (<[origStr := neigh']> (neighbors nm)) in
  (* MPR selector set *)
  let nm := if checkMPRSelection (nm_routerID nm) hello && symmetric
            then set_mprSelectors nm (<[origStr := expTime]> (mprSelectors nm)) else nm in
  (* 3. 2-hop neighbors *)
  let nm := set_twoHopLinks nm
              (updateTwoHopLinks (nm_routerID nm) (twoHopLinks nm) origStr hello expTime symmetric) in
  (* 4. MPR set *)
  if bool_decide (oldState ≠ State link')
  then (recalculateMPRs p now' nm, [MkEvent EventNeighborUpdate (DataString origStr)])
  else (nm, []).

(** The aging of one link: mark it lost, clear the neighbor's symmetry, drop its
    2-hop links. *)
Definition age_link (now : Z) (st : NeighborManager * bool) (kv : string * LinkTuple)
    : NeighborManager * bool :=
  let '(nm, changed) := st in
  let '(ip, link) := kv in
  if After now (link_ExpirationTime link) then
    if bool_decide (State link ≠ LinkStateLost) then
      let nm := set_links nm (<[ip := MkLinkTuple (LocalIP link) (link_NeighborIP link) LinkStateLost
                  (AsymTime link) (SymTime link) (link_ExpirationTime link)]> (links nm)) in
      let nm := match neighbors nm !! ip with
                | Some n => set_neighbors nm
                    (<[ip := MkNeighborTuple (neigh_NeighborIP n) false (neigh_Willingness n)]> (neighbors nm))
                | None => nm
                end in
      (set_twoHopLinks nm (delete ip (twoHopLinks nm)), true)
    else (nm, changed)
  else (nm, changed).

Definition AgeOut (p : list positive) (now now' : Z) (nm : NeighborManager)
    : NeighborManager * list Event * bool :=
  let '(nm, c1) := foldl (age_link now) (nm, false) (range (1%positive :: p) (links nm)) in
  let '(t, c2) := range_update (purge_nested (purge_expired id now)) (2%positive :: p) (twoHopLinks nm) in
  let nm := set_twoHopLinks nm t in
  let '(s, c3) := range_update (purge_expired id now) (3%positive :: p) (mprSelectors nm) in
  let nm := set_mprSelectors nm s in
  let changed := c1 || c2 || c3 in
  if changed
  then (recalculateMPRs (4%positive :: p) now' nm,
        [MkEvent EventNeighborUpdate (DataString "aging")], changed)
  else (nm, [], changed).

(** ** Getters *)

(** Neighbors whose link (looked up under the neighbor's address) is not lost. *)
Definition GetNeighbors (p : list positive) (nm : NeighborManager) : list NeighborTuple :=
  omap (λ kv, match links nm !! neigh_NeighborIP kv.2 with
              | Some l => if bool_decide (State l ≠ LinkStateLost) then Some kv.2 else None
              | None => None
              end) (range p (neighbors nm)).

Definition GetLinks (p : list positive) (nm : NeighborManager) : list LinkTuple :=
  (range p (links nm)).*2.

Definition GetMPRSet (p : list positive) (nm : NeighborManager) : list string :=
  (range p (mprSet nm)).*1.

Definition GetMPRSelectors (p : list positive) (now : Z) (nm : NeighborManager) : list string :=
  omap (λ kv, if Before now kv.2 then Some kv.1 else None) (range p (mprSelectors nm)).

Definition GetTwoHopNeighbors (p : list positive) (now : Z) (nm : NeighborManager)
    : gmap string (list string) :=
  foldl (λ acc kv,
    let l := omap (λ te, if Before now te.2 then Some te.1 else None)
               (range (encode kv.1 :: p) kv.2) in
    if (0 <? length l)%nat then <[kv.1 := l]> acc else acc) ∅ (range p (twoHopLinks nm)).
End mpr.
