(* ===== verification/MprSelection.v ===== *)
(** * Correctness of the MPR selection (internal/olsr/neighbor.go)

    The loops of [recalculateMPRs] and its helpers characterised by membership,
    then what the selection promises: it terminates, every relay it picks is a
    symmetric willing neighbor, the sole providers of a 2-hop neighbor are
    picked, each greedy pick is the lexicographic best, and every reachable
    2-hop neighbor ends up covered. *)

From S2P Require Import Prelude GoNet TimeVal Packet Events Neighbor.

(** ** The specification *)

(** A symmetric neighbor that is willing to relay. *)
Definition willing_symmetric (ns : gmap string NeighborTuple) (o : string) : Prop :=
  ∃ n, ns !! o = Some n ∧ Symmetric n = true ∧ WillNever < neigh_Willingness n.

(** [o] provides the 2-hop neighbor [t] at time [now]. *)
Definition reaches (now : Z) (nm : NeighborManager) (o t : string) : Prop :=
  willing_symmetric (neighbors nm) o ∧ ¬ willing_symmetric (neighbors nm) t ∧
  ∃ tw exp, twoHopLinks nm !! o = Some tw ∧ tw !! t = Some exp ∧ now ≤ exp.

(** What a set of multipoint relays has to be (RFC 3626, section 8.3). *)
Record mpr_set_ok (now : Z) (nm : NeighborManager) (s : gmap string bool) : Prop := {
  mpr_values o b : s !! o = Some b → b = true;
  mpr_sound o : is_Some (s !! o) → ∃ t, reaches now nm o t;
  mpr_forced o t : reaches now nm o t → (∀ o', reaches now nm o' t → o' = o) → is_Some (s !! o);
  mpr_covers o t : reaches now nm o t → ∃ o', is_Some (s !! o') ∧ reaches now nm o' t;
}.

Section loops.
Context {MO : MapOrder}.
Implicit Types (p : list positive) (sym ns : gmap string NeighborTuple)
  (two unc : gmap string (gmap string bool)) (mpr one : gmap string bool).

Lemma symmetric_1hop_lookup p ns o n :
  symmetric_1hop p ns !! o = Some n ↔
  ns !! o = Some n ∧ Symmetric n = true ∧ WillNever < neigh_Willingness n.
Proof.
  unfold symmetric_1hop.
  apply (range_fold_ind (λ m acc, acc !! o = Some n ↔
    m !! o = Some n ∧ Symmetric n = true ∧ WillNever < neigh_Willingness n)); simpl.
  - rewrite lookup_empty. naive_solver.
  - intros k v m acc _ _ Hk IH.
    destruct (decide (k = o)) as [<-|Hne].
    + rewrite lookup_insert_eq. destruct (Symmetric v && _) eqn:E.
      * rewrite lookup_insert_eq. to_prop. naive_solver.
      * rewrite IH, Hk. apply andb_false_iff in E as [E|E]; to_prop; naive_solver (congruence || lia).
    + rewrite lookup_insert_ne by done. case_match; [rewrite lookup_insert_ne by done|]; done.
Qed.

Lemma symmetric_1hop_is_Some p ns o :
  is_Some (symmetric_1hop p ns !! o) ↔ willing_symmetric ns o.
Proof.
  unfold willing_symmetric. split; intros [n Hn]; exists n; by apply (symmetric_1hop_lookup p).
Qed.

(** Every inner map is non-empty and holds [true] only. *)
Definition two_hop_map_ok two : Prop :=
  ∀ t one, two !! t = Some one → one ≠ ∅ ∧ ∀ o b, one !! o = Some b → b = true.

Definition provides two (o t : string) : Prop := ∃ one, two !! t = Some one ∧ is_Some (one !! o).

Lemma two_hop_map_ok_insert two t o :
  two_hop_map_ok two → two_hop_map_ok (<[t:=<[o:=true]> (map_map two t)]> two).
Proof.
  intros Hok t' one [[-> <-]|[? ?]]%lookup_insert_Some; [|by eapply Hok].
  split; [apply insert_non_empty|]. intros o' b [[-> <-]|[? Hb]]%lookup_insert_Some; [done|].
  unfold map_map in Hb. destruct (two !! t') eqn:E; simpl in Hb; [by eapply Hok|done].
Qed.

Lemma provides_insert two t o o' t' :
  provides (<[t:=<[o:=true]> (map_map two t)]> two) o' t' ↔
  (o' = o ∧ t' = t) ∨ provides two o' t'.
Proof.
  unfold provides, map_map. destruct (decide (t = t')) as [<-|Hne].
  - rewrite lookup_insert_eq. destruct (decide (o = o')) as [<-|Hne].
    + split; [by left|]. intros _. eexists. split; [done|]. by rewrite lookup_insert_eq.
    + split.
      * intros (? & [= <-] & Ho). rewrite lookup_insert_ne in Ho by done. right.
        destruct (two !! t); simpl in Ho; [by eauto | by destruct Ho].
      * intros [[-> _]|(one & E & Ho)]; [done|]. eexists. split; [done|].
        rewrite E, lookup_insert_ne by done. done.
  - rewrite lookup_insert_ne by done. naive_solver.
Qed.

Lemma buildTwoHopNeighborsMap_spec p now tw sym :
  (∀ o n, sym !! o = Some n → Symmetric n = true) →
  let two := buildTwoHopNeighborsMap p now tw sym in
  two_hop_map_ok two ∧
  ∀ o t, provides two o t ↔ is_Some (sym !! o) ∧ sym !! t = None ∧
    ∃ ths exp, tw !! o = Some ths ∧ ths !! t = Some exp ∧ now ≤ exp.
Proof.
  intros Hsym. unfold buildTwoHopNeighborsMap. simpl.
  apply (range_fold_ind (λ m acc, two_hop_map_ok acc ∧
    ∀ o t, provides acc o t ↔ is_Some (sym !! o) ∧ sym !! t = None ∧
    ∃ ths exp, m !! o = Some ths ∧ ths !! t = Some exp ∧ now ≤ exp)); simpl.
  - split; [intros t one; by rewrite lookup_empty|]. intros o t. unfold provides.
    setoid_rewrite lookup_empty. naive_solver.
  - intros o v m acc _ _ Ho [Hok IH].
    destruct (sym !! o) as [n|] eqn:En.
    2:{ split; [done|]. intros o' t. rewrite IH. destruct (decide (o = o')) as [<-|Hne].
        - rewrite En. split; intros [[? ?] _]; done.
        - by rewrite lookup_insert_ne. }
    rewrite (Hsym _ _ En). simpl.
    enough (two_hop_map_ok (foldl (λ acc te, if After now te.2 then acc
          else if bool_decide (is_Some (sym !! te.1)) then acc
          else <[te.1 := <[o := true]> (map_map acc te.1)]> acc) acc (range (encode o :: p) v)) ∧
      ∀ o' t, provides (foldl (λ acc te, if After now te.2 then acc
          else if bool_decide (is_Some (sym !! te.1)) then acc
          else <[te.1 := <[o := true]> (map_map acc te.1)]> acc) acc (range (encode o :: p) v)) o' t ↔
        provides acc o' t ∨ (o' = o ∧ sym !! t = None ∧ ∃ exp, v !! t = Some exp ∧ now ≤ exp))
      as [Hok' H'].
    { split; [done|]. intros o' t. rewrite H', IH. destruct (decide (o = o')) as [<-|Hne].
      - rewrite lookup_insert_eq, Ho, En. naive_solver.
      - rewrite lookup_insert_ne by done. naive_solver. }
    apply (range_fold_ind (λ m' acc', two_hop_map_ok acc' ∧ ∀ o' t, provides acc' o' t ↔
        provides acc o' t ∨ (o' = o ∧ sym !! t = None ∧ ∃ exp, m' !! t = Some exp ∧ now ≤ exp))); simpl.
    + split; [done|]. intros o' t. rewrite lookup_empty. naive_solver.
    + intros t exp m' acc' _ _ Ht [Hok' IH']. unfold After.
      destruct (exp <? now) eqn:E; to_prop.
      { split; [done|]. intros o' t'. rewrite IH'. destruct (decide (t = t')) as [<-|Hne].
        - rewrite lookup_insert_eq, Ht. naive_solver lia.
        - by rewrite lookup_insert_ne. }
      case_bool_decide as Es.
      { split; [done|]. intros o' t'. rewrite IH'. destruct (decide (t = t')) as [<-|Hne].
        - destruct Es as [? Es]. rewrite Es. naive_solver.
        - by rewrite lookup_insert_ne. }
      rewrite <-eq_None_not_Some in Es.
      split; [by apply two_hop_map_ok_insert|]. intros o' t'.
      rewrite provides_insert, IH'. destruct (decide (t = t')) as [<-|Hne].
      * rewrite lookup_insert_eq, Ht. naive_solver.
      * rewrite lookup_insert_ne by done. naive_solver.
Qed.

Lemma coverCount_size p unc o :
  coverCount p unc o = Z.of_nat (size (filter (λ kv, map_bool kv.2 o = true) unc)).
Proof.
  unfold coverCount.
  apply (range_fold_ind (λ m c, c = Z.of_nat (size (filter (λ kv, map_bool kv.2 o = true) m)))); simpl.
  - by rewrite map_filter_empty, map_size_empty.
  - intros t one m c _ _ Ht ->. destruct (map_bool one o) eqn:E.
    + rewrite map_filter_insert_True by done.
      rewrite map_size_insert_None by (apply map_lookup_filter_None; by left). lia.
    + rewrite map_filter_insert_False by (simpl; congruence). by rewrite delete_id.
Qed.

Lemma coverCount_pos p unc o :
  coverCount p unc o ≠ 0 ↔ ∃ t one, unc !! t = Some one ∧ map_bool one o = true.
Proof.
  rewrite coverCount_size. split.
  - intros Hne. destruct (decide (filter (λ kv, map_bool kv.2 o = true) unc = ∅)) as [E|E].
    + by rewrite E, map_size_empty in Hne.
    + apply map_choose in E as (t & one & [? ?]%map_lookup_filter_Some). eauto.
  - intros (t & one & ? & ?) E. assert (size (filter (λ kv, map_bool kv.2 o = true) unc) = 0%nat) as E' by lia.
    apply map_size_empty_inv in E'. apply (f_equal (.!! t)) in E'.
    rewrite lookup_empty, map_lookup_filter_None in E'. naive_solver.
Qed.

(** ** The greedy choice *)

(** The rank of a candidate: the number of uncovered 2-hop neighbors it
    provides, its willingness, its degree. *)
Definition rank (tw : gmap string (gmap string Z)) unc (o : string) (n : NeighborTuple) : Z * Z * nat :=
  (coverCount [] unc o, neigh_Willingness n, size (map_map tw o)).

(** Lexicographic order on ranks. *)
Definition rank_le (r s : Z * Z * nat) : Prop :=
  let '(c, w, d) := r in let '(c', w', d') := s in
  c < c' ∨ (c = c' ∧ (w < w' ∨ (w = w' ∧ (d ≤ d')%nat))).

Lemma rank_le_trans r s t : rank_le r s → rank_le s t → rank_le r t.
Proof. destruct r as [[??]?], s as [[??]?], t as [[??]?]. simpl. lia. Qed.

Lemma rank_le_refl r : rank_le r r.
Proof. destruct r as [[??]?]. simpl. lia. Qed.

(** The state of the loop: nothing chosen while no visited candidate provides
    anything, else the best of the visited ones. *)
Definition greedy_inv tw unc (visited : gmap string NeighborTuple) (g : Greedy) : Prop :=
  (g = MkGreedy "" (-1) 0 ∧ ∀ o n, visited !! o = Some n → coverCount [] unc o = 0) ∨
  (∃ n, visited !! bestOneHop g = Some n ∧ coverCount [] unc (bestOneHop g) ≠ 0 ∧
     bestCoverCount g = coverCount [] unc (bestOneHop g) ∧ bestWill g = neigh_Willingness n ∧
     ∀ o n', visited !! o = Some n' → coverCount [] unc o ≠ 0 →
       rank_le (rank tw unc o n') (rank tw unc (bestOneHop g) n)).

Lemma coverCount_path p unc o : coverCount p unc o = coverCount [] unc o.
Proof. by rewrite !coverCount_size. Qed.

Lemma coverCount_nonneg p unc o : 0 ≤ coverCount p unc o.
Proof. rewrite coverCount_size. lia. Qed.

Lemma greedy_step_inv p tw unc visited g o n :
  visited !! o = None → greedy_inv tw unc visited g →
  greedy_inv tw unc (<[o:=n]> visited) (greedy_step p tw unc g (o, n)).
Proof.
  intros Ho Hg. unfold greedy_step. simpl. rewrite coverCount_path.
  pose proof (coverCount_nonneg [] unc o) as Hpos.
  destruct (Z.eqb_spec (coverCount [] unc o) 0) as [E0|E0].
  { destruct Hg as [[-> H0]|(m & ? & ? & ? & ? & Hbest)]; [left|right].
    - split; [done|]. intros o' n' [[<- <-]|[? ?]]%lookup_insert_Some; eauto.
    - exists m. rewrite lookup_insert_ne by congruence. repeat split; [done..|].
      intros o' n' [[<- <-]|[? ?]]%lookup_insert_Some ?; [done|eauto]. }
  assert (∀ g', bestOneHop g' = o → bestCoverCount g' = coverCount [] unc o →
    bestWill g' = neigh_Willingness n →
    (∀ o' n', visited !! o' = Some n' → coverCount [] unc o' ≠ 0 →
       rank_le (rank tw unc o' n') (rank tw unc o n)) →
    greedy_inv tw unc (<[o:=n]> visited) g') as Hnew.
  { intros g' <- ? ? Hle. right. exists n. rewrite lookup_insert_eq. repeat split; [done..|].
    intros o' n' [[<- <-]|[? ?]]%lookup_insert_Some ?; [apply rank_le_refl|eauto]. }
  destruct Hg as [[-> H0]|(m & Hm & Hm0 & Hc & Hw & Hbest)]; simpl.
  { destruct (Z.ltb_spec (-1) (coverCount [] unc o)); [|lia].
    apply Hnew; [done..|]. intros o' n' Hv ?. by rewrite (H0 _ _ Hv) in *. }
  assert (rank_le (rank tw unc (bestOneHop g) m) (rank tw unc o n) → ∀ o' n',
    visited !! o' = Some n' → coverCount [] unc o' ≠ 0 → rank_le (rank tw unc o' n') (rank tw unc o n))
    as Hup by (intros; eapply rank_le_trans; eauto).
  assert (rank_le (rank tw unc o n) (rank tw unc (bestOneHop g) m) →
    greedy_inv tw unc (<[o:=n]> visited) g) as Hkeep.
  { intros Hle. right. exists m. rewrite lookup_insert_ne by congruence. repeat split; [done..|].
    intros o' n' [[<- <-]|[? ?]]%lookup_insert_Some ?; [done|eauto]. }
  rewrite Hc, Hw in *. simpl in *.
  repeat case_match; to_prop; first [apply Hnew; simpl; try done; apply Hup; lia | apply Hkeep; lia].
Qed.

Lemma selectGreedyMPR_inv p tw sym unc :
  ∃ g, bestOneHop g = selectGreedyMPR p tw sym unc ∧ greedy_inv tw unc sym g.
Proof.
  eexists. split; [done|]. unfold selectGreedyMPR.
  apply (range_fold_ind (λ m g, greedy_inv tw unc m g)).
  - left. split; [done|]. intros o n. by rewrite lookup_empty.
  - intros o n m g _ _ Hm Hg. by apply greedy_step_inv.
Qed.

(** The greedy choice.  Whatever the iteration orders, [selectGreedyMPR]
    returns the symmetric willing neighbor that is lexicographically maximal by
    (number of uncovered 2-hop neighbors it provides, willingness, degree),
    among those that provide at least one; it returns the empty string exactly
    when none does. *)
Theorem selectGreedyMPR_best p tw sym unc :
  sym !! "" = None →
  let best := selectGreedyMPR p tw sym unc in
  if decide (best = "") then ∀ o, is_Some (sym !! o) → coverCount p unc o = 0
  else ∃ n, sym !! best = Some n ∧ 0 < coverCount p unc best ∧
    ∀ o n', sym !! o = Some n' → 0 < coverCount p unc o →
      rank_le (coverCount p unc o, neigh_Willingness n', size (map_map tw o))
              (coverCount p unc best, neigh_Willingness n, size (map_map tw best)).
Proof.
  intros He best. destruct (selectGreedyMPR_inv p tw sym unc) as (g & Hg & Hinv). subst best.
  rewrite <-Hg. destruct Hinv as [[-> H0]|(n & Hn & Hpos & Hc & Hw & Hbest)].
  - simpl. intros o [n Hn]. rewrite coverCount_path. eauto.
  - rewrite decide_False by congruence. exists n. rewrite coverCount_path.
    pose proof (coverCount_nonneg [] unc (bestOneHop g)). split; [done|]. split; [lia|].
    intros o n' Ho. rewrite coverCount_path. intros. apply Hbest; [done|lia].
Qed.

(** ** The loop *)

Lemma covered_by_spec p mpr one :
  covered_by p mpr one = true ↔ ∃ o, is_Some (mpr !! o) ∧ map_bool one o = true.
Proof.
  unfold covered_by. rewrite range_existsb. split.
  - intros (o & b & ? & ?). eauto.
  - intros (o & [b ?] & ?). eauto.
Qed.

Lemma uncovered_nodes_lookup p two mpr t one :
  uncovered_nodes p two mpr !! t = Some one ↔
  two !! t = Some one ∧ ∀ o, is_Some (mpr !! o) → map_bool one o = false.
Proof.
  assert (∀ q one, covered_by q mpr one = false ↔ ∀ o, is_Some (mpr !! o) → map_bool one o = false) as Hc.
  { intros q one'. rewrite <-not_true_iff_false, covered_by_spec. setoid_rewrite <-not_true_iff_false.
    naive_solver. }
  unfold uncovered_nodes.
  apply (range_fold_ind (λ m acc, acc !! t = Some one ↔ m !! t = Some one ∧
    ∀ o, is_Some (mpr !! o) → map_bool one o = false)); simpl.
  - rewrite lookup_empty. naive_solver.
  - intros t' one' m acc _ _ Ht' IH. destruct (decide (t' = t)) as [->|Hne].
    + rewrite lookup_insert_eq. destruct (covered_by _ mpr one') eqn:E.
      * rewrite IH, Ht'. split; [naive_solver|]. intros [[= <-] H']. rewrite <-Hc, E in H'. done.
      * rewrite lookup_insert_eq. rewrite Hc in E. naive_solver.
    + rewrite lookup_insert_ne by done. case_match; [|rewrite lookup_insert_ne by done]; done.
Qed.

Lemma forced_mprs_lookup p two o b :
  two_hop_map_ok two →
  forced_mprs p two !! o = Some b ↔
  b = true ∧ ∃ t one, two !! t = Some one ∧ size one = 1%nat ∧ is_Some (one !! o).
Proof.
  intros _. unfold forced_mprs.
  apply (range_fold_ind (λ m acc, acc !! o = Some b ↔
    b = true ∧ ∃ t one, m !! t = Some one ∧ size one = 1%nat ∧ is_Some (one !! o))); simpl.
  - setoid_rewrite lookup_empty. naive_solver.
  - intros t one m acc _ _ Ht IH.
    enough ((if (size one =? 1)%nat
             then foldl (λ acc ob, <[ob.1:=true]> acc) acc (range (encode t :: p) one)
             else acc) !! o = Some b ↔
            (b = true ∧ size one = 1%nat ∧ is_Some (one !! o)) ∨ acc !! o = Some b) as ->.
    { rewrite IH. split.
      - intros [(-> & ? & ?)|(-> & t' & one' & ? & ? & ?)]; (split; [done|]).
        + exists t, one. by rewrite lookup_insert_eq.
        + exists t', one'. rewrite lookup_insert_ne by congruence. done.
      - intros (-> & t' & one' & [[<- <-]|[? ?]]%lookup_insert_Some & ? & ?); [by left|right]. eauto 10. }
    destruct (Nat.eqb_spec (size one) 1) as [E|E]; [|naive_solver].
    transitivity ((b = true ∧ is_Some (one !! o)) ∨ acc !! o = Some b); [|naive_solver].
    apply (range_fold_ind (λ m' acc', acc' !! o = Some b ↔
      (b = true ∧ is_Some (m' !! o)) ∨ acc !! o = Some b)); simpl.
    + rewrite lookup_empty, is_Some_alt. naive_solver.
    + intros o' b' m' acc' _ _ Ho' IH'. destruct (decide (o' = o)) as [->|Hne].
      * rewrite !lookup_insert_eq. destruct (decide (b = true)) as [->|Hb]; [naive_solver|].
        split; [intros [= <-]; done|]. intros [[? ?]|H']; [done|].
        rewrite H' in IH'. destruct b; [done|]. exfalso.
        destruct IH as [IH _]. by destruct (IH H').
      * by rewrite !lookup_insert_ne.
Qed.

(** The picks the loop makes, whatever its fuel: they keep what was picked,
    each is [true], provides a 2-hop neighbor and is among the candidates. *)
Lemma mpr_loop_sound fuel p tw sym two mpr s :
  mpr_loop fuel p tw sym two mpr = Some s →
  mpr ⊆ s ∧ ∀ o, is_Some (s !! o) → is_Some (mpr !! o) ∨
    (s !! o = Some true ∧ is_Some (sym !! o) ∧
     ∃ t one, two !! t = Some one ∧ map_bool one o = true).
Proof.
  revert mpr. induction fuel as [|fuel IH]; intros mpr Hs; simpl in Hs; [done|].
  set (unc := uncovered_nodes _ two mpr) in Hs.
  destruct (size unc =? 0)%nat; [injection Hs as <-; eauto|].
  case_bool_decide as Eb; [injection Hs as <-; eauto|].
  destruct (selectGreedyMPR_inv (2%positive :: Pos.of_succ_nat fuel :: p) tw sym unc)
    as (g & Hg & [[-> _]|(n & Hn & Hpos & _)]); [by rewrite <-Hg in Eb|].
  rewrite <-Hg in Hs. clear Hg Eb. set (best := bestOneHop g) in *.
  apply coverCount_pos in Hpos as (t & one & Hunc & Hone).
  apply uncovered_nodes_lookup in Hunc as [Ht Hcov].
  apply IH in Hs as [Hsub Hin].
  assert (mpr !! best = None) as Hnew.
  { apply eq_None_not_Some. intros Hb%Hcov. congruence. }
  split; [by etrans; [apply insert_subseteq|]|].
  intros o Ho. destruct (Hin _ Ho) as [H'|H']; [|by right].
  destruct (decide (best = o)) as [<-|Hne].
  - right. split; [eapply lookup_weaken; [|done]; apply lookup_insert_eq|]. eauto.
  - rewrite lookup_insert_ne in H' by done. by left.
Qed.

Lemma uncovered_nodes_subseteq p p' two mpr mpr' :
  mpr ⊆ mpr' → uncovered_nodes p two mpr' ⊆ uncovered_nodes p' two mpr.
Proof.
  intros Hsub. apply map_subseteq_spec. intros t one.
  rewrite !uncovered_nodes_lookup. intros [? Hc]. split; [done|].
  intros o [b Hb]. apply Hc. exists b. by eapply lookup_weaken.
Qed.

(** The measure of the loop: each iteration covers one more 2-hop neighbor. *)
Lemma mpr_loop_total fuel p tw sym two mpr :
  (size (uncovered_nodes [] two mpr) < fuel)%nat →
  is_Some (mpr_loop fuel p tw sym two mpr).
Proof.
  revert mpr. induction fuel as [|fuel IH]; intros mpr Hfuel; [lia|]. simpl.
  set (unc := uncovered_nodes _ two mpr).
  destruct (size unc =? 0)%nat; [eauto|]. case_bool_decide as Eb; [eauto|].
  destruct (selectGreedyMPR_inv (2%positive :: Pos.of_succ_nat fuel :: p) tw sym unc)
    as (g & Hg & [[-> _]|(n & Hn & Hpos & _)]); [by rewrite <-Hg in Eb|].
  rewrite <-Hg. set (best := bestOneHop g) in *. apply IH.
  apply coverCount_pos in Hpos as (t & one & Hunc & Hone).
  assert (uncovered_nodes [] two mpr = unc) as Heq
    by (apply map_subseteq_po; by apply uncovered_nodes_subseteq).
  eapply Nat.lt_le_trans; [|apply Nat.lt_succ_r, Hfuel]. apply map_subset_size. split.
  - apply uncovered_nodes_subseteq, insert_subseteq.
    apply eq_None_not_Some. intros Hb.
    apply uncovered_nodes_lookup in Hunc as [_ Hc]. rewrite (Hc _ Hb) in Hone. done.
  - rewrite map_subseteq_spec. intros Hsub. rewrite Heq in Hsub.
    specialize (Hsub _ _ Hunc). apply uncovered_nodes_lookup in Hsub as [_ Hc].
    rewrite (Hc best) in Hone; [done|]. rewrite lookup_insert_eq. eauto.
Qed.

(** When the loop ends nothing is left to cover that a candidate provides. *)
Lemma mpr_loop_covers fuel p tw sym two mpr s t one o :
  sym !! "" = None → mpr_loop fuel p tw sym two mpr = Some s →
  two !! t = Some one → map_bool one o = true → is_Some (sym !! o) →
  ∃ o', is_Some (s !! o') ∧ map_bool one o' = true.
Proof.
  intros He Hs Ht Hone Ho. revert mpr Hs. induction fuel as [|fuel IH]; intros mpr Hs; simpl in Hs; [done|].
  set (unc := uncovered_nodes _ two mpr) in Hs.
  assert (unc !! t = None → ∃ o', is_Some (mpr !! o') ∧ map_bool one o' = true) as Hdone.
  { intros Hunc. apply (covered_by_spec []). apply not_false_iff_true. intros Hc. apply eq_None_not_Some in Hunc.
    apply Hunc. exists one. apply uncovered_nodes_lookup. split; [done|]. intros o' Ho'.
    apply not_true_iff_false. intros Hb.
    apply (not_true_iff_false (covered_by [] mpr one)) in Hc. apply Hc, covered_by_spec. eauto. }
  destruct (Nat.eqb_spec (size unc) 0) as [E|E].
  { injection Hs as <-. apply Hdone. apply map_size_empty_inv in E. by rewrite E, lookup_empty. }
  case_bool_decide as Eb; [|by eapply IH].
  injection Hs as <-. apply Hdone, eq_None_not_Some. intros [one' Hunc].
  pose proof (proj1 (uncovered_nodes_lookup _ _ _ _ _) Hunc) as [? _]. simplify_eq.
  destruct (selectGreedyMPR_inv (2%positive :: Pos.of_succ_nat fuel :: p) tw sym unc)
    as (g & Hg & [[_ H0]|(n & Hn & _)]); [|rewrite Hg, Eb in Hn; congruence].
  destruct Ho as [n Hn]. apply H0 in Hn.
  apply (proj2 (coverCount_pos [] unc o)) in Hn; [done|]. eauto.
Qed.

(** ** The whole computation *)

Definition two_hop_table p now nm : gmap string (gmap string bool) :=
  buildTwoHopNeighborsMap (2%positive :: p) now (twoHopLinks nm)
    (symmetric_1hop (1%positive :: p) (neighbors nm)).

Lemma two_hop_table_spec p now nm :
  two_hop_map_ok (two_hop_table p now nm) ∧
  ∀ o t, provides (two_hop_table p now nm) o t ↔ reaches now nm o t.
Proof.
  destruct (buildTwoHopNeighborsMap_spec (2%positive :: p) now (twoHopLinks nm)
    (symmetric_1hop (1%positive :: p) (neighbors nm))) as [Hok Hp].
  { intros o n Ho%symmetric_1hop_lookup. naive_solver. }
  split; [done|]. intros o t. unfold two_hop_table, reaches. rewrite Hp.
  by rewrite eq_None_not_Some, !symmetric_1hop_is_Some.
Qed.

Lemma two_hop_map_bool two t one o :
  two_hop_map_ok two → two !! t = Some one → map_bool one o = true ↔ is_Some (one !! o).
Proof.
  intros Hok Ht. unfold map_bool. destruct (one !! o) as [b|] eqn:E; simpl.
  - destruct (Hok _ _ Ht) as [_ Hb]. apply Hb in E as ->. split; eauto.
  - split; [done|]. by intros [].
Qed.

Lemma computeMPRs_total p now nm : is_Some (computeMPRs p now nm).
Proof.
  unfold computeMPRs. apply mpr_loop_total. apply Nat.lt_succ_r, map_subseteq_size.
  apply map_subseteq_spec. intros t one [? _]%uncovered_nodes_lookup. done.
Qed.

Lemma computeMPRs_correct p now nm s :
  neighbors nm !! "" = None → computeMPRs p now nm = Some s → mpr_set_ok now nm s.
Proof.
  intros He Hs. pose proof (two_hop_table_spec p now nm) as [Hok Hp].
  unfold computeMPRs in Hs. fold (two_hop_table p now nm) in Hs.
  set (two := two_hop_table p now nm) in *.
  set (sym := symmetric_1hop _ _) in Hs.
  destruct (mpr_loop_sound _ _ _ _ _ _ _ Hs) as [Hsub Hin].
  assert (∀ o b, s !! o = Some b → b = true ∧ ∃ t, reaches now nm o t) as Hsound.
  { intros o b Hb. destruct (Hin o) as [[b' Hf]|(Ht & _ & t & one & Ht' & Hone)]; [eauto|..].
    - pose proof (lookup_weaken _ _ _ _ Hf Hsub) as Hb'. simplify_eq.
      apply forced_mprs_lookup in Hf as (-> & t & one & ? & _ & ?); [|done].
      split; [done|]. exists t. apply Hp. exists one. done.
    - simplify_eq. split; [done|]. exists t. apply Hp. exists one. split; [done|].
      by apply (two_hop_map_bool two t). }
  split.
  - intros o b Hb. by apply Hsound in Hb as [-> _].
  - intros o [b Hb]. by apply Hsound in Hb as [_ ?].
  - intros o t Ho Huniq. apply Hp in Ho as (one & Ht & Hone).
    assert (one = {[o := true]}) as ->.
    { apply map_eq. intros o'. destruct (decide (o' = o)) as [->|Hne].
      - rewrite lookup_singleton_eq. apply (two_hop_map_bool two t) in Hone; [|done..].
        unfold map_bool in Hone. by destruct (one !! o) as [[]|].
      - rewrite lookup_singleton_ne by done. apply eq_None_not_Some. intros Ho'.
        apply Hne, Huniq, Hp. by exists one. }
    exists true. eapply lookup_weaken; [|done]. apply forced_mprs_lookup; [done|].
    split; [done|]. exists t, {[o := true]}. by rewrite map_size_singleton.
  - intros o t Ho. pose proof Ho as [Hw _].
    apply Hp in Ho as (one & Ht & Hone).
    assert (sym !! "" = None) as Hes.
    { apply eq_None_not_Some. intros Hs'%symmetric_1hop_is_Some. destruct Hs' as (n & ? & _). congruence. }
    destruct (mpr_loop_covers _ _ _ _ _ _ _ t one o Hes Hs) as (o' & Ho' & Hone').
    + done.
    + by apply (two_hop_map_bool two t).
    + by apply symmetric_1hop_is_Some.
    + exists o'. split; [done|]. apply Hp. exists one. split; [done|].
      by apply (two_hop_map_bool two t).
Qed.

(** C6. The MPR computation.  [recalculateMPRs] terminates (the fuel never runs
    out) and, whatever the orders of its map iterations, sets [mprSet] to a
    correct set of multipoint relays: each relay is a symmetric neighbor of
    non-zero willingness that provides a 2-hop neighbor, the only provider of
    a 2-hop neighbor is in the set, and every strict 2-hop neighbor provided
    by some willing neighbor is covered by a relay.  Nothing else changes. *)
Theorem recalculateMPRs_correct p now nm :
  neighbors nm !! "" = None →
  mpr_set_ok now nm (mprSet (recalculateMPRs p now nm)) ∧
  set_mprSet (recalculateMPRs p now nm) (mprSet nm) = nm.
Proof.
  intros He. unfold recalculateMPRs. destruct (computeMPRs_total p now nm) as [s Hs].
  rewrite Hs. split; [by eapply computeMPRs_correct|]. by destruct nm.
Qed.
End loops.

(** A node with two relays: "a" alone provides "x", "a" and "b" provide "y",
    "b" alone provides "z"; "n" is symmetric but unwilling. *)
Definition example_manager : NeighborManager :=
  MkNeighborManager "r" ∅
    {["a" := MkNeighborTuple "a" true 3; "b" := MkNeighborTuple "b" true 3;
      "n" := MkNeighborTuple "n" true 0]}
    {["a" := {["x" := 10; "y" := 10]}; "b" := {["y" := 10; "z" := 10]};
      "n" := {["w" := 10]}]} ∅ ∅.

Lemma recalculateMPRs_correct_witness :
  mpr_set_ok 5 example_manager (mprSet (@recalculateMPRs canonical_order [] 5 example_manager)) ∧
  mprSet (@recalculateMPRs canonical_order [] 5 example_manager) = {["a" := true; "b" := true]}.
Proof.
  split; [|vm_compute; reflexivity].
  apply (@recalculateMPRs_correct canonical_order [] 5 example_manager). reflexivity.
Defined.

Lemma selectGreedyMPR_best_witness :
  neighbors example_manager !! "" = None ∧
  @selectGreedyMPR canonical_order [] (twoHopLinks example_manager)
    (neighbors example_manager) {["y" := {["a" := true]}]} = "a" ∧
  ∃ n, neighbors example_manager !! "a" = Some n ∧
    0 < @coverCount canonical_order [] {["y" := {["a" := true]}]} "a".
Proof.
  split; [reflexivity|]. split; [vm_compute; reflexivity|].
  pose proof (@selectGreedyMPR_best canonical_order [] (twoHopLinks example_manager)
    (neighbors example_manager) {["y" := {["a" := true]}]} eq_refl) as H. simpl in H.
  replace (@selectGreedyMPR _ _ _ _ _) with "a" in H by (vm_compute; reflexivity).
  destruct H as (n & ? & ? & _). by exists n.
Defined.
