(* ===== verification/NeighborTables.v ===== *)
(** * The tables of the neighbor manager (internal/olsr/neighbor.go)

    What [ProcessHello] and [AgeOut] do to the link, neighbor, 2-hop and MPR
    selector tables. *)

From S2P Require Import Prelude GoNet TimeVal Packet Events Neighbor MprSelection.

(** ** HELLO contents *)

(** The HELLO lists the address [t] as a symmetric neighbor or a relay. *)
Definition hello_lists (hello : HelloMessage) (t : string) : Prop :=
  ∃ lm addr, lm ∈ LinkMessages hello ∧ addr ∈ link_NeighborAddresses lm ∧ IP_String addr = t ∧
    (neighType lm = NeighTypeSym ∨ neighType lm = NeighTypeMPR).

(** The HELLO lists the address [t] in a link block that shows the sender
    hears it: a symmetric or asymmetric link, or a symmetric or MPR neighbor. *)
Definition hello_hears (hello : HelloMessage) (t : string) : Prop :=
  ∃ lm addr, lm ∈ LinkMessages hello ∧ addr ∈ link_NeighborAddresses lm ∧ IP_String addr = t ∧
    (linkType lm = LinkTypeSym ∨ linkType lm = LinkTypeAsym ∨
     neighType lm = NeighTypeSym ∨ neighType lm = NeighTypeMPR).

Lemma lists_address_spec id lm :
  lists_address id lm = true ↔ ∃ addr, addr ∈ link_NeighborAddresses lm ∧ IP_String addr = id.
Proof.
  unfold lists_address. rewrite existsb_exists. setoid_rewrite bool_decide_eq_true.
  by setoid_rewrite list_elem_of_In.
Qed.

Lemma checkLocalSymmetricLink_spec id hello :
  checkLocalSymmetricLink id hello = true ↔ hello_hears hello id.
Proof.
  unfold checkLocalSymmetricLink, hello_hears. rewrite existsb_exists.
  setoid_rewrite andb_true_iff. setoid_rewrite lists_address_spec.
  setoid_rewrite orb_true_iff. setoid_rewrite orb_true_iff. setoid_rewrite orb_true_iff.
  setoid_rewrite Z.eqb_eq. setoid_rewrite <-list_elem_of_In. naive_solver.
Qed.

Lemma checkMPRSelection_spec id hello :
  checkMPRSelection id hello = true ↔
  ∃ lm addr, lm ∈ LinkMessages hello ∧ addr ∈ link_NeighborAddresses lm ∧ IP_String addr = id ∧
    neighType lm = NeighTypeMPR.
Proof.
  unfold checkMPRSelection. rewrite existsb_exists.
  setoid_rewrite andb_true_iff. setoid_rewrite lists_address_spec.
  setoid_rewrite Z.eqb_eq. setoid_rewrite <-list_elem_of_In. naive_solver.
Qed.

(** The scan of the address lists of [updateTwoHopLinks]. *)
Definition scan_addresses (routerID origStr : string) (expTime : Z)
    (t : gmap string (gmap string Z)) (addrs : list IP) : gmap string (gmap string Z) :=
  foldl (λ t addr,
    let addrStr := IP_String addr in
    if bool_decide (addrStr ≠ routerID) && bool_decide (addrStr ≠ origStr)
    then <[origStr := <[addrStr := expTime]> (map_map t origStr)]> t else t) t addrs.

(** A table whose keys are those that satisfy [P], all with the time [exp]. *)
Definition fresh_table (exp : Z) (P : string → Prop) (m : gmap string Z) : Prop :=
  ∀ a e, m !! a = Some e ↔ P a ∧ e = exp.

Lemma scan_addresses_spec id o exp t m P addrs :
  t !! o = Some m → fresh_table exp P m →
  ∃ m', scan_addresses id o exp t addrs = <[o := m']> t ∧
  fresh_table exp (λ a, P a ∨ (a ≠ id ∧ a ≠ o ∧ ∃ addr, addr ∈ addrs ∧ IP_String addr = a)) m'.
Proof.
  revert t m P. induction addrs as [|x addrs IH]; intros t m P Hm HP; simpl.
  { exists m. rewrite insert_id by done. split; [done|]. intros a e. rewrite (HP a e).
    setoid_rewrite elem_of_nil. naive_solver. }
  assert (∀ t' m', t' !! o = Some m' → <[o := m']> t' = <[o := m']> t →
    fresh_table exp (λ a, P a ∨ (a = IP_String x ∧ a ≠ id ∧ a ≠ o)) m' →
    ∃ m'', scan_addresses id o exp t' addrs = <[o := m'']> t ∧
    fresh_table exp (λ a, P a ∨ (a ≠ id ∧ a ≠ o ∧ ∃ addr, addr ∈ x :: addrs ∧ IP_String addr = a)) m'')
    as Hstep.
  { intros t' m' Ht' Hins HP'. destruct (IH t' m' _ Ht' HP') as (m'' & -> & Hm''). exists m''.
    split.
    - rewrite <-(insert_insert_eq t' o m'' m'), Hins. apply insert_insert_eq.
    - intros a e. rewrite (Hm'' a e). setoid_rewrite elem_of_cons. naive_solver. }
  case_bool_decide as E1; [case_bool_decide as E2|]; simpl.
  - unfold map_map. rewrite Hm. simpl. eapply Hstep; [apply lookup_insert_eq|apply insert_insert_eq|].
    intros a e. destruct (decide (IP_String x = a)) as [<-|Hne].
    + rewrite lookup_insert_eq. naive_solver.
    + rewrite lookup_insert_ne by done. rewrite (HP a e). naive_solver.
  - apply (Hstep t m); [done..|]. intros a e. rewrite (HP a e). naive_solver.
  - apply (Hstep t m); [done..|]. intros a e. rewrite (HP a e). naive_solver.
Qed.

Lemma updateTwoHopLinks_spec id tw o hello exp (sym : bool) :
  if sym then ∃ m, updateTwoHopLinks id tw o hello exp sym = <[o := m]> tw ∧
    fresh_table exp (λ a, a ≠ id ∧ a ≠ o ∧ hello_lists hello a) m
  else updateTwoHopLinks id tw o hello exp sym = delete o tw.
Proof.
  destruct sym; [|done]. unfold updateTwoHopLinks, hello_lists.
  generalize (LinkMessages hello) as lms. intros lms.
  assert (∀ lms m P, fresh_table exp P m → ∃ m',
    foldl (λ t lm, if (neighType lm =? NeighTypeSym) || (neighType lm =? NeighTypeMPR)
      then scan_addresses id o exp t (link_NeighborAddresses lm) else t) (<[o:=m]> tw) lms = <[o:=m']> tw ∧
    fresh_table exp (λ a, P a ∨ (a ≠ id ∧ a ≠ o ∧ ∃ lm addr, lm ∈ lms ∧
      addr ∈ link_NeighborAddresses lm ∧ IP_String addr = a ∧
      (neighType lm = NeighTypeSym ∨ neighType lm = NeighTypeMPR))) m') as Hgen.
  { clear lms. induction lms as [|lm lms IH]; intros m P HP; simpl.
    { exists m. split; [done|]. intros a e. rewrite (HP a e). setoid_rewrite elem_of_nil. naive_solver. }
    destruct ((neighType lm =? NeighTypeSym) || (neighType lm =? NeighTypeMPR)) eqn:E.
    - destruct (scan_addresses_spec id o exp (<[o:=m]> tw) m P (link_NeighborAddresses lm))
        as (m1 & -> & Hm1); [apply lookup_insert_eq|done|].
      rewrite insert_insert_eq. destruct (IH m1 _ Hm1) as (m2 & -> & Hm2). exists m2. split; [done|].
      apply orb_true_iff in E. rewrite !Z.eqb_eq in E.
      intros a e. rewrite (Hm2 a e). setoid_rewrite elem_of_cons. naive_solver.
    - destruct (IH m _ HP) as (m2 & -> & Hm2). exists m2. split; [done|].
      apply orb_false_iff in E. rewrite !Z.eqb_neq in E.
      intros a e. rewrite (Hm2 a e). setoid_rewrite elem_of_cons. naive_solver. }
  destruct (Hgen lms ∅ (λ _, False)) as (m & Hfold & Hm).
  { intros a e. rewrite lookup_empty. naive_solver. }
  exists m. split; [exact Hfold|]. intros a e. rewrite (Hm a e). naive_solver.
Qed.

(** ** Aging *)

(** The link expires in this round: its time has passed and it is not yet lost. *)
Definition lost_in (now : Z) (ls : gmap string LinkTuple) (k : string) : bool :=
  match ls !! k with
  | Some l => After now (link_ExpirationTime l) && bool_decide (State l ≠ LinkStateLost)
  | None => false
  end.

Definition aged_link (now : Z) (l : LinkTuple) : LinkTuple :=
  if After now (link_ExpirationTime l)
  then MkLinkTuple (LocalIP l) (link_NeighborIP l) LinkStateLost (AsymTime l) (SymTime l)
         (link_ExpirationTime l)
  else l.

Definition cleared (n : NeighborTuple) : NeighborTuple :=
  MkNeighborTuple (neigh_NeighborIP n) false (neigh_Willingness n).

(** The manager [r] and flag [c] after the links [ls] of [nm] have been aged. *)
Record links_aged (now : Z) (nm : NeighborManager) (ls : gmap string LinkTuple)
    (r : NeighborManager) (c : bool) : Prop := {
  la_id : nm_routerID r = nm_routerID nm;
  la_links k : links r !! k =
    match ls !! k with Some l => Some (aged_link now l) | None => links nm !! k end;
  la_neighbors k : neighbors r !! k = (if lost_in now ls k then cleared else id) <$> neighbors nm !! k;
  la_twoHop k : twoHopLinks r !! k = if lost_in now ls k then None else twoHopLinks nm !! k;
  la_mpr : mprSet r = mprSet nm;
  la_selectors : mprSelectors r = mprSelectors nm;
  la_changed : c = true ↔ ∃ k, lost_in now ls k = true;
}.

Lemma aged_link_lost now l : State l = LinkStateLost → aged_link now l = l.
Proof. unfold aged_link. intros E. destruct l; simpl in *. subst. by case_match. Qed.

Lemma lost_in_insert now ls ip l k :
  lost_in now (<[ip := l]> ls) k =
  if decide (ip = k) then After now (link_ExpirationTime l) && bool_decide (State l ≠ LinkStateLost)
  else lost_in now ls k.
Proof.
  unfold lost_in. case_decide as E.
  - subst. by rewrite lookup_insert_eq.
  - by rewrite lookup_insert_ne.
Qed.

Section aging.
Context {MO : MapOrder}.

(** One link, field by field. *)
Lemma age_link_fields now r c ip l :
  let lost := After now (link_ExpirationTime l) && bool_decide (State l ≠ LinkStateLost) in
  let st := age_link now (r, c) (ip, l) in
  nm_routerID st.1 = nm_routerID r ∧
  links st.1 = (if lost then <[ip := aged_link now l]> (links r) else links r) ∧
  (∀ k, neighbors st.1 !! k = (if lost && bool_decide (ip = k) then cleared else id) <$> neighbors r !! k) ∧
  twoHopLinks st.1 = (if lost then delete ip (twoHopLinks r) else twoHopLinks r) ∧
  mprSet st.1 = mprSet r ∧ mprSelectors st.1 = mprSelectors r ∧ st.2 = lost || c.
Proof.
  unfold age_link, aged_link. simpl.
  destruct (After now (link_ExpirationTime l)); [|simpl; split_and!; try done; intros; by rewrite option_fmap_id].
  destruct (bool_decide (State l ≠ LinkStateLost)); [|simpl; split_and!; try done; intros; by rewrite option_fmap_id].
  simpl. destruct (neighbors r !! ip) as [n|] eqn:E; simpl; split_and!; try done; intros k;
    case_bool_decide; subst; rewrite ?option_fmap_id; try done.
  - by rewrite lookup_insert_eq, E.
  - by rewrite lookup_insert_ne.
  - by rewrite E.
Qed.

Lemma age_link_aged now nm ls st ip l :
  links nm !! ip = Some l → ls !! ip = None → links_aged now nm ls st.1 st.2 →
  links_aged now nm (<[ip := l]> ls) (age_link now st (ip, l)).1 (age_link now st (ip, l)).2.
Proof.
  destruct st as [r c]. cbn [fst snd]. intros Hl Hip [Hid Hlinks Hneigh Htwo Hmpr Hsel Hc].
  destruct (age_link_fields now r c ip l) as (Fid & Flinks & Fneigh & Ftwo & Fmpr & Fsel & Fc).
  assert (lost_in now ls ip = false) as Hnl by (unfold lost_in; by rewrite Hip).
  assert (After now (link_ExpirationTime l) && bool_decide (State l ≠ LinkStateLost) = false →
    aged_link now l = l) as Haged.
  { intros [E|E]%andb_false_iff; [unfold aged_link; by rewrite E|].
    apply aged_link_lost. apply bool_decide_eq_false in E. by apply dec_stable in E. }
  pose proof (lost_in_insert now ls ip l) as Hlost.
  set (lost := After now (link_ExpirationTime l) && _) in *.
  split; try intros k; rewrite ?Fid, ?Flinks, ?Fneigh, ?Ftwo, ?Fmpr, ?Fsel, ?Fc, ?Hlost; try done.
  - destruct (decide (ip = k)) as [<-|Hne].
    + rewrite lookup_insert_eq. destruct lost; [by rewrite lookup_insert_eq|].
      rewrite Hlinks, Hip, Hl. f_equal. symmetry. by apply Haged.
    + rewrite lookup_insert_ne by done. destruct lost; [rewrite lookup_insert_ne by done|]; apply Hlinks.
  - rewrite Hneigh. destruct (decide (ip = k)) as [<-|Hne].
    + rewrite Hnl, bool_decide_true, andb_true_r, option_fmap_id by done. done.
    + rewrite bool_decide_false, andb_false_r, option_fmap_id by done. done.
  - specialize (Htwo k). destruct (decide (ip = k)) as [<-|Hne].
    + rewrite Hnl in Htwo. destruct lost; [apply lookup_delete_eq|done].
    + destruct lost; [by rewrite lookup_delete_ne|done].
  - setoid_rewrite Hlost. rewrite orb_true_iff, Hc. split.
    + intros [E|[k Hk]]; [exists ip; by rewrite decide_True|]. exists k.
      case_decide; [subst; congruence|done].
    + intros [k Hk]. case_decide; [by left|right; eauto].
Qed.

Lemma links_aged_range now nm p :
  let st := foldl (age_link now) (nm, false) (range p (links nm)) in
  links_aged now nm (links nm) st.1 st.2.
Proof.
  simpl. apply (range_fold_ind (λ m st, links_aged now nm m st.1 st.2)).
  - split; try done; intros; unfold lost_in; rewrite ?lookup_empty, ?option_fmap_id; try done.
    split; [done|]. by intros [k ?].
  - intros k v m st Hsub Hk Hm Hst. by apply age_link_aged.
Qed.

(** The 2-hop table once the links that expire now are gone. *)
Definition twoHop_kept (now : Z) (nm : NeighborManager) : gmap string (gmap string Z) :=
  filter (λ kv, lost_in now (links nm) kv.1 = false) (twoHopLinks nm).

(** Something expires at time [now]: a link, a 2-hop link or an MPR selector. *)
Definition something_expires (now : Z) (nm : NeighborManager) : Prop :=
  (∃ k, lost_in now (links nm) k = true) ∨
  (∃ o m t e, twoHop_kept now nm !! o = Some m ∧ m !! t = Some e ∧ e < now) ∨
  (∃ k e, mprSelectors nm !! k = Some e ∧ e < now).

(** The effect of the aging on the tables. *)
Record aged (now : Z) (nm nm' : NeighborManager) : Prop := {
  aged_id : nm_routerID nm' = nm_routerID nm;
  aged_links : links nm' = aged_link now <$> links nm;
  aged_neighbors k :
    neighbors nm' !! k = (if lost_in now (links nm) k then cleared else id) <$> neighbors nm !! k;
  aged_twoHop : twoHopLinks nm' = live_nested id now (twoHop_kept now nm);
  aged_selectors : mprSelectors nm' = live id now (mprSelectors nm);
}.

Lemma AgeOut_aged p now now' nm :
  ∃ nm1 : NeighborManager, ∃ c : bool,
    aged now nm nm1 ∧ mprSet nm1 = mprSet nm ∧ (c = true ↔ something_expires now nm) ∧
    AgeOut p now now' nm =
      if c then (recalculateMPRs (4%positive :: p) now' nm1,
                 [MkEvent EventNeighborUpdate (DataString "aging")], true)
      else (nm1, [], false).
Proof.
  destruct (links_aged_range now nm (1%positive :: p)) as [Hid Hlinks Hneigh Htwo Hmpr Hsel Hc].
  unfold AgeOut. destruct (foldl _ _ _) as [nm0 c0]. simpl in *.
  assert (twoHopLinks nm0 = twoHop_kept now nm) as Etwo.
  { apply map_eq. intros k. rewrite Htwo. apply option_eq. intros m. unfold twoHop_kept.
    rewrite map_lookup_filter_Some. simpl. destruct (lost_in now (links nm) k); naive_solver. }
  pose proof (purge_nested_live id now (2%positive :: p) (twoHopLinks nm0)) as Ht.
  pose proof (purge_nested_changed id now (2%positive :: p) (twoHopLinks nm0)) as Hct.
  destruct (range_update _ _ (twoHopLinks nm0)) as [t ct]. simpl in *.
  pose proof (purge_expired_live id now (3%positive :: p) (mprSelectors nm0)) as Hs.
  pose proof (purge_expired_changed id now (3%positive :: p) (mprSelectors nm0)) as Hcs.
  destruct (range_update _ _ (mprSelectors nm0)) as [s cs]. simpl in *.
  exists (set_mprSelectors (set_twoHopLinks nm0 t) s), (c0 || ct || cs).
  rewrite Etwo in *. rewrite Hsel in *. split; [split; simpl; try done|split; [done|split]].
  - apply map_eq. intros k. rewrite Hlinks, lookup_fmap. by destruct (links nm !! k).
  - unfold something_expires. rewrite !orb_true_iff, Hc, Hct, Hcs. unfold id. tauto.
  - by destruct (c0 || ct || cs).
Qed.

(** Aging.  [AgeOut] marks exactly the expired links lost, clears the
    symmetry of the neighbors whose link is newly lost and drops their 2-hop
    links, deletes exactly the expired 2-hop links and MPR selectors, and
    reports a change, publishes the event and recomputes the relays exactly
    when something expired.  None of it depends on the iteration orders. *)
Theorem AgeOut_spec p now now' nm :
  neighbors nm !! "" = None →
  let '(nm', evs, changed) := AgeOut p now now' nm in
  aged now nm nm' ∧ (changed = true ↔ something_expires now nm) ∧
  evs = (if changed then [MkEvent EventNeighborUpdate (DataString "aging")] else []) ∧
  if changed then mpr_set_ok now' nm' (mprSet nm') else mprSet nm' = mprSet nm.
Proof.
  intros He. destruct (AgeOut_aged p now now' nm) as (nm1 & c & Hag & Hmpr & Hc & ->).
  assert (neighbors nm1 !! "" = None) as He1 by (by rewrite (aged_neighbors _ _ _ Hag), He).
  destruct c; [|done].
  destruct (computeMPRs_total (4%positive :: p) now' nm1) as [s Hs].
  unfold recalculateMPRs. rewrite Hs. split; [by destruct Hag; split|].
  split; [done|]. split; [done|].
  destruct (computeMPRs_correct _ _ _ _ He1 Hs) as [? ? ? ?]. by split.
Qed.

Lemma aged_nothing_left now nm nm' :
  aged now nm nm' → ¬ something_expires now nm'.
Proof.
  intros [_ Hl _ Ht Hs] [(k & Hk)|[(o & m & t & e & Ho & He & Hlt)|(k & e & Hk & Hlt)]].
  - unfold lost_in in Hk. rewrite Hl, lookup_fmap in Hk.
    destruct (links nm !! k) as [l|]; simpl in Hk; [|done]. unfold aged_link in Hk.
    apply andb_true_iff in Hk as [H1 H2]. apply bool_decide_eq_true in H2.
    destruct (After now (link_ExpirationTime l)) eqn:E; simpl in *; [done|congruence].
  - unfold twoHop_kept in Ho. apply map_lookup_filter_Some in Ho as [Ho _].
    rewrite Ht in Ho. apply live_nested_lookup in Ho as (i & _ & -> & _).
    apply live_lookup in He as [_ He]. unfold id in He. lia.
  - rewrite Hs in Hk. apply live_lookup in Hk as [_ He]. unfold id in He. lia.
Qed.

Lemma aged_twice now nm nm' nm'' :
  aged now nm nm' → aged now nm' nm'' → mprSet nm'' = mprSet nm' → nm'' = nm'.
Proof.
  intros Hag [Hid' Hl' Hn' Ht' Hs'] Hmpr. pose proof (aged_nothing_left _ _ _ Hag) as Hno.
  destruct Hag as [_ Hl _ Ht Hs].
  assert (∀ k, lost_in now (links nm') k = false) as Hnl.
  { intros k. apply not_true_iff_false. intros Hk. apply Hno. left. eauto. }
  assert (links nm'' = links nm') as El.
  { rewrite Hl', Hl, <-map_fmap_compose. apply map_fmap_ext. intros k l _. unfold compose, aged_link.
    destruct (After now (link_ExpirationTime l)) eqn:E; simpl; by rewrite E. }
  assert (neighbors nm'' = neighbors nm') as En.
  { apply map_eq. intros k. by rewrite Hn', Hnl, option_fmap_id. }
  assert (twoHop_kept now nm' = twoHopLinks nm') as Ek by (apply map_filter_id; intros; apply Hnl).
  assert (twoHopLinks nm'' = twoHopLinks nm') as Et.
  { rewrite Ht', Ek, Ht. apply live_nested_idemp. }
  assert (mprSelectors nm'' = mprSelectors nm') as Es by (rewrite Hs', Hs; apply live_idemp).
  destruct nm', nm''; simpl in *; congruence.
Qed.

(** Aging is idempotent: a second [AgeOut] at the same time reports no
    change, publishes nothing and leaves the whole state as it is. *)
Theorem AgeOut_idempotent p q now now' now'' nm :
  let nm' := (AgeOut p now now' nm).1.1 in AgeOut q now now'' nm' = (nm', [], false).
Proof.
  simpl. destruct (AgeOut_aged p now now' nm) as (nm1 & c & Hag & _ & _ & ->).
  set (nm' := (if c then _ else _).1.1).
  assert (aged now nm nm') as Hag'.
  { subst nm'. destruct c; simpl; [|done]. unfold recalculateMPRs.
    destruct (computeMPRs _ _ _); [|done]. by destruct Hag; split. }
  destruct (AgeOut_aged q now now'' nm') as (nm2 & c2 & Hag2 & Hmpr & Hc2 & ->).
  destruct c2.
  - exfalso. by eapply (aged_nothing_left now nm nm'), Hc2.
  - by rewrite (aged_twice now nm nm' nm2).
Qed.
End aging.
