(* ===== verification/NeighborInvariant.v ===== *)
(** * The neighbor manager as a state machine (internal/olsr/neighbor.go)

    The functional behaviour of [ProcessHello], the step relation of the
    manager, and the invariants of every reachable state by rule induction. *)

From S2P Require Import Prelude GoNet TimeVal Packet Events Neighbor MprSelection NeighborTables.

Section hello.
Context {MO : MapOrder}.

(** The link tuple after a HELLO of [sender]. *)
Definition hello_link (nm : NeighborManager) (sender : string) (heard : bool) (exp : Z) : LinkTuple :=
  let old := default (MkLinkTuple (nm_routerID nm) sender LinkStateAsymmetric
                        time_zero time_zero time_zero) (links nm !! sender) in
  if heard
  then MkLinkTuple (LocalIP old) (link_NeighborIP old) LinkStateSymmetric (AsymTime old) exp exp
  else MkLinkTuple (LocalIP old) (link_NeighborIP old) LinkStateAsymmetric exp (SymTime old) exp.

(** The link had the other state before; a new link counts as asymmetric. *)
Definition link_flips (nm : NeighborManager) (sender : string) (heard : bool) : bool :=
  match links nm !! sender with
  | Some l => bool_decide (State l ≠ if heard then LinkStateSymmetric else LinkStateAsymmetric)
  | None => heard
  end.

(** The effect of a HELLO on the tables. *)
Record hello_effect (nm nm' : NeighborManager) (sender orig : string) (hello : HelloMessage)
    (exp : Z) (heard : bool) : Prop := {
  he_id : nm_routerID nm' = nm_routerID nm;
  he_links : links nm' = <[sender := hello_link nm sender heard exp]> (links nm);
  he_neighbors : neighbors nm' =
    <[orig := MkNeighborTuple (from_option neigh_NeighborIP orig (neighbors nm !! orig)) heard
                (Willingness hello)]> (neighbors nm);
  he_selectors : mprSelectors nm' =
    if heard && checkMPRSelection (nm_routerID nm) hello
    then <[orig := exp]> (mprSelectors nm) else mprSelectors nm;
  he_twoHop :
    if heard then ∃ m, twoHopLinks nm' = <[orig := m]> (twoHopLinks nm) ∧
      fresh_table exp (λ a, a ≠ nm_routerID nm ∧ a ≠ orig ∧ hello_lists hello a) m
    else twoHopLinks nm' = delete orig (twoHopLinks nm);
}.

Lemma ProcessHello_effect p now now' nm sender orig hello vtime :
  let s := IP_String sender in let o := IP_String orig in
  ∃ nm1 heard, (heard = true ↔ hello_hears hello (nm_routerID nm)) ∧
    hello_effect nm nm1 s o hello (now + vtime) heard ∧ mprSet nm1 = mprSet nm ∧
    ProcessHello p now now' nm sender orig hello vtime =
      if link_flips nm s heard
      then (recalculateMPRs p now' nm1, [MkEvent EventNeighborUpdate (DataString o)])
      else (nm1, []).
Proof.
  simpl. unfold ProcessHello.
  set (s := IP_String sender). set (o := IP_String orig).
  set (heard := checkLocalSymmetricLink (nm_routerID nm) hello).
  set (link := default _ (links nm !! s)).
  set (link' := if heard then _ else _).
  assert (link' = hello_link nm s heard (now + vtime)) as El by done.
  assert (bool_decide (State link' = LinkStateSymmetric) = heard) as Es
    by (subst link'; by destruct heard).
  assert (bool_decide (State link ≠ State link') = link_flips nm s heard) as Ef.
  { unfold link_flips. subst link link'. destruct (links nm !! s) as [l|]; simpl; by destruct heard. }
  rewrite Ef, Es. clearbody link'. subst link'.
  set (c := if link_flips _ _ _ then (_, _) else (_, _)).
  set (nm0 := if checkMPRSelection _ hello && heard then _ else _) in *.
  exists (set_twoHopLinks nm0 (updateTwoHopLinks (nm_routerID nm0) (twoHopLinks nm0) o hello (now + vtime) heard)), heard.
  split; [apply checkLocalSymmetricLink_spec|]. split; [|split; [|done]].
  - pose proof (updateTwoHopLinks_spec (nm_routerID nm) (twoHopLinks nm) o hello (now + vtime) heard) as Ht.
    subst nm0. simpl. rewrite (andb_comm (checkMPRSelection _ _)).
    split; simpl; (destruct (heard && checkMPRSelection (nm_routerID nm) hello) eqn:E); simpl; try done;
      by destruct (neighbors nm !! o).
  - subst nm0. by case_match.
Qed.

(** C11. HELLO processing.  Only the link of the sender, the tuple, 2-hop table
    and selector entry of the originator change: the link becomes symmetric
    exactly when the HELLO lists this node in a block that shows it is heard,
    else asymmetric, until [now + vtime]; the originator's 2-hop table becomes
    exactly the addresses the HELLO lists as symmetric or MPR, other than this
    node and the originator, or is dropped when the link is not symmetric.
    The event is published, and the relays recomputed correctly, exactly when
    the link changes state. *)
Theorem ProcessHello_spec p now now' nm sender orig hello vtime :
  neighbors nm !! "" = None →
  ∃ heard, (heard = true ↔ hello_hears hello (nm_routerID nm)) ∧
  let '(nm', evs) := ProcessHello p now now' nm sender orig hello vtime in
  hello_effect nm nm' (IP_String sender) (IP_String orig) hello (now + vtime) heard ∧
  if link_flips nm (IP_String sender) heard
  then mpr_set_ok now' nm' (mprSet nm') ∧
       evs = [MkEvent EventNeighborUpdate (DataString (IP_String orig))]
  else mprSet nm' = mprSet nm ∧ evs = [].
Proof.
  intros He.
  destruct (ProcessHello_effect p now now' nm sender orig hello vtime)
    as (nm1 & heard & Hh & Heff & Hmpr & ->).
  exists heard. split; [done|]. destruct (link_flips _ _ _); [|done].
  assert (neighbors nm1 !! "" = None) as He1.
  { rewrite (he_neighbors _ _ _ _ _ _ _ Heff). rewrite lookup_insert_ne; [done|].
    apply IP_String_nonempty. }
  destruct (computeMPRs_total p now' nm1) as [m Hm]. unfold recalculateMPRs. rewrite Hm.
  destruct (computeMPRs_correct _ _ _ _ He1 Hm). split; [by destruct Heff; split|]. by repeat split.
Qed.

(** ** The manager's state machine *)

(** One operation; [single] tells whether every HELLO comes from a node with a
    single interface, whose sender address is its originator address. *)
Inductive nm_step (single : bool) (nm : NeighborManager) : NeighborManager → Prop :=
  | step_hello p now now' sender orig hello vtime :
      (single = true → IP_String sender = IP_String orig) →
      nm_step single nm (ProcessHello p now now' nm sender orig hello vtime).1
  | step_age p now now' : nm_step single nm (AgeOut p now now' nm).1.1.

Definition nm_reachable (single : bool) (id : string) : NeighborManager → Prop :=
  rtc (nm_step single) (NewNeighborManager id).

(** The invariant of every manager. *)
Record nm_inv (id : string) (nm : NeighborManager) : Prop := {
  inv_id : nm_routerID nm = id;
  inv_links k l : links nm !! k = Some l →
    k ≠ "" ∧ link_NeighborIP l = k ∧ LocalIP l = id ∧ State l ≠ LinkStatePending;
  inv_neighbors k n : neighbors nm !! k = Some n → k ≠ "" ∧ neigh_NeighborIP n = k;
  inv_twoHop k m : twoHopLinks nm !! k = Some m →
    (∃ n, neighbors nm !! k = Some n ∧ Symmetric n = true) ∧
    ∀ t e, m !! t = Some e → t ≠ k ∧ t ≠ id;
  inv_mpr k b : mprSet nm !! k = Some b → b = true ∧ is_Some (neighbors nm !! k);
  inv_selectors k e : mprSelectors nm !! k = Some e → is_Some (neighbors nm !! k);
}.

(** With single-interface neighbors, links and neighbors correspond. *)
Record nm_inv_single (nm : NeighborManager) : Prop := {
  inv_match k : (λ l, bool_decide (State l = LinkStateSymmetric)) <$> links nm !! k =
                Symmetric <$> neighbors nm !! k;
  inv_mpr_sym k : is_Some (mprSet nm !! k) → ∃ n, neighbors nm !! k = Some n ∧ Symmetric n = true;
}.

Lemma mpr_ok_neighbor now nm s k :
  mpr_set_ok now nm s → is_Some (s !! k) → ∃ n, neighbors nm !! k = Some n ∧ Symmetric n = true.
Proof. intros Hok Hk. destruct (mpr_sound _ _ _ Hok _ Hk) as (t & (n & ? & ? & _) & _). eauto. Qed.

Lemma recalculate_inv now' p id nm :
  nm_inv id nm → nm_inv id (recalculateMPRs p now' nm).
Proof.
  intros Hinv. unfold recalculateMPRs. destruct (computeMPRs_total p now' nm) as [s Hs]. rewrite Hs.
  assert (mpr_set_ok now' nm s) as Hok.
  { apply (computeMPRs_correct p); [|done]. apply eq_None_not_Some. intros [n Hn].
    by destruct (inv_neighbors _ _ Hinv _ _ Hn). }
  destruct Hinv. split; simpl; try done. intros k b Hb. split; [by eapply mpr_values|].
  destruct (mpr_ok_neighbor _ _ _ k Hok) as (n & ? & _); eauto.
Qed.

Lemma hello_effect_inv id nm nm1 s o hello exp heard :
  s ≠ "" → o ≠ "" → nm_inv id nm → mprSet nm1 = mprSet nm →
  hello_effect nm nm1 s o hello exp heard → nm_inv id nm1.
Proof.
  intros Hs Ho [Iid Il In It Im Is] Hmpr [Hid Hl Hn Hsel Ht].
  assert (∀ k, is_Some (neighbors nm !! k) → is_Some (neighbors nm1 !! k)) as Hmono.
  { intros k Hk. rewrite Hn. destruct (decide (o = k)) as [<-|?];
      [rewrite lookup_insert_eq; eauto|by rewrite lookup_insert_ne]. }
  split; [congruence|..].
  - intros k l. rewrite Hl. intros [[<- <-]|[? ?]]%lookup_insert_Some; [|by eapply Il].
    split; [done|]. unfold hello_link. destruct (links nm !! s) as [l|] eqn:E; simpl.
    + destruct (Il _ _ E) as (_ & ? & ? & _). by destruct heard.
    + by destruct heard.
  - intros k n. rewrite Hn. intros [[<- <-]|[? ?]]%lookup_insert_Some; [|by eapply In].
    split; [done|]. simpl. destruct (neighbors nm !! o) eqn:E; simpl; [|done]. by destruct (In _ _ E).
  - assert (∀ k m, k ≠ o → twoHopLinks nm !! k = Some m →
      (∃ n, neighbors nm1 !! k = Some n ∧ Symmetric n = true) ∧ ∀ t e, m !! t = Some e → t ≠ k ∧ t ≠ id) as Hold.
    { intros k m Hk Hm. destruct (It _ _ Hm) as [(n & ? & ?) ?]. split; [|done].
      exists n. by rewrite Hn, lookup_insert_ne. }
    intros k m. destruct heard.
    + destruct Ht as (m' & -> & Hm'). intros [[<- <-]|[? ?]]%lookup_insert_Some; [|by apply Hold].
      split; [rewrite Hn, lookup_insert_eq; eauto|]. intros t e Hte.
      apply Hm' in Hte as [(? & ? & _) _]. by subst id.
    + rewrite Ht. intros [? ?]%lookup_delete_Some. by apply Hold.
  - intros k b. rewrite Hmpr. intros Hk. destruct (Im _ _ Hk). eauto.
  - intros k e. rewrite Hsel. destruct (heard && _); [|eauto].
    intros [[<- <-]|[? ?]]%lookup_insert_Some; [|eauto]. rewrite Hn, lookup_insert_eq. eauto.
Qed.

Lemma aged_inv now id nm nm1 :
  nm_inv id nm → mprSet nm1 = mprSet nm → aged now nm nm1 → nm_inv id nm1.
Proof.
  intros [Iid Il In It Im Is] Hmpr [Hid Hl Hn Ht Hsel].
  assert (∀ k, is_Some (neighbors nm !! k) → is_Some (neighbors nm1 !! k)) as Hmono
    by (intros k; rewrite Hn, fmap_is_Some; done).
  split; [congruence|..].
  - intros k l. rewrite Hl, lookup_fmap, fmap_Some. intros (l0 & Hl0 & ->).
    destruct (Il _ _ Hl0) as (? & ? & ? & ?). unfold aged_link. by case_match.
  - intros k n. rewrite Hn, fmap_Some. intros (n0 & Hn0 & ->). destruct (In _ _ Hn0). by case_match.
  - intros k m. rewrite Ht. intros (i & Hi & -> & _)%live_nested_lookup.
    unfold twoHop_kept in Hi. apply map_lookup_filter_Some in Hi as [Hi Hnl]. simpl in Hnl.
    destruct (It _ _ Hi) as [(n & Hsym & ?) Hk]. split.
    + exists n. by rewrite Hn, Hnl, Hsym.
    + intros t e [? _]%live_lookup. eauto.
  - intros k b. rewrite Hmpr. intros Hk. destruct (Im _ _ Hk). eauto.
  - intros k e. rewrite Hsel. intros [? _]%live_lookup. eauto.
Qed.

Lemma nm_step_inv single id nm nm' : nm_inv id nm → nm_step single nm nm' → nm_inv id nm'.
Proof.
  intros Hinv [p now now' sender orig hello vtime _|p now now'].
  - destruct (ProcessHello_effect p now now' nm sender orig hello vtime)
      as (nm1 & heard & _ & Heff & Hmpr & ->).
    assert (nm_inv id nm1) by (eapply hello_effect_inv; eauto using IP_String_nonempty).
    case_match; simpl; [by apply recalculate_inv|done].
  - destruct (AgeOut_aged p now now' nm) as (nm1 & c & Hag & Hmpr & _ & ->).
    assert (nm_inv id nm1) by (by eapply aged_inv).
    destruct c; simpl; [by apply recalculate_inv|done].
Qed.

(** C12. The manager's invariant.  In every state reachable by HELLO messages and
    aging, in any order: each tuple is stored under its own non-empty address,
    no link is ever pending and each has this router as local end; a 2-hop
    table belongs to a symmetric neighbor and never lists that neighbor nor
    this router; relays and MPR selectors are known neighbors. *)
Theorem nm_invariant single id nm : nm_reachable single id nm → nm_inv id nm.
Proof.
  revert nm. apply (rtc_ind_r (nm_inv id) (NewNeighborManager id)).
  - split; [done|..]; simpl; intros k ?; by rewrite lookup_empty.
  - intros nm nm' _ Hstep Hinv. by eapply nm_step_inv.
Qed.

Lemma recalculate_single p now nm :
  (∃ id, nm_inv id nm) →
  (∀ k, (λ l, bool_decide (State l = LinkStateSymmetric)) <$> links nm !! k =
        Symmetric <$> neighbors nm !! k) →
  nm_inv_single (recalculateMPRs p now nm).
Proof.
  intros [id Hinv] Hmatch. unfold recalculateMPRs. destruct (computeMPRs_total p now nm) as [s Hs].
  rewrite Hs. split; [done|]. simpl. intros k. apply (mpr_ok_neighbor now).
  apply (computeMPRs_correct p); [|done]. apply eq_None_not_Some. intros [n Hn].
  by destruct (inv_neighbors _ _ Hinv _ _ Hn).
Qed.

Lemma hello_match nm nm1 s hello exp heard k :
  nm_inv_single nm → hello_effect nm nm1 s s hello exp heard →
  (λ l, bool_decide (State l = LinkStateSymmetric)) <$> links nm1 !! k = Symmetric <$> neighbors nm1 !! k.
Proof.
  intros [Hm _] Heff. rewrite (he_links _ _ _ _ _ _ _ Heff), (he_neighbors _ _ _ _ _ _ _ Heff).
  destruct (decide (s = k)) as [<-|Hne].
  - rewrite !lookup_insert_eq. simpl. unfold hello_link. by destruct heard.
  - by rewrite !lookup_insert_ne.
Qed.

Lemma hello_keeps_mprs nm nm1 s hello exp heard :
  nm_inv_single nm → hello_effect nm nm1 s s hello exp heard → link_flips nm s heard = false →
  mprSet nm1 = mprSet nm → nm_inv_single nm1.
Proof.
  intros Hinv Heff Hflip Hmpr. split; [by intros; eapply hello_match|].
  intros k. rewrite Hmpr, (he_neighbors _ _ _ _ _ _ _ Heff). intros Hk.
  destruct Hinv as [Hmatch Hsym]. destruct (Hsym _ Hk) as (n & Hn & Hs).
  destruct (decide (s = k)) as [<-|Hne]; [|by rewrite lookup_insert_ne; eauto].
  rewrite lookup_insert_eq. eexists. split; [done|]. simpl.
  specialize (Hmatch s). rewrite Hn in Hmatch. unfold link_flips in Hflip.
  destruct (links nm !! s) as [l|]; simpl in Hmatch; [|done].
  rewrite Hs in Hmatch. injection Hmatch as E. apply bool_decide_eq_true in E.
  apply bool_decide_eq_false in Hflip. rewrite E in Hflip.
  destruct heard; [done|]. by destruct Hflip.
Qed.

Lemma aged_match now nm nm1 k :
  nm_inv_single nm → aged now nm nm1 →
  (λ l, bool_decide (State l = LinkStateSymmetric)) <$> links nm1 !! k = Symmetric <$> neighbors nm1 !! k.
Proof.
  intros [Hm _] [_ Hl Hn _ _]. rewrite Hl, Hn, lookup_fmap. specialize (Hm k).
  destruct (links nm !! k) as [l|] eqn:El, (neighbors nm !! k) as [n|] eqn:En; simplify_eq/=; [|done].
  unfold aged_link, lost_in. rewrite El. destruct (After now (link_ExpirationTime l)); simpl; [|congruence].
  f_equal. destruct (bool_decide (State l ≠ LinkStateLost)) eqn:E; [done|]. simpl.
  apply bool_decide_eq_false, dec_stable in E. rewrite E in Hm.
  by rewrite <-Hm.
Qed.

Lemma nm_step_single id nm nm' :
  nm_inv id nm → nm_inv_single nm → nm_step true nm nm' → nm_inv_single nm'.
Proof.
  intros Hinv Hsingle [p now now' sender orig hello vtime Hso|p now now'].
  - destruct (ProcessHello_effect p now now' nm sender orig hello vtime)
      as (nm1 & heard & _ & Heff & Hmpr & ->).
    assert (nm_inv id nm1) by (eapply hello_effect_inv; eauto using IP_String_nonempty).
    rewrite Hso in * by done. destruct (link_flips _ _ _) eqn:Hf; simpl.
    + apply recalculate_single; [eauto|]. intros k. by eapply hello_match.
    + by eapply hello_keeps_mprs.
  - destruct (AgeOut_aged p now now' nm) as (nm1 & c & Hag & Hmpr & Hc & ->).
    assert (nm_inv id nm1) by (by eapply aged_inv).
    destruct c; simpl.
    + apply recalculate_single; [eauto|]. intros k. by eapply aged_match.
    + split; [intros; by eapply aged_match|]. intros k. rewrite Hmpr. intros Hk.
      destruct (inv_mpr_sym _ Hsingle _ Hk) as (n & Hn & Hs).
      rewrite (aged_neighbors _ _ _ Hag k), Hn. exists n. split; [|done].
      destruct (lost_in now (links nm) k) eqn:El; [|done].
      assert (something_expires now nm) as Hx by (left; eauto). by apply Hc in Hx.
Qed.

Lemma nm_inv_start id : nm_inv id (NewNeighborManager id) ∧ nm_inv_single (NewNeighborManager id).
Proof.
  split; [split; [done|..]; simpl; intros k ?; by rewrite lookup_empty|].
  split; simpl; intros k; rewrite !lookup_empty; [done|]. by intros [].
Qed.

(** Single-interface neighborhoods.  When every HELLO is sent from the
    address of its originator, in every reachable state a neighbor exists for
    each link and is symmetric exactly when its link is, every relay in the
    MPR set is a symmetric neighbor, and [GetNeighbors] returns exactly the
    tuples of the neighbors whose link is not lost. *)
Theorem nm_single_interface id nm p :
  nm_reachable true id nm →
  nm_inv_single nm ∧
  ∀ n, n ∈ GetNeighbors p nm ↔
    ∃ l, neighbors nm !! neigh_NeighborIP n = Some n ∧ links nm !! neigh_NeighborIP n = Some l ∧
      State l ≠ LinkStateLost ∧ (Symmetric n = true ↔ State l = LinkStateSymmetric).
Proof.
  intros Hr. assert (nm_inv id nm ∧ nm_inv_single nm) as [Hinv Hs].
  { revert nm Hr. apply (rtc_ind_r (λ nm, nm_inv id nm ∧ nm_inv_single nm) (NewNeighborManager id)).
    - apply nm_inv_start.
    - intros nm nm' _ Hstep [Hi Hsi]. split; [by eapply nm_step_inv|by eapply nm_step_single]. }
  split; [done|]. intros n. unfold GetNeighbors. rewrite list_elem_of_omap.
  split.
  - intros ([k n'] & Hk & Hn). simpl in *. apply elem_of_range in Hk.
    destruct (inv_neighbors _ _ Hinv _ _ Hk) as [_ <-].
    destruct (links nm !! neigh_NeighborIP n') as [l|] eqn:El; [|done].
    case_bool_decide; simplify_eq. exists l. split_and!; [done..|].
    pose proof (inv_match _ Hs (neigh_NeighborIP n)) as Hm. rewrite El, Hk in Hm. simpl in Hm.
    injection Hm as Hm. rewrite <-Hm. apply bool_decide_eq_true.
  - intros (l & Hn & Hl & Hst & _). exists (neigh_NeighborIP n, n). rewrite elem_of_range. simpl.
    by rewrite Hl, bool_decide_true.
Qed.
End hello.

(** ** A concrete neighborhood

    The router 10.0.0.1 hears 10.0.0.2, which first lists it as a symmetric
    neighbor and later also lists 10.0.0.9. *)
Definition addr (d : Z) : IP := [10; 0; 0; d].
Definition hello_listing (ds : list Z) : HelloMessage :=
  MkHelloMessage 2 WillDefault [MkHelloLinkMessage 6 (addr <$> ds)].

Definition hello_at (now sender orig : Z) (hello : HelloMessage) (nm : NeighborManager) : NeighborManager :=
  (@ProcessHello canonical_order [] now now nm (addr sender) (addr orig) hello (6 * Second)).1.

Definition manager_1 : NeighborManager :=
  hello_at Second 2 2 (hello_listing [1]) (NewNeighborManager "10.0.0.1").
Definition manager_2 : NeighborManager := hello_at (2 * Second) 2 2 (hello_listing [1; 9]) manager_1.

Lemma manager_1_reachable : @nm_reachable canonical_order true "10.0.0.1" manager_1.
Proof. eapply rtc_l; [|apply rtc_refl]. by apply step_hello. Defined.

Lemma manager_2_reachable : @nm_reachable canonical_order true "10.0.0.1" manager_2.
Proof. eapply rtc_r; [apply manager_1_reachable|]. by apply step_hello. Defined.

(** Stale relays.  Relays are recomputed when a link changes state only: a
    2-hop neighbor that a HELLO announces on an already symmetric link stays
    uncovered.  After two HELLOs of 10.0.0.2 the node 10.0.0.9 is a 2-hop
    neighbor provided by it alone, and the MPR set is empty. *)
Theorem hello_leaves_relays_stale :
  ∃ nm, @nm_reachable canonical_order true "10.0.0.1" nm ∧
    reaches (2 * Second) nm "10.0.0.2" "10.0.0.9" ∧ mprSet nm = ∅ ∧
    ¬ mpr_set_ok (2 * Second) nm (mprSet nm).
Proof.
  exists manager_2. split; [apply manager_2_reachable|].
  assert (reaches (2 * Second) manager_2 "10.0.0.2" "10.0.0.9") as Hr.
  { split; [|split].
    - by exists (MkNeighborTuple "10.0.0.2" true WillDefault).
    - intros (n & Hn & _). by vm_compute in Hn.
    - exists {["10.0.0.9" := 8 * Second]}, (8 * Second). split; [vm_compute; reflexivity|]. done. }
  assert (mprSet manager_2 = ∅) as Hm by (vm_compute; reflexivity).
  split; [done|]. split; [done|]. rewrite Hm. intros Hok.
  destruct (mpr_covers _ _ _ Hok _ _ Hr) as (o & [b Ho] & _). by rewrite lookup_empty in Ho.
Qed.

(** Neighbors with several interfaces.  When the HELLO comes from another
    interface address than the originator's, [GetNeighbors] never lists the
    neighbor (it looks the link up under the originator's address), and the
    aging of the link leaves the neighbor symmetric with its 2-hop table. *)
Theorem second_interface_never_listed :
  let nm := hello_at Second 3 2 (hello_listing [1; 9]) (NewNeighborManager "10.0.0.1") in
  let aged := (@AgeOut canonical_order [] (7 * Second + 1) (7 * Second + 1) nm).1.1 in
  (∀ MO p, @GetNeighbors MO p nm = []) ∧
  (State <$> links aged !! "10.0.0.3") = Some LinkStateLost ∧
  (Symmetric <$> neighbors aged !! "10.0.0.2") = Some true.
Proof.
  set (nm := hello_at _ _ _ _ _). simpl. split; [|split; vm_compute; reflexivity].
  intros MO p. unfold GetNeighbors.
  assert (∀ kv, kv ∈ range p (neighbors nm) → kv.2 = MkNeighborTuple "10.0.0.2" true WillDefault) as Hall.
  { intros [k v] Hkv%elem_of_range.
    assert (neighbors nm = {["10.0.0.2" := MkNeighborTuple "10.0.0.2" true WillDefault]}) as E
      by (vm_compute; reflexivity).
    rewrite E in Hkv. by apply lookup_singleton_Some in Hkv as [_ <-]. }
  induction (range p (neighbors nm)) as [|kv l IH]; [done|]. simpl.
  rewrite (Hall kv) by (rewrite elem_of_cons; auto). simpl.
  assert (links nm !! "10.0.0.2" = None) as -> by (vm_compute; reflexivity).
  apply IH. intros kv' ?. apply Hall. rewrite elem_of_cons. auto.
Qed.

Lemma ProcessHello_spec_witness :
  neighbors manager_1 !! "" = None ∧
  ∃ heard, (heard = true ↔ hello_hears (hello_listing [1; 9]) (nm_routerID manager_1)).
Proof.
  split; [vm_compute; reflexivity|].
  destruct (@ProcessHello_spec canonical_order [] (2 * Second) (2 * Second) manager_1 (addr 2) (addr 2)
    (hello_listing [1; 9]) (6 * Second) ltac:(vm_compute; reflexivity)) as (heard & Hh & _).
  exists heard. exact Hh.
Defined.

Lemma AgeOut_spec_witness :
  neighbors manager_2 !! "" = None ∧
  (@AgeOut canonical_order [] (9 * Second) (9 * Second) manager_2).2 = true ∧
  something_expires (9 * Second) manager_2.
Proof.
  split; [vm_compute; reflexivity|].
  assert ((@AgeOut canonical_order [] (9 * Second) (9 * Second) manager_2).2 = true) as E
    by (vm_compute; reflexivity).
  split; [exact E|].
  pose proof (@AgeOut_spec canonical_order [] (9 * Second) (9 * Second) manager_2
    ltac:(vm_compute; reflexivity)) as H.
  destruct (AgeOut _ _ _ _) as [[nm' evs] c]. simpl in E. subst c. by apply H.
Defined.

Lemma nm_invariant_witness :
  @nm_reachable canonical_order true "10.0.0.1" manager_2 ∧ nm_inv "10.0.0.1" manager_2.
Proof.
  split; [apply manager_2_reachable|]. apply (@nm_invariant canonical_order true), manager_2_reachable.
Defined.

Lemma nm_single_interface_witness :
  @nm_reachable canonical_order true "10.0.0.1" manager_2 ∧ nm_inv_single manager_2.
Proof.
  split; [apply manager_2_reachable|].
  apply (@nm_single_interface canonical_order "10.0.0.1" manager_2 []). apply manager_2_reachable.
Defined.
