(* ===== verification/Topology.v ===== *)
(** * Topology, duplicate and interface tables (internal/olsr/topology.go)

    The [TopologyManager]: duplicate detection, TC and MID processing, aging
    and the getters.  The [*TopologyTuple] pointers are held by one map only,
    so an update through one is an insertion; operations run under [tm.mu]. *)

From S2P Require Import Prelude GoNet TimeVal Packet Events.

Record TopologyTuple := MkTopologyTuple {
  DestIP : string;
  LastIP : string;
  topo_SeqNum : Z;
  topo_ExpirationTime : Z;
}.

#[export] Instance TopologyTuple_eq_dec : EqDecision TopologyTuple.
Proof. solve_decision. Defined.

Record TopologyManager := MkTopologyManager {
  topology : gmap string (gmap string TopologyTuple);  (* destIP, lastIP *)
  duplicates : gmap string (gmap Z Z);                 (* originatorIP, seqNum, expiration *)
  midMap : gmap string (list string);                  (* primaryIP, aliasIPs *)
  reverseMidMap : gmap string string;                  (* aliasIP, primaryIP *)
}.

Definition NewTopologyManager : TopologyManager := MkTopologyManager ∅ ∅ ∅ ∅.

(** The duplicate check; the inner map is created on the first message of an
    originator, also by a check that finds nothing. *)
Definition IsDuplicate (now : Z) (tm : TopologyManager) (originator : IP) (seqNum vtime : Z)
    : TopologyManager * bool :=
  let origStr := IP_String originator in
  let seqs := map_map (duplicates tm) origStr in
  let dup := match seqs !! seqNum with Some exp => Before now exp | None => false end in
  let seqs' := if dup then seqs else <[seqNum := now + vtime]> seqs in
  (MkTopologyManager (topology tm) (<[origStr := seqs']> (duplicates tm)) (midMap tm) (reverseMidMap tm),
   dup).

(** [tc.ANSN >= tuple.SeqNum || (tuple.SeqNum-tc.ANSN > 32768)], the difference
    taken on 16 bits. *)
Definition ansn_accepted (ansn seq : Z) : bool := (seq <=? ansn) || (32768 <? u16 (seq - ansn)).

(** The loop body of [ProcessTC], on the table and the [updated] flag. *)
Definition tc_step (lastIP : string) (ansn expTime : Z)
    (st : gmap string (gmap string TopologyTuple) * bool) (a : IP)
    : gmap string (gmap string TopologyTuple) * bool :=
  let destIP := IP_String a in
  let lasts := map_map st.1 destIP in
  match lasts !! lastIP with
  | None => (<[destIP := <[lastIP := MkTopologyTuple destIP lastIP ansn expTime]> lasts]> st.1, true)
  | Some tuple =>
      if ansn_accepted ansn (topo_SeqNum tuple)
      then (<[destIP := <[lastIP :=
              MkTopologyTuple (DestIP tuple) (LastIP tuple) ansn expTime]> lasts]> st.1, true)
      else st
  end.

Definition ProcessTC (now : Z) (tm : TopologyManager) (originatorIP : IP) (tc : TCMessage) (vtime : Z)
    : TopologyManager * list Event :=
  let lastIP := IP_String originatorIP in
  let '(topo, updated) :=
    foldl (tc_step lastIP (ANSN tc) (now + vtime)) (topology tm, false) (tc_NeighborAddresses tc) in
  (MkTopologyManager topo (duplicates tm) (midMap tm) (reverseMidMap tm),
   if updated then [MkEvent EventTopologyUpdate (DataString lastIP)] else []).

Definition ProcessMID (tm : TopologyManager) (originatorIP : IP) (mid : MIDMessage) (vtime : Z)
    : TopologyManager * list Event :=
  let primary := IP_String originatorIP in
  let cleared := match midMap tm !! primary with
                 | Some oldAliases => foldl (λ m alias, delete alias m) (reverseMidMap tm) oldAliases
                 | None => reverseMidMap tm
                 end in
  let aliases := IP_String <$> Addresses mid in
  let reverse := foldl (λ m alias, <[alias := primary]> m) cleared aliases in
  (MkTopologyManager (topology tm) (duplicates tm) (<[primary := aliases]> (midMap tm)) reverse,
   [MkEvent EventTopologyUpdate (DataString "mid")]).

Definition GetPrimaryAddress (tm : TopologyManager) (ip : string) : string :=
  default ip (reverseMidMap tm !! ip).

Section operations.
Context {MO : MapOrder}.

Definition AgeOut (p : list positive) (now : Z) (tm : TopologyManager)
    : TopologyManager * list Event * bool :=
  let '(topo, changed) :=
    range_update (purge_nested (purge_expired topo_ExpirationTime now)) (1%positive :: p) (topology tm) in
  let '(dups, _) := range_update (purge_nested (purge_expired id now)) (2%positive :: p) (duplicates tm) in
  (MkTopologyManager topo dups (midMap tm) (reverseMidMap tm),
   (if changed then [MkEvent EventTopologyUpdate (DataString "aging")] else []), changed).

Definition GetTopology (p : list positive) (tm : TopologyManager) : list TopologyTuple :=
  dl ← range p (topology tm); (range (encode dl.1 :: p) dl.2).*2.

Definition GetMIDMap (p : list positive) (tm : TopologyManager) : gmap string (list string) :=
  foldl (λ acc kv, <[kv.1 := kv.2]> acc) ∅ (range p (midMap tm)).
End operations.

(** * TC processing *)

(** The tuple stored for a destination and a last hop. *)
Definition topo_at (topo : gmap string (gmap string TopologyTuple)) (dest last : string)
    : option TopologyTuple := topo !! dest ≫= λ lasts, lasts !! last.

(** The entry after a TC of [last] that lists [dest]. *)
Definition tc_entry (dest last : string) (ansn exp : Z) (old : option TopologyTuple) : TopologyTuple :=
  match old with
  | None => MkTopologyTuple dest last ansn exp
  | Some t => if ansn_accepted ansn (topo_SeqNum t)
              then MkTopologyTuple (DestIP t) (LastIP t) ansn exp else t
  end.

Lemma topo_at_insert topo d lasts d' l :
  topo_at (<[d := lasts]> topo) d' l = if decide (d = d') then lasts !! l else topo_at topo d' l.
Proof.
  unfold topo_at. case_decide; [subst; by rewrite lookup_insert_eq|by rewrite lookup_insert_ne].
Qed.

Lemma map_map_lookup (topo : gmap string (gmap string TopologyTuple)) d l :
  map_map topo d !! l = topo_at topo d l.
Proof. unfold map_map, topo_at. by destruct (topo !! d). Qed.

Lemma ansn_accepted_refl ansn : ansn_accepted ansn ansn = true.
Proof. unfold ansn_accepted. by rewrite Z.leb_refl. Qed.

Lemma tc_entry_idemp d l ansn exp old :
  tc_entry d l ansn exp (Some (tc_entry d l ansn exp old)) = tc_entry d l ansn exp old.
Proof.
  destruct old as [t|]; simpl; [|by rewrite ansn_accepted_refl].
  destruct (ansn_accepted ansn (topo_SeqNum t)) eqn:E; simpl; [by rewrite ansn_accepted_refl|by rewrite E].
Qed.

(** Whether the entry is created or refreshed. *)
Definition tc_updates (ansn : Z) (old : option TopologyTuple) : bool :=
  match old with None => true | Some t => ansn_accepted ansn (topo_SeqNum t) end.

Lemma tc_step_spec last ansn exp topo u a d l :
  let st := tc_step last ansn exp (topo, u) a in
  topo_at st.1 d l =
    (if decide (l = last ∧ IP_String a = d) then Some (tc_entry d last ansn exp (topo_at topo d last))
     else topo_at topo d l) ∧
  st.2 = u || tc_updates ansn (topo_at topo (IP_String a) last).
Proof.
  unfold tc_step, tc_updates. cbn [fst snd]. rewrite map_map_lookup.
  set (dest := IP_String a).
  assert (∀ t, topo_at (<[dest := <[last := t]> (map_map topo dest)]> topo) d l =
    if decide (l = last ∧ dest = d) then Some t else topo_at topo d l) as Hins.
  { intros t. rewrite topo_at_insert. destruct (decide (dest = d)) as [<-|Hne].
    - destruct (decide (l = last)) as [->|Hl].
      + by rewrite lookup_insert_eq, decide_True.
      + rewrite lookup_insert_ne, map_map_lookup by done. by rewrite decide_False by naive_solver.
    - by rewrite decide_False by naive_solver. }
  destruct (topo_at topo dest last) as [t|] eqn:Et; simpl.
  - destruct (ansn_accepted ansn (topo_SeqNum t)) eqn:Ea; simpl.
    + rewrite Hins, orb_true_r. split; [|done]. case_decide as E; [|done].
      destruct E as [-> <-]. by rewrite Et; simpl; rewrite Ea.
    + rewrite orb_false_r. split; [|done]. case_decide as E; [|done].
      destruct E as [-> <-]. by rewrite Et; simpl; rewrite Ea.
  - rewrite Hins, orb_true_r. split; [|done]. case_decide as E; [|done].
    destruct E as [-> <-]. by rewrite Et.
Qed.

Lemma tc_updates_entry d l ansn exp old :
  tc_updates ansn (Some (tc_entry d l ansn exp old)) = tc_updates ansn old.
Proof.
  destruct old as [t|]; simpl; [|apply ansn_accepted_refl].
  destruct (ansn_accepted ansn (topo_SeqNum t)) eqn:E; simpl; [apply ansn_accepted_refl|done].
Qed.

Lemma tc_fold_spec last ansn exp addrs topo u :
  let st := foldl (tc_step last ansn exp) (topo, u) addrs in
  (∀ d l, topo_at st.1 d l =
    if decide (l = last ∧ d ∈ IP_String <$> addrs)
    then Some (tc_entry d last ansn exp (topo_at topo d last)) else topo_at topo d l) ∧
  st.2 = u || existsb (λ a, tc_updates ansn (topo_at topo (IP_String a) last)) addrs.
Proof.
  revert topo u. induction addrs as [|a addrs IH]; intros topo u; simpl.
  { rewrite orb_false_r. split; [|done]. intros d l. rewrite decide_False; [done|].
    by intros [_ ?%elem_of_nil]. }
  pose proof (tc_step_spec last ansn exp topo u a) as Hstep.
  destruct (tc_step last ansn exp (topo, u) a) as [topo1 u1] eqn:Est. cbn [fst snd] in Hstep.
  destruct (IH topo1 u1) as [IH1 IH2]. split.
  - intros d l. rewrite IH1. destruct (Hstep d l) as [Hd _], (Hstep d last) as [Hl _].
    rewrite Hd, Hl. destruct (decide (l = last)) as [->|Hne].
    2:{ rewrite !decide_False by naive_solver. done. }
    destruct (decide (IP_String a = d)) as [<-|Hne'].
    + rewrite (decide_True (P := last = last ∧ IP_String a = IP_String a)) by done.
      rewrite tc_entry_idemp.
      destruct (decide (last = last ∧ IP_String a ∈ IP_String <$> addrs));
        symmetry; apply decide_True; (split; [done|]); constructor.
    + rewrite (decide_False (P := last = last ∧ IP_String a = d)) by naive_solver.
      apply decide_ext. change (IP_String <$> a :: addrs) with (IP_String a :: (IP_String <$> addrs)).
      rewrite elem_of_cons. naive_solver.
  - rewrite IH2. destruct (Hstep "" "") as [_ ->]. rewrite <-orb_assoc. f_equal.
    destruct (tc_updates ansn (topo_at topo (IP_String a) last)) eqn:Eu; simpl; [done|].
    induction addrs as [|b addrs' IHa] in |-*; simpl; [done|]. f_equal; [|done].
    destruct (Hstep (IP_String b) last) as [-> _]. case_decide as E; [|done].
    by rewrite tc_updates_entry.
Qed.

(** The order of sequence numbers of RFC 3626, section 19: [s1] is newer. *)
Definition ansn_newer (s1 s2 : Z) : Prop :=
  (s1 > s2 ∧ s1 - s2 < 32768) ∨ (s2 > s1 ∧ s2 - s1 > 32768).

(** TC processing.  A TC of [orig] refreshes exactly the tuples with last hop
    [orig] whose destination it lists: a new tuple is created, an old one takes
    the ANSN and the new expiration when the ANSN is accepted and is left alone
    otherwise; no other tuple changes and none is removed.  The update event is
    published exactly when some tuple was created or accepted. *)
Theorem ProcessTC_spec now tm orig tc vtime :
  let last := IP_String orig in
  let '(tm', evs) := ProcessTC now tm orig tc vtime in
  (∀ d l, topo_at (topology tm') d l =
    if decide (l = last ∧ d ∈ IP_String <$> tc_NeighborAddresses tc)
    then Some (tc_entry d last (ANSN tc) (now + vtime) (topo_at (topology tm) d last))
    else topo_at (topology tm) d l) ∧
  (evs = [MkEvent EventTopologyUpdate (DataString last)] ↔
    ∃ a, a ∈ tc_NeighborAddresses tc ∧
      tc_updates (ANSN tc) (topo_at (topology tm) (IP_String a) last) = true) ∧
  (duplicates tm', midMap tm', reverseMidMap tm') = (duplicates tm, midMap tm, reverseMidMap tm).
Proof.
  simpl. unfold ProcessTC.
  destruct (tc_fold_spec (IP_String orig) (ANSN tc) (now + vtime) (tc_NeighborAddresses tc) (topology tm) false)
    as [H1 H2].
  destruct (foldl _ _ _) as [topo u]. simpl in *. split; [done|]. split; [|done].
  setoid_rewrite list_elem_of_In. rewrite <-existsb_exists, <-H2. by destruct u.
Qed.

(** The ANSN test on 16-bit numbers: an equal or RFC-newer ANSN is always
    accepted, an older one is accepted exactly when it is numerically ahead by
    half the range or more (the code lacks the upper bound on the forward
    distance that RFC 3626 section 19 has). *)
Theorem ansn_accepted_spec ansn seq :
  is_u16 ansn → is_u16 seq →
  ansn_accepted ansn seq = true ↔
  ansn = seq ∨ ansn_newer ansn seq ∨ 32768 ≤ ansn - seq.
Proof.
  unfold is_u16, ansn_accepted, ansn_newer, u16. intros Ha Hs. change (2 ^ 16) with 65536.
  rewrite orb_true_iff, Z.leb_le, Z.ltb_lt.
  destruct (decide (ansn ≤ seq)).
  - rewrite Z.mod_small by lia. lia.
  - split; [lia|]. left. lia.
Qed.

(** * Duplicate detection *)

(** The expiration recorded for a message. *)
Definition dup_at (tm : TopologyManager) (orig : string) (seq : Z) : option Z :=
  duplicates tm !! orig ≫= λ seqs, seqs !! seq.

Section history.
Context {MO : MapOrder}.

(** The manager's operations, with the time at which each runs. *)
Inductive topo_op :=
  | OpIsDuplicate (now : Z) (orig : IP) (seq vtime : Z)
  | OpProcessTC (now : Z) (orig : IP) (tc : TCMessage) (vtime : Z)
  | OpProcessMID (now : Z) (orig : IP) (mid : MIDMessage) (vtime : Z)
  | OpAgeOut (p : list positive) (now : Z).

Definition op_time (op : topo_op) : Z :=
  match op with
  | OpIsDuplicate now _ _ _ | OpProcessTC now _ _ _ | OpProcessMID now _ _ _ | OpAgeOut _ now => now
  end.

Definition run_op (tm : TopologyManager) (op : topo_op) : TopologyManager :=
  match op with
  | OpIsDuplicate now orig seq vtime => (IsDuplicate now tm orig seq vtime).1
  | OpProcessTC now orig tc vtime => (ProcessTC now tm orig tc vtime).1
  | OpProcessMID _ orig mid vtime => (ProcessMID tm orig mid vtime).1
  | OpAgeOut p now => (AgeOut p now tm).1.1
  end.

(** The clock does not go back. *)
Fixpoint in_order (t : Z) (ops : list topo_op) : Prop :=
  match ops with
  | [] => True
  | op :: ops => t ≤ op_time op ∧ in_order (op_time op) ops
  end.

(** The reference: remember for each message the validity of its last accepted
    reception, and never forget. *)
Definition remember (orig : string) (seq : Z) (exp : option Z) (op : topo_op) : option Z :=
  match op with
  | OpIsDuplicate now o s vtime =>
      if decide (IP_String o = orig ∧ s = seq)
      then if from_option (Before now) false exp then exp else Some (now + vtime)
      else exp
  | _ => exp
  end.

Definition last_time (t : Z) (ops : list topo_op) : Z := foldl (λ _ op, op_time op) t ops.

(** The manager has forgotten at most what has expired. *)
Definition dup_agrees (t : Z) (stored remembered : option Z) : Prop :=
  stored = remembered ∨ (stored = None ∧ ∃ e, remembered = Some e ∧ e < t).

Lemma dup_at_IsDuplicate now tm o s v orig seq :
  dup_at (IsDuplicate now tm o s v).1 orig seq =
  if decide (IP_String o = orig ∧ s = seq)
  then if from_option (Before now) false (dup_at tm orig seq) then dup_at tm orig seq else Some (now + v)
  else dup_at tm orig seq.
Proof.
  unfold dup_at, IsDuplicate, map_map. simpl.
  destruct (decide (IP_String o = orig)) as [<-|Hne].
  2:{ rewrite lookup_insert_ne by done. by rewrite decide_False by naive_solver. }
  rewrite lookup_insert_eq. simpl.
  set (seqs := duplicates tm !! IP_String o). 
  assert (default ∅ seqs !! seq = (seqs ≫= λ m, m !! seq)) as E by (by destruct seqs).
  destruct (decide (s = seq)) as [->|Hs].
  - rewrite decide_True by done. rewrite <-E. destruct (default ∅ seqs !! seq) as [e|] eqn:Ee; simpl.
    + destruct (Before now e); [done|]. apply lookup_insert_eq.
    + apply lookup_insert_eq.
  - rewrite decide_False by naive_solver. rewrite <-E. case_match; [done|]. by apply lookup_insert_ne.
Qed.

Lemma IsDuplicate_result now tm o s v :
  (IsDuplicate now tm o s v).2 = from_option (Before now) false (dup_at tm (IP_String o) s).
Proof.
  unfold IsDuplicate, dup_at, map_map. simpl. by destruct (duplicates tm !! IP_String o); simpl.
Qed.

Lemma dup_at_AgeOut p now tm orig seq :
  dup_at (AgeOut p now tm).1.1 orig seq =
  dup_at tm orig seq ≫= λ e, if decide (now ≤ e) then Some e else None.
Proof.
  unfold AgeOut. destruct (range_update _ _ (topology tm)) as [topo c].
  pose proof (purge_nested_live id now (2%positive :: p) (duplicates tm)) as Hd.
  destruct (range_update _ _ (duplicates tm)) as [dups c']. simpl in *. subst dups.
  unfold dup_at. simpl. unfold live_nested. rewrite lookup_omap.
  destruct (duplicates tm !! orig) as [seqs|]; simpl; [|done].
  assert (live id now seqs !! seq = seqs !! seq ≫= λ e, if decide (now ≤ e) then Some e else None) as <-.
  { apply option_eq. intros e. rewrite live_lookup. unfold id.
    destruct (seqs !! seq) as [e'|]; simpl; [case_decide|]; naive_solver. }
  unfold nonempty. case_decide as E; simpl; [by rewrite E, lookup_empty|done].
Qed.

Lemma run_op_agrees t tm exp op orig seq :
  t ≤ op_time op → dup_agrees t (dup_at tm orig seq) exp →
  dup_agrees (op_time op) (dup_at (run_op tm op) orig seq) (remember orig seq exp op).
Proof.
  intros Ht Hag.
  assert (dup_agrees (op_time op) (dup_at tm orig seq) exp) as Hag'.
  { destruct Hag as [?|(? & e & ? & ?)]; [by left|right]. split; [done|]. exists e. split; [done|lia]. }
  destruct op as [now o s v|now o tc v|now o mid v|p now]; cbn [run_op op_time remember] in *.
  - rewrite dup_at_IsDuplicate. case_decide; [|done]. left.
    destruct Hag as [->|(-> & e & -> & Hlt)]; [done|]. simpl. unfold Before.
    destruct (Z.ltb_spec now e); [lia|done].
  - unfold ProcessTC. destruct (foldl _ _ _). done.
  - done.
  - rewrite dup_at_AgeOut. destruct Hag as [->|(-> & e & -> & ?)].
    + destruct exp as [e|]; simpl; [|by left]. case_decide; [by left|right]. split; [done|].
      exists e. split; [done|lia].
    + right. split; [done|]. exists e. split; [done|lia].
Qed.

Lemma run_agrees t tm exp ops orig seq :
  in_order t ops → dup_agrees t (dup_at tm orig seq) exp →
  dup_agrees (last_time t ops) (dup_at (foldl run_op tm ops) orig seq) (foldl (remember orig seq) exp ops).
Proof.
  revert t tm exp. induction ops as [|op ops IH]; intros t tm exp; simpl; [done|].
  intros [Ht Hops] Hag. by apply IH, (run_op_agrees t).
Qed.

Lemma in_order_snoc t ops op :
  in_order t (ops ++ [op]) → in_order t ops ∧ last_time t ops ≤ op_time op.
Proof.
  revert t. induction ops as [|op' ops IH]; intros t; simpl; [naive_solver|].
  intros [? Hops]. by destruct (IH _ Hops).
Qed.

Lemma last_time_le t ops : in_order t ops → t ≤ last_time t ops.
Proof.
  revert t. induction ops as [|op ops IH]; intros t; simpl; [lia|]. intros [? Hops%IH]. unfold last_time in *. lia.
Qed.

Lemma remember_keeps orig seq e t ops :
  in_order t ops → last_time t ops < e →
  foldl (remember orig seq) (Some e) ops = Some e.
Proof.
  revert t. induction ops as [|op ops IH]; intros t; simpl; [done|]. intros [_ Hops] Hlt.
  pose proof (last_time_le _ _ Hops). unfold last_time in *.
  assert (remember orig seq (Some e) op = Some e) as ->; [|by eapply IH].
  destruct op; simpl in *; try done. case_decide; [|done]. unfold Before.
  destruct (Z.ltb_spec now e); [done|lia].
Qed.

(** C28. Duplicate detection.  After any history of operations in clock order,
    [IsDuplicate] says exactly what a manager that never forgets would say: the
    message is a duplicate when the validity of its last accepted reception
    has not ended.  In particular aging only collects garbage. *)
Theorem IsDuplicate_refines t ops now orig seq vtime :
  in_order t (ops ++ [OpIsDuplicate now orig seq vtime]) →
  (IsDuplicate now (foldl run_op NewTopologyManager ops) orig seq vtime).2 =
  from_option (Before now) false (foldl (remember (IP_String orig) seq) None ops).
Proof.
  intros [Hops Hlast]%in_order_snoc. rewrite IsDuplicate_result.
  destruct (run_agrees t NewTopologyManager None ops (IP_String orig) seq Hops) as [->|(-> & e & -> & Hlt)].
  - by left.
  - done.
  - simpl in *. unfold Before. destruct (Z.ltb_spec now e); [lia|done].
Qed.

(** A message is processed at most once in its validity time: once accepted,
    every later check of the same originator and sequence number finds a
    duplicate, whatever happens in between. *)
Theorem accepted_once now tm orig seq vtime ops now' vtime' :
  (IsDuplicate now tm orig seq vtime).2 = false →
  in_order now (ops ++ [OpIsDuplicate now' orig seq vtime']) → now' < now + vtime →
  (IsDuplicate now' (foldl run_op (IsDuplicate now tm orig seq vtime).1 ops) orig seq vtime').2 = true.
Proof.
  intros Hacc [Hops Hlast]%in_order_snoc Hlt. rewrite IsDuplicate_result.
  destruct (run_agrees now (IsDuplicate now tm orig seq vtime).1 (Some (now + vtime)) ops (IP_String orig) seq Hops)
    as [->|(-> & e & He & Hlt')].
  - left. rewrite dup_at_IsDuplicate, decide_True by done. by rewrite <-(IsDuplicate_result now tm orig seq vtime), Hacc.
  - rewrite (remember_keeps _ _ _ now) by (done || (simpl in *; lia)). simpl. unfold Before.
    by apply Z.ltb_lt.
  - rewrite (remember_keeps _ _ _ now) in He by (done || (simpl in *; lia)). simplify_eq. simpl in *. lia.
Qed.
End history.

(** * Multiple interface declarations *)

Lemma delete_all_lookup (l : list string) (m : gmap string string) a :
  foldl (λ m alias, delete alias m) m l !! a = if decide (a ∈ l) then None else m !! a.
Proof.
  revert m. induction l as [|x l IH]; intros m; simpl; [done|].
  rewrite IH. destruct (decide (a ∈ l)).
  - by rewrite decide_True by (rewrite elem_of_cons; auto).
  - destruct (decide (x = a)) as [<-|?].
    + rewrite decide_True by (rewrite elem_of_cons; auto). apply lookup_delete_eq.
    + rewrite decide_False by (rewrite elem_of_cons; naive_solver). by apply lookup_delete_ne.
Qed.

Lemma insert_all_lookup (l : list string) (m : gmap string string) v a :
  foldl (λ m alias, <[alias := v]> m) m l !! a = if decide (a ∈ l) then Some v else m !! a.
Proof.
  revert m. induction l as [|x l IH]; intros m; simpl; [done|].
  rewrite IH. destruct (decide (a ∈ l)).
  - by rewrite decide_True by (rewrite elem_of_cons; auto).
  - destruct (decide (x = a)) as [<-|?].
    + rewrite decide_True by (rewrite elem_of_cons; auto). apply lookup_insert_eq.
    + rewrite decide_False by (rewrite elem_of_cons; naive_solver). by apply lookup_insert_ne.
Qed.

(** Every alias that resolves is declared by the address it resolves to. *)
Definition mid_ok (tm : TopologyManager) : Prop :=
  ∀ a primary, reverseMidMap tm !! a = Some primary →
    ∃ aliases, midMap tm !! primary = Some aliases ∧ a ∈ aliases.

(** MID processing.  After a MID of [orig], [GetPrimaryAddress] maps each
    declared address to [orig], maps the addresses [orig] declared before and
    does not declare any more to themselves, and maps every other address as
    before; an alias always resolves to a node that declares it. *)
Theorem ProcessMID_spec tm orig mid vtime :
  let primary := IP_String orig in
  let aliases := IP_String <$> Addresses mid in
  let old := default [] (midMap tm !! primary) in
  let tm' := (ProcessMID tm orig mid vtime).1 in
  (∀ ip, GetPrimaryAddress tm' ip =
    if decide (ip ∈ aliases) then primary
    else if decide (ip ∈ old) then ip else GetPrimaryAddress tm ip) ∧
  midMap tm' = <[primary := aliases]> (midMap tm) ∧ (mid_ok tm → mid_ok tm').
Proof.
  simpl.
  assert (∀ ip, reverseMidMap (ProcessMID tm orig mid vtime).1 !! ip =
    if decide (ip ∈ IP_String <$> Addresses mid) then Some (IP_String orig)
    else if decide (ip ∈ default [] (midMap tm !! IP_String orig)) then None
    else reverseMidMap tm !! ip) as Hrev.
  { intros ip. unfold ProcessMID. cbn [fst reverseMidMap]. rewrite insert_all_lookup.
    case_decide; [done|]. destruct (midMap tm !! IP_String orig) as [old|]; simpl.
    - apply delete_all_lookup.
    - done. }
  split; [|split; [done|]].
  - intros ip. unfold GetPrimaryAddress. rewrite Hrev. by repeat case_decide.
  - intros Hok a primary. rewrite Hrev. simpl.
    destruct (decide (IP_String orig = primary)) as [<-|Hne].
    + rewrite lookup_insert_eq. case_decide; [eauto|]. case_decide as Ho; [done|].
      intros (aliases & E & ?)%Hok. by rewrite E in Ho.
    + rewrite lookup_insert_ne by done. case_decide; [naive_solver|]. case_decide; [done|]. apply Hok.
Qed.

(** A stale declaration unbinds a foreign alias: when 10.0.0.3 has taken over
    the alias 10.0.0.9 from 10.0.0.2, the next MID of 10.0.0.2, which no longer
    declares it, deletes the binding of 10.0.0.3 although 10.0.0.3 still
    declares the alias. *)
Theorem mid_unbinds_foreign_alias :
  let mid tm d aliases := (ProcessMID tm [10; 0; 0; d] (MkMIDMessage ((λ x, [10; 0; 0; x]) <$> aliases)) 0).1 in
  let tm2 := mid (mid NewTopologyManager 2 [9]) 3 [9] in
  let tm3 := mid tm2 2 [8] in
  GetPrimaryAddress tm2 "10.0.0.9" = "10.0.0.3" ∧
  GetPrimaryAddress tm3 "10.0.0.9" = "10.0.0.9" ∧
  midMap tm3 !! "10.0.0.3" = Some ["10.0.0.9"].
Proof. vm_compute. done. Qed.

(** * Aging *)

Section aging.
Context {MO : MapOrder}.

Lemma topology_AgeOut_empty p now tm : topology tm = ∅ → topology (AgeOut p now tm).1.1 = ∅.
Proof.
  intros He. unfold AgeOut.
  pose proof (purge_nested_live topo_ExpirationTime now (1%positive :: p) (topology tm)) as Ht.
  destruct (range_update _ _ (topology tm)) as [topo c].
  destruct (range_update _ _ (duplicates tm)) as [dups c']. simpl in *. subst topo. by rewrite He.
Qed.

(** Aging keeps exactly the topology tuples and duplicate records that have
    not expired, drops the maps left empty, keeps the interface declarations,
    and reports and publishes a change exactly when a topology tuple expired. *)
Theorem topology_AgeOut_spec p now tm :
  let '(tm', evs, changed) := AgeOut p now tm in
  (∀ d l t, topo_at (topology tm') d l = Some t ↔
     topo_at (topology tm) d l = Some t ∧ now ≤ topo_ExpirationTime t) ∧
  (∀ o s e, dup_at tm' o s = Some e ↔ dup_at tm o s = Some e ∧ now ≤ e) ∧
  (∀ d lasts, topology tm' !! d = Some lasts → lasts ≠ ∅) ∧
  (midMap tm', reverseMidMap tm') = (midMap tm, reverseMidMap tm) ∧
  (changed = true ↔ ∃ d l t, topo_at (topology tm) d l = Some t ∧ topo_ExpirationTime t < now) ∧
  evs = (if changed then [MkEvent EventTopologyUpdate (DataString "aging")] else []).
Proof.
  pose proof (dup_at_AgeOut p now tm) as Hdup. unfold AgeOut in *.
  pose proof (purge_nested_live topo_ExpirationTime now (1%positive :: p) (topology tm)) as Ht.
  pose proof (purge_nested_changed topo_ExpirationTime now (1%positive :: p) (topology tm)) as Hc.
  destruct (range_update _ _ (topology tm)) as [topo c].
  destruct (range_update _ _ (duplicates tm)) as [dups c']. simpl in *. subst topo.
  split; [|split; [|split; [|split; [done|split; [|done]]]]].
  - intros d l t. unfold topo_at. rewrite !bind_Some. setoid_rewrite live_nested_lookup. split.
    + intros (i & (i0 & ? & -> & _) & [? ?]%live_lookup). eauto.
    + intros ((i & Hi & Hl) & Hexp). exists (live topo_ExpirationTime now i).
      assert (live topo_ExpirationTime now i !! l = Some t) as Hlive by by apply live_lookup.
      split; [|done]. exists i. split_and!; [done..|]. intros E. by rewrite E, lookup_empty in Hlive.
  - intros o s e. rewrite Hdup, bind_Some. split.
    + intros (e' & ? & ?). case_decide; by simplify_eq.
    + intros [? ?]. exists e. by rewrite decide_True.
  - intros d lasts (i & _ & _ & ?)%live_nested_lookup. done.
  - rewrite Hc. unfold topo_at. setoid_rewrite bind_Some. naive_solver.
Qed.
End aging.

(** * Witnesses *)

Lemma ansn_accepted_spec_witness :
  is_u16 65535 ∧ is_u16 2 ∧ ansn_accepted 65535 2 = true ∧ ¬ ansn_newer 65535 2 ∧
  (ansn_accepted 2 65535 = true ↔ 2 = 65535 ∨ ansn_newer 2 65535 ∨ 32768 ≤ 2 - 65535).
Proof.
  split; [done|]. split; [done|]. split; [reflexivity|]. split; [unfold ansn_newer; lia|].
  by apply (ansn_accepted_spec 2 65535).
Defined.

Definition example_history : list topo_op :=
  [OpIsDuplicate 10 [10; 0; 0; 2] 7 100; OpAgeOut [] 50; OpIsDuplicate 60 [10; 0; 0; 2] 8 100].

Lemma IsDuplicate_refines_witness :
  in_order 0 (example_history ++ [OpIsDuplicate 90 [10; 0; 0; 2] 7 100]) ∧
  (IsDuplicate 90 (foldl (@run_op canonical_order) NewTopologyManager example_history) [10; 0; 0; 2] 7 100).2 =
  true.
Proof.
  assert (in_order 0 (example_history ++ [OpIsDuplicate 90 [10; 0; 0; 2] 7 100])) as Ho
    by (simpl; lia).
  split; [exact Ho|]. rewrite (@IsDuplicate_refines canonical_order 0 _ _ _ _ _ Ho). reflexivity.
Defined.

Lemma accepted_once_witness :
  (IsDuplicate 10 NewTopologyManager [10; 0; 0; 2] 7 100).2 = false ∧
  (IsDuplicate 90 (foldl (@run_op canonical_order) (IsDuplicate 10 NewTopologyManager [10; 0; 0; 2] 7 100).1
     [OpAgeOut [] 50]) [10; 0; 0; 2] 7 100).2 = true.
Proof.
  split; [reflexivity|].
  apply (@accepted_once canonical_order); [reflexivity|simpl; lia|lia].
Defined.
