(* ===== verification/Hna.v ===== *)
(** * Gateway routes (internal/olsr/hna.go)

    The [HNAManager]: the local network prefixes, the associations received
    from other gateways, their aging and the getters.  An [HNAEntry] pointer is
    held by one map only. *)

From S2P Require Import Prelude GoNet TimeVal Packet Events.

Record HNAEntry := MkHNAEntry {
  GatewayIP : string;
  Network : IPNet;
  hna_ExpirationTime : Z;
  IsLocal : bool;
}.

Record HNAManager := MkHNAManager {
  localHNAs : gmap string IPNet;                 (* by network CIDR string *)
  hnaSet : gmap string (gmap string HNAEntry);   (* network CIDR string, gateway IP *)
}.

Definition NewHNAManager : HNAManager := MkHNAManager ∅ ∅.

Definition topology_event (data : string) : Event := MkEvent EventTopologyUpdate (DataString data).

Definition AddLocalHNA (h : HNAManager) (ipNet : IPNet) : HNAManager * list Event :=
  (MkHNAManager (<[IPNet_String ipNet := ipNet]> (localHNAs h)) (hnaSet h), [topology_event "local_hna_add"]).

Definition RemoveLocalHNA (h : HNAManager) (ipNet : IPNet) : HNAManager * list Event :=
  (MkHNAManager (delete (IPNet_String ipNet) (localHNAs h)) (hnaSet h), [topology_event "local_hna_del"]).

(** The loop body of [ProcessHNA], on the set and the [updated] flag. *)
Definition hna_step (gwIP : string) (expTime : Z)
    (st : gmap string (gmap string HNAEntry) * bool) (assoc : HNAAssociation)
    : gmap string (gmap string HNAEntry) * bool :=
  let cidr := IPNet_String (assoc_Netmask assoc) in
  let gateways := map_map st.1 cidr in
  match gateways !! gwIP with
  | None =>
      (<[cidr := <[gwIP := MkHNAEntry gwIP (assoc_Netmask assoc) expTime false]> gateways]> st.1, true)
  | Some entry =>
      (<[cidr := <[gwIP := MkHNAEntry (GatewayIP entry) (Network entry) expTime (IsLocal entry)]> gateways]> st.1,
       st.2)
  end.

Definition ProcessHNA (now : Z) (h : HNAManager) (originatorIP : IP) (hna : HNAMessage) (vtime : Z)
    : HNAManager * list Event :=
  let '(set, updated) :=
    foldl (hna_step (IP_String originatorIP) (now + vtime)) (hnaSet h, false) (Associations hna) in
  (MkHNAManager (localHNAs h) set, if updated then [topology_event "hna_recv"] else []).

Section operations.
Context {MO : MapOrder}.

Definition GetLocalHNAs (p : list positive) (h : HNAManager) : list IPNet := (range p (localHNAs h)).*2.

Definition AgeOut (p : list positive) (now : Z) (h : HNAManager) : HNAManager * list Event * bool :=
  let '(set, changed) := range_update (purge_nested (purge_expired hna_ExpirationTime now)) p (hnaSet h) in
  (MkHNAManager (localHNAs h) set, if changed then [topology_event "hna_aging"] else [], changed).

(** The local entries carry the gateway name "local". *)
Definition GetHNAEntries (p : list positive) (h : HNAManager) : list HNAEntry :=
  ((λ ipNet, MkHNAEntry "local" ipNet time_zero true) <$> (range (1%positive :: p) (localHNAs h)).*2) ++
  (kg ← range (2%positive :: p) (hnaSet h); (range (encode kg.1 :: p) kg.2).*2).

(** * Correctness *)

Definition hna_at (set : gmap string (gmap string HNAEntry)) (cidr gw : string) : option HNAEntry :=
  set !! cidr ≫= λ gws, gws !! gw.

(** The entry after an HNA of [gw] that lists [net]. *)
Definition hna_entry (gw : string) (net : IPNet) (exp : Z) (old : option HNAEntry) : HNAEntry :=
  match old with
  | None => MkHNAEntry gw net exp false
  | Some e => MkHNAEntry (GatewayIP e) (Network e) exp (IsLocal e)
  end.

(** The networks of an HNA message, by CIDR; the first of a repeated CIDR wins. *)
Definition hna_networks (assocs : list HNAAssociation) : list (string * IPNet) :=
  (λ a, (IPNet_String (assoc_Netmask a), assoc_Netmask a)) <$> assocs.

Lemma hna_at_step gw exp set u a c g :
  let st := hna_step gw exp (set, u) a in
  hna_at st.1 c g =
    (if decide (g = gw ∧ IPNet_String (assoc_Netmask a) = c)
     then Some (hna_entry gw (assoc_Netmask a) exp (hna_at set c gw)) else hna_at set c g) ∧
  st.2 = u || bool_decide (hna_at set (IPNet_String (assoc_Netmask a)) gw = None).
Proof.
  unfold hna_step. cbn [fst snd]. set (cidr := IPNet_String (assoc_Netmask a)).
  assert (∀ k, map_map set cidr !! k = hna_at set cidr k) as Hm
    by (intros k; unfold map_map, hna_at; by destruct (set !! cidr)).
  assert (∀ e, hna_at (<[cidr := <[gw := e]> (map_map set cidr)]> set) c g =
    if decide (g = gw ∧ cidr = c) then Some e else hna_at set c g) as Hins.
  { intros e. unfold hna_at at 1. destruct (decide (cidr = c)) as [<-|Hne].
    - rewrite lookup_insert_eq. simpl. destruct (decide (g = gw)) as [->|Hg].
      + by rewrite lookup_insert_eq, decide_True.
      + rewrite lookup_insert_ne, Hm by done. by rewrite decide_False by naive_solver.
    - rewrite lookup_insert_ne by done. by rewrite decide_False by naive_solver. }
  rewrite Hm. destruct (hna_at set cidr gw) as [e|] eqn:E; cbn [fst snd]; rewrite Hins.
  - rewrite orb_false_r. split; [|done]. case_decide as Hd; [|done]. destruct Hd as [-> <-]. by rewrite E.
  - rewrite orb_true_r. split; [|done]. case_decide as Hd; [|done]. destruct Hd as [-> <-]. by rewrite E.
Qed.

(** What the loop does to one entry. *)
Definition hna_result (gw : string) (exp : Z) (assocs : list HNAAssociation) (c g : string)
    (old : option HNAEntry) : option HNAEntry :=
  match find (λ a, bool_decide (IPNet_String (assoc_Netmask a) = c)) assocs with
  | Some a => if decide (g = gw) then Some (hna_entry gw (assoc_Netmask a) exp old) else old
  | None => old
  end.

Lemma hna_fold_spec gw exp assocs set u :
  let st := foldl (hna_step gw exp) (set, u) assocs in
  (∀ c g, hna_at st.1 c g = hna_result gw exp assocs c g (hna_at set c g)) ∧
  st.2 = u || existsb (λ a, bool_decide (hna_at set (IPNet_String (assoc_Netmask a)) gw = None)) assocs.
Proof.
  revert set u. induction assocs as [|a assocs IH]; intros set u; simpl; [by rewrite orb_false_r|].
  pose proof (hna_at_step gw exp set u a) as Hstep.
  destruct (hna_step gw exp (set, u) a) as [set1 u1]. cbn [fst snd] in Hstep.
  destruct (IH set1 u1) as [IH1 IH2]. split.
  - intros c g. rewrite IH1. destruct (Hstep c g) as [-> _]. unfold hna_result. simpl.
    destruct (decide (IPNet_String (assoc_Netmask a) = c)) as [<-|Hne].
    + rewrite (bool_decide_true (IPNet_String (assoc_Netmask a) = _)) by done.
      destruct (decide (g = gw)) as [->|Hg].
      * rewrite decide_True by done. destruct (find _ assocs); [|done]. by destruct (hna_at set _ gw).
      * rewrite decide_False by naive_solver. by case_match.
    + rewrite (bool_decide_false (IPNet_String (assoc_Netmask a) = _)) by done.
      rewrite (decide_False (P := g = gw ∧ _)) by naive_solver. done.
  - rewrite IH2. destruct (Hstep "" "") as [_ ->]. rewrite <-orb_assoc. f_equal.
    destruct (bool_decide (hna_at set (IPNet_String (assoc_Netmask a)) gw = None)) eqn:E; simpl; [done|].
    apply bool_decide_eq_false in E.
    induction assocs as [|b assocs' IHa] in |-*; simpl; [done|]. f_equal; [|done].
    destruct (Hstep (IPNet_String (assoc_Netmask b)) gw) as [-> _]. case_decide as Hd; [|done].
    destruct Hd as [_ <-]. by rewrite bool_decide_false, bool_decide_false.
Qed.

(** HNA processing.  An HNA of [orig] sets, for each network it lists, the
    expiration of the entry of that network and gateway, creating the entry
    when there is none; every other entry and the local networks stay.  The
    event is published exactly when some listed network had no entry of that
    gateway. *)
Theorem ProcessHNA_spec now h orig hna vtime :
  let gw := IP_String orig in
  let '(h', evs) := ProcessHNA now h orig hna vtime in
  (∀ c g, hna_at (hnaSet h') c g = hna_result gw (now + vtime) (Associations hna) c g (hna_at (hnaSet h) c g)) ∧
  localHNAs h' = localHNAs h ∧
  (evs = [topology_event "hna_recv"] ↔
    ∃ a, a ∈ Associations hna ∧ hna_at (hnaSet h) (IPNet_String (assoc_Netmask a)) gw = None).
Proof.
  simpl. unfold ProcessHNA.
  destruct (hna_fold_spec (IP_String orig) (now + vtime) (Associations hna) (hnaSet h) false) as [H1 H2].
  destruct (foldl _ _ _) as [set u]. simpl in *. split; [done|]. split; [done|].
  transitivity (u = true); [by destruct u|]. rewrite H2, existsb_exists.
  setoid_rewrite <-list_elem_of_In. by setoid_rewrite bool_decide_eq_true.
Qed.

(** One operation of the manager. *)
Inductive hna_op_step (h : HNAManager) : HNAManager → Prop :=
  | hna_add n : hna_op_step h (AddLocalHNA h n).1
  | hna_remove n : hna_op_step h (RemoveLocalHNA h n).1
  | hna_process now orig hna vtime : hna_op_step h (ProcessHNA now h orig hna vtime).1
  | hna_age p now : hna_op_step h (AgeOut p now h).1.1.

(** Each entry is stored under its network and gateway. *)
Record hna_wf (h : HNAManager) : Prop := {
  wf_local c n : localHNAs h !! c = Some n → IPNet_String n = c;
  wf_remote c g e : hna_at (hnaSet h) c g = Some e →
    GatewayIP e = g ∧ IPNet_String (Network e) = c ∧ IsLocal e = false;
}.

Lemma hna_at_live now (set : gmap string (gmap string HNAEntry)) c g e :
  hna_at (live_nested hna_ExpirationTime now set) c g = Some e ↔
  hna_at set c g = Some e ∧ now ≤ hna_ExpirationTime e.
Proof.
  unfold hna_at. rewrite !bind_Some. setoid_rewrite live_nested_lookup. split.
  - intros (i & (i0 & ? & -> & _) & [? ?]%live_lookup). eauto.
  - intros ((i & Hi & Hg) & Hexp). exists (live hna_ExpirationTime now i).
    assert (live hna_ExpirationTime now i !! g = Some e) as Hlive by by apply live_lookup.
    split; [|done]. exists i. split_and!; [done..|]. intros E. by rewrite E, lookup_empty in Hlive.
Qed.

Lemma hna_step_wf h h' : hna_wf h → hna_op_step h h' → hna_wf h'.
Proof.
  intros [Hl Hr] [n|n|now orig hna vtime|p now].
  - split; simpl; [|done]. intros c n' [[<- <-]|[? ?]]%lookup_insert_Some; eauto.
  - split; simpl; [|done]. intros c n' [? ?]%lookup_delete_Some; eauto.
  - unfold ProcessHNA.
    destruct (hna_fold_spec (IP_String orig) (now + vtime) (Associations hna) (hnaSet h) false) as [H1 _].
    destruct (foldl _ _ _) as [set u]. simpl in *. split; simpl; [done|].
    intros c g e. rewrite H1. unfold hna_result. destruct (find _ _) as [a|] eqn:Ef; [|eauto].
    apply find_some in Ef as [_ Ef]. apply bool_decide_eq_true in Ef.
    case_decide as Hg; [|eauto]. subst. intros [= <-].
    destruct (hna_at (hnaSet h) _ _) as [e|] eqn:E; simpl; [eauto|done].
  - unfold AgeOut. pose proof (purge_nested_live hna_ExpirationTime now p (hnaSet h)) as Hs.
    destruct (range_update _ _ _) as [set c]. simpl in *. subst set. split; simpl; [done|].
    intros c' g e [? _]%hna_at_live. eauto.
Qed.

(** The association table is well formed in every reachable state: an entry
    is stored under the CIDR form of its network and its gateway's address, no
    received entry is local, and [GetHNAEntries] returns exactly the local
    networks, under the gateway name "local", and the received entries. *)
Theorem hna_reachable_wf h p :
  rtc hna_op_step NewHNAManager h →
  hna_wf h ∧
  ∀ e, e ∈ GetHNAEntries p h ↔
    (∃ n, localHNAs h !! IPNet_String n = Some n ∧ e = MkHNAEntry "local" n time_zero true) ∨
    hna_at (hnaSet h) (IPNet_String (Network e)) (GatewayIP e) = Some e.
Proof.
  intros Hr. assert (hna_wf h) as Hwf.
  { revert h Hr. apply (rtc_ind_r hna_wf NewHNAManager).
    - split; unfold hna_at; simpl; intros ??; [by rewrite lookup_empty|intros ?; by rewrite lookup_empty].
    - intros h h' _ Hstep Hh. by eapply hna_step_wf. }
  split; [done|]. intros e. unfold GetHNAEntries. rewrite elem_of_app. f_equiv.
  - rewrite list_elem_of_fmap. split.
    + intros (n & -> & ([c n'] & -> & Hn)%list_elem_of_fmap). apply elem_of_range in Hn.
      exists n'. simpl. by rewrite (wf_local _ Hwf _ _ Hn).
    + intros (n & Hn & ->). exists n. split; [done|]. apply list_elem_of_fmap.
      exists (IPNet_String n, n). split; [done|]. by apply elem_of_range.
  - rewrite list_elem_of_bind. split.
    + intros ([c gws] & ([g e'] & -> & He)%list_elem_of_fmap & Hc). apply elem_of_range in Hc, He. simpl in *.
      assert (hna_at (hnaSet h) c g = Some e') as Hat by (unfold hna_at; by rewrite Hc).
      by destruct (wf_remote _ Hwf _ _ _ Hat) as (-> & -> & _).
    + unfold hna_at. intros (gws & Hc & Hg)%bind_Some. exists (IPNet_String (Network e), gws).
      split; [|by apply elem_of_range]. apply list_elem_of_fmap. exists (GatewayIP e, e).
      split; [done|]. by apply elem_of_range.
Qed.

(** Aging removes exactly the expired associations (an expiration equal to
    the current time is kept) and reports and publishes a change exactly when
    one expired; the local networks never age. *)
Theorem hna_AgeOut_spec p now h :
  let '(h', evs, changed) := AgeOut p now h in
  (∀ c g e, hna_at (hnaSet h') c g = Some e ↔
     hna_at (hnaSet h) c g = Some e ∧ now ≤ hna_ExpirationTime e) ∧
  localHNAs h' = localHNAs h ∧
  (changed = true ↔ ∃ c g e, hna_at (hnaSet h) c g = Some e ∧ hna_ExpirationTime e < now) ∧
  evs = (if changed then [topology_event "hna_aging"] else []).
Proof.
  unfold AgeOut. pose proof (purge_nested_live hna_ExpirationTime now p (hnaSet h)) as Hs.
  pose proof (purge_nested_changed hna_ExpirationTime now p (hnaSet h)) as Hc.
  destruct (range_update _ _ _) as [set c]. simpl in *. subst set.
  split; [intros; apply hna_at_live|]. split; [done|]. split; [|done].
  rewrite Hc. unfold hna_at. setoid_rewrite bind_Some. naive_solver.
Qed.
End operations.

Definition example_net : IPNet := MkIPNet [192; 168; 1; 0] [255; 255; 255; 0].
Definition example_hna : HNAManager :=
  (ProcessHNA 0 (AddLocalHNA NewHNAManager example_net).1 [10; 0; 0; 2]
     (MkHNAMessage [MkHNAAssociation [192; 168; 1; 0] example_net]) 100).1.

Lemma hna_reachable_wf_witness :
  rtc (@hna_op_step canonical_order) NewHNAManager example_hna ∧ hna_wf example_hna ∧
  localHNAs example_hna !! "192.168.1.0/24" = Some example_net.
Proof.
  assert (rtc (@hna_op_step canonical_order) NewHNAManager example_hna) as Hr.
  { eapply rtc_l; [apply (hna_add _ example_net)|]. eapply rtc_l; [|apply rtc_refl].
    apply (hna_process _ 0 [10; 0; 0; 2] (MkHNAMessage [MkHNAAssociation [192; 168; 1; 0] example_net]) 100). }
  split; [exact Hr|]. split; [apply (@hna_reachable_wf canonical_order _ [] Hr)|]. vm_compute. reflexivity.
Defined.
