(* ===== verification/Heap.v ===== *)
(** * The priority queue of the SPF engine (internal/olsr/spf.go)

    [priorityQueue]'s [Len], [Less], [Swap], [Push] and [Pop] under the sift
    operations of Go's container/heap, with the heap order and what a queue
    promises to Dijkstra's algorithm as an interface ([MinQueue]). *)

From S2P Require Import Prelude.

(** ** The interface *)

(** A minimum queue: [items] lists what it holds, [pop] returns an item of the
    least priority; [ok] is its representation invariant. *)
Class MinQueue (Q : Type) := {
  q_empty : Q;
  q_ok : Q → Prop;
  q_items : Q → list (string * Z);
  q_push : string → Z → Q → Q;
  q_pop : Q → option (string * Z * Q);
  q_empty_ok : q_ok q_empty;
  q_empty_items : q_items q_empty = [];
  q_push_ok v k q : q_ok q → q_ok (q_push v k q);
  q_push_items v k q : q_ok q → q_items (q_push v k q) ≡ₚ (v, k) :: q_items q;
  q_pop_None q : q_ok q → q_pop q = None ↔ q_items q = [];
  q_pop_Some v k q q' : q_ok q → q_pop q = Some (v, k, q') →
    q_ok q' ∧ q_items q ≡ₚ (v, k) :: q_items q' ∧ ∀ v' k', (v', k') ∈ q_items q → k ≤ k';
}.

(** ** The implementation *)

Record item := MkItem { value : string; priority : Z; index : Z }.

Notation priorityQueue := (list item).

Definition Len (pq : priorityQueue) : nat := length pq.

(** [pq[i].priority < pq[j].priority]; the sift operations stay in range. *)
Definition Less (pq : priorityQueue) (i j : nat) : bool :=
  match pq !! i, pq !! j with
  | Some a, Some b => priority a <? priority b
  | _, _ => false
  end.

Definition set_index (it : item) (i : Z) : item := MkItem (value it) (priority it) i.

Definition Swap (pq : priorityQueue) (i j : nat) : priorityQueue :=
  match pq !! i, pq !! j with
  | Some a, Some b => <[j := set_index a (Z.of_nat j)]> (<[i := set_index b (Z.of_nat i)]> pq)
  | _, _ => pq
  end.

Definition Push (pq : priorityQueue) (it : item) : priorityQueue :=
  pq ++ [set_index it (Z.of_nat (Len pq))].

Definition Pop (pq : priorityQueue) : option (item * priorityQueue) :=
  match last pq with
  | Some it => Some (set_index it (-1), take (Len pq - 1) pq)
  | None => None
  end.

(** container/heap's [up]: the fuel is the position, which halves. *)
Fixpoint up (fuel : nat) (pq : priorityQueue) (j : nat) : priorityQueue :=
  match fuel with
  | O => pq
  | S fuel =>
      let i := ((j - 1) / 2)%nat in
      if (i =? j)%nat || negb (Less pq j i) then pq else up fuel (Swap pq i j) i
  end.

(** container/heap's [down]: the fuel bounds the positions left below [n]. *)
Fixpoint down (fuel : nat) (pq : priorityQueue) (i n : nat) : priorityQueue :=
  match fuel with
  | O => pq
  | S fuel =>
      let j1 := (2 * i + 1)%nat in
      if (n <=? j1)%nat then pq else
      let j2 := (j1 + 1)%nat in
      let j := if (j2 <? n)%nat && Less pq j2 j1 then j2 else j1 in
      if negb (Less pq j i) then pq else down fuel (Swap pq i j) j n
  end.

Definition heap_Push (pq : priorityQueue) (it : item) : priorityQueue :=
  let pq := Push pq it in up (Len pq) pq (Len pq - 1).

Definition heap_Pop (pq : priorityQueue) : option (item * priorityQueue) :=
  let n := (Len pq - 1)%nat in Pop (down (Len pq) (Swap pq 0 n) 0 n).

(** ** Contents *)

(** The items as pairs. *)
Definition content (it : item) : string * Z := (value it, priority it).

Definition prio (pq : priorityQueue) (i : nat) : Z := from_option priority 0 (pq !! i).

Lemma length_Swap pq i j : length (Swap pq i j) = length pq.
Proof. unfold Swap. destruct (pq !! i), (pq !! j); by rewrite ?length_insert. Qed.

Lemma Swap_lookup pq i j a b k :
  pq !! i = Some a → pq !! j = Some b →
  Swap pq i j !! k =
    if decide (k = j) then Some (set_index a (Z.of_nat j))
    else if decide (k = i) then Some (set_index b (Z.of_nat i)) else pq !! k.
Proof.
  intros Hi Hj. unfold Swap. rewrite Hi, Hj.
  destruct (decide (k = j)) as [->|Hkj].
  - rewrite list_lookup_insert_eq; [done|]. rewrite length_insert. by apply lookup_lt_Some in Hj.
  - rewrite list_lookup_insert_ne by done. destruct (decide (k = i)) as [->|Hki].
    + rewrite list_lookup_insert_eq; [done|]. by apply lookup_lt_Some in Hi.
    + by rewrite list_lookup_insert_ne.
Qed.

Lemma prio_Swap pq i j k :
  (i < length pq)%nat → (j < length pq)%nat →
  prio (Swap pq i j) k =
    if decide (k = j) then prio pq i else if decide (k = i) then prio pq j else prio pq k.
Proof.
  intros [a Ha]%lookup_lt_is_Some_2 [b Hb]%lookup_lt_is_Some_2.
  unfold prio. rewrite (Swap_lookup _ _ _ a b) by done. rewrite Ha, Hb. by repeat case_decide.
Qed.

Lemma Less_prio pq i j :
  (i < length pq)%nat → (j < length pq)%nat → Less pq i j = (prio pq i <? prio pq j).
Proof.
  intros [a Ha]%lookup_lt_is_Some_2 [b Hb]%lookup_lt_is_Some_2.
  unfold Less, prio. by rewrite Ha, Hb.
Qed.

Lemma Swap_perm pq i j :
  (i < length pq)%nat → (j < length pq)%nat → content <$> Swap pq i j ≡ₚ content <$> pq.
Proof.
  intros [a Ha]%lookup_lt_is_Some_2 [b Hb]%lookup_lt_is_Some_2.
  assert (content <$> Swap pq i j = <[j := content a]> (<[i := content b]> (content <$> pq))) as ->.
  { unfold Swap. rewrite Ha, Hb. by rewrite !list_fmap_insert. }
  apply Permutation_insert_swap; by rewrite list_lookup_fmap, ?Ha, ?Hb.
Qed.

(** ** The heap order *)

Definition parent (k : nat) : nat := ((k - 1) / 2)%nat.

(** No item is less than its parent. *)
Definition heap_ok (pq : priorityQueue) : Prop :=
  ∀ k, (0 < k < length pq)%nat → prio pq (parent k) ≤ prio pq k.

(** The heap order but for the edge above [j], whose children are at least the
    parent of [j]. *)
Definition heap_up (pq : priorityQueue) (j : nat) : Prop :=
  (∀ k, (0 < k < length pq)%nat → k ≠ j → prio pq (parent k) ≤ prio pq k) ∧
  (∀ c, (0 < j)%nat → (0 < c < length pq)%nat → parent c = j → prio pq (parent j) ≤ prio pq c).

(** The heap order below [n] but for the edges under [i], whose children are at
    least the parent of [i]. *)
Definition heap_down (pq : priorityQueue) (i n : nat) : Prop :=
  (∀ k, (0 < k < n)%nat → parent k ≠ i → prio pq (parent k) ≤ prio pq k) ∧
  (∀ c, (0 < i)%nat → (0 < c < n)%nat → parent c = i → prio pq (parent i) ≤ prio pq c).

Lemma parent_spec k i : (0 < k)%nat → parent k = i ↔ k = (2 * i + 1)%nat ∨ k = (2 * i + 2)%nat.
Proof.
  intros Hk. unfold parent. pose proof (Nat.div_mod (k - 1) 2 ltac:(lia)).
  pose proof (Nat.mod_upper_bound (k - 1) 2 ltac:(lia)). lia.
Qed.

Lemma parent_lt k : (0 < k)%nat → (parent k < k)%nat.
Proof. intros Hk. destruct (proj1 (parent_spec k _ Hk) eq_refl); lia. Qed.

Lemma up_spec fuel pq j :
  (j < length pq)%nat → (j < fuel)%nat → heap_up pq j →
  let pq' := up fuel pq j in
  heap_ok pq' ∧ content <$> pq' ≡ₚ content <$> pq ∧ length pq' = length pq.
Proof.
  revert pq j. induction fuel as [|fuel IH]; intros pq j Hj Hf [H1 H2]; [lia|]. cbn [up].
  fold (parent j). destruct (Nat.eqb_spec (parent j) j) as [E|E]; simpl.
  { assert (j = 0)%nat as -> by (destruct j; [done|]; pose proof (parent_lt (S j)); lia).
    split; [|done]. intros k Hk. apply H1; lia. }
  assert (0 < j)%nat as Hj0 by (destruct j; [done|lia]). pose proof (parent_lt j Hj0) as Hp.
  rewrite Less_prio by lia. destruct (Z.ltb_spec (prio pq j) (prio pq (parent j))) as [Hlt|Hge]; simpl.
  2:{ split; [|done]. intros k Hk. destruct (decide (k = j)) as [->|]; [lia|]. by apply H1. }
  destruct (IH (Swap pq (parent j) j) (parent j)) as (Hok & Hperm & Hlen).
  - rewrite length_Swap. lia.
  - lia.
  - split.
    + rewrite length_Swap. intros k Hk Hne. rewrite !prio_Swap by lia.
      pose proof (parent_lt k ltac:(lia)).
      destruct (decide (k = j)) as [->|Hkj].
      { rewrite (decide_False (P := parent j = j)), decide_True by done. lia. }
      rewrite (decide_False (P := k = parent j)) by done.
      destruct (decide (parent k = j)) as [Ek|Ek]; [apply (H2 k); [done..|]; done|].
      destruct (decide (parent k = parent j)) as [Ek'|Ek'].
      * pose proof (H1 k Hk Hkj). rewrite Ek' in *. lia.
      * by apply H1.
    + rewrite length_Swap. intros c Hpj Hc Ec. rewrite !prio_Swap by lia.
      pose proof (parent_lt (parent j) Hpj). pose proof (parent_lt c ltac:(lia)).
      rewrite (decide_False (P := parent (parent j) = j)) by lia.
      rewrite (decide_False (P := parent (parent j) = parent j)) by lia.
      rewrite (decide_False (P := c = parent j)) by lia.
      pose proof (H1 (parent j) ltac:(lia) E). case_decide as Hcj; [done|].
      pose proof (H1 c Hc Hcj). rewrite Ec in *. lia.
  - rewrite length_Swap in Hlen. split; [done|]. split; [|done].
    etrans; [exact Hperm|]. apply Swap_perm; lia.
Qed.

Lemma down_child pq i n :
  (n ≤ length pq)%nat → (2 * i + 1 < n)%nat →
  let j := if (2 * i + 1 + 1 <? n)%nat && Less pq (2 * i + 1 + 1) (2 * i + 1) then (2 * i + 1 + 1)%nat
           else (2 * i + 1)%nat in
  (i < j < n)%nat ∧ parent j = i ∧
  ∀ c, (0 < c < n)%nat → parent c = i → prio pq j ≤ prio pq c.
Proof.
  intros Hn Hj. cbv zeta.
  destruct (Nat.ltb_spec (2 * i + 1 + 1) n) as [H2|H2]; cbn [andb].
  - rewrite Less_prio by lia.
    destruct (Z.ltb_spec (prio pq (2 * i + 1 + 1)) (prio pq (2 * i + 1))) as [Hlt|Hge].
    + split; [lia|]. split; [apply parent_spec; lia|].
      intros c Hc Ec%parent_spec; [|lia]. destruct Ec as [->| ->]; [lia|].
      by replace (2 * i + 2)%nat with (2 * i + 1 + 1)%nat by lia.
    + split; [lia|]. split; [apply parent_spec; lia|].
      intros c Hc Ec%parent_spec; [|lia]. destruct Ec as [->| ->]; [done|].
      by replace (2 * i + 2)%nat with (2 * i + 1 + 1)%nat by lia.
  - split; [lia|]. split; [apply parent_spec; lia|].
    intros c Hc Ec%parent_spec; [|lia]. destruct Ec as [->| ->]; [done|lia].
Qed.

Lemma down_spec fuel pq i n :
  (n ≤ length pq)%nat → (n ≤ i + fuel)%nat → heap_down pq i n →
  let pq' := down fuel pq i n in
  (∀ k, (0 < k < n)%nat → prio pq' (parent k) ≤ prio pq' k) ∧
  content <$> pq' ≡ₚ content <$> pq ∧ length pq' = length pq ∧
  ∀ k, (n ≤ k)%nat → pq' !! k = pq !! k.
Proof.
  revert pq i. induction fuel as [|fuel IH]; intros pq i Hn Hf [H1 H2]; cbn [down].
  { split; [|done]. intros k Hk. apply H1; [done|]. pose proof (parent_lt k ltac:(lia)). lia. }
  destruct (Nat.leb_spec n (2 * i + 1)) as [Hle|Hlt].
  { split; [|done]. intros k Hk. apply H1; [done|]. intros Ek%parent_spec; lia. }
  destruct (down_child pq i n Hn Hlt) as (Hij & Hpj & Hmin). cbv zeta.
  set (j := if _ : bool then _ else _) in *. clearbody j.
  rewrite Less_prio by lia. destruct (Z.ltb_spec (prio pq j) (prio pq i)) as [Hji|Hge]; simpl.
  2:{ split; [|done]. intros k Hk. destruct (decide (parent k = i)) as [Ek|Ek]; [|by apply H1].
      rewrite Ek. pose proof (Hmin k Hk Ek). lia. }
  destruct (IH (Swap pq i j) j) as (Hok & Hperm & Hlen & Hrest).
  - by rewrite length_Swap.
  - lia.
  - split.
    + intros k Hk Ek. rewrite !prio_Swap by lia.
      rewrite (decide_False (P := parent k = j)) by done. pose proof (parent_lt k ltac:(lia)).
      destruct (decide (k = j)) as [->|Hkj].
      { rewrite Hpj, decide_True by done. lia. }
      destruct (decide (parent k = i)) as [Ek'|Ek'].
      * rewrite (decide_False (P := k = i)) by lia. by apply Hmin.
      * destruct (decide (k = i)) as [->|Hki]; [|by apply H1].
        apply (H2 j); [lia|lia|done].
    + intros c Hj0 Hc Ec. rewrite !prio_Swap by lia. pose proof (parent_lt c ltac:(lia)).
      rewrite (decide_False (P := parent j = j)) by lia. rewrite (decide_True (P := parent j = i)) by done.
      rewrite (decide_False (P := c = j)), (decide_False (P := c = i)) by lia.
      rewrite <-Ec. apply H1; [done|lia].
  - rewrite length_Swap in Hlen. split; [done|]. split; [|split; [done|]].
    + etrans; [exact Hperm|]. apply Swap_perm; lia.
    + intros k Hk. rewrite Hrest by done.
      destruct (lookup_lt_is_Some_2 pq i ltac:(lia)) as [a Ha].
      destruct (lookup_lt_is_Some_2 pq j ltac:(lia)) as [b Hb].
      rewrite (Swap_lookup _ _ _ a b) by done.
      rewrite (decide_False (P := k = j)), (decide_False (P := k = i)) by lia. done.
Qed.

(** The first item of a heap is the least. *)
Lemma heap_ok_min pq k : heap_ok pq → (k < length pq)%nat → prio pq 0 ≤ prio pq k.
Proof.
  intros Hok. induction (lt_wf k) as [k _ IH]. intros Hk.
  destruct (decide (k = 0)%nat) as [->|Hne]; [done|].
  pose proof (parent_lt k ltac:(lia)). etrans; [apply (IH (parent k)); lia|]. apply Hok. lia.
Qed.

Lemma heap_Push_spec pq it :
  heap_ok pq → heap_ok (heap_Push pq it) ∧
  content <$> heap_Push pq it ≡ₚ content it :: (content <$> pq).
Proof.
  intros Hok. unfold heap_Push, Push, Len. rewrite length_app. simpl.
  replace (length pq + 1 - 1)%nat with (length pq) by lia.
  destruct (up_spec (length pq + 1) (pq ++ [set_index it (Z.of_nat (length pq))]) (length pq))
    as (Hup & Hperm & _).
  - rewrite length_app. simpl. lia.
  - lia.
  - assert (∀ k, (k < length pq)%nat →
      prio (pq ++ [set_index it (Z.of_nat (length pq))]) k = prio pq k) as Hold
      by (intros k Hk; unfold prio; by rewrite lookup_app_l).
    split; rewrite length_app; simpl.
    + intros k Hk Hne. pose proof (parent_lt k ltac:(lia)). rewrite !Hold by lia. apply Hok. lia.
    + intros c Hj Hc Ec. pose proof (parent_lt c ltac:(lia)). lia.
  - split; [done|]. etrans; [exact Hperm|]. rewrite fmap_app. simpl.
    rewrite (comm (++)). done.
Qed.

Lemma heap_Pop_spec pq :
  heap_ok pq →
  match heap_Pop pq with
  | None => pq = []
  | Some (it, pq') => heap_ok pq' ∧ content <$> pq ≡ₚ content it :: (content <$> pq') ∧
      ∀ x, x ∈ pq → priority it ≤ priority x
  end.
Proof.
  intros Hok. destruct (decide (pq = [])) as [->|Hne]; [done|].
  assert (0 < length pq)%nat as Hlen by (destruct pq; [done|simpl; lia]).
  unfold heap_Pop, Len. set (n := (length pq - 1)%nat).
  destruct (lookup_lt_is_Some_2 pq 0 Hlen) as [top Htop].
  destruct (lookup_lt_is_Some_2 pq n ltac:(lia)) as [bot Hbot].
  destruct (down_spec (length pq) (Swap pq 0 n) 0 n) as (Hdown & Hperm & Hlen' & Hrest).
  - rewrite length_Swap. lia.
  - lia.
  - split; [|lia]. intros k Hk Ek. pose proof (parent_lt k ltac:(lia)). rewrite !prio_Swap by lia.
    rewrite (decide_False (P := parent k = n)), (decide_False (P := parent k = 0%nat)) by lia.
    rewrite (decide_False (P := k = n)), (decide_False (P := k = 0%nat)) by lia. apply Hok. lia.
  - set (pq' := down _ _ _ _) in *. rewrite length_Swap in Hlen'.
    assert (pq' !! n = Some (set_index top (Z.of_nat n))) as Hlast.
    { rewrite Hrest by lia. rewrite (Swap_lookup _ _ _ top bot) by done. by rewrite decide_True. }
    assert (pq' = take n pq' ++ [set_index top (Z.of_nat n)]) as Esplit.
    { rewrite <-(take_drop n pq') at 1. f_equal. rewrite (drop_S _ _ _ Hlast).
      by rewrite drop_ge by lia. }
    assert (Pop pq' = Some (set_index (set_index top (Z.of_nat n)) (-1), take n pq')) as ->.
    { unfold Pop, Len. rewrite Hlen'. fold n. rewrite Esplit at 1. by rewrite last_snoc. }
    split; [|split].
    + intros k. rewrite length_take. intros Hk. pose proof (parent_lt k ltac:(lia)).
      unfold prio. rewrite !lookup_take_lt by lia. apply Hdown. lia.
    + etrans; [symmetry; apply (Swap_perm pq 0 n); lia|]. etrans; [symmetry; exact Hperm|].
      rewrite Esplit at 1. rewrite fmap_app. simpl. rewrite (comm (++)). done.
    + intros x Hx. apply list_elem_of_lookup in Hx as [k Hk]. pose proof (lookup_lt_Some _ _ _ Hk) as Hk'.
      pose proof (heap_ok_min pq k Hok Hk') as Hmin. unfold prio in Hmin. by rewrite Htop, Hk in Hmin.
Qed.

(** Go's binary heap is a minimum queue. *)
#[export] Program Instance heap_queue : MinQueue priorityQueue := {
  q_empty := [];
  q_ok := heap_ok;
  q_items pq := content <$> pq;
  q_push v k pq := heap_Push pq (MkItem v k 0);
  q_pop pq := match heap_Pop pq with
              | Some (it, pq') => Some (value it, priority it, pq')
              | None => None
              end;
}.
Next Obligation. intros k Hk. simpl in Hk. lia. Qed.
Next Obligation. done. Qed.
Next Obligation. intros v k pq Hok. by apply heap_Push_spec. Qed.
Next Obligation. intros v k pq Hok. by apply heap_Push_spec. Qed.
Next Obligation.
  intros pq Hok. pose proof (heap_Pop_spec pq Hok) as H. simpl.
  destruct (heap_Pop pq) as [[it pq']|].
  - destruct H as (_ & Hp & _). split; [done|]. intros E. rewrite E in Hp.
    by apply Permutation_nil_cons in Hp.
  - by subst.
Qed.
Next Obligation.
  intros v k pq pq' Hok Hpop. pose proof (heap_Pop_spec pq Hok) as H. simpl in *.
  destruct (heap_Pop pq) as [[it pq1]|]; [|done]. simplify_eq. destruct H as (? & ? & Hmin).
  split; [done|]. split; [done|]. intros v' k' (x & [= -> ->] & Hx)%list_elem_of_fmap. auto.
Qed.

(** The priority queue.  Pushing keeps the heap order and adds the item;
    popping an ordered heap returns [None] exactly when it is empty, and
    otherwise an item of the least priority, leaving an ordered heap of the
    other items. *)
Theorem priorityQueue_correct pq it :
  heap_ok pq →
  (heap_ok (heap_Push pq it) ∧ content <$> heap_Push pq it ≡ₚ content it :: (content <$> pq)) ∧
  match heap_Pop pq with
  | None => pq = []
  | Some (x, pq') => heap_ok pq' ∧ content <$> pq ≡ₚ content x :: (content <$> pq') ∧
      ∀ y, y ∈ pq → priority x ≤ priority y
  end.
Proof. intros Hok. split; [by apply heap_Push_spec | by apply heap_Pop_spec]. Qed.

Lemma priorityQueue_correct_witness :
  heap_ok (heap_Push (heap_Push [] (MkItem "a" 2 0)) (MkItem "b" 1 0)) ∧
  (fst <$> heap_Pop (heap_Push (heap_Push [] (MkItem "a" 2 0)) (MkItem "b" 1 0))) = Some (MkItem "b" 1 (-1)).
Proof.
  split; [|reflexivity]. apply (priorityQueue_correct (heap_Push [] (MkItem "a" 2 0))).
  apply (priorityQueue_correct []). intros k Hk. simpl in Hk. lia.
Defined.
