(* ===== verification/Dijkstra.v ===== *)
(** * Shortest paths (internal/olsr/spf.go, [runDijkstra] and [resolveNextHop])

    Dijkstra's algorithm as the code runs it, with a queue that keeps outdated
    entries and a [visited] set that skips them.  The loop is written and
    proved against the [MinQueue] interface; [runDijkstra] runs it on Go's
    binary heap. *)

From S2P Require Import Prelude Heap.

Notation graph := (gmap string (gmap string Z)).

(** The maps and the queue of the loop. *)
Record search (Q : Type) := MkSearch {
  dist : gmap string Z;
  prev : gmap string string;
  queue : Q;
}.
Arguments MkSearch {Q}.
Arguments dist {Q}.
Arguments prev {Q}.
Arguments queue {Q}.

Section search.
Context {MO : MapOrder} {Q : Type} {MQ : MinQueue Q}.

(** [for v, cost := range adj[u] { ... }] *)
Definition relax (u : string) (s : search Q) (vc : string * Z) : search Q :=
  let alt := default 0 (dist s !! u) + vc.2 in
  let update := MkSearch (<[vc.1 := alt]> (dist s)) (<[vc.1 := u]> (prev s)) (q_push vc.1 alt (queue s)) in
  match dist s !! vc.1 with
  | None => update
  | Some d => if alt <? d then update else s
  end.

Fixpoint dijkstra_loop (fuel : nat) (p : list positive) (adj : graph) (visited : gmap string bool)
    (s : search Q) : res (gmap string Z * gmap string string) :=
  match fuel with
  | O => Diverge
  | S fuel =>
      match q_pop (queue s) with
      | None => Ok (dist s, prev s)
      | Some (u, _, q) =>
          let s := MkSearch (dist s) (prev s) q in
          if map_bool visited u then dijkstra_loop fuel p adj visited s
          else dijkstra_loop fuel p adj (<[u := true]> visited)
                 (foldl (relax u) s (range (Pos.of_succ_nat fuel :: p) (map_map adj u)))
      end
  end.

(** The number of edges of the unvisited nodes. *)
Definition pending (adj : graph) (visited : gmap string bool) : nat :=
  sum_list_with (λ kv, size kv.2) (map_to_list (filter (λ kv, map_bool visited kv.1 = false) adj)).

(** Each node is expanded once and each edge pushes at most once. *)
Definition dijkstra (p : list positive) (localID : string) (adj : graph)
    : res (gmap string Z * gmap string string) :=
  dijkstra_loop (2 + pending adj ∅) p adj ∅
    (MkSearch {[localID := 0]} ∅ (q_push localID 0 q_empty)).
End search.

Definition runDijkstra {MO : MapOrder} (p : list positive) (localID : string) (adj : graph)
    : res (gmap string Z * gmap string string) :=
  dijkstra (Q := priorityQueue) p localID adj.

(** [resolveNextHop]: the next hop and its interface, or [None] for [!ok].  The
    chain of predecessors has no cycle, so the number of nodes is enough fuel. *)
Fixpoint resolveNextHop_loop (fuel : nat) (getIface : string → Z) (prev : gmap string string)
    (localID curr : string) : res (option (string * Z)) :=
  match fuel with
  | O => Diverge
  | S fuel =>
      match prev !! curr with
      | None => Ok None
      | Some parent =>
          if bool_decide (parent = localID) then Ok (Some (curr, getIface curr))
          else resolveNextHop_loop fuel getIface prev localID parent
      end
  end.

Definition resolveNextHop (getIface : string → Z) (dest : string) (prev : gmap string string)
    (localID : string) : res (option (string * Z)) :=
  resolveNextHop_loop (S (size prev)) getIface prev localID dest.

(** ** Walks *)

Definition edge (adj : graph) (u v : string) (c : Z) : Prop := map_map adj u !! v = Some c.

Inductive walk (adj : graph) (s : string) : string → Z → Prop :=
  | walk_nil : walk adj s s 0
  | walk_snoc u v w c : walk adj s u w → edge adj u v c → walk adj s v (w + c).

(** [d] is the length of a shortest walk. *)
Definition shortest (adj : graph) (s v : string) (d : Z) : Prop :=
  walk adj s v d ∧ ∀ w, walk adj s v w → d ≤ w.

Definition positive_costs (adj : graph) : Prop := ∀ u v c, edge adj u v c → 0 < c.

Lemma walk_app adj s u v w w' : walk adj s u w → walk adj u v w' → walk adj s v (w + w').
Proof.
  intros H1 H2. induction H2 as [|x y w' c _ IH He].
  - by rewrite Z.add_0_r.
  - rewrite Z.add_assoc. by econstructor.
Qed.

Lemma walk_nonneg adj s v w : positive_costs adj → walk adj s v w → 0 ≤ w.
Proof. intros Hpos. induction 1 as [|u v w c _ IH He]; [done|]. apply Hpos in He. lia. Qed.

(** ** The invariant of the loop *)

Section correctness.
Context {MO : MapOrder} {Q : Type} {MQ : MinQueue Q}.
Context (adj : graph) (src : string) (Hpos : positive_costs adj).
Implicit Types (vis : gmap string bool) (s : search Q).

Notation visited vis u := (map_bool vis u = true).

(** The facts that hold between any two relaxations; [scanned u v] says that
    the edge from the visited node [u] to [v] has been relaxed. *)
Record search_inv (vis : gmap string bool) (scanned : string → string → Prop) (s : search Q) : Prop := {
  si_queue : q_ok (queue s);
  si_src : dist s !! src = Some 0;
  si_walk v d : dist s !! v = Some d → walk adj src v d;
  si_visited u : visited vis u → is_Some (dist s !! u);
  si_scanned u v c d : visited vis u → scanned u v → edge adj u v c → dist s !! u = Some d →
    ∃ d', dist s !! v = Some d' ∧ d' ≤ d + c;
  si_pending v d : dist s !! v = Some d → ¬ visited vis v → (v, d) ∈ q_items (queue s);
  si_entries v d : (v, d) ∈ q_items (queue s) → ∃ d', dist s !! v = Some d' ∧ d' ≤ d;
  si_order u v du d : visited vis u → dist s !! u = Some du → (v, d) ∈ q_items (queue s) → du ≤ d;
  si_prev v u : prev s !! v = Some u → visited vis u ∧
    ∃ c d, edge adj u v c ∧ dist s !! u = Some d ∧ dist s !! v = Some (d + c);
  si_has_prev v : is_Some (dist s !! v) → v ≠ src → is_Some (prev s !! v);
}.

Lemma dist_nonneg vis sc s v d : search_inv vis sc s → dist s !! v = Some d → 0 ≤ d.
Proof. intros Hs Hd. eapply walk_nonneg; [done|]. by eapply si_walk. Qed.

(** No visited node is farther than an unvisited one. *)
Lemma visited_closer vis sc s u v du dv :
  search_inv vis sc s → visited vis u → dist s !! u = Some du →
  ¬ visited vis v → dist s !! v = Some dv → du ≤ dv.
Proof. intros Hs ????. eapply (si_order _ _ _ Hs u v); [done..|]. by eapply si_pending. Qed.

(** Shortening the distance of the unvisited node [v] through [u]. *)
Lemma update_inv vis (sc : string → string → Prop) s u v c du :
  search_inv vis sc s → visited vis u → edge adj u v c → dist s !! u = Some du →
  (∀ w dw, visited vis w → dist s !! w = Some dw → dw ≤ du) →
  ¬ visited vis v → (∀ d', dist s !! v = Some d' → du + c < d') → v ≠ src →
  search_inv vis (λ a b, sc a b ∨ (a = u ∧ b = v))
    (MkSearch (<[v := du + c]> (dist s)) (<[v := u]> (prev s)) (q_push v (du + c) (queue s))).
Proof.
  intros Hs Hu He Hdu Hmax Hv Hlt Hsrc. pose proof (Hpos _ _ _ He) as Hc.
  destruct Hs as [Sq Ss Sw Sv Ssc Sp Se So Sprev Shas].
  assert (∀ w k, (w, k) ∈ q_items (q_push v (du + c) (queue s)) ↔
    (w = v ∧ k = du + c) ∨ (w, k) ∈ q_items (queue s)) as Hitems.
  { intros w k. rewrite (q_push_items v (du + c) (queue s) Sq), elem_of_cons. naive_solver. }
  assert (∀ a, visited vis a → <[v := du + c]> (dist s) !! a = dist s !! a) as Hold.
  { intros a Ha. apply lookup_insert_ne. intros <-. by apply Hv. }
  split; simpl.
  - by apply q_push_ok.
  - by rewrite lookup_insert_ne.
  - intros w d [[<- <-]|[? ?]]%lookup_insert_Some; [|by apply Sw]. econstructor; [by apply Sw|done].
  - intros w Hw. rewrite Hold by done. by apply Sv.
  - intros a b c' d Ha Hab Hedge. rewrite Hold by done. intros Hda.
    destruct (decide (v = b)) as [<-|Hb].
    + rewrite lookup_insert_eq. eexists. split; [done|]. destruct Hab as [Hab|[-> _]].
      * destruct (Ssc a v c' d) as (d' & Hd' & ?); [done..|]. specialize (Hlt _ Hd'). lia.
      * unfold edge in *. simplify_eq. lia.
    + rewrite lookup_insert_ne by done. destruct Hab as [Hab|[_ ->]]; [|done]. by eapply Ssc.
  - intros w d Hd Hw. apply Hitems. apply lookup_insert_Some in Hd as [[<- <-]|[? ?]]; [by left|right; auto].
  - intros w k [[-> ->]|Hk]%Hitems; [rewrite lookup_insert_eq; eauto with lia|].
    destruct (Se _ _ Hk) as (d' & Hd' & ?). destruct (decide (v = w)) as [<-|?].
    + rewrite lookup_insert_eq. eexists. split; [done|]. specialize (Hlt _ Hd'). lia.
    + rewrite lookup_insert_ne by done. eauto.
  - intros a w da k Ha. rewrite Hold by done. intros Hda [[-> ->]|Hk]%Hitems.
    + pose proof (Hmax _ _ Ha Hda). lia.
    + by apply (So a w).
  - intros w x [[<- <-]|[? Hx]]%lookup_insert_Some.
    + split; [done|]. exists c, du. rewrite Hold, lookup_insert_eq by done. done.
    + destruct (Sprev _ _ Hx) as (Hxv & c' & d & ? & ? & ?). split; [done|]. exists c', d.
      rewrite Hold by done. by rewrite lookup_insert_ne.
  - intros w Hw Hws. destruct (decide (v = w)) as [<-|?]; [rewrite lookup_insert_eq; eauto|].
    rewrite lookup_insert_ne in Hw by done. rewrite lookup_insert_ne by done. by apply Shas.
Qed.

(** One relaxation of an edge of the node [u] being scanned. *)
Lemma relax_inv vis (sc : string → string → Prop) s u v c du :
  search_inv vis sc s → visited vis u → edge adj u v c → dist s !! u = Some du →
  (∀ w dw, visited vis w → dist s !! w = Some dw → dw ≤ du) →
  let s' := relax u s (v, c) in
  search_inv vis (λ a b, sc a b ∨ (a = u ∧ b = v)) s' ∧
  (∀ w, visited vis w → dist s' !! w = dist s !! w) ∧
  (length (q_items (queue s')) ≤ S (length (q_items (queue s))))%nat.
Proof.
  intros Hs Hu He Hdu Hmax. cbv zeta. unfold relax. cbn [fst snd]. rewrite Hdu. simpl.
  pose proof (Hpos _ _ _ He) as Hc. pose proof (dist_nonneg _ _ _ _ _ Hs Hdu) as Hdu0.
  set (s1 := MkSearch _ _ _).
  assert (¬ visited vis v → (∀ d', dist s !! v = Some d' → du + c < d') → v ≠ src →
    search_inv vis (λ a b, sc a b ∨ (a = u ∧ b = v)) s1 ∧
    (∀ w, visited vis w → dist s1 !! w = dist s !! w) ∧
    (length (q_items (queue s1)) ≤ S (length (q_items (queue s))))%nat) as Hnew.
  { intros Hv Hlt Hsrc. split; [by apply update_inv|]. split.
    - intros w Hw. apply lookup_insert_ne. intros <-. by apply Hv.
    - simpl. rewrite q_push_items by (by eapply si_queue). simpl. lia. }
  destruct (dist s !! v) as [d|] eqn:Ed.
  - destruct (Z.ltb_spec (du + c) d) as [Hlt|Hge].
    + apply Hnew.
      * intros Hv. pose proof (Hmax _ _ Hv Ed). lia.
      * naive_solver.
      * intros ->. pose proof (si_src _ _ _ Hs). simplify_eq. lia.
    + split; [|split; [done|lia]]. destruct Hs. split; try done.
      intros a b c' d' Ha [Hab|[-> ->]] Hab' Hda; [by eapply si_scanned0|].
      unfold edge in *. simplify_eq. eauto.
  - apply Hnew; [|done|].
    + intros Hv. apply (si_visited _ _ _ Hs) in Hv as [? ?]. congruence.
    + intros ->. pose proof (si_src _ _ _ Hs). congruence.
Qed.

Lemma search_inv_weaken vis (sc sc' : string → string → Prop) s :
  (∀ u v c, visited vis u → edge adj u v c → sc' u v → sc u v) →
  search_inv vis sc s → search_inv vis sc' s.
Proof. intros Hsc []. split; try done. intros u v c d Hu Huv He. eauto. Qed.

(** The whole scan of the edges of [u]. *)
Lemma scan_inv p vis (sc : string → string → Prop) s u du :
  search_inv vis sc s → visited vis u → dist s !! u = Some du →
  (∀ w dw, visited vis w → dist s !! w = Some dw → dw ≤ du) →
  let s' := foldl (relax u) s (range p (map_map adj u)) in
  search_inv vis (λ a b, sc a b ∨ a = u) s' ∧
  (length (q_items (queue s')) ≤ length (q_items (queue s)) + size (map_map adj u))%nat.
Proof.
  intros Hs Hu Hdu Hmax. cbv zeta.
  assert (search_inv vis (λ a b, sc a b ∨ (a = u ∧ is_Some (map_map adj u !! b)))
      (foldl (relax u) s (range p (map_map adj u))) ∧
    (∀ w, visited vis w → dist (foldl (relax u) s (range p (map_map adj u))) !! w = dist s !! w) ∧
    (length (q_items (queue (foldl (relax u) s (range p (map_map adj u))))) ≤
       length (q_items (queue s)) + size (map_map adj u))%nat) as (H1 & _ & H3).
  { apply (range_fold_ind (λ m s', search_inv vis (λ a b, sc a b ∨ (a = u ∧ is_Some (m !! b))) s' ∧
      (∀ w, visited vis w → dist s' !! w = dist s !! w) ∧
      (length (q_items (queue s')) ≤ length (q_items (queue s)) + size m)%nat)).
    - rewrite map_size_empty. split; [|split; [done|lia]].
      eapply search_inv_weaken; [|done]. intros a b c _ _ [?|[_ Hb]]; [done|].
      rewrite lookup_empty in Hb. by destruct Hb.
    - intros v c m s' Hsub Hv Hm (IH1 & IH2 & IH3).
      destruct (relax_inv vis _ s' u v c du IH1 Hu Hv) as (R1 & R2 & R3).
      + by rewrite IH2.
      + intros w dw Hw. rewrite IH2 by done. by apply Hmax.
      + split; [|split].
        * eapply search_inv_weaken; [|exact R1]. intros a b c' _ _ [?|[-> Hb]]; [by left; left|].
          destruct (decide (v = b)) as [<-|?]; [by right|]. rewrite lookup_insert_ne in Hb by done.
          left. by right.
        * intros w Hw. by rewrite R2, IH2.
        * rewrite map_size_insert_None by done. lia. }
  split; [|done]. eapply search_inv_weaken; [|exact H1].
  intros a b c _ He [?| ->]; [by left|right]. split; [done|]. unfold edge in He. rewrite He. eauto.
Qed.

(** Between two iterations every edge of a visited node has been relaxed. *)
Definition loop_inv vis s : Prop := search_inv vis (λ _ _, True) s.

Lemma loop_inv_start : loop_inv ∅ (MkSearch {[src := 0]} ∅ (q_push src 0 q_empty)).
Proof.
  pose proof q_empty_ok as Hok.
  assert (∀ w k, (w, k) ∈ q_items (q_push src 0 q_empty) ↔ w = src ∧ k = 0) as Hitems.
  { intros w k. rewrite (q_push_items src 0 q_empty Hok), q_empty_items, list_elem_of_singleton. naive_solver. }
  assert (∀ u, ¬ visited (∅ : gmap string bool) u) as Hno by (intros u; unfold map_bool; by rewrite lookup_empty).
  split; simpl.
  - by apply q_push_ok.
  - apply lookup_singleton_eq.
  - intros v d [<- <-]%lookup_singleton_Some. constructor.
  - intros u Hu. by destruct (Hno u).
  - intros u v c d Hu. by destruct (Hno u).
  - intros v d [<- <-]%lookup_singleton_Some _. by apply Hitems.
  - intros v d [-> ->]%Hitems. exists 0. by rewrite lookup_singleton_eq.
  - intros u v du d Hu. by destruct (Hno u).
  - intros v u. by rewrite lookup_empty.
  - intros v [d Hd] Hv. apply lookup_singleton_Some in Hd as [? _]. congruence.
Qed.

(** Popping the queue: an outdated entry changes nothing, a fresh one gives a
    node whose distance is final. *)
Lemma pop_visited vis s u k q :
  loop_inv vis s → q_pop (queue s) = Some (u, k, q) → visited vis u →
  loop_inv vis (MkSearch (dist s) (prev s) q).
Proof.
  intros [Sq Ss Sw Sv Ssc Sp Se So Sprev Shas] Hpop Hu.
  destruct (q_pop_Some _ _ _ _ Sq Hpop) as (Hq & Hperm & _).
  assert (∀ x, x ∈ q_items q → x ∈ q_items (queue s)) as Hin by (intros x; rewrite Hperm, elem_of_cons; auto).
  split; simpl; try done; eauto.
  intros v d Hd Hv. pose proof (Sp _ _ Hd Hv) as Hi. rewrite Hperm, elem_of_cons in Hi.
  destruct Hi as [[= -> _]|?]; done.
Qed.

Lemma pop_fresh vis s u k q :
  loop_inv vis s → q_pop (queue s) = Some (u, k, q) → ¬ visited vis u →
  let s1 := MkSearch (dist s) (prev s) q in
  search_inv (<[u := true]> vis) (λ a _, a ≠ u) s1 ∧
  ∃ du, dist s1 !! u = Some du ∧
    ∀ w dw, visited (<[u := true]> vis) w → dist s1 !! w = Some dw → dw ≤ du.
Proof.
  intros Hs Hpop Hu. pose proof Hs as [Sq Ss Sw Sv Ssc Sp Se So Sprev Shas].
  destruct (q_pop_Some _ _ _ _ Sq Hpop) as (Hq & Hperm & Hmin).
  assert (∀ x, x ∈ q_items q → x ∈ q_items (queue s)) as Hin by (intros x; rewrite Hperm, elem_of_cons; auto).
  assert ((u, k) ∈ q_items (queue s)) as Huk by (rewrite Hperm; constructor).
  destruct (Se _ _ Huk) as (du & Hdu & Hle).
  pose proof (Hmin _ _ (Sp _ _ Hdu Hu)) as Hge. assert (k = du) as -> by lia.
  assert (∀ w, visited (<[u:=true]> vis) w ↔ w = u ∨ visited vis w) as Hvis.
  { intros w. unfold map_bool. destruct (decide (u = w)) as [<-|?].
    - rewrite lookup_insert_eq. naive_solver.
    - rewrite lookup_insert_ne by done. naive_solver. }
  split.
  - split; simpl; try done.
    + intros w [->|?]%Hvis; eauto.
    + intros a b c d [->|Ha]%Hvis Hab; [done|]. eauto.
    + intros v d Hd Hv. rewrite Hvis in Hv. assert (¬ visited vis v) as Hv' by tauto.
      pose proof (Sp _ _ Hd Hv') as Hi. rewrite Hperm, elem_of_cons in Hi.
      destruct Hi as [[= -> _]|?]; [tauto|done].
    + eauto.
    + intros a v da d [->|Ha]%Hvis Hda Hi; [|eauto]. simplify_eq. eauto.
    + intros v x Hx. destruct (Sprev _ _ Hx) as [? ?]. rewrite Hvis. eauto.
  - exists du. split; [done|]. intros w dw [->|Hw]%Hvis Hdw; [by simplify_eq/=|].
    by eapply (So w u).
Qed.

(** Once the queue is empty the distances are shortest. *)
Lemma loop_inv_done vis s :
  loop_inv vis s → q_pop (queue s) = None →
  ∀ v, match dist s !! v with Some d => shortest adj src v d | None => ∀ w, ¬ walk adj src v w end.
Proof.
  intros Hs Hpop. apply q_pop_None in Hpop; [|by eapply si_queue].
  assert (∀ v d, dist s !! v = Some d → visited vis v) as Hall.
  { intros v d Hd. destruct (decide (visited vis v)) as [|Hv]; [done|].
    pose proof (si_pending _ _ _ Hs _ _ Hd Hv) as Hi. rewrite Hpop in Hi. by apply elem_of_nil in Hi. }
  assert (∀ v w, walk adj src v w → ∃ d, dist s !! v = Some d ∧ d ≤ w) as Hreach.
  { induction 1 as [|u v w c _ (du & Hdu & Hle) He].
    - exists 0. split; [by eapply si_src|done].
    - destruct (si_scanned _ _ _ Hs u v c du) as (d & Hd & ?); [by eapply Hall|done..|].
      exists d. split; [done|lia]. }
  intros v. destruct (dist s !! v) as [d|] eqn:Ed.
  - split; [by eapply si_walk|]. intros w Hw. destruct (Hreach _ _ Hw) as (d' & ? & ?). by simplify_eq.
  - intros w Hw. destruct (Hreach _ _ Hw) as (d' & ? & ?). congruence.
Qed.

(** ** Termination *)

Lemma pending_visit vis u :
  map_bool vis u = false →
  pending adj vis = (size (map_map adj u) + pending adj (<[u := true]> vis))%nat.
Proof.
  intros Hu. unfold pending.
  set (F := filter (λ kv, map_bool vis kv.1 = false) adj).
  assert (filter (λ kv, map_bool (<[u:=true]> vis) kv.1 = false) adj = delete u F) as ->.
  { apply map_eq. intros k. apply option_eq. intros m.
    rewrite lookup_delete_Some. unfold F. rewrite !map_lookup_filter_Some. simpl.
    unfold map_bool. destruct (decide (u = k)) as [<-|?].
    - rewrite lookup_insert_eq. naive_solver.
    - rewrite lookup_insert_ne by done. naive_solver. }
  unfold map_map. destruct (adj !! u) as [m|] eqn:Em; simpl.
  - assert (F !! u = Some m) as HF by (by apply map_lookup_filter_Some).
    rewrite <-(map_to_list_delete F u m HF). simpl. done.
  - rewrite map_size_empty. rewrite delete_id; [done|]. apply map_lookup_filter_None. by left.
Qed.

Lemma dijkstra_loop_correct fuel p vis s :
  loop_inv vis s → (length (q_items (queue s)) + pending adj vis < fuel)%nat →
  ∃ vis' s', dijkstra_loop fuel p adj vis s = Ok (dist s', prev s') ∧
    loop_inv vis' s' ∧ q_pop (queue s') = None.
Proof.
  revert vis s. induction fuel as [|fuel IH]; intros vis s Hs Hf; [lia|]. cbn [dijkstra_loop].
  destruct (q_pop (queue s)) as [[[u k] q]|] eqn:Hpop; [|eauto].
  destruct (q_pop_Some _ _ _ _ (si_queue _ _ _ Hs) Hpop) as (_ & Hperm & _).
  assert (length (q_items (queue s)) = S (length (q_items q))) as Hlen by (by rewrite Hperm).
  destruct (map_bool vis u) eqn:Hu.
  - apply IH; [by eapply pop_visited|]. simpl. lia.
  - apply not_true_iff_false in Hu as Hu'.
    destruct (pop_fresh vis s u k q Hs Hpop Hu') as (Hs1 & du & Hdu & Hmax).
    destruct (scan_inv (Pos.of_succ_nat fuel :: p) _ _ _ u du Hs1) as [Hs2 Hlen2]; [|done|done|].
    { unfold map_bool. by rewrite lookup_insert_eq. }
    apply IH.
    + eapply search_inv_weaken; [|exact Hs2]. intros a b c _ _ _.
      destruct (decide (a = u)); auto.
    + rewrite (pending_visit vis u Hu) in Hf. simpl in Hlen2. lia.
Qed.

(** What a finished search knows. *)
Record search_result (dist : gmap string Z) (prev : gmap string string) : Prop := {
  sr_reached v d : dist !! v = Some d ↔ shortest adj src v d;
  sr_unreached v : dist !! v = None ↔ ∀ w, ¬ walk adj src v w;
  sr_prev v u : prev !! v = Some u →
    ∃ c d, edge adj u v c ∧ dist !! u = Some d ∧ dist !! v = Some (d + c);
  sr_has_prev v : is_Some (prev !! v) ↔ is_Some (dist !! v) ∧ v ≠ src;
}.

Lemma dijkstra_result p :
  ∃ dist prev, dijkstra (Q := Q) p src adj = Ok (dist, prev) ∧ search_result dist prev.
Proof.
  destruct (dijkstra_loop_correct (2 + pending adj ∅) p ∅ (MkSearch {[src := 0]} ∅ (q_push src 0 q_empty)))
    as (vis & s & Heq & Hs & Hpop).
  - apply loop_inv_start.
  - simpl. rewrite q_push_items by apply q_empty_ok. rewrite q_empty_items. simpl. lia.
  - exists (dist s), (prev s). split; [exact Heq|].
    pose proof (loop_inv_done _ _ Hs Hpop) as Hd.
    assert (∀ v, prev s !! v ≠ None → is_Some (dist s !! v) ∧ v ≠ src) as Hpv.
    { intros v Hv. destruct (prev s !! v) as [u|] eqn:Eu; [|done].
      destruct (si_prev _ _ _ Hs _ _ Eu) as (_ & c & d & He & Hdu & Hdv). split; [eauto|]. intros ->.
      pose proof (si_src _ _ _ Hs). pose proof (dist_nonneg _ _ _ _ _ Hs Hdu). apply Hpos in He.
      simplify_eq. lia. }
    split.
    + intros v d. specialize (Hd v). destruct (dist s !! v) as [d'|]; split; try done.
      * by intros [= ->].
      * intros [Hw Hmin]. destruct Hd as [Hw' Hmin']. f_equal.
        apply Hmin in Hw'. apply Hmin' in Hw. lia.
      * intros [Hw _]. by apply Hd in Hw.
    + intros v. specialize (Hd v). destruct (dist s !! v) as [d'|]; [|done]. split; [done|].
      intros Hno. destruct Hd as [Hw _]. by apply Hno in Hw.
    + intros v u Hvu. destruct (si_prev _ _ _ Hs _ _ Hvu) as (_ & ?). done.
    + intros v. split.
      * intros [u Hu]. apply Hpv. by rewrite Hu.
      * intros [Hv Hne]. by eapply si_has_prev.
Qed.

(** ** Next hops *)

(** The next hop [h] towards [v]: a node linked to the source from which the
    rest of a shortest path leads to [v]. *)
Definition next_hop (h v : string) (d : Z) : Prop :=
  ∃ c, edge adj src h c ∧ walk adj h v (d - c).

Lemma resolve_correct getIface dist prev fuel v d :
  search_result dist prev → dist !! v = Some d → v ≠ src →
  (size (filter (λ kv, (default 0 (dist !! kv.1) <? d)%Z = true) prev) < fuel)%nat →
  ∃ h, resolveNextHop_loop fuel getIface prev src v = Ok (Some (h, getIface h)) ∧ next_hop h v d.
Proof.
  intros Hr. revert v d. induction fuel as [|fuel IH]; intros v d Hd Hv Hf; [lia|]. cbn [resolveNextHop_loop].
  assert (is_Some (prev !! v)) as [u Hu] by (apply (sr_has_prev _ _ Hr); eauto).
  rewrite Hu. destruct (sr_prev _ _ Hr _ _ Hu) as (c & du & He & Hdu & Hdv). simplify_eq.
  pose proof (Hpos _ _ _ He) as Hc. case_bool_decide as Eu.
  - subst. exists v. split; [done|]. exists c. split; [done|].
    assert (du = 0) as ->.
    { apply (sr_reached _ _ Hr) in Hdu as [Hw Hmin].
      pose proof (Hmin 0 (walk_nil _ _)). pose proof (walk_nonneg _ _ _ _ Hpos Hw). lia. }
    replace (0 + c - c) with 0 by lia. constructor.
  - destruct (IH u du Hdu Eu) as (h & Hh & c' & Hc' & Hw).
    + assert (is_Some (prev !! u)) as [x Hx] by (apply (sr_has_prev _ _ Hr); eauto).
      eapply Nat.lt_le_trans; [|apply Nat.lt_succ_r, Hf]. apply map_subset_size. split.
      * apply map_subseteq_spec. intros k y. rewrite !map_lookup_filter_Some. simpl.
        rewrite !Z.ltb_lt. intros [? ?]. split; [done|lia].
      * rewrite map_subseteq_spec. intros Hsub.
        assert (filter (λ kv, default 0 (dist !! kv.1) <? du + c = true) prev !! u = Some x) as Hx'.
        { apply map_lookup_filter_Some. simpl. rewrite Hdu. simpl. split; [done|]. apply Z.ltb_lt. lia. }
        apply Hsub, map_lookup_filter_Some in Hx' as [_ Hx']. simpl in Hx'. rewrite Hdu in Hx'. simpl in Hx'.
        apply Z.ltb_lt in Hx'. lia.
    + exists h. split; [done|]. exists c'. split; [done|].
      replace (du + c - c') with ((du - c') + c) by lia. by econstructor.
Qed.
End correctness.

(** The next-hop resolution on the result of a search. *)
Lemma search_resolve getIface adj src dist prev v :
  positive_costs adj → search_result adj src dist prev → v ≠ src →
  match dist !! v with
  | Some d => ∃ h, resolveNextHop getIface v prev src = Ok (Some (h, getIface h)) ∧ next_hop adj src h v d
  | None => resolveNextHop getIface v prev src = Ok None
  end.
Proof.
  intros Hpos Hr Hv. destruct (dist !! v) as [d|] eqn:Ed.
  - eapply resolve_correct; [done..|]. apply Nat.lt_succ_r, map_subseteq_size, map_filter_subseteq.
  - unfold resolveNextHop. cbn [resolveNextHop_loop].
    assert (prev !! v = None) as ->; [|done]. apply eq_None_not_Some. intros Hp.
    apply (sr_has_prev _ _ _ _ Hr) in Hp as [Hp _]. rewrite Ed in Hp. by destruct Hp.
Qed.

Lemma search_resolve_source getIface adj src dist prev :
  search_result adj src dist prev → resolveNextHop getIface src prev src = Ok None.
Proof.
  intros Hr. unfold resolveNextHop. cbn [resolveNextHop_loop].
  assert (prev !! src = None) as ->; [|done]. apply eq_None_not_Some. intros Hp.
  by apply (sr_has_prev _ _ _ _ Hr) in Hp as [_ Hp].
Qed.

(** C4. Dijkstra.  On a graph of positive costs [runDijkstra] terminates (the
    fuel never runs out) and, whatever the iteration orders, records for each
    node the length of a shortest walk from the router, exactly for the nodes
    that some walk reaches; [resolveNextHop] terminates on every reached node
    other than the router and returns a node linked to the router from which
    the rest of a shortest walk leads to the destination. *)
Theorem runDijkstra_correct {MO : MapOrder} p localID adj getIface :
  positive_costs adj →
  ∃ dist prev, runDijkstra p localID adj = Ok (dist, prev) ∧
    (∀ v d, dist !! v = Some d ↔ shortest adj localID v d) ∧
    (∀ v, dist !! v = None ↔ ∀ w, ¬ walk adj localID v w) ∧
    ∀ v, v ≠ localID →
      match dist !! v with
      | Some d => ∃ h, resolveNextHop getIface v prev localID = Ok (Some (h, getIface h)) ∧
                       next_hop adj localID h v d
      | None => resolveNextHop getIface v prev localID = Ok None
      end.
Proof.
  intros Hpos. destruct (dijkstra_result (Q := priorityQueue) adj localID Hpos p) as (dist & prev & Heq & Hr).
  exists dist, prev. split; [exact Heq|]. split; [apply Hr|]. split; [apply Hr|].
  intros v Hv. by apply search_resolve.
Qed.

(** A square: r - a - c and r - b - c, with an extra node d behind c. *)
Definition example_graph : graph :=
  {["r" := {["a" := 1; "b" := 1]}; "a" := {["r" := 1; "c" := 1]}; "b" := {["r" := 1; "c" := 1]};
    "c" := {["d" := 1]}]}.

Lemma example_graph_positive : positive_costs example_graph.
Proof.
  assert (map_Forall (λ _ m, map_Forall (λ _ c, 0 < c) m) example_graph) as H
    by (apply (bool_decide_unpack _); vm_compute; exact I).
  intros u v c. unfold edge, map_map. destruct (example_graph !! u) as [m|] eqn:E; simpl.
  - intros Hv. exact (H u m E v c Hv).
  - by rewrite lookup_empty.
Qed.

Lemma runDijkstra_correct_witness :
  positive_costs example_graph ∧
  (fst <$> @runDijkstra canonical_order [] "r" example_graph) =
    Ok {["r" := 0; "a" := 1; "b" := 1; "c" := 2; "d" := 3]} ∧
  shortest example_graph "r" "d" 3.
Proof.
  split; [exact example_graph_positive|]. split; [vm_compute; reflexivity|].
  destruct (@runDijkstra_correct canonical_order [] "r" example_graph (λ _, 0) example_graph_positive)
    as (dist & prev & Heq & Hd & _).
  apply Hd. assert (fst <$> Ok (dist, prev) = Ok {["r" := 0; "a" := 1; "b" := 1; "c" := 2; "d" := 3]}) as E
    by (rewrite <-Heq; vm_compute; reflexivity).
  injection E as ->. vm_compute. reflexivity.
Defined.
