(* ===== verification/Spf.v ===== *)
(** * The SPF engine (internal/olsr/spf.go)

    The route calculation: the adjacency list built from the neighbor and
    topology managers, Dijkstra's algorithm, the host and gateway routes, the
    events that bring the forwarding table up to date, and the next-hop lookup
    by longest prefix.  The interface lookup of the daemon is the argument
    [GetIfaceIndex]. *)

From S2P Require Import Prelude GoNet TimeVal Packet Events Neighbor Topology Hna Heap Dijkstra.

(** The interface [nmLookup] and its implementation [LocalRouterLookup]. *)
Record nmLookup := MkLookup {
  GetRouterID : string;
  GetIfaceIndex : string → Z;
}.

Record LocalRouterLookup := MkLocalRouterLookup {
  RouterID : string;
  IfaceIndexLookup : option (string → Z);   (* a function value, [None] is nil *)
}.

Definition local_lookup (l : LocalRouterLookup) : nmLookup :=
  MkLookup (RouterID l) (λ ip, match IfaceIndexLookup l with Some f => f ip | None => 0 end).

Definition addLink (adj : graph) (u v : string) (cost : Z) : graph :=
  <[u := <[v := cost]> (map_map adj u)]> adj.

Section engine.
Context {MO : MapOrder}.

(** The links of the lists that the managers give: the three loops of
    [buildAdjacencyList]. *)
Definition adjacency (localID : string) (neighbors : list NeighborTuple) (twoHops : list (string * list string))
    (topoTuples : list TopologyTuple) : graph :=
  let adj := foldl (λ a n, addLink (addLink a localID (neigh_NeighborIP n) 1) (neigh_NeighborIP n) localID 1)
               ∅ neighbors in
  let adj := foldl (λ a kv, foldl (λ a hop2, addLink a kv.1 hop2 1) a kv.2) adj twoHops in
  foldl (λ a t, addLink a (LastIP t) (DestIP t) 1) adj topoTuples.

Definition buildAdjacencyList (p : list positive) (now : Z) (nm : NeighborManager) (tm : TopologyManager)
    (localID : string) : graph :=
  adjacency localID (GetNeighbors (1%positive :: p) nm)
    (range (2%positive :: p) (GetTwoHopNeighbors (3%positive :: p) now nm)) (GetTopology (4%positive :: p) tm).

(** One host route: [for nodeIP, d := range dist]. *)
Definition host_step (lk : nmLookup) (prev : gmap string string)
    (acc : res (gmap string Route)) (vd : string * Z) : res (gmap string Route) :=
  routes ← acc;
  if bool_decide (vd.1 = GetRouterID lk) then Ok routes
  else
    r ← resolveNextHop (GetIfaceIndex lk) vd.1 prev (GetRouterID lk);
    match r with
    | Some (nextHop, ifaceIdx) =>
        let prefix := vd.1 +:+ "/32" in
        Ok (<[prefix := MkRoute prefix nextHop vd.2 ifaceIdx]> routes)
    | None => Ok routes
    end.

(** One gateway route: [for _, entry := range hnaEntries]. *)
Definition gateway_step (lk : nmLookup) (dist : gmap string Z) (prev : gmap string string)
    (acc : res (gmap string Route)) (entry : HNAEntry) : res (gmap string Route) :=
  routes ← acc;
  if IsLocal entry then Ok routes
  else
    match dist !! GatewayIP entry with
    | None => Ok routes
    | Some gwDist =>
        r ← resolveNextHop (GetIfaceIndex lk) (GatewayIP entry) prev (GetRouterID lk);
        match r with
        | Some (nextHop, ifaceIdx) =>
            let prefix := IPNet_String (Network entry) in
            let install := match routes !! prefix with
                           | None => true
                           | Some existing => gwDist <? Metric existing
                           end in
            Ok (if install then <[prefix := MkRoute prefix nextHop (gwDist + 1) ifaceIdx]> routes else routes)
        | None => Ok routes
        end
    end.

(** The table for a graph and a list of associations. *)
Definition route_table (p : list positive) (lk : nmLookup) (adj : graph) (hnaEntries : list HNAEntry)
    : res (gmap string Route) :=
  dp ← runDijkstra (2%positive :: p) (GetRouterID lk) adj;
  let hosts := foldl (host_step lk dp.2) (Ok ∅) (range (3%positive :: p) dp.1) in
  foldl (gateway_step lk dp.1 dp.2) hosts hnaEntries.

(** The new routing table of [CalculateRoutes]. *)
Definition computeRoutes (p : list positive) (lk : nmLookup) (now : Z) (nm : NeighborManager)
    (tm : TopologyManager) (hm : HNAManager) : res (gmap string Route) :=
  route_table p lk (buildAdjacencyList (1%positive :: p) now nm tm (GetRouterID lk))
    (GetHNAEntries (4%positive :: p) hm).

(** [diffAndPublishRoutes]: the events, in order.  A route whose metric alone
    changed is not published. *)
Definition diffAndPublishRoutes (p : list positive) (active newRoutes : gmap string Route) : list Event :=
  omap (λ kr,
    match newRoutes !! kr.1 with
    | None => Some (MkEvent EventRouteInstall (DataRoute "delete" kr.2))
    | Some newRoute =>
        if bool_decide (NextHop kr.2 ≠ NextHop newRoute) || bool_decide (IfaceIndex kr.2 ≠ IfaceIndex newRoute)
        then Some (MkEvent EventRouteInstall (DataRoute "add" newRoute)) else None
    end) (range (1%positive :: p) active) ++
  omap (λ kr,
    match active !! kr.1 with
    | None => Some (MkEvent EventRouteInstall (DataRoute "add" kr.2))
    | Some _ => None
    end) (range (2%positive :: p) newRoutes).

(** The engine's state is [activeRoutes]; [elapsed] is the measured duration. *)
Definition CalculateRoutes (p : list positive) (lk : nmLookup) (now elapsed : Z) (activeRoutes : gmap string Route)
    (nm : NeighborManager) (tm : TopologyManager) (hm : HNAManager) : res (gmap string Route * list Event) :=
  _ ← check (negb (bool_decide (GetRouterID lk = ""))) "local router ID is not set";
  newRoutes ← computeRoutes (1%positive :: p) lk now nm tm hm;
  Ok (newRoutes,
      diffAndPublishRoutes (2%positive :: p) activeRoutes newRoutes ++
      [MkEvent EventSPFTrigger (DataSPF (Duration_Seconds elapsed) (Z.of_nat (size newRoutes)))]).

Definition GetRoutes (p : list positive) (activeRoutes : gmap string Route) : list Route :=
  (range p activeRoutes).*2.

(** The longest-prefix scan: [bestMaskLen] and [bestRoute]. *)
Definition match_step (destIP : IP) (best : Z * Route) (r : Route) : Z * Route :=
  match ParseCIDR (Prefix r) with
  | None => best
  | Some (_, ipNet) =>
      if Contains ipNet destIP
      then let maskLen := Mask_Size (net_Mask ipNet) in
           if best.1 <? maskLen then (maskLen, r) else best
      else best
  end.

(** The zero value of [Route]. *)
Definition zero_route : Route := MkRoute "" "" 0 0.

Definition GetNextHopForDest (p : list positive) (activeRoutes : gmap string Route) (dest : string)
    : res (string * Z) :=
  match activeRoutes !! (dest +:+ "/32") with
  | Some r => Ok (NextHop r, IfaceIndex r)
  | None =>
      match ParseIP dest with
      | None => Err "invalid destination IP format"
      | Some destIP =>
          let best := foldl (match_step destIP) (-1, zero_route) (range p activeRoutes).*2 in
          if negb (best.1 =? -1) then Ok (NextHop best.2, IfaceIndex best.2)
          else Err "route to destination not found"
      end
  end.
End engine.
