(* ===== verification/SpfRoutes.v ===== *)
(** * The routing table (internal/olsr/spf.go, [CalculateRoutes])

    The adjacency list characterised by its edges, and the routing table
    against its specification: for each prefix a route of the least metric
    among the host and gateway candidates. *)

From S2P Require Import Prelude GoNet TimeVal Packet Events Neighbor Topology Hna Heap Dijkstra Spf.

(** ** The adjacency list *)

Lemma edge_addLink adj a b k u v c :
  edge (addLink adj a b k) u v c ↔ if decide (u = a ∧ v = b) then c = k else edge adj u v c.
Proof.
  unfold edge, addLink, map_map. destruct (decide (a = u)) as [<-|Hne].
  - rewrite lookup_insert_eq. simpl. destruct (decide (b = v)) as [<-|Hne].
    + rewrite lookup_insert_eq, decide_True by done. naive_solver.
    + rewrite lookup_insert_ne by done. by rewrite decide_False by naive_solver.
  - rewrite lookup_insert_ne by done. by rewrite decide_False by naive_solver.
Qed.

(** A graph whose edges all cost one and are those of the relation [E]. *)
Definition unit_graph (E : string → string → Prop) (adj : graph) : Prop :=
  ∀ u v c, edge adj u v c ↔ c = 1 ∧ E u v.

Lemma unit_graph_addLink E adj a b :
  unit_graph E adj → unit_graph (λ u v, E u v ∨ (u = a ∧ v = b)) (addLink adj a b 1).
Proof. intros H u v c. rewrite edge_addLink. case_decide; [|rewrite (H u v c)]; naive_solver. Qed.

Lemma unit_graph_ext E E' adj : (∀ u v, E u v ↔ E' u v) → unit_graph E adj → unit_graph E' adj.
Proof. intros HE H u v c. rewrite (H u v c). naive_solver. Qed.

(** A loop that adds links adds the links of each element. *)
Lemma unit_graph_foldl {A} (F : A → string → string → Prop) (f : graph → A → graph) (l : list A) E adj :
  (∀ E adj x, unit_graph E adj → unit_graph (λ u v, E u v ∨ F x u v) (f adj x)) →
  unit_graph E adj → unit_graph (λ u v, E u v ∨ ∃ x, x ∈ l ∧ F x u v) (foldl f adj l).
Proof.
  intros Hf. revert E adj. induction l as [|x l IH]; intros E adj HE; simpl.
  - apply (unit_graph_ext E); [|exact HE]. intros u v. split; [by left|].
    by intros [?|(x & ?%elem_of_nil & _)].
  - apply (unit_graph_ext (λ u v, (E u v ∨ F x u v) ∨ ∃ x, x ∈ l ∧ F x u v)); [|apply IH, Hf, HE].
    intros u v. setoid_rewrite elem_of_cons. naive_solver.
Qed.

Lemma unit_graph_positive E adj : unit_graph E adj → positive_costs adj.
Proof. intros H u v c He. apply H in He as [-> _]. lia. Qed.

Section routes.
Context {MO : MapOrder}.

(** The neighbor address [a] is listed by [GetNeighbors]. *)
Definition listed_neighbor (nm : NeighborManager) (a : string) : Prop :=
  ∃ k n l, neighbors nm !! k = Some n ∧ neigh_NeighborIP n = a ∧ links nm !! a = Some l ∧
    State l ≠ LinkStateLost.

(** The links the router knows of. *)
Definition known_link (now : Z) (nm : NeighborManager) (tm : TopologyManager) (localID u v : string) : Prop :=
  (u = localID ∧ listed_neighbor nm v) ∨ (v = localID ∧ listed_neighbor nm u) ∨
  (∃ ths exp, twoHopLinks nm !! u = Some ths ∧ ths !! v = Some exp ∧ now < exp) ∨
  (∃ t d l, topo_at (topology tm) d l = Some t ∧ LastIP t = u ∧ DestIP t = v).

Lemma GetNeighbors_listed p nm a :
  (∃ n, n ∈ GetNeighbors p nm ∧ neigh_NeighborIP n = a) ↔ listed_neighbor nm a.
Proof.
  unfold GetNeighbors, listed_neighbor. setoid_rewrite list_elem_of_omap. split.
  - intros (n & ([k n'] & Hk & Hn) & <-). apply elem_of_range in Hk. simpl in Hn.
    destruct (links nm !! neigh_NeighborIP n') as [l|] eqn:El; [|done].
    case_bool_decide; simplify_eq. eauto 10.
  - intros (k & n & l & Hk & <- & Hl & Hst). exists n. split; [|done]. exists (k, n).
    rewrite elem_of_range. simpl. by rewrite Hl, bool_decide_true.
Qed.

Lemma GetTwoHopNeighbors_lookup p now nm u hops :
  GetTwoHopNeighbors p now nm !! u = Some hops ↔
  hops ≠ [] ∧ ∃ ths, twoHopLinks nm !! u = Some ths ∧
    hops = omap (λ te, if Before now te.2 then Some te.1 else None) (range (encode u :: p) ths).
Proof.
  unfold GetTwoHopNeighbors.
  apply (range_fold_ind (λ m acc, acc !! u = Some hops ↔ hops ≠ [] ∧ ∃ ths, m !! u = Some ths ∧
    hops = omap (λ te, if Before now te.2 then Some te.1 else None) (range (encode u :: p) ths))); simpl.
  - setoid_rewrite lookup_empty. naive_solver.
  - intros k ths m acc _ _ Hk IH. set (l := omap _ _).
    destruct (decide (k = u)) as [->|Hne].
    + rewrite lookup_insert_eq. rewrite Hk in IH.
      destruct (Nat.ltb_spec 0 (length l)) as [Hl|Hl].
      * rewrite lookup_insert_eq. fold l. split.
        -- intros [= <-]. split; [by destruct l; simpl in *; [lia|]|]. eauto.
        -- intros (_ & ths' & [= <-] & ->). done.
      * assert (l = []) as El by (destruct l; [done|simpl in *; lia]). rewrite IH. split.
        -- intros (_ & ? & ? & _). done.
        -- intros (Hh & ths' & [= <-] & Eh). by rewrite Eh in Hh.
    + rewrite lookup_insert_ne by done. case_match; [rewrite lookup_insert_ne by done|]; exact IH.
Qed.

Lemma GetTwoHopNeighbors_listed p q now nm u v :
  (∃ kv, kv ∈ range q (GetTwoHopNeighbors p now nm) ∧ u = kv.1 ∧ v ∈ kv.2) ↔
  ∃ ths exp, twoHopLinks nm !! u = Some ths ∧ ths !! v = Some exp ∧ now < exp.
Proof.
  split.
  - intros ([k hops] & Hk & -> & Hv). apply elem_of_range, GetTwoHopNeighbors_lookup in Hk.
    destruct Hk as (_ & ths & Ht & ->). simpl in *.
    apply list_elem_of_omap in Hv as ([v' exp] & Hv' & Hb). apply elem_of_range in Hv'. simpl in Hb.
    unfold Before in Hb. destruct (Z.ltb_spec now exp); simplify_eq. eauto.
  - intros (ths & exp & Ht & Hv & Hlt).
    set (hops := omap (λ te, if Before now te.2 then Some te.1 else None) (range (encode u :: p) ths)).
    assert (v ∈ hops) as Hin.
    { apply list_elem_of_omap. exists (v, exp). rewrite elem_of_range. split; [done|]. simpl. unfold Before.
      by destruct (Z.ltb_spec now exp); [|lia]. }
    exists (u, hops). split; [|done]. apply elem_of_range, GetTwoHopNeighbors_lookup.
    split; [|eauto]. intros E. rewrite E in Hin. by apply elem_of_nil in Hin.
Qed.

Lemma GetTopology_listed p tm t :
  t ∈ GetTopology p tm ↔ ∃ d l, topo_at (topology tm) d l = Some t.
Proof.
  unfold GetTopology, topo_at. rewrite list_elem_of_bind. setoid_rewrite bind_Some. split.
  - intros ([d ls] & Ht & Hd). apply elem_of_range in Hd. simpl in Ht.
    apply list_elem_of_fmap in Ht as ([l t'] & -> & Ht). apply elem_of_range in Ht. eauto.
  - intros (d & l & ls & Hd & Hl). exists (d, ls). rewrite elem_of_range. split; [|done].
    simpl. apply list_elem_of_fmap. exists (l, t). by rewrite elem_of_range.
Qed.

(** The edges of a graph made from lists. *)
Definition listed_link (localID : string) (ns : list NeighborTuple) (ths : list (string * list string))
    (ts : list TopologyTuple) (u v : string) : Prop :=
  (∃ n, n ∈ ns ∧ (u = localID ∧ v = neigh_NeighborIP n ∨ u = neigh_NeighborIP n ∧ v = localID)) ∨
  (∃ kv, kv ∈ ths ∧ u = kv.1 ∧ v ∈ kv.2) ∨ (∃ t, t ∈ ts ∧ u = LastIP t ∧ v = DestIP t).

Lemma adjacency_listed localID ns ths ts : unit_graph (listed_link localID ns ths ts) (adjacency localID ns ths ts).
Proof.
  unfold adjacency. eapply unit_graph_ext; cycle 1.
  - apply (unit_graph_foldl (λ t u v, u = LastIP t ∧ v = DestIP t)).
    { intros E adj t HE. by apply unit_graph_addLink. }
    apply (unit_graph_foldl (λ kv u v, u = kv.1 ∧ v ∈ kv.2)).
    { intros E adj kv HE. eapply unit_graph_ext; [|apply (unit_graph_foldl (λ h u v, u = kv.1 ∧ v = h)); [|exact HE]].
      - naive_solver.
      - intros E' adj' h HE'. by apply unit_graph_addLink. }
    apply (unit_graph_foldl (λ n u v, (u = localID ∧ v = neigh_NeighborIP n) ∨ (u = neigh_NeighborIP n ∧ v = localID))
      _ _ (λ _ _, False)).
    { intros E adj n HE. eapply unit_graph_ext; [|apply unit_graph_addLink, unit_graph_addLink, HE]. tauto. }
    intros u v c. unfold edge, map_map. rewrite lookup_empty. simpl. rewrite lookup_empty. naive_solver.
  - intros u v. unfold listed_link. naive_solver.
Qed.

(** Lists read from managers at different moments: links and neighbors of [nm],
    2-hop links of [nm'], tuples of [tm]. *)
Lemma adjacency_read p1 p2 p3 p4 now nm nm' tm localID :
  unit_graph (known_link now (set_twoHopLinks nm (twoHopLinks nm')) tm localID)
    (adjacency localID (GetNeighbors p1 nm) (range p2 (GetTwoHopNeighbors p3 now nm')) (GetTopology p4 tm)).
Proof.
  eapply unit_graph_ext; [|apply adjacency_listed]. intros u v. unfold known_link, listed_link.
  change (listed_neighbor (set_twoHopLinks nm (twoHopLinks nm'))) with (listed_neighbor nm).
  change (twoHopLinks (set_twoHopLinks nm (twoHopLinks nm'))) with (twoHopLinks nm').
  rewrite <-(GetTwoHopNeighbors_listed p3 p2).
  rewrite <-(GetNeighbors_listed p1 nm v), <-(GetNeighbors_listed p1 nm u).
  setoid_rewrite (GetTopology_listed p4). naive_solver.
Qed.

Lemma adjacency_unit p now nm tm localID :
  unit_graph (known_link now nm tm localID) (buildAdjacencyList p now nm tm localID).
Proof. eapply unit_graph_ext; [|apply (adjacency_read _ _ _ _ now nm nm)]. by destruct nm. Qed.

(** The adjacency list.  Every edge costs one; the edges are exactly the two
    directions of the link to each neighbor that [GetNeighbors] lists, the
    2-hop links that have not expired, and the links of the topology tuples. *)
Theorem buildAdjacencyList_spec p now nm tm localID u v c :
  edge (buildAdjacencyList p now nm tm localID) u v c ↔ c = 1 ∧ known_link now nm tm localID u v.
Proof. apply adjacency_unit. Qed.

(** ** The routing table *)

Section table.
Context (lk : nmLookup) (adj : graph) (entries : list HNAEntry).
Notation local := (GetRouterID lk).

(** The route to [prefix] through [h], at metric [m]. *)
Definition route_via (prefix h : string) (m : Z) : Route := MkRoute prefix h m (GetIfaceIndex lk h).

(** A host route: to a node at distance [d], through a next hop on a shortest
    walk to it. *)
Definition host_candidate (prefix : string) (r : Route) : Prop :=
  ∃ v d h, v ≠ local ∧ shortest adj local v d ∧ next_hop adj local h v d ∧
    prefix = v +:+ "/32" ∧ r = route_via prefix h d.

(** A gateway route: to the network of an association, through a next hop on a
    shortest walk to its gateway, one further than the gateway. *)
Definition gateway_candidate (prefix : string) (r : Route) : Prop :=
  ∃ e d h, e ∈ entries ∧ IsLocal e = false ∧ GatewayIP e ≠ local ∧ shortest adj local (GatewayIP e) d ∧
    next_hop adj local h (GatewayIP e) d ∧ prefix = IPNet_String (Network e) ∧ r = route_via prefix h (d + 1).

Definition candidate (prefix : string) (r : Route) : Prop :=
  host_candidate prefix r ∨ gateway_candidate prefix r.

(** The specification of the table: a prefix has a route exactly when it has a
    candidate, and the route is a candidate of the least metric. *)
Definition best_routes (routes : gmap string Route) : Prop :=
  ∀ prefix, match routes !! prefix with
            | Some r => candidate prefix r ∧ ∀ r', candidate prefix r' → Metric r ≤ Metric r'
            | None => ∀ r', ¬ candidate prefix r'
            end.

Lemma shortest_unique v d d' : shortest adj local v d → shortest adj local v d' → d = d'.
Proof. intros [Hw Hm] [Hw' Hm']. apply Hm in Hw'. apply Hm' in Hw. lia. Qed.

Context (dist : gmap string Z) (prev : gmap string string).

(** What Dijkstra's algorithm and the next-hop resolution deliver. *)
Definition resolved : Prop :=
  (∀ v d, dist !! v = Some d ↔ shortest adj local v d) ∧
  ∀ v, v ≠ local → match dist !! v with
    | Some d => ∃ h, resolveNextHop (GetIfaceIndex lk) v prev local = Ok (Some (h, GetIfaceIndex lk h)) ∧
                     next_hop adj local h v d
    | None => resolveNextHop (GetIfaceIndex lk) v prev local = Ok None
    end.

Context (Hres : resolved) (Hlocal : resolveNextHop (GetIfaceIndex lk) local prev local = Ok None).

(** The host routes of the nodes [m]. *)
Definition host_table (m : gmap string Z) (routes : gmap string Route) : Prop :=
  ∀ prefix, match routes !! prefix with
    | Some r => ∃ v d h, m !! v = Some d ∧ v ≠ local ∧ prefix = v +:+ "/32" ∧
        next_hop adj local h v d ∧ r = route_via prefix h d
    | None => ∀ v, is_Some (m !! v) → v ≠ local → prefix ≠ v +:+ "/32"
    end.

Lemma host_step_table m routes v d :
  dist !! v = Some d → m !! v = None → host_table m routes →
  ∃ routes', host_step lk prev (Ok routes) (v, d) = Ok routes' ∧ host_table (<[v := d]> m) routes'.
Proof.
  intros Hd Hm Ht. unfold host_step. rewrite res_bind_Ok. cbn [fst snd].
  assert (∀ w, is_Some (<[v:=d]> m !! w) ↔ w = v ∨ is_Some (m !! w)) as Hins.
  { intros w. destruct (decide (v = w)) as [<-|?].
    - rewrite lookup_insert_eq. naive_solver.
    - rewrite lookup_insert_ne by done. naive_solver. }
  assert (∀ w dw, m !! w = Some dw → <[v:=d]> m !! w = Some dw) as Hkeep.
  { intros w dw Hw. rewrite lookup_insert_ne; [done|congruence]. }
  case_bool_decide as Ev.
  - exists routes. split; [done|]. intros prefix. specialize (Ht prefix).
    destruct (routes !! prefix) as [r|].
    + destruct Ht as (w & dw & h & ? & ?). exists w, dw, h. auto.
    + intros w [->|Hw]%Hins; [done|auto].
  - destruct Hres as [_ Hr]. specialize (Hr v Ev). rewrite Hd in Hr. destruct Hr as (h & -> & Hh).
    rewrite res_bind_Ok. eexists. split; [done|]. intros prefix.
    destruct (decide (v +:+ "/32" = prefix)) as [<-|Hne].
    + rewrite lookup_insert_eq. exists v, d, h. by rewrite lookup_insert_eq.
    + rewrite lookup_insert_ne by done. specialize (Ht prefix). destruct (routes !! prefix) as [r|].
      * destruct Ht as (w & dw & h' & ? & ?). exists w, dw, h'. auto.
      * intros w [->|Hw]%Hins; [done|auto].
Qed.

Lemma host_routes_table p :
  ∃ routes, foldl (host_step lk prev) (Ok ∅) (range p dist) = Ok routes ∧ host_table dist routes.
Proof.
  apply (range_fold_ind (λ m acc, ∃ routes, acc = Ok routes ∧ host_table m routes)).
  - exists ∅. split; [done|]. intros prefix. rewrite lookup_empty. intros v [d Hd]. by rewrite lookup_empty in Hd.
  - intros v d m acc _ Hd Hm (routes & -> & Ht). by apply host_step_table.
Qed.

(** The entry of a prefix once the host routes and the gateways of [es] are in. *)
Definition entry_inv (es : list HNAEntry) (prefix : string) (o : option Route) : Prop :=
  match o with
  | Some r => candidate prefix r ∧
      (∀ r', host_candidate prefix r' → Metric r ≤ Metric r') ∧
      ∀ e d, e ∈ es → IsLocal e = false → GatewayIP e ≠ local → shortest adj local (GatewayIP e) d →
        prefix = IPNet_String (Network e) → Metric r ≤ d + 1
  | None => (∀ r', ¬ host_candidate prefix r') ∧
      ∀ e d, e ∈ es → IsLocal e = false → GatewayIP e ≠ local → shortest adj local (GatewayIP e) d →
        prefix ≠ IPNet_String (Network e)
  end.

Definition table_inv (es : list HNAEntry) (routes : gmap string Route) : Prop :=
  ∀ prefix, entry_inv es prefix (routes !! prefix).

Lemma table_inv_hosts routes : host_table dist routes → table_inv [] routes.
Proof.
  intros Ht prefix. specialize (Ht prefix). destruct (routes !! prefix) as [r|].
  - destruct Ht as (v & d & h & Hd & Hv & -> & Hh & ->). split; [|split].
    + left. exists v, d, h. split_and!; try done. by apply Hres.
    + intros r' (v' & d' & h' & ? & Hs & ? & E & ->). apply str_app_inj_r in E as <-. simpl.
      apply Hres in Hd. rewrite (shortest_unique _ _ _ Hd Hs). done.
    + intros e d' He. by apply elem_of_nil in He.
  - split.
    + intros r' (v & d & h & Hv & Hs & _ & E & _). apply Hres in Hs. apply (Ht v); eauto.
    + intros e d He. by apply elem_of_nil in He.
Qed.

(** An entry that the gateway [e] does not concern. *)
Lemma entry_inv_other es e prefix o :
  (∀ d, IsLocal e = false → GatewayIP e ≠ local → shortest adj local (GatewayIP e) d →
     prefix ≠ IPNet_String (Network e)) →
  entry_inv es prefix o → entry_inv (es ++ [e]) prefix o.
Proof.
  intros Hno Ho.
  assert (∀ e' d, e' ∈ es ++ [e] → IsLocal e' = false → GatewayIP e' ≠ local →
    shortest adj local (GatewayIP e') d → prefix = IPNet_String (Network e') → e' ∈ es) as Hin.
  { intros e' d [?| ->%list_elem_of_singleton]%elem_of_app Hl Hg Hs Hp; [done|]. by destruct (Hno d). }
  destruct o as [r|].
  - destruct Ho as (? & ? & Hes). split; [done|]. split; [done|]. intros e' d He' ????. eauto.
  - destruct Ho as (? & Hes). split; [done|]. intros e' d He' ??? Hp. eapply Hes; eauto.
Qed.

(** A gateway at distance [d] against a route of its network. *)
Lemma entry_inv_keep es e d r :
  shortest adj local (GatewayIP e) d → Metric r ≤ d →
  entry_inv es (IPNet_String (Network e)) (Some r) →
  entry_inv (es ++ [e]) (IPNet_String (Network e)) (Some r).
Proof.
  intros Hs Hle (Hc & Hh & Hes). split; [done|]. split; [done|].
  intros e' d' [?| ->%list_elem_of_singleton]%elem_of_app Hl Hg Hs' Hp; [by eapply Hes|].
  rewrite (shortest_unique _ _ _ Hs' Hs). lia.
Qed.

Lemma entry_inv_replace es e d h o :
  e ∈ entries → IsLocal e = false → GatewayIP e ≠ local → shortest adj local (GatewayIP e) d →
  next_hop adj local h (GatewayIP e) d →
  (∀ r, o = Some r → d < Metric r) → entry_inv es (IPNet_String (Network e)) o →
  entry_inv (es ++ [e]) (IPNet_String (Network e)) (Some (route_via (IPNet_String (Network e)) h (d + 1))).
Proof.
  intros He Hl Hg Hs Hh Hlt Ho. split; [right; exists e, d, h; by split_and!|]. simpl. split.
  - intros r' Hr'. destruct o as [r|].
    + destruct Ho as (_ & Hhost & _). specialize (Hhost _ Hr'). specialize (Hlt r eq_refl). lia.
    + destruct Ho as [Hhost _]. by destruct (Hhost r').
  - intros e' d' [He'| ->%list_elem_of_singleton]%elem_of_app Hl' Hg' Hs' Hp.
    + destruct o as [r|].
      * destruct Ho as (_ & _ & Hes). specialize (Hes e' d' He' Hl' Hg' Hs' Hp).
        specialize (Hlt r eq_refl). lia.
      * destruct Ho as [_ Hes]. by destruct (Hes e' d').
    + by rewrite (shortest_unique _ _ _ Hs' Hs).
Qed.

Lemma gateway_step_table es e routes :
  e ∈ entries → table_inv es routes →
  ∃ routes', gateway_step lk dist prev (Ok routes) e = Ok routes' ∧ table_inv (es ++ [e]) routes'.
Proof.
  intros He Ht. unfold gateway_step. rewrite res_bind_Ok.
  assert ((∀ d, IsLocal e = false → GatewayIP e ≠ local → ¬ shortest adj local (GatewayIP e) d) →
    table_inv (es ++ [e]) routes) as Hskip.
  { intros Hno prefix. apply entry_inv_other; [|apply Ht]. intros d ?? Hs. by destruct (Hno d). }
  destruct (IsLocal e) eqn:El; [exists routes; split; [done|]; by apply Hskip|].
  destruct Hres as [Hdist Hr].
  destruct (dist !! GatewayIP e) as [d|] eqn:Ed.
  2:{ exists routes. split; [done|]. apply Hskip. intros d _ _ Hs%Hdist. congruence. }
  destruct (decide (GatewayIP e = local)) as [Eg|Eg].
  { rewrite Eg, Hlocal, res_bind_Ok. exists routes. split; [done|]. by apply Hskip. }
  specialize (Hr _ Eg). rewrite Ed in Hr. destruct Hr as (h & -> & Hh). rewrite res_bind_Ok.
  apply Hdist in Ed. eexists. split; [done|]. intros prefix. pose proof (Ht prefix) as Hp.
  destruct (decide (IPNet_String (Network e) = prefix)) as [<-|Hne].
  - destruct (routes !! IPNet_String (Network e)) as [r|] eqn:Er.
    + destruct (Z.ltb_spec d (Metric r)) as [Hlt|Hge].
      * rewrite lookup_insert_eq. eapply entry_inv_replace; [done..| |exact Hp]. by intros r' [= <-].
      * rewrite Er. by eapply entry_inv_keep.
    + rewrite lookup_insert_eq. eapply entry_inv_replace; [done..| |exact Hp]. done.
  - apply entry_inv_other; [by intros _ _ _ _ ?|].
    by destruct (match routes !! _ with Some existing => _ | None => true end); [rewrite lookup_insert_ne|].
Qed.

Lemma gateway_routes_table routes :
  host_table dist routes →
  ∃ routes', foldl (gateway_step lk dist prev) (Ok routes) entries = Ok routes' ∧ table_inv entries routes'.
Proof.
  intros Hhost. assert (∀ es, (∀ e, e ∈ es → e ∈ entries) →
    ∃ routes', foldl (gateway_step lk dist prev) (Ok routes) es = Ok routes' ∧ table_inv es routes') as Hgen;
    [|by apply Hgen].
  induction es as [|e es IH] using rev_ind; intros Hes.
  - exists routes. split; [done|]. by apply table_inv_hosts.
  - destruct IH as (routes1 & E & Ht); [intros; apply Hes, elem_of_app; by left|].
    rewrite foldl_snoc, E. apply gateway_step_table; [|done].
    apply Hes, elem_of_app. right. by apply list_elem_of_singleton.
Qed.

Lemma table_inv_best routes : table_inv entries routes → best_routes routes.
Proof.
  intros Ht prefix. specialize (Ht prefix). destruct (routes !! prefix) as [r|].
  - destruct Ht as (Hc & Hh & Hes). split; [done|]. intros r' [Hr'|Hr']; [auto|].
    destruct Hr' as (e & d & h & ? & ? & ? & ? & _ & ? & ->). by eapply Hes.
  - destruct Ht as [Hh Hes]. intros r' [Hr'|Hr']; [by apply (Hh r')|].
    destruct Hr' as (e & d & h & ? & ? & ? & ? & _ & ? & ->). by apply (Hes e d).
Qed.
End table.

Lemma route_table_best p lk adj entries : positive_costs adj →
  ∃ routes, route_table p lk adj entries = Ok routes ∧ best_routes lk adj entries routes.
Proof.
  intros Hpos. unfold route_table.
  destruct (dijkstra_result (Q := priorityQueue) adj (GetRouterID lk) Hpos (2%positive :: p))
    as (dist & prev & Heq & Hr).
  unfold runDijkstra. rewrite Heq, res_bind_Ok. cbn [fst snd].
  assert (resolved lk adj dist prev) as Hres by (split; [apply Hr|]; intros v Hv; by apply search_resolve).
  assert (resolveNextHop (GetIfaceIndex lk) (GetRouterID lk) prev (GetRouterID lk) = Ok None) as Hlocal
    by (by eapply search_resolve_source).
  destruct (host_routes_table lk adj dist prev Hres (3%positive :: p)) as (hosts & -> & Hhost).
  destruct (gateway_routes_table lk adj entries dist prev Hres Hlocal hosts Hhost) as (routes & -> & Ht).
  exists routes. split; [done|]. by eapply table_inv_best.
Qed.

Lemma computeRoutes_best p lk now nm tm hm :
  ∃ routes, computeRoutes p lk now nm tm hm = Ok routes ∧
    best_routes lk (buildAdjacencyList (1%positive :: p) now nm tm (GetRouterID lk))
      (GetHNAEntries (4%positive :: p) hm) routes.
Proof. apply route_table_best. eapply unit_graph_positive, adjacency_unit. Qed.

(** C3. The routing table.  [CalculateRoutes] fails exactly when the router has
    no identifier; otherwise it returns (no loop runs out of fuel), and in the
    new table a prefix has a route exactly when it has a candidate, a host or
    gateway route along a shortest walk of the adjacency list, and its route is
    a candidate of the least metric whatever the iteration orders. *)
Theorem CalculateRoutes_correct p lk now elapsed active nm tm hm :
  if decide (GetRouterID lk = "")
  then CalculateRoutes p lk now elapsed active nm tm hm = Err "local router ID is not set"
  else ∃ routes evs, CalculateRoutes p lk now elapsed active nm tm hm = Ok (routes, evs) ∧
    ∃ adj entries, unit_graph (known_link now nm tm (GetRouterID lk)) adj ∧
      (∃ q, entries = GetHNAEntries q hm) ∧ best_routes lk adj entries routes.
Proof.
  unfold CalculateRoutes. case_decide as E.
  - by rewrite bool_decide_true.
  - rewrite bool_decide_false by done.
    destruct (computeRoutes_best (1%positive :: p) lk now nm tm hm) as (routes & -> & Hbest).
    cbn [negb check mbind res_bind]. eexists _, _. split; [done|].
    eexists _, _. split; [apply adjacency_unit|]. split; [eauto|]. exact Hbest.
Qed.
End routes.
