(* ===== verification/SpfSync.v ===== *)
(** * Publication and lookup of routes (internal/olsr/spf.go)

    [diffAndPublishRoutes] against a forwarding table that applies the events,
    over any sequence of calculations, and [GetNextHopForDest] against
    longest-prefix matching. *)

From S2P Require Import Prelude GoNet TimeVal Packet Events DiffSync Neighbor Topology Hna Heap Dijkstra Spf SpfRoutes.

(** ** The forwarding table *)

(** A consumer of the events: the actions set or delete the route of a prefix. *)
Definition fib_apply (fib : gmap string Route) (e : Event) : gmap string Route :=
  match ev_Data e with
  | DataRoute action r =>
      if decide (action = "add") then <[Prefix r := r]> fib
      else if decide (action = "delete") then delete (Prefix r) fib else fib
  | _ => fib
  end.

(** Where packets go: next hop and interface. *)
Definition forwarding (r : Route) : string * Z := (NextHop r, IfaceIndex r).

Notation fib_agrees := (agrees forwarding).
Notation routes_keyed := (keyed Prefix).

Definition route_changed (old new : Route) : bool :=
  bool_decide (NextHop old ≠ NextHop new) || bool_decide (IfaceIndex old ≠ IfaceIndex new).

Lemma route_changed_spec old new : route_changed old new = false ↔ forwarding old = forwarding new.
Proof.
  unfold route_changed, forwarding. rewrite orb_false_iff, !bool_decide_eq_false. split.
  - intros [E1 E2]. apply dec_stable in E1, E2. congruence.
  - intros [= -> ->]. naive_solver.
Qed.

Section sync.
Context {MO : MapOrder}.

Lemma diffAndPublishRoutes_events p active new :
  diffAndPublishRoutes p active new =
  diff_events route_changed (λ r, MkEvent EventRouteInstall (DataRoute "add" r))
    (λ r, MkEvent EventRouteInstall (DataRoute "delete" r)) p active new.
Proof. done. Qed.

Lemma diff_agrees p active new fib :
  routes_keyed active → routes_keyed new → fib_agrees fib active →
  fib_agrees (foldl fib_apply fib (diffAndPublishRoutes p active new)) new.
Proof.
  rewrite diffAndPublishRoutes_events. apply diff_events_agrees; [done|done|apply route_changed_spec].
Qed.

(** Publication.  A forwarding table that agrees with the active routes and
    applies the events of [diffAndPublishRoutes] in order agrees with the new
    routes, prefix by prefix, on next hop and interface, whatever the
    iteration orders. *)
Theorem diffAndPublishRoutes_syncs p active new fib :
  routes_keyed active → routes_keyed new → fib_agrees fib active →
  fib_agrees (foldl fib_apply fib (diffAndPublishRoutes p active new)) new.
Proof. apply diff_agrees. Qed.

(** A change of metric alone is never published: the table keeps the old
    metric for as long as next hop and interface stay. *)
Theorem metric_change_unpublished p (active : gmap string Route) m k r :
  active !! k = Some r →
  let new := <[k := MkRoute (Prefix r) (NextHop r) m (IfaceIndex r)]> active in
  diffAndPublishRoutes p active new = [].
Proof.
  intros Hk. simpl. rewrite diffAndPublishRoutes_events.
  apply (diff_events_quiet forwarding); [apply route_changed_spec|].
  unfold agrees. rewrite fmap_insert. symmetry. apply insert_id. by rewrite lookup_fmap, Hk.
Qed.

(** ** Sequences of calculations *)

(** One call of [CalculateRoutes] on any state of the managers. *)
Inductive spf_step (lk : nmLookup) : gmap string Route → list Event → gmap string Route → Prop :=
  | spf_run p now elapsed active nm tm hm routes evs :
      CalculateRoutes p lk now elapsed active nm tm hm = Ok (routes, evs) → spf_step lk active evs routes.

(** A run from the empty table, with everything it has published. *)
Inductive spf_runs (lk : nmLookup) : list Event → gmap string Route → Prop :=
  | spf_start : spf_runs lk [] ∅
  | spf_next evs active evs' routes :
      spf_runs lk evs active → spf_step lk active evs' routes → spf_runs lk (evs ++ evs') routes.

Lemma best_routes_keyed lk adj entries routes : best_routes lk adj entries routes → routes_keyed routes.
Proof.
  intros Hb k r Hk. specialize (Hb k). rewrite Hk in Hb. destruct Hb as [[Hc|Hc] _].
  - by destruct Hc as (v & d & h & _ & _ & _ & _ & ->).
  - by destruct Hc as (e & d & h & _ & _ & _ & _ & _ & _ & ->).
Qed.

Lemma spf_step_events lk active evs routes :
  spf_step lk active evs routes →
  routes_keyed routes ∧ ∃ q e, evs = diffAndPublishRoutes q active routes ++ [e] ∧
    ev_Type e = EventSPFTrigger ∧ ∀ fib, fib_apply fib e = fib.
Proof.
  intros [p now elapsed active' nm tm hm routes' evs' H]. unfold CalculateRoutes in H.
  destruct (decide (GetRouterID lk = "")) as [E|E]; [by rewrite bool_decide_true in H|].
  rewrite bool_decide_false in H by done.
  destruct (computeRoutes_best (1%positive :: p) lk now nm tm hm) as (r & Hr & Hb).
  cbn [negb check mbind res_bind] in H. rewrite Hr in H. cbn [mbind res_bind] in H.
  apply Ok_inj in H. injection H as <- <-. split; [by eapply best_routes_keyed|].
  eexists _, _. by split.
Qed.

(** C26. The forwarding table over time.  After any sequence of route
    calculations, on whatever states of the managers, a table that started
    empty and applied every published event in order forwards exactly like the
    engine's active routes. *)
Theorem spf_runs_in_sync lk evs routes :
  spf_runs lk evs routes → fib_agrees (foldl fib_apply ∅ evs) routes.
Proof.
  intros Hr. assert (routes_keyed routes ∧ fib_agrees (foldl fib_apply ∅ evs) routes) as [_ ?]; [|done].
  induction Hr as [|evs active evs' routes _ [IHk IHf] Hstep].
  - split; [|done]. intros k r. by rewrite lookup_empty.
  - apply spf_step_events in Hstep as (Hk & q & e & -> & _ & He). split; [done|].
    rewrite !foldl_app. simpl. rewrite He. by apply diff_agrees.
Qed.

(** ** Next-hop lookup *)

(** The route covers the address, with a mask of that length. *)
Definition covers (r : Route) (ip : IP) (len : Z) : Prop :=
  ∃ a n, ParseCIDR (Prefix r) = Some (a, n) ∧ Contains n ip = true ∧ Mask_Size (net_Mask n) = len.

Lemma Mask_Size_nonneg m : 0 ≤ Mask_Size m.
Proof.
  unfold Mask_Size. assert (-1 ≤ simpleMaskLength m); [|destruct (Z.eqb_spec (simpleMaskLength m) (-1)); lia].
  induction m as [|b m IH]; cbn [simpleMaskLength]; [lia|].
  destruct (b =? 255); [destruct (Z.eqb_spec (simpleMaskLength m) (-1)); lia|].
  destruct (byte_ones b) as [n|] eqn:E; [|lia]. destruct (forallb _ m); [|lia].
  unfold byte_ones in E. repeat case_match; simplify_eq; lia.
Qed.

(** The best of the routes seen so far. *)
Definition best_match (ip : IP) (l : list Route) (best : Z * Route) : Prop :=
  (best = (-1, zero_route) ∧ ∀ r len, r ∈ l → ¬ covers r ip len) ∨
  (best.2 ∈ l ∧ covers best.2 ip best.1 ∧ ∀ r len, r ∈ l → covers r ip len → len ≤ best.1).

Lemma covers_fun r ip len len' : covers r ip len → covers r ip len' → len = len'.
Proof. intros (a & n & E & _ & <-) (a' & n' & E' & _ & <-). congruence. Qed.

Lemma match_step_best ip l best r :
  best_match ip l best → best_match ip (l ++ [r]) (match_step ip best r).
Proof.
  intros Hb.
  assert ((∀ len, ¬ covers r ip len) → best_match ip (l ++ [r]) best) as Hskip.
  { intros Hno. destruct Hb as [[-> Hl]|(Hin & Hc & Hl)]; [left|right].
    - split; [done|]. intros r' len [?| ->%list_elem_of_singleton]%elem_of_app; [by apply Hl|by apply Hno].
    - rewrite elem_of_app. split; [by left|]. split; [done|].
      intros r' len [?| ->%list_elem_of_singleton]%elem_of_app; [by apply Hl|]. by intros ?%Hno. }
  unfold match_step. destruct (ParseCIDR (Prefix r)) as [[a n]|] eqn:Ep.
  2:{ apply Hskip. intros len (a' & n' & E & _). congruence. }
  destruct (Contains n ip) eqn:Ec.
  2:{ apply Hskip. intros len (a' & n' & E & E' & _). congruence. }
  assert (covers r ip (Mask_Size (net_Mask n))) as Hr by (by exists a, n).
  pose proof (Mask_Size_nonneg (net_Mask n)) as Hpos.
  assert (∀ r' len, r' ∈ l ++ [r] → covers r' ip len → r' ∈ l ∨ len = Mask_Size (net_Mask n)) as Hin'.
  { intros r' len [?| ->%list_elem_of_singleton]%elem_of_app Hc; [by left|right]. by eapply covers_fun. }
  destruct (Z.ltb_spec best.1 (Mask_Size (net_Mask n))) as [Hlt|Hge].
  - right. simpl. split; [apply elem_of_app; right; by apply list_elem_of_singleton|]. split; [done|].
    intros r' len Hr' Hc. destruct (Hin' _ _ Hr' Hc) as [Hl| ->]; [|done].
    destruct Hb as [[_ Hno]|(_ & _ & Hmax)]; [by destruct (Hno _ _ Hl Hc)|].
    specialize (Hmax _ _ Hl Hc). lia.
  - destruct Hb as [[-> _]|(Hin & Hc & Hmax)]; [simpl in Hge; lia|]. right.
    split; [apply elem_of_app; by left|]. split; [done|].
    intros r' len Hr' Hc'. destruct (Hin' _ _ Hr' Hc') as [?| ->]; [by eapply Hmax|done].
Qed.

(** C33. Next-hop lookup.  [GetNextHopForDest] answers with the host route of the
    destination if there is one; else it fails on a text that is not an
    address, and otherwise answers with an active route that covers the address
    and has the longest mask of those that do, failing exactly when no active
    route covers it. *)
Theorem GetNextHopForDest_spec p routes dest :
  match routes !! (dest +:+ "/32"), ParseIP dest with
  | Some r, _ => GetNextHopForDest p routes dest = Ok (NextHop r, IfaceIndex r)
  | None, None => GetNextHopForDest p routes dest = Err "invalid destination IP format"
  | None, Some ip =>
      (∃ k r len, routes !! k = Some r ∧ covers r ip len ∧
         GetNextHopForDest p routes dest = Ok (NextHop r, IfaceIndex r) ∧
         ∀ k' r' len', routes !! k' = Some r' → covers r' ip len' → len' ≤ len) ∨
      ((∀ k r len, routes !! k = Some r → ¬ covers r ip len) ∧
       GetNextHopForDest p routes dest = Err "route to destination not found")
  end.
Proof.
  unfold GetNextHopForDest. destruct (routes !! _) as [r|]; [done|].
  destruct (ParseIP dest) as [ip|]; [|done].
  set (l := (range p routes).*2).
  assert (∀ r, r ∈ l ↔ ∃ k, routes !! k = Some r) as Hl.
  { intros r. unfold l. rewrite list_elem_of_fmap. split.
    - intros ([k r'] & -> & Hk%elem_of_range). eauto.
    - intros [k Hk]. exists (k, r). by rewrite elem_of_range. }
  assert (best_match ip l (foldl (match_step ip) (-1, zero_route) l)) as Hb.
  { clear Hl. induction l as [|r l IH] using rev_ind.
    - left. split; [done|]. intros r len Hr. by apply elem_of_nil in Hr.
    - rewrite foldl_snoc. by apply match_step_best. }
  destruct Hb as [[-> Hno]|(Hin & Hc & Hmax)].
  - right. split; [|done]. intros k r len Hk. apply Hno, Hl. eauto.
  - left. destruct (proj1 (Hl _) Hin) as [k Hk].
    exists k, (foldl (match_step ip) (-1, zero_route) l).2, (foldl (match_step ip) (-1, zero_route) l).1.
    split; [done|]. split; [done|]. split.
    + destruct (Z.eqb_spec (foldl (match_step ip) (-1, zero_route) l).1 (-1)) as [E|]; [|done].
      destruct Hc as (a & n & _ & _ & Em). pose proof (Mask_Size_nonneg (net_Mask n)). lia.
    + intros k' r' len' Hk' Hc'. apply (Hmax r'); [|done]. apply Hl. eauto.
Qed.
End sync.

(** ** Witnesses *)

Definition example_route (metric : Z) : Route := MkRoute "10.0.0.3/32" "10.0.0.2" metric 4.

Lemma diffAndPublishRoutes_syncs_witness :
  let new : gmap string Route := {["10.0.0.3/32" := example_route 2]} in
  routes_keyed new ∧
  fib_agrees (foldl fib_apply ∅ (@diffAndPublishRoutes canonical_order [] ∅ new)) new.
Proof.
  assert (routes_keyed ({["10.0.0.3/32" := example_route 2]} : gmap string Route)) as Hk
    by (intros k r [<- <-]%lookup_singleton_Some; reflexivity).
  split; [exact Hk|]. apply (@diffAndPublishRoutes_syncs canonical_order); [|exact Hk|reflexivity].
  intros k r Hr. by rewrite lookup_empty in Hr.
Defined.

Lemma metric_change_unpublished_witness :
  ({["10.0.0.3/32" := example_route 2]} : gmap string Route) !! "10.0.0.3/32" = Some (example_route 2) ∧
  @diffAndPublishRoutes canonical_order [] {["10.0.0.3/32" := example_route 2]}
    (<["10.0.0.3/32" := example_route 7]> {["10.0.0.3/32" := example_route 2]}) = [].
Proof.
  split; [reflexivity|].
  by apply (@metric_change_unpublished canonical_order [] {["10.0.0.3/32" := example_route 2]} 7
    "10.0.0.3/32" (example_route 2)).
Defined.

(** One calculation of a router without neighbors: no routes, one SPF event. *)
Lemma spf_runs_in_sync_witness :
  ∃ evs, @spf_runs canonical_order (MkLookup "10.0.0.1" (λ _, 0)) evs ∅ ∧
    fib_agrees (foldl fib_apply ∅ evs) ∅.
Proof.
  eexists. assert (@spf_runs canonical_order (MkLookup "10.0.0.1" (λ _, 0))
    ([] ++ [MkEvent EventSPFTrigger (DataSPF (Duration_Seconds 0) 0)]) ∅) as Hr.
  { eapply spf_next; [apply spf_start|].
    apply (spf_run _ [] 0 0 ∅ (NewNeighborManager "10.0.0.1") NewTopologyManager NewHNAManager).
    vm_compute. reflexivity. }
  split; [exact Hr|]. apply (@spf_runs_in_sync canonical_order _ _ _ Hr).
Defined.
