(* ===== verification/Molsr.v ===== *)
(** * Multicast extension (internal/olsr/molsr.go)

    The [MOLSRManager]: source claims, confirm-parent entries, local groups,
    aging, and the multicast forwarding entries built from them and published.
    The pointers in the nested maps are held by one map only.  The unicast
    next-hop lookup is the argument [getUnicastNextHop]; its path argument lets
    each call see its own iteration order. *)

From S2P Require Import Prelude GoNet TimeVal Packet Events.

Record SourceClaim := MkSourceClaim {
  claim_SourceIP : string;
  claim_GroupID : string;
  claim_OriginatorIP : string;
  claim_ExpirationTime : Z;
}.

Record ConfirmParentEntry := MkConfirmParentEntry {
  cpe_SourceIP : string;
  cpe_GroupID : string;
  cpe_ParentIP : string;
  cpe_ChildIP : string;
  cpe_ExpirationTime : Z;
}.

Record MOLSRManager := MkMOLSRManager {
  molsr_routerID : string;
  sourceClaims : gmap string (gmap string SourceClaim);                          (* group, source *)
  confirmParents : gmap string (gmap string (gmap string ConfirmParentEntry));   (* group, source, child *)
  localGroup : gmap string bool;
  activeMfc : gmap string MulticastForwardingEntry;                              (* "source:group" *)
  MOLSR_IfaceIndexLookup : option (string → res Z);                              (* [None] is nil *)
}.

Definition NewMOLSRManager (routerID : string) : MOLSRManager :=
  MkMOLSRManager routerID ∅ ∅ ∅ ∅ None.

Definition set_sourceClaims m c :=
  MkMOLSRManager (molsr_routerID m) c (confirmParents m) (localGroup m) (activeMfc m) (MOLSR_IfaceIndexLookup m).
Definition set_confirmParents m c :=
  MkMOLSRManager (molsr_routerID m) (sourceClaims m) c (localGroup m) (activeMfc m) (MOLSR_IfaceIndexLookup m).
Definition set_localGroup m g :=
  MkMOLSRManager (molsr_routerID m) (sourceClaims m) (confirmParents m) g (activeMfc m) (MOLSR_IfaceIndexLookup m).
Definition set_activeMfc m a :=
  MkMOLSRManager (molsr_routerID m) (sourceClaims m) (confirmParents m) (localGroup m) a (MOLSR_IfaceIndexLookup m).

Definition molsr_event (data : string) : Event := MkEvent EventTopologyUpdate (DataString data).

(** ** Messages *)

Definition ProcessSourceClaim (now : Z) (m : MOLSRManager) (originatorIP : IP) (sc : SourceClaimMessage)
    (vtime : Z) : MOLSRManager * list Event :=
  let grp := IP_String (sc_GroupID sc) in
  let src := IP_String (sc_SourceIP sc) in
  let sources := map_map (sourceClaims m) grp in
  let claim := default (MkSourceClaim src grp (IP_String originatorIP) time_zero) (sources !! src) in
  let claim := MkSourceClaim (claim_SourceIP claim) (claim_GroupID claim) (claim_OriginatorIP claim) (now + vtime) in
  (set_sourceClaims m (<[grp := <[src := claim]> sources]> (sourceClaims m)), [molsr_event "source_claim_recv"]).

(** [m.confirmParents[grp][src][child] = e], creating the maps on the way. *)
Definition put_confirm (c : gmap string (gmap string (gmap string ConfirmParentEntry)))
    (grp src child : string) (e : ConfirmParentEntry) :=
  let sources := map_map c grp in
  let children := map_map sources src in
  <[grp := <[src := <[child := e]> children]> sources]> c.

Definition ProcessConfirmParent (now : Z) (m : MOLSRManager) (originatorIP : IP) (cp : ConfirmParentMessage)
    (vtime : Z) : MOLSRManager * list Event :=
  let grp := IP_String (cp_GroupID cp) in
  let src := IP_String (cp_SourceIP cp) in
  let parent := IP_String (cp_ParentIP cp) in
  let child := IP_String originatorIP in
  if bool_decide (parent ≠ molsr_routerID m) then (m, [])
  else
    let children := map_map (map_map (confirmParents m) grp) src in
    let entry := default (MkConfirmParentEntry src grp parent child time_zero) (children !! child) in
    let entry := MkConfirmParentEntry (cpe_SourceIP entry) (cpe_GroupID entry) (cpe_ParentIP entry)
                   (cpe_ChildIP entry) (now + vtime) in
    (set_confirmParents m (put_confirm (confirmParents m) grp src child entry),
     [molsr_event "confirm_parent_recv"]).

(** ** Local operations *)

Definition JoinGroup (m : MOLSRManager) (groupIP : string) : MOLSRManager :=
  set_localGroup m (<[groupIP := true]> (localGroup m)).

Definition LeaveGroup (m : MOLSRManager) (groupIP : string) : MOLSRManager :=
  set_localGroup m (delete groupIP (localGroup m)).

Definition AddLocalSourceClaim (now : Z) (m : MOLSRManager) (srcIP grpIP : string) (duration : Z)
    : MOLSRManager * list Event :=
  (set_sourceClaims m (<[grpIP := <[srcIP := MkSourceClaim srcIP grpIP (molsr_routerID m) (now + duration)]>
     (map_map (sourceClaims m) grpIP)]> (sourceClaims m)), [molsr_event "local_source_claim_add"]).

Definition DeleteLocalSourceClaim (m : MOLSRManager) (srcIP grpIP : string) : MOLSRManager * list Event :=
  (match sourceClaims m !! grpIP with
   | Some grps => set_sourceClaims m (<[grpIP := delete srcIP grps]> (sourceClaims m))
   | None => m
   end, [molsr_event "local_source_claim_del"]).

Definition AddLocalConfirmParent (now : Z) (m : MOLSRManager) (srcIP grpIP parentIP childIP : string)
    (duration : Z) : MOLSRManager * list Event :=
  (set_confirmParents m (put_confirm (confirmParents m) grpIP srcIP childIP
     (MkConfirmParentEntry srcIP grpIP parentIP childIP (now + duration))), [molsr_event "local_confirm_parent_add"]).

Definition DeleteLocalConfirmParent (m : MOLSRManager) (srcIP grpIP childIP : string)
    : MOLSRManager * list Event :=
  (match confirmParents m !! grpIP with
   | Some grps =>
       match grps !! srcIP with
       | Some srcs => set_confirmParents m
                        (<[grpIP := <[srcIP := delete childIP srcs]> grps]> (confirmParents m))
       | None => m
       end
   | None => m
   end, [molsr_event "local_confirm_parent_del"]).

Section operations.
Context {MO : MapOrder}.

Definition AgeOut (p : list positive) (now : Z) (m : MOLSRManager) : MOLSRManager * list Event * bool :=
  let '(claims, c1) :=
    range_update (purge_nested (purge_expired claim_ExpirationTime now)) (1%positive :: p) (sourceClaims m) in
  let '(parents, c2) :=
    range_update (purge_nested (purge_nested (purge_expired cpe_ExpirationTime now))) (2%positive :: p)
      (confirmParents m) in
  let changed := c1 || c2 in
  (set_confirmParents (set_sourceClaims m claims) parents,
   (if changed then [molsr_event "molsr_aging"] else []), changed).

(** ** Forwarding entries *)

Context (getUnicastNextHop : list positive → string → res (string * Z)).

(** The loop over the children: [oifs] and [oifSeen]. *)
Definition oif_step (p : list positive) (srcIfaceIndex : Z) (st : list Z * gmap Z bool)
    (ce : string * ConfirmParentEntry) : list Z * gmap Z bool :=
  match getUnicastNextHop (encode ce.1 :: p) ce.1 with
  | Ok (_, childIfaceIndex) =>
      if negb (map_bool st.2 childIfaceIndex) && negb (childIfaceIndex =? srcIfaceIndex)
      then (st.1 ++ [childIfaceIndex], <[childIfaceIndex := true]> st.2) else st
  | _ => st
  end.

(** The loop body for one group and source. *)
Definition mfc_step (p : list positive) (grp : string) (newMfc : gmap string MulticastForwardingEntry)
    (sc : string * gmap string ConfirmParentEntry) : gmap string MulticastForwardingEntry :=
  let '(src, children) := sc in
  let p := encode src :: p in
  if (size children =? 0)%nat then newMfc
  else
    match getUnicastNextHop (1%positive :: p) src with
    | Ok (_, srcIfaceIndex) =>
        let oifs := (foldl (oif_step (2%positive :: p) srcIfaceIndex) ([], ∅)
                       (range (3%positive :: p) children)).1 in
        if (0 <? length oifs)%nat || (0 <? size children)%nat
        then <[src +:+ ":" +:+ grp := MkMFE src grp srcIfaceIndex oifs]> newMfc else newMfc
    | _ => newMfc
    end.

Definition buildNewMFC (p : list positive)
    (parents : gmap string (gmap string (gmap string ConfirmParentEntry)))
    : gmap string MulticastForwardingEntry :=
  foldl (λ acc gs, foldl (mfc_step (encode gs.1 :: p) gs.1) acc (range (encode gs.1 :: p) gs.2))
    ∅ (range p parents).

(** The old entry differs from the new one in its interfaces. *)
Definition mfc_changed (old new : MulticastForwardingEntry) : bool :=
  negb (IIF old =? IIF new) || bool_decide (OIFs old ≠ OIFs new).

Definition syncMFCRoutes (p : list positive) (active newMfc : gmap string MulticastForwardingEntry)
    : list Event :=
  omap (λ ke,
    match newMfc !! ke.1 with
    | None => Some (MkEvent EventRouteInstall (DataMulticast "delete_multicast" ke.2))
    | Some newEntry =>
        if mfc_changed ke.2 newEntry
        then Some (MkEvent EventRouteInstall (DataMulticast "add_multicast" newEntry)) else None
    end) (range (1%positive :: p) active) ++
  omap (λ ke,
    match active !! ke.1 with
    | None => Some (MkEvent EventRouteInstall (DataMulticast "add_multicast" ke.2))
    | Some _ => None
    end) (range (2%positive :: p) newMfc).

Definition RecalculateMroutes (p : list positive) (m : MOLSRManager) : MOLSRManager * list Event :=
  match MOLSR_IfaceIndexLookup m with
  | None => (m, [])
  | Some _ =>
      let newMfc := buildNewMFC (1%positive :: p) (confirmParents m) in
      (set_activeMfc m newMfc, syncMFCRoutes (2%positive :: p) (activeMfc m) newMfc)
  end.

(** ** Getters *)

Definition GetSourceClaims (p : list positive) (m : MOLSRManager) : list SourceClaim :=
  gs ← range p (sourceClaims m); (range (encode gs.1 :: p) gs.2).*2.

Definition GetConfirmParents (p : list positive) (m : MOLSRManager) : list ConfirmParentEntry :=
  gs ← range p (confirmParents m);
  sc ← range (encode gs.1 :: p) gs.2; (range (encode sc.1 :: encode gs.1 :: p) sc.2).*2.

Definition GetActiveMFC (p : list positive) (m : MOLSRManager) : list MulticastForwardingEntry :=
  (range p (activeMfc m)).*2.
End operations.
