(* ===== verification/MolsrFacts.v ===== *)
(** * Correctness of the multicast extension (internal/olsr/molsr.go)

    The tables' invariant over all operations, aging, the forwarding entries
    against their specification, and their publication over time. *)

From S2P Require Import Prelude GoNet TimeVal Packet Events DiffSync Molsr.

(** ** Entries *)

Definition claim_at (m : MOLSRManager) (grp src : string) : option SourceClaim :=
  sourceClaims m !! grp ≫= λ s, s !! src.

Definition children_at (c : gmap string (gmap string (gmap string ConfirmParentEntry))) (grp src : string)
    : option (gmap string ConfirmParentEntry) := c !! grp ≫= λ s, s !! src.

Definition confirm_at (m : MOLSRManager) (grp src child : string) : option ConfirmParentEntry :=
  children_at (confirmParents m) grp src ≫= λ c, c !! child.

Lemma map_map_lookup_bind {K1 K2 V} `{Countable K1} `{Countable K2} (m : gmap K1 (gmap K2 V)) k k' :
  map_map m k !! k' = m !! k ≫= λ i, i !! k'.
Proof. unfold map_map. by destruct (m !! k). Qed.

Lemma nested_insert_lookup {K1 K2 V} `{Countable K1} `{Countable K2} (m : gmap K1 (gmap K2 V)) a b v k k' :
  (<[a := <[b := v]> (map_map m a)]> m !! k ≫= λ i, i !! k') =
  if decide (k = a ∧ k' = b) then Some v else m !! k ≫= λ i, i !! k'.
Proof.
  destruct (decide (a = k)) as [<-|Hne].
  - rewrite lookup_insert_eq. simpl. destruct (decide (b = k')) as [<-|Hne].
    + by rewrite lookup_insert_eq, decide_True.
    + rewrite lookup_insert_ne, map_map_lookup_bind by done. by rewrite decide_False by naive_solver.
  - rewrite lookup_insert_ne by done. by rewrite decide_False by naive_solver.
Qed.

Lemma put_confirm_at m c' grp src child e g s c :
  c' = put_confirm (confirmParents m) grp src child e →
  confirm_at (set_confirmParents m c') g s c =
  if decide (g = grp ∧ s = src ∧ c = child) then Some e else confirm_at m g s c.
Proof.
  intros ->. unfold confirm_at, children_at, put_confirm. simpl.
  rewrite nested_insert_lookup. destruct (decide (g = grp ∧ s = src)) as [[-> ->]|Hne]; simpl.
  - destruct (decide (child = c)) as [<-|Hc].
    + by rewrite lookup_insert_eq, decide_True.
    + rewrite lookup_insert_ne by done. rewrite decide_False by naive_solver.
      unfold map_map at 1. rewrite map_map_lookup_bind.
      by destruct (confirmParents m !! grp ≫= λ i, i !! src).
  - by rewrite decide_False by naive_solver.
Qed.

Section facts.
Context {MO : MapOrder}.

(** ** Aging *)

Lemma confirm_live now p (c : gmap string (gmap string (gmap string ConfirmParentEntry))) grp src child e :
  (children_at (range_update (purge_nested (purge_nested (purge_expired cpe_ExpirationTime now))) p c).1 grp src
     ≫= λ m, m !! child) = Some e ↔
  (children_at c grp src ≫= λ m, m !! child) = Some e ∧ now ≤ cpe_ExpirationTime e.
Proof.
  unfold children_at. rewrite purge_nested_lookup. destruct (c !! grp) as [sources|]; simpl; [|naive_solver].
  rewrite purge_nested_live. unfold nonempty.
  assert ((live_nested cpe_ExpirationTime now sources !! src ≫= λ m, m !! child) = Some e ↔
    (sources !! src ≫= λ m, m !! child) = Some e ∧ now ≤ cpe_ExpirationTime e) as Hin.
  { rewrite !bind_Some. setoid_rewrite live_nested_lookup. split.
    - intros (i & (i0 & ? & -> & _) & [? ?]%live_lookup). eauto.
    - intros ((i & Hi & Hg) & Hexp). exists (live cpe_ExpirationTime now i).
      assert (live cpe_ExpirationTime now i !! child = Some e) as Hl by by apply live_lookup.
      split; [|done]. exists i. split_and!; [done..|]. intros E. by rewrite E, lookup_empty in Hl. }
  case_decide as E; simpl; [|exact Hin]. rewrite <-Hin, E, lookup_empty. done.
Qed.

(** Some entry of the table has expired. *)
Definition molsr_expires (now : Z) (m : MOLSRManager) : Prop :=
  (∃ g s e, claim_at m g s = Some e ∧ claim_ExpirationTime e < now) ∨
  (∃ g s c e, confirm_at m g s c = Some e ∧ cpe_ExpirationTime e < now).

Lemma AgeOut_effect p now m :
  let '(m', evs, changed) := AgeOut p now m in
  (∀ g s e, claim_at m' g s = Some e ↔ claim_at m g s = Some e ∧ now ≤ claim_ExpirationTime e) ∧
  (∀ g s c e, confirm_at m' g s c = Some e ↔ confirm_at m g s c = Some e ∧ now ≤ cpe_ExpirationTime e) ∧
  (molsr_routerID m', localGroup m', activeMfc m') = (molsr_routerID m, localGroup m, activeMfc m) ∧
  (changed = true ↔ molsr_expires now m) ∧
  evs = (if changed then [molsr_event "molsr_aging"] else []).
Proof.
  unfold AgeOut.
  pose proof (purge_nested_live claim_ExpirationTime now (1%positive :: p) (sourceClaims m)) as Hs.
  pose proof (purge_nested_changed claim_ExpirationTime now (1%positive :: p) (sourceClaims m)) as Hcs.
  destruct (range_update _ _ (sourceClaims m)) as [claims c1]. simpl in Hs, Hcs. subst claims.
  pose proof (λ g s c e, confirm_live now (2%positive :: p) (confirmParents m) g s c e) as Hp.
  pose proof (range_update_changed (purge_nested (purge_nested (purge_expired cpe_ExpirationTime now)))
    (2%positive :: p) (confirmParents m)) as Hcp.
  destruct (range_update _ _ (confirmParents m)) as [parents c2]. simpl in Hp, Hcp.
  split; [|split; [|split; [done|split; [|done]]]].
  - intros g s e. unfold claim_at. simpl. rewrite !bind_Some. setoid_rewrite live_nested_lookup. split.
    + intros (i & (i0 & ? & -> & _) & [? ?]%live_lookup). eauto.
    + intros ((i & Hi & Hg) & Hexp). exists (live claim_ExpirationTime now i).
      assert (live claim_ExpirationTime now i !! s = Some e) as Hl by by apply live_lookup.
      split; [|done]. exists i. split_and!; [done..|]. intros E. by rewrite E, lookup_empty in Hl.
  - intros g s c e. apply Hp.
  - rewrite orb_true_iff, Hcs, Hcp. unfold molsr_expires, claim_at, confirm_at, children_at, purge_nested.
    simpl. setoid_rewrite purge_nested_changed. setoid_rewrite bind_Some. setoid_rewrite bind_Some. naive_solver.
Qed.

(** Aging keeps exactly the source claims and confirm-parent entries that
    have not expired, leaves the groups and the forwarding entries alone, and
    reports and publishes a change exactly when something expired. *)
Theorem molsr_AgeOut_spec p now m :
  let '(m', evs, changed) := AgeOut p now m in
  (∀ g s e, claim_at m' g s = Some e ↔ claim_at m g s = Some e ∧ now ≤ claim_ExpirationTime e) ∧
  (∀ g s c e, confirm_at m' g s c = Some e ↔ confirm_at m g s c = Some e ∧ now ≤ cpe_ExpirationTime e) ∧
  (molsr_routerID m', localGroup m', activeMfc m') = (molsr_routerID m, localGroup m, activeMfc m) ∧
  (changed = true ↔ molsr_expires now m) ∧
  evs = (if changed then [molsr_event "molsr_aging"] else []).
Proof. apply AgeOut_effect. Qed.

(** ** The invariant *)

(** One operation; [remote] restricts to messages, aging and recalculation. *)
Inductive molsr_step (remote : bool) (m : MOLSRManager) : MOLSRManager → Prop :=
  | ms_claim now orig sc vtime : molsr_step remote m (ProcessSourceClaim now m orig sc vtime).1
  | ms_confirm now orig cp vtime : molsr_step remote m (ProcessConfirmParent now m orig cp vtime).1
  | ms_age p now : molsr_step remote m (AgeOut p now m).1.1
  | ms_recalc f p : molsr_step remote m (RecalculateMroutes f p m).1
  | ms_join g : molsr_step remote m (JoinGroup m g)
  | ms_leave g : molsr_step remote m (LeaveGroup m g)
  | ms_add_claim now src grp d : remote = false → molsr_step remote m (AddLocalSourceClaim now m src grp d).1
  | ms_del_claim src grp : remote = false → molsr_step remote m (DeleteLocalSourceClaim m src grp).1
  | ms_add_confirm now src grp parent child d :
      remote = false → molsr_step remote m (AddLocalConfirmParent now m src grp parent child d).1
  | ms_del_confirm src grp child : remote = false → molsr_step remote m (DeleteLocalConfirmParent m src grp child).1.

Record molsr_wf (remote : bool) (id : string) (m : MOLSRManager) : Prop := {
  mw_id : molsr_routerID m = id;
  mw_claim g s e : claim_at m g s = Some e → claim_GroupID e = g ∧ claim_SourceIP e = s;
  mw_confirm g s c e : confirm_at m g s c = Some e →
    cpe_GroupID e = g ∧ cpe_SourceIP e = s ∧ cpe_ChildIP e = c ∧ (remote = true → cpe_ParentIP e = id);
}.

Lemma delete_claim_at m src grp g s e :
  claim_at (DeleteLocalSourceClaim m src grp).1 g s = Some e → claim_at m g s = Some e.
Proof.
  unfold DeleteLocalSourceClaim, claim_at. simpl. destruct (sourceClaims m !! grp) as [grps|] eqn:E; [|done].
  simpl. destruct (decide (grp = g)) as [<-|?].
  - rewrite lookup_insert_eq, E. simpl. intros [_ ?]%lookup_delete_Some. done.
  - by rewrite lookup_insert_ne.
Qed.

Lemma delete_confirm_at m src grp child g s c e :
  confirm_at (DeleteLocalConfirmParent m src grp child).1 g s c = Some e → confirm_at m g s c = Some e.
Proof.
  unfold DeleteLocalConfirmParent, confirm_at, children_at. simpl.
  destruct (confirmParents m !! grp) as [grps|] eqn:E; [|done].
  destruct (grps !! src) as [srcs|] eqn:E'; [|done]. simpl. destruct (decide (grp = g)) as [<-|?].
  - rewrite lookup_insert_eq, E. simpl. destruct (decide (src = s)) as [<-|?].
    + rewrite lookup_insert_eq, E'. simpl. by intros [_ ?]%lookup_delete_Some.
    + by rewrite lookup_insert_ne.
  - by rewrite lookup_insert_ne.
Qed.

Lemma molsr_step_wf remote id m m' : molsr_wf remote id m → molsr_step remote m m' → molsr_wf remote id m'.
Proof.
  intros [Hid Hcl Hco].
  intros [now orig sc vtime|now orig cp vtime|p now|f p|g|g|now src grp d _|src grp _|
          now src grp parent child d Hr|src grp child _]; try (split; done).
  - split; [done| |done]. intros g s e. unfold claim_at, ProcessSourceClaim. simpl. rewrite nested_insert_lookup.
    case_decide as Hd; [|by apply Hcl]. destruct Hd as [-> ->]. intros [= <-]. simpl.
    rewrite map_map_lookup_bind. destruct (sourceClaims m !! _ ≫= _) as [e|] eqn:E; simpl; [by apply Hcl|done].
  - unfold ProcessConfirmParent. case_bool_decide as Hp; [split; done|].
    split; [done|done|]. intros g s c e. simpl. erewrite put_confirm_at by done. case_decide as Hd; [|by apply Hco].
    destruct Hd as (-> & -> & ->). intros [= <-]. simpl.
    assert (map_map (map_map (confirmParents m) (IP_String (cp_GroupID cp))) (IP_String (cp_SourceIP cp)) !! IP_String orig
      = confirm_at m (IP_String (cp_GroupID cp)) (IP_String (cp_SourceIP cp)) (IP_String orig)) as ->.
    { unfold confirm_at, children_at. rewrite map_map_lookup_bind. by rewrite map_map_lookup_bind. }
    destruct (confirm_at m _ _ _) as [e|] eqn:E; simpl; [by apply Hco|]. split_and!; [done..|]. congruence.
  - pose proof (AgeOut_effect p now m) as H. destruct (AgeOut p now m) as [[m1 evs] c1].
    destruct H as (H1 & H2 & [= H3 _ _] & _). split; simpl; [congruence|..].
    + intros g s e [? _]%H1. eauto.
    + intros g s c' e [? _]%H2. eauto.
  - unfold RecalculateMroutes. destruct (MOLSR_IfaceIndexLookup m); split; done.
  - split; [done| |done]. intros g s e. unfold claim_at. simpl. rewrite nested_insert_lookup.
    case_decide as Hd; [|by apply Hcl]. destruct Hd as [-> ->]. by intros [= <-].
  - split; [..|by intros; eapply Hco; unfold DeleteLocalSourceClaim in *; destruct (sourceClaims m !! grp)].
    + unfold DeleteLocalSourceClaim. by destruct (sourceClaims m !! grp).
    + intros g s e ?%delete_claim_at. eauto.
  - split; [done|done|]. intros g s c e. simpl. erewrite put_confirm_at by done. case_decide as Hd; [|by apply Hco].
    destruct Hd as (-> & -> & ->). intros [= <-]. simpl. by subst remote.
  - split.
    + unfold DeleteLocalConfirmParent. simpl. by repeat case_match.
    + intros g s e. unfold DeleteLocalConfirmParent. simpl. repeat case_match; apply Hcl.
    + intros g s c e ?%delete_confirm_at. eauto.
Qed.

(** The multicast tables are well formed in every reachable state: each
    entry is stored under its own group, source and child, and as long as no
    local entry is added, this router is the parent of every entry: a confirm
    message for another parent is ignored. *)
Theorem molsr_reachable_wf remote id m :
  rtc (molsr_step remote) (NewMOLSRManager id) m → molsr_wf remote id m.
Proof.
  revert m. apply (rtc_ind_r (molsr_wf remote id) (NewMOLSRManager id)).
  - split; [done|..]; unfold claim_at, confirm_at, children_at; simpl; intros *; by rewrite lookup_empty.
  - intros m m' _ Hstep Hm. by eapply molsr_step_wf.
Qed.

(** ** Forwarding entries *)

Section mfc.
Context (f : list positive → string → res (string * Z)).
Notation parent_table := (gmap string (gmap string (gmap string ConfirmParentEntry))).

(** The unicast route to [d] leaves through the interface [i]. *)
Definition toward (d : string) (i : Z) : Prop := ∃ q h, f q d = Ok (h, i).

(** No unicast route to [d]. *)
Definition unroutable (d : string) : Prop := ∃ q, ∀ h i, f q d ≠ Ok (h, i).

(** The specification of the entry of a source with these children: it comes in
    from the source's direction and goes out, once each, to the directions of
    the children other than that. *)
Record mfc_entry (grp src : string) (children : gmap string ConfirmParentEntry)
    (e : MulticastForwardingEntry) : Prop := {
  me_src : mfe_SourceIP e = src;
  me_grp : mfe_GroupID e = grp;
  me_iif : toward src (IIF e);
  me_nodup : NoDup (OIFs e);
  me_oif i : i ∈ OIFs e → i ≠ IIF e ∧ ∃ c, is_Some (children !! c) ∧ toward c i;
  me_child c : is_Some (children !! c) → unroutable c ∨ toward c (IIF e) ∨ ∃ i, toward c i ∧ i ∈ OIFs e;
}.

Lemma oif_loop p q iif children :
  let st := foldl (oif_step f p iif) ([], ∅) (range q children) in
  (∀ i, map_bool st.2 i = true ↔ i ∈ st.1) ∧ NoDup st.1 ∧
  (∀ i, i ∈ st.1 → i ≠ iif ∧ ∃ c, is_Some (children !! c) ∧ toward c i) ∧
  ∀ c, is_Some (children !! c) → unroutable c ∨ toward c iif ∨ ∃ i, toward c i ∧ i ∈ st.1.
Proof.
  simpl. apply (range_fold_ind (λ m st,
    (∀ i, map_bool st.2 i = true ↔ i ∈ st.1) ∧ NoDup st.1 ∧
    (∀ i, i ∈ st.1 → i ≠ iif ∧ ∃ c, is_Some (m !! c) ∧ toward c i) ∧
    ∀ c, is_Some (m !! c) → unroutable c ∨ toward c iif ∨ ∃ i, toward c i ∧ i ∈ st.1)); simpl.
  - split; [|split; [constructor|split]].
    + intros i. unfold map_bool. rewrite lookup_empty. simpl. split; [done|]. by intros ?%elem_of_nil.
    + intros i ?%elem_of_nil. done.
    + intros c Hc. rewrite lookup_empty in Hc. by destruct Hc.
  - intros c ce m [oifs seen] _ _ Hm (Hseen & Hnd & Hin & Hch). simpl in *.
    assert (∀ st' : list Z, (∀ i, i ∈ oifs → i ∈ st') →
      (unroutable c ∨ toward c iif ∨ ∃ i, toward c i ∧ i ∈ st') →
      ∀ c', is_Some (<[c:=ce]> m !! c') → unroutable c' ∨ toward c' iif ∨ ∃ i, toward c' i ∧ i ∈ st') as Hch'.
    { intros st' Hsub Hc c'. destruct (decide (c = c')) as [<-|?]; [done|]. rewrite lookup_insert_ne by done.
      intros Hc'. destruct (Hch _ Hc') as [?|[?|(i & ? & ?)]]; eauto 10. }
    assert (∀ i, i ∈ oifs → i ≠ iif ∧ ∃ c', is_Some (<[c:=ce]> m !! c') ∧ toward c' i) as Hin'.
    { intros i Hi. destruct (Hin _ Hi) as (? & c' & ? & ?). split; [done|]. exists c'. split; [|done].
      rewrite lookup_insert_ne; [done|]. intros <-. match goal with H : is_Some (m !! c) |- _ => rewrite Hm in H; by destruct H end. }
    unfold oif_step. simpl. destruct (f (encode c :: p) c) as [[h i]| | |] eqn:Ef.
    2-4: split; [done|split; [done|split; [done|]]]; apply Hch'; [done|]; left;
      exists (encode c :: p); rewrite Ef; done.
    assert (toward c i) as Ht by (by exists (encode c :: p), h).
    destruct (map_bool seen i) eqn:Es; simpl.
    { split; [done|split; [done|split; [done|]]]. apply Hch'; [done|]. right. right. exists i. by rewrite <-Hseen. }
    destruct (Z.eqb_spec i iif) as [->|Hne]; simpl.
    { split; [done|split; [done|split; [done|]]]. apply Hch'; [done|]. by right; left. }
    split; [|split; [|split]].
    + intros j. rewrite elem_of_app, list_elem_of_singleton, <-Hseen. unfold map_bool.
      destruct (decide (i = j)) as [<-|?]; [rewrite lookup_insert_eq|rewrite lookup_insert_ne by done]; naive_solver.
    + apply NoDup_app. split; [done|]. split; [|apply NoDup_singleton].
      intros j Hj ->%list_elem_of_singleton. apply Hseen in Hj. congruence.
    + intros j [?| ->%list_elem_of_singleton]%elem_of_app; [by apply Hin'|]. split; [done|]. exists c.
      rewrite lookup_insert_eq. eauto.
    + apply Hch'; [intros; apply elem_of_app; by left|]. right. right. exists i. split; [done|].
      apply elem_of_app. right. by apply list_elem_of_singleton.
Qed.

(** The key of an entry. *)
Definition mfc_key (src grp : string) : string := src +:+ ":" +:+ grp.

(** The table over the visited sources [vis]. *)
Record mfc_table (vis : string → string → gmap string ConfirmParentEntry → Prop)
    (t : gmap string MulticastForwardingEntry) : Prop := {
  mt_sound k e : t !! k = Some e →
    ∃ g s children, vis g s children ∧ k = mfc_key s g ∧ mfc_entry g s children e;
  mt_complete g s children : vis g s children → children ≠ ∅ → is_Some (t !! mfc_key s g) ∨ unroutable s;
}.

Lemma mfc_table_ext vis vis' t :
  (∀ g s c, vis g s c ↔ vis' g s c) → mfc_table vis t → mfc_table vis' t.
Proof.
  intros Hv [Hs Hc]. split.
  - intros k e Hk. destruct (Hs _ _ Hk) as (g & s & c & ?%Hv & ? & ?). eauto 10.
  - intros g s c ?%Hv. by apply Hc.
Qed.

Lemma mfc_step_table p grp vis t s children :
  mfc_table vis t →
  mfc_table (λ g s' c, vis g s' c ∨ (g = grp ∧ s' = s ∧ c = children)) (mfc_step f p grp t (s, children)).
Proof.
  intros [Hs Hc].
  assert (children = ∅ ∨ unroutable s →
    mfc_table (λ g s' c, vis g s' c ∨ (g = grp ∧ s' = s ∧ c = children)) t) as Hskip.
  { intros Hskip. split.
    - intros k e Hk. destruct (Hs _ _ Hk) as (g & s' & c & ? & ? & ?). eauto 10.
    - intros g s' c [?|(-> & -> & ->)] Hne; [by apply (Hc g s' c)|]. destruct Hskip; [done|by right]. }
  unfold mfc_step. destruct (Nat.eqb_spec (size children) 0) as [E|E].
  { apply Hskip. left. by apply map_size_empty_inv. }
  destruct (f (1%positive :: encode s :: p) s) as [[h iif]| | |] eqn:Ef.
  2-4: apply Hskip; right; exists (1%positive :: encode s :: p); by rewrite Ef.
  assert ((0 <? size children)%nat = true) as -> by (apply Nat.ltb_lt; lia). rewrite orb_true_r.
  destruct (oif_loop (2%positive :: encode s :: p) (3%positive :: encode s :: p) iif children)
    as (_ & Hnd & Hin & Hch).
  set (oifs := (foldl _ _ _).1) in *.
  assert (mfc_entry grp s children (MkMFE s grp iif oifs)) as He.
  { split; simpl; try done. by exists (1%positive :: encode s :: p), h. }
  split.
  - intros k e [[<- <-]|[_ Hk]]%lookup_insert_Some.
    + exists grp, s, children. split_and!; [by right|done|done].
    + destruct (Hs _ _ Hk) as (g & s' & c & ? & ? & ?). eauto 10.
  - intros g s' c Hv Hne. fold (mfc_key s grp).
    destruct (decide (mfc_key s grp = mfc_key s' g)) as [->|Hk].
    + left. rewrite lookup_insert_eq. eauto.
    + rewrite lookup_insert_ne by done. destruct Hv as [?|(-> & -> & ->)]; [by apply (Hc g s' c)|done].
Qed.

(** The sources of the table of confirm-parent entries. *)
Definition confirmed (parents : parent_table) (g s : string) (children : gmap string ConfirmParentEntry) : Prop :=
  children_at parents g s = Some children.

Lemma mfc_group_table p grp vis t sources :
  mfc_table vis t →
  mfc_table (λ g s c, vis g s c ∨ (g = grp ∧ sources !! s = Some c))
    (foldl (mfc_step f p grp) t (range p sources)).
Proof.
  intros Ht.
  apply (range_fold_ind (λ m t', mfc_table (λ g s c, vis g s c ∨ (g = grp ∧ m !! s = Some c)) t')).
  - eapply mfc_table_ext; [|exact Ht]. intros g s c. rewrite lookup_empty. naive_solver.
  - intros s c m t' _ _ Hm IH. eapply mfc_table_ext; [|by apply mfc_step_table].
    intros g s' c'. simpl. destruct (decide (s = s')) as [<-|?].
    + rewrite lookup_insert_eq, Hm. naive_solver.
    + rewrite lookup_insert_ne by done. naive_solver.
Qed.

Lemma buildNewMFC_table p parents : mfc_table (confirmed parents) (buildNewMFC f p parents).
Proof.
  unfold buildNewMFC, confirmed, children_at.
  apply (range_fold_ind (λ m t, mfc_table (λ g s c, (m !! g ≫= λ i, i !! s) = Some c) t)).
  - split.
    + intros k e Hk. by rewrite lookup_empty in Hk.
    + intros g s c. by rewrite lookup_empty.
  - intros g sources m t _ _ Hm IH. simpl. eapply mfc_table_ext; [|by apply mfc_group_table].
    intros g' s c. simpl. destruct (decide (g = g')) as [<-|?].
    + rewrite lookup_insert_eq, Hm. simpl. naive_solver.
    + rewrite lookup_insert_ne by done. naive_solver.
Qed.

(** The forwarding entries.  [buildNewMFC] makes an entry only for a source
    and group whose children confirmed this router, under the key
    "source:group": its incoming interface is the unicast direction of the
    source, its outgoing interfaces are without repetition the directions of
    routable children other than the incoming one, and each child that is
    routable in another direction is reached; every such source gets an entry
    unless it is not routable.  Whatever the iteration orders. *)
Theorem buildNewMFC_spec p parents :
  (∀ k e, buildNewMFC f p parents !! k = Some e →
     ∃ g s children, children_at parents g s = Some children ∧ k = mfc_key s g ∧ mfc_entry g s children e) ∧
  (∀ g s children, children_at parents g s = Some children → children ≠ ∅ →
     is_Some (buildNewMFC f p parents !! mfc_key s g) ∨ unroutable s).
Proof. destruct (buildNewMFC_table p parents) as [Hs Hc]. split; [exact Hs|exact Hc]. Qed.
End mfc.

(** ** Publication *)

(** A consumer of the events, as the kernel's table of (source, group) entries. *)
Definition mfc_apply (t : gmap string MulticastForwardingEntry) (e : Event)
    : gmap string MulticastForwardingEntry :=
  match ev_Data e with
  | DataMulticast action m =>
      let k := mfc_key (mfe_SourceIP m) (mfe_GroupID m) in
      if decide (action = "add_multicast") then <[k := m]> t
      else if decide (action = "delete_multicast") then delete k t else t
  | _ => t
  end.

(** What an entry forwards: from which interface to which. *)
Definition mfc_forwarding (e : MulticastForwardingEntry) : Z * list Z := (IIF e, OIFs e).

Lemma mfc_changed_spec old new : mfc_changed old new = false ↔ mfc_forwarding old = mfc_forwarding new.
Proof.
  unfold mfc_changed, mfc_forwarding. rewrite orb_false_iff, negb_false_iff, Z.eqb_eq, bool_decide_eq_false.
  split; [intros [-> E]; apply dec_stable in E; congruence|intros [= -> ->]; naive_solver].
Qed.

Lemma syncMFCRoutes_agrees p active new t :
  keyed (λ e, mfc_key (mfe_SourceIP e) (mfe_GroupID e)) active →
  keyed (λ e, mfc_key (mfe_SourceIP e) (mfe_GroupID e)) new →
  agrees mfc_forwarding t active →
  agrees mfc_forwarding (foldl mfc_apply t (syncMFCRoutes p active new)) new.
Proof.
  apply (diff_events_agrees _ mfc_forwarding mfc_changed
    (λ e, MkEvent EventRouteInstall (DataMulticast "add_multicast" e))
    (λ e, MkEvent EventRouteInstall (DataMulticast "delete_multicast" e)) mfc_apply);
    [done|done|apply mfc_changed_spec].
Qed.

Notation mfc_tracked := (tracked (λ e, mfc_key (mfe_SourceIP e) (mfe_GroupID e)) mfc_forwarding
  (λ e, MkEvent EventRouteInstall (DataMulticast "delete_multicast" e)) mfc_apply).

Lemma syncMFCRoutes_tracked p active new t :
  keyed (λ e, mfc_key (mfe_SourceIP e) (mfe_GroupID e)) active →
  keyed (λ e, mfc_key (mfe_SourceIP e) (mfe_GroupID e)) new →
  agrees mfc_forwarding t active → mfc_tracked t (syncMFCRoutes p active new).
Proof.
  apply (diff_events_tracked _ mfc_forwarding mfc_changed
    (λ e, MkEvent EventRouteInstall (DataMulticast "add_multicast" e))
    (λ e, MkEvent EventRouteInstall (DataMulticast "delete_multicast" e)) mfc_apply); [done|done| |done].
  by intros v v' [= ->].
Qed.

(** Recalculations over time, with everything they publish; between them the
    tables of the manager may change in any way. *)
Inductive mfc_runs : list Event → gmap string MulticastForwardingEntry → Prop :=
  | mfc_start : mfc_runs [] ∅
  | mfc_next evs f p m :
      mfc_runs evs (activeMfc m) →
      mfc_runs (evs ++ (RecalculateMroutes f p m).2) (activeMfc (RecalculateMroutes f p m).1).

(** What the events so far make of an empty table. *)
Definition mfc_facts (evs : list Event) (active : gmap string MulticastForwardingEntry) : Prop :=
  keyed (λ e, mfc_key (mfe_SourceIP e) (mfe_GroupID e)) active ∧
  agrees mfc_forwarding (foldl mfc_apply ∅ evs) active ∧ mfc_tracked ∅ evs.

Lemma mfc_facts_start : mfc_facts [] ∅.
Proof. split; [|done]. intros k e. by rewrite lookup_empty. Qed.

Lemma mfc_facts_next evs f p m : mfc_facts evs (activeMfc m) →
  mfc_facts (evs ++ (RecalculateMroutes f p m).2) (activeMfc (RecalculateMroutes f p m).1).
Proof.
  intros (IHk & IHa & IHt). unfold RecalculateMroutes. destruct (MOLSR_IfaceIndexLookup m); simpl; [|by rewrite app_nil_r].
  assert (keyed (λ e, mfc_key (mfe_SourceIP e) (mfe_GroupID e)) (buildNewMFC f (1%positive :: p) (confirmParents m))) as Hk.
  { intros k e He. destruct (mt_sound _ _ _ (buildNewMFC_table f (1%positive :: p) (confirmParents m)) _ _ He)
      as (g & s & c & _ & -> & Hme). by rewrite (me_src _ _ _ _ _ Hme), (me_grp _ _ _ _ _ Hme). }
  split; [done|]. rewrite foldl_app. split; [by apply syncMFCRoutes_agrees|].
  apply tracked_app. split; [done|]. by apply syncMFCRoutes_tracked.
Qed.

Lemma mfc_runs_facts evs active : mfc_runs evs active → mfc_facts evs active.
Proof. induction 1; [apply mfc_facts_start|by apply mfc_facts_next]. Qed.

(** C27. The kernel's multicast table.  A table that started empty and applied
    every published event in order forwards exactly like the manager's active
    entries, after any sequence of recalculations. *)
Theorem mfc_runs_in_sync evs active :
  mfc_runs evs active → agrees mfc_forwarding (foldl mfc_apply ∅ evs) active.
Proof. intros Hr. by apply mfc_runs_facts. Qed.
End facts.

Notation mfc_tracked := (tracked (λ e, mfc_key (mfe_SourceIP e) (mfe_GroupID e)) mfc_forwarding
  (λ e, MkEvent EventRouteInstall (DataMulticast "delete_multicast" e)) mfc_apply).

(** ** Witnesses *)

Definition example_molsr : MOLSRManager :=
  (ProcessConfirmParent 0 (NewMOLSRManager "10.0.0.1") [10; 0; 0; 3]
     (MkConfirmParentMessage [10; 0; 0; 2] [224; 0; 1; 1] [10; 0; 0; 1]) 100).1.

Lemma molsr_reachable_wf_witness :
  rtc (@molsr_step canonical_order true) (NewMOLSRManager "10.0.0.1") example_molsr ∧
  molsr_wf true "10.0.0.1" example_molsr ∧
  confirm_at example_molsr "224.0.1.1" "10.0.0.2" "10.0.0.3" =
    Some (MkConfirmParentEntry "10.0.0.2" "224.0.1.1" "10.0.0.1" "10.0.0.3" 100).
Proof.
  assert (rtc (@molsr_step canonical_order true) (NewMOLSRManager "10.0.0.1") example_molsr) as Hr
    by (eapply rtc_l; [|apply rtc_refl]; apply ms_confirm).
  split; [exact Hr|]. split; [apply (@molsr_reachable_wf canonical_order _ _ _ Hr)|]. vm_compute. reflexivity.
Defined.

(** The source 10.0.0.2 is on interface 1, the child 10.0.0.3 on interface 2. *)
Definition example_next_hop (_ : list positive) (d : string) : res (string * Z) :=
  if bool_decide (d = "10.0.0.2") then Ok (d, 1) else if bool_decide (d = "10.0.0.3") then Ok (d, 2)
  else Err "route to destination not found".

Definition example_molsr_ready : MOLSRManager :=
  MkMOLSRManager "10.0.0.1" (sourceClaims example_molsr) (confirmParents example_molsr) ∅ ∅ (Some (λ _, Ok 0)).

Lemma mfc_runs_in_sync_witness :
  ∃ evs active, @mfc_runs canonical_order evs active ∧
    agrees mfc_forwarding (foldl mfc_apply ∅ evs) active ∧
    active = {["10.0.0.2:224.0.1.1" := MkMFE "10.0.0.2" "224.0.1.1" 1 [2]]}.
Proof.
  eexists _, _. split; [apply (mfc_next [] example_next_hop [] example_molsr_ready), mfc_start|].
  split; [|vm_compute; reflexivity].
  apply (@mfc_runs_in_sync canonical_order). apply (mfc_next [] example_next_hop [] example_molsr_ready), mfc_start.
Defined.
