(* ===== verification/EventBus.v ===== *)
(** * The event bus (internal/eventbus/bus.go)

    Subscriptions with buffered channels, and [Publish] as the interleaving of
    its atomic parts: the copy of the subscriber list under the lock, then one
    [select] per subscriber (send, cancellation of the context, or timeout).
    [Subscribe] and [Unsubscribe] hold the lock and are one step each.  A send
    on a closed channel panics.  Buffers have room for at least one event. *)

From S2P Require Import Prelude Events TimeVal.

(** A subscription is the identity of its pointer; its channel holds the events
    sent and not yet received. *)
Record Channel := MkChannel {
  sub_evType : EventType;
  buffer : list Event;
  closed : bool;
}.

Record EventBus := MkEventBus {
  subs : gmap EventType (list nat);
  channels : gmap nat Channel;                 (* the subscriptions made so far *)
  publishing : gmap nat (Event * list nat);    (* running calls: event, [localSubs] left *)
  bufferSize : nat;
}.

Definition NewEventBus (bufferSize : nat) : EventBus := MkEventBus ∅ ∅ ∅ bufferSize.

Definition set_channel (b : EventBus) (sub : nat) (c : Channel) : EventBus :=
  MkEventBus (subs b) (<[sub := c]> (channels b)) (publishing b) (bufferSize b).
Definition set_publishing (b : EventBus) (pub : nat) (ev : Event) (rest : list nat) : EventBus :=
  MkEventBus (subs b) (channels b) (<[pub := (ev, rest)]> (publishing b)) (bufferSize b).
Definition end_publish (b : EventBus) (pub : nat) : EventBus :=
  MkEventBus (subs b) (channels b) (delete pub (publishing b)) (bufferSize b).

(** [Subscribe]: a fresh subscription [sub] at the end of the list. *)
Definition Subscribe (b : EventBus) (sub : nat) (evType : EventType) : EventBus :=
  MkEventBus (<[evType := default [] (subs b !! evType) ++ [sub]]> (subs b))
    (<[sub := MkChannel evType [] false]> (channels b)) (publishing b) (bufferSize b).

(** The first position of [sub], and the list without it. *)
Fixpoint remove_first (sub : nat) (l : list nat) : option (list nat) :=
  match l with
  | [] => None
  | s :: l => if (s =? sub)%nat then Some l else (s ::.) <$> remove_first sub l
  end.

Definition Unsubscribe (b : EventBus) (sub : nat) : EventBus :=
  match channels b !! sub with
  | None => b
  | Some c =>
      match subs b !! sub_evType c with
      | None => b
      | Some l =>
          match remove_first sub l with
          | None => b
          | Some l' => MkEventBus (<[sub_evType c := l']> (subs b))
                         (<[sub := MkChannel (sub_evType c) (buffer c) true]> (channels b))
                         (publishing b) (bufferSize b)
          end
      end
  end.

(** The part of [Publish] under the lock: [localSubs], [[]] when it returns. *)
Definition publish_copy (b : EventBus) (ev : Event) : list nat := default [] (subs b !! ev_Type ev).

(** [sub.ch <- ev] when it can proceed: [None] while the buffer is full. *)
Definition chan_send (b : EventBus) (sub : nat) (ev : Event) : option (res EventBus) :=
  match channels b !! sub with
  | None => None
  | Some c =>
      if closed c then Some Panic
      else if (length (buffer c) <? bufferSize b)%nat
      then Some (Ok (set_channel b sub (MkChannel (sub_evType c) (buffer c ++ [ev]) (closed c))))
      else None
  end.

(** What a step of the bus does: go on, or crash the process. *)
Inductive bus_step (b : EventBus) : res EventBus → Prop :=
  | bus_subscribe sub t : channels b !! sub = None → bus_step b (Ok (Subscribe b sub t))
  | bus_unsubscribe sub : bus_step b (Ok (Unsubscribe b sub))
  | bus_publish pub ev : publishing b !! pub = None →
      bus_step b (Ok (set_publishing b pub ev (publish_copy b ev)))
  | bus_send pub ev sub rest b' : publishing b !! pub = Some (ev, sub :: rest) →
      chan_send b sub ev = Some (Ok b') → bus_step b (Ok (set_publishing b' pub ev rest))
  | bus_send_closed pub ev sub rest : publishing b !! pub = Some (ev, sub :: rest) →
      chan_send b sub ev = Some Panic → bus_step b Panic
  | bus_timeout pub ev sub rest : publishing b !! pub = Some (ev, sub :: rest) →
      bus_step b (Ok (set_publishing b pub ev rest))
  | bus_cancelled pub ev sub rest : publishing b !! pub = Some (ev, sub :: rest) →
      bus_step b (Ok (end_publish b pub))
  | bus_return pub ev : publishing b !! pub = Some (ev, []) → bus_step b (Ok (end_publish b pub))
  | bus_receive sub c ev evs : channels b !! sub = Some c → buffer c = ev :: evs →
      bus_step b (Ok (set_channel b sub (MkChannel (sub_evType c) evs (closed c)))).

Definition bus_ok_step (b b' : EventBus) : Prop := bus_step b (Ok b').

(** ** The invariant *)

Record bus_inv (n : nat) (b : EventBus) : Prop := {
  bi_size : bufferSize b = n;
  bi_room sub c : channels b !! sub = Some c → (length (buffer c) ≤ n)%nat;
  bi_typed sub c ev : channels b !! sub = Some c → ev ∈ buffer c → ev_Type ev = sub_evType c;
  bi_listed t l : subs b !! t = Some l → NoDup l ∧
    ∀ sub, sub ∈ l → ∃ c, channels b !! sub = Some c ∧ sub_evType c = t ∧ closed c = false;
  bi_open sub c : channels b !! sub = Some c → closed c = false →
    ∃ l, subs b !! sub_evType c = Some l ∧ sub ∈ l;
  bi_copy pub ev l : publishing b !! pub = Some (ev, l) → NoDup l ∧
    ∀ sub, sub ∈ l → ∃ c, channels b !! sub = Some c ∧ sub_evType c = ev_Type ev;
}.

Lemma remove_first_spec sub l l' :
  remove_first sub l = Some l' → NoDup l → sub ∈ l ∧ NoDup l' ∧ ∀ s, s ∈ l' ↔ s ∈ l ∧ s ≠ sub.
Proof.
  revert l'. induction l as [|x l IH]; intros l' H Hnd; simpl in H; [done|].
  apply NoDup_cons in Hnd as [Hx Hnd]. destruct (Nat.eqb_spec x sub) as [->|Hne].
  - injection H as <-. split; [constructor|]. split; [done|]. intros s. rewrite elem_of_cons.
    split; [intros Hs; split; [by right|by intros ->]|naive_solver].
  - apply fmap_Some in H as (l1 & H1 & ->). destruct (IH _ H1 Hnd) as (Hin & Hnd1 & Heq).
    split; [by constructor|]. split.
    + apply NoDup_cons. rewrite Heq. naive_solver.
    + intros s. rewrite !elem_of_cons, Heq. naive_solver.
Qed.

Lemma remove_first_None sub l : remove_first sub l = None → sub ∉ l.
Proof.
  induction l as [|x l IH]; simpl; [by intros _ ?%elem_of_nil|].
  destruct (Nat.eqb_spec x sub) as [->|Hne]; [done|]. intros H%fmap_None. rewrite elem_of_cons. naive_solver.
Qed.

(** Replacing the channel of a subscription by one of the same type and state. *)
Lemma set_channel_inv n b sub c c' :
  bus_inv n b → channels b !! sub = Some c → sub_evType c' = sub_evType c → closed c' = closed c →
  (length (buffer c') ≤ n)%nat → (∀ ev, ev ∈ buffer c' → ev_Type ev = sub_evType c) →
  bus_inv n (set_channel b sub c').
Proof.
  intros [Hs Hr Ht Hl Ho Hc] Hsub Et Ec Hlen Hev.
  assert (∀ s P, (∃ d, channels b !! s = Some d ∧ P (sub_evType d) (closed d)) →
    ∃ d, <[sub := c']> (channels b) !! s = Some d ∧ P (sub_evType d) (closed d)) as Hkeep.
  { intros s P (d & Hd & HP). destruct (decide (sub = s)) as [<-|?].
    - exists c'. rewrite lookup_insert_eq, Et, Ec. simplify_eq. done.
    - exists d. by rewrite lookup_insert_ne. }
  split; simpl; [done|..].
  - intros s d [[<- <-]|[? ?]]%lookup_insert_Some; eauto.
  - intros s d ev [[<- <-]|[? ?]]%lookup_insert_Some; [rewrite Et; eauto|eauto].
  - intros t l Htl. destruct (Hl _ _ Htl) as [Hnd Hin]. split; [done|]. intros s Hs'.
    apply (Hkeep s (λ t' cl, t' = t ∧ cl = false)). destruct (Hin _ Hs') as (d & ? & ? & ?). eauto.
  - intros s d [[<- <-]|[? ?]]%lookup_insert_Some; [rewrite Et, Ec; eauto|eauto].
  - intros pub ev l Hp. destruct (Hc _ _ _ Hp) as [Hnd Hin]. split; [done|]. intros s Hs'.
    apply (Hkeep s (λ t' _, t' = ev_Type ev)). eauto.
Qed.

Lemma set_publishing_inv n b pub ev l :
  bus_inv n b → NoDup l → (∀ sub, sub ∈ l → ∃ c, channels b !! sub = Some c ∧ sub_evType c = ev_Type ev) →
  bus_inv n (set_publishing b pub ev l).
Proof.
  intros [Hs Hr Ht Hl Ho Hc] Hnd Hin. split; simpl; try done.
  intros p ev' l' [[<- [= <- <-]]|[? ?]]%lookup_insert_Some; eauto.
Qed.

Lemma end_publish_inv n b pub : bus_inv n b → bus_inv n (end_publish b pub).
Proof.
  intros [Hs Hr Ht Hl Ho Hc]. split; simpl; try done. intros p ev l [? ?]%lookup_delete_Some. eauto.
Qed.

Lemma Subscribe_inv n b sub t : bus_inv n b → channels b !! sub = None → bus_inv n (Subscribe b sub t).
Proof.
  intros [Hs Hr Ht Hl Ho Hc] Hfresh.
  assert (∀ s c, channels b !! s = Some c → <[sub := MkChannel t [] false]> (channels b) !! s = Some c) as Hkeep
    by (intros s c Hsc; rewrite lookup_insert_ne; congruence).
  assert (∀ t' l, subs b !! t' = Some l → sub ∉ l) as Hnew.
  { intros t' l Htl Hin. destruct (Hl _ _ Htl) as [_ Hch]. destruct (Hch _ Hin) as (c & ? & _). congruence. }
  split; simpl; [done|..].
  - intros s c [[<- <-]|[? ?]]%lookup_insert_Some; [simpl; lia|eauto].
  - intros s c ev [[<- <-]|[? ?]]%lookup_insert_Some; [by intros ?%elem_of_nil|eauto].
  - intros t' l [[<- <-]|[? Htl]]%lookup_insert_Some.
    + assert (NoDup (default [] (subs b !! t)) ∧ ∀ s, s ∈ default [] (subs b !! t) → s ≠ sub ∧
        ∃ c, channels b !! s = Some c ∧ sub_evType c = t ∧ closed c = false) as [Hnd Hin].
      { destruct (subs b !! t) as [l|] eqn:E; simpl; [|split; [constructor|by intros ? ?%elem_of_nil]].
        destruct (Hl _ _ E) as [Hnd Hin]. split; [done|]. intros s Hs'. split; [|eauto].
        intros ->. by apply (Hnew _ _ E). }
      split.
      * apply NoDup_app. split; [done|]. split; [|apply NoDup_singleton].
        intros s Hs' ->%list_elem_of_singleton. by destruct (Hin _ Hs').
      * intros s [Hs'| ->%list_elem_of_singleton]%elem_of_app.
        -- destruct (Hin _ Hs') as (_ & c & ? & ? & ?). eauto.
        -- rewrite lookup_insert_eq. eauto.
    + destruct (Hl _ _ Htl) as [Hnd Hin]. split; [done|]. intros s Hs'.
      destruct (Hin _ Hs') as (c & ? & ? & ?). eauto.
  - intros s c [[<- <-]|[Hne Hsc]]%lookup_insert_Some Hcl.
    + simpl. rewrite lookup_insert_eq. eexists. split; [done|]. apply elem_of_app. right. by apply list_elem_of_singleton.
    + destruct (Ho _ _ Hsc Hcl) as (l & Hl' & Hin). destruct (decide (t = sub_evType c)) as [->|?].
      * rewrite lookup_insert_eq, Hl'. eexists. split; [done|]. apply elem_of_app. by left.
      * rewrite lookup_insert_ne by done. eauto.
  - intros p ev l Hp. destruct (Hc _ _ _ Hp) as [Hnd Hin]. split; [done|]. intros s Hs'.
    destruct (Hin _ Hs') as (c & ? & ?). eauto.
Qed.

Lemma Unsubscribe_inv n b sub : bus_inv n b → bus_inv n (Unsubscribe b sub).
Proof.
  intros Hinv. pose proof Hinv as [Hs Hr Ht Hl Ho Hc]. unfold Unsubscribe.
  destruct (channels b !! sub) as [c|] eqn:Ec; [|done].
  destruct (subs b !! sub_evType c) as [l|] eqn:El; [|done].
  destruct (remove_first sub l) as [l'|] eqn:Er; [|done].
  destruct (Hl _ _ El) as [Hnd Hin]. destruct (remove_first_spec _ _ _ Er Hnd) as (Hsub & Hnd' & Hmem).
  assert (∀ s d, s ≠ sub → channels b !! s = Some d →
    <[sub := MkChannel (sub_evType c) (buffer c) true]> (channels b) !! s = Some d) as Hkeep
    by (intros; by rewrite lookup_insert_ne).
  split; simpl; [done|..].
  - intros s d [[<- <-]|[? Hd]]%lookup_insert_Some; [exact (Hr _ _ Ec)|exact (Hr _ _ Hd)].
  - intros s d ev [[<- <-]|[? Hd]]%lookup_insert_Some; [exact (Ht _ _ _ Ec)|exact (Ht _ _ _ Hd)].
  - intros t' k [[<- <-]|[Hne Htl]]%lookup_insert_Some.
    + split; [done|]. intros s [Hs' Hne]%Hmem. destruct (Hin _ Hs') as (d & ? & ? & ?). eauto.
    + destruct (Hl _ _ Htl) as [Hnd2 Hin2]. split; [done|]. intros s Hs'.
      destruct (Hin2 _ Hs') as (d & Hd & Hdt & ?). exists d. split; [|done]. apply Hkeep; [|done].
      intros ->. congruence.
  - intros s d [[<- <-]|[Hne Hsd]]%lookup_insert_Some Hcl; [done|].
    destruct (Ho _ _ Hsd Hcl) as (k & Hk & Hsk). destruct (decide (sub_evType c = sub_evType d)) as [E|?].
    + rewrite E, lookup_insert_eq. eexists. split; [done|]. apply Hmem. split; [|done]. congruence.
    + rewrite lookup_insert_ne by done. eauto.
  - intros p ev k Hp. destruct (Hc _ _ _ Hp) as [Hnd2 Hin2]. split; [done|]. intros s Hs'.
    destruct (Hin2 _ Hs') as (d & Hd & ?). destruct (decide (sub = s)) as [<-|?].
    + rewrite lookup_insert_eq. eexists. split; [done|]. simpl. congruence.
    + eauto.
Qed.

Lemma chan_send_Ok b sub ev b' :
  chan_send b sub ev = Some (Ok b') →
  ∃ c, channels b !! sub = Some c ∧ closed c = false ∧ (length (buffer c) < bufferSize b)%nat ∧
    b' = set_channel b sub (MkChannel (sub_evType c) (buffer c ++ [ev]) (closed c)).
Proof.
  unfold chan_send. destruct (channels b !! sub) as [c|]; [|done]. destruct (closed c) eqn:E; [done|].
  destruct (Nat.ltb_spec (length (buffer c)) (bufferSize b)); [|done]. intros [= <-]. exists c.
  rewrite E. done.
Qed.

Lemma bus_ok_step_inv n b b' : bus_inv n b → bus_ok_step b b' → bus_inv n b'.
Proof.
  intros Hinv Hstep. inversion Hstep; subst; clear Hstep.
  - by apply Subscribe_inv.
  - by apply Unsubscribe_inv.
  - apply set_publishing_inv; [done|..]; unfold publish_copy;
      destruct (subs b !! ev_Type ev) as [l|] eqn:E; simpl.
    + by apply (bi_listed _ _ Hinv _ _ E).
    + constructor.
    + intros sub Hsub. destruct (proj2 (bi_listed _ _ Hinv _ _ E) _ Hsub) as (c & ? & ? & _). eauto.
    + by intros sub ?%elem_of_nil.
  - match goal with H : chan_send _ _ _ = _ |- _ => apply chan_send_Ok in H as (c & Hc & Hcl & Hroom & ->) end.
    match goal with H : publishing b !! _ = _ |- _ => destruct (bi_copy _ _ Hinv _ _ _ H) as [Hnd Hin] end.
    apply NoDup_cons in Hnd as [_ Hnd].
    assert (sub_evType c = ev_Type ev) as Et.
    { destruct (Hin sub) as (c' & ? & ?); [constructor|]. congruence. }
    apply set_publishing_inv; [|done|].
    + eapply set_channel_inv; [done|exact Hc|done|done|..]; simpl.
      * rewrite length_app. simpl. pose proof (bi_size _ _ Hinv). lia.
      * intros e [He| ->%list_elem_of_singleton]%elem_of_app; [by eapply bi_typed|congruence].
    + intros s Hs. simpl. destruct (Hin s) as (d & Hd & ?); [by constructor|].
      destruct (decide (sub = s)) as [<-|?]; [rewrite lookup_insert_eq; eauto|rewrite lookup_insert_ne; eauto].
  - match goal with H : publishing b !! _ = _ |- _ => destruct (bi_copy _ _ Hinv _ _ _ H) as [Hnd Hin] end.
    apply NoDup_cons in Hnd as [_ Hnd]. apply set_publishing_inv; [done..|].
    intros s Hs. apply Hin. by constructor.
  - by apply end_publish_inv.
  - by apply end_publish_inv.
  - match goal with H : channels b !! _ = Some ?c, E : buffer ?c = _ |- _ => rename H into Hc; rename E into Eb end.
    pose proof (bi_room _ _ Hinv _ _ Hc) as Hroom. pose proof (bi_typed _ _ Hinv sub c) as Ht.
    eapply set_channel_inv; [done|exact Hc|done|done|..]; simpl.
    + rewrite Eb in Hroom. simpl in Hroom. lia.
    + intros e He. eapply Ht; [exact Hc|]. rewrite Eb. by constructor.
Qed.

Definition bus_reachable (n : nat) : EventBus → Prop := rtc bus_ok_step (NewEventBus n).

Lemma bus_inv_start n : bus_inv n (NewEventBus n).
Proof. split; simpl; [done|..]; intros *; by rewrite lookup_empty. Qed.

Lemma bus_reachable_inv n b : bus_reachable n b → bus_inv n b.
Proof.
  revert b. apply (rtc_ind_r (bus_inv n) (NewEventBus n)); [apply bus_inv_start|].
  intros b b' _ Hstep Hb. by eapply bus_ok_step_inv.
Qed.

(** The bus's invariant, in every state reachable by any interleaving of
    subscriptions, publications and receptions: no channel holds more events
    than its buffer, each holds events of its subscription's type only, each
    type's list has distinct subscriptions, which are exactly the open ones of
    that type, and a running publication addresses each subscriber once. *)
Theorem bus_invariant n b : bus_reachable n b → bus_inv n b.
Proof. apply bus_reachable_inv. Qed.

(** ** Delivery *)

Lemma Unsubscribe_publishing b sub : publishing (Unsubscribe b sub) = publishing b.
Proof. unfold Unsubscribe. by repeat (case_match; try done). Qed.

(** A step of the bus that serves the next subscriber of the publication [pub]
    without giving it up: its list gets shorter and a channel changes. *)
Definition serves (pub : nat) (b b' : EventBus) : Prop :=
  bus_ok_step b b' ∧ channels b' ≠ channels b ∧
  ∃ ev sub rest, publishing b !! pub = Some (ev, sub :: rest) ∧ publishing b' !! pub = Some (ev, rest).

(** The channel of [sub] with one more event, if [sub] is in [l]. *)
Definition fed (ev : Event) (l : list nat) (sub : nat) (c : Channel) : Channel :=
  if decide (sub ∈ l) then MkChannel (sub_evType c) (buffer c ++ [ev]) (closed c) else c.

(** A step that serves is the send. *)
Lemma serves_send pub b b' ev sub rest : publishing b !! pub = Some (ev, sub :: rest) → serves pub b b' →
  ∃ c, channels b !! sub = Some c ∧ closed c = false ∧
    b' = set_publishing (set_channel b sub (MkChannel (sub_evType c) (buffer c ++ [ev]) (closed c))) pub ev rest.
Proof.
  intros Hp (Hs & Hch & ev' & sub' & rest' & Hp' & Hq). rewrite Hp in Hp'. injection Hp' as <- <- <-.
  assert (sub :: rest ≠ rest) as Hne by (intros E; apply (f_equal length) in E; simpl in E; lia).
  inversion Hs; subst; simpl in Hq, Hch; try congruence; try (exfalso; apply Hne; congruence).
  - rewrite Unsubscribe_publishing, Hp in Hq. injection Hq as E. by destruct Hne.
  - match goal with H : chan_send _ _ _ = _ |- _ => apply chan_send_Ok in H as (c & Hc & Hcl & _ & ->) end.
    apply lookup_insert_Some in Hq as [[-> _]|[_ Hq]]; [|simpl in Hq; rewrite Hp in Hq; injection Hq as E; by destruct Hne].
    match goal with H : publishing b !! _ = Some (_, _ :: _) |- _ => rewrite Hp in H; injection H as <- <- <- end.
    by exists c.
Qed.

(** How far the publication is: [l] is left, the rest of [l0] has the event. *)
Definition serving (b0 : EventBus) (pub : nat) (ev : Event) (l0 : list nat) (b : EventBus) (l : list nat) : Prop :=
  subs b = subs b0 ∧ bufferSize b = bufferSize b0 ∧ publishing b = <[pub := (ev, l)]> (publishing b0) ∧
  ∃ served, l0 = served ++ l ∧ ∀ sub, channels b !! sub = fed ev served sub <$> channels b0 !! sub.

Lemma serving_start b0 pub ev l : serving b0 pub ev l (set_publishing b0 pub ev l) l.
Proof.
  split; [done|]. split; [done|]. split; [done|]. exists []. split; [done|]. intros sub. simpl.
  destruct (channels b0 !! sub); [|done]. simpl. unfold fed. by rewrite decide_False by apply not_elem_of_nil.
Qed.

(** One more subscriber is served. *)
Lemma serving_next b0 pub ev l0 b sub rest c : NoDup l0 → serving b0 pub ev l0 b (sub :: rest) → channels b !! sub = Some c →
  channels b0 !! sub = Some c ∧
  serving b0 pub ev l0 (set_publishing (set_channel b sub (MkChannel (sub_evType c) (buffer c ++ [ev]) (closed c))) pub ev rest) rest.
Proof.
  intros Hnd (Es & Ez & Ep & served & -> & Hch) Hc. apply NoDup_app in Hnd as (_ & Hnot & [Hsub _]%NoDup_cons).
  assert (sub ∉ served) as Hsv by (intros Hin; apply (Hnot _ Hin), elem_of_cons; by left).
  assert (channels b0 !! sub = Some c) as H0.
  { rewrite Hch in Hc. destruct (channels b0 !! sub) as [c0|]; [|done]. simpl in Hc. unfold fed in Hc. by rewrite decide_False in Hc. }
  split; [done|]. split; [done|]. split; [done|]. split; [simpl; by rewrite Ep, insert_insert_eq|].
  exists (served ++ [sub]). split; [by rewrite <-app_assoc|]. intros s. simpl. destruct (decide (sub = s)) as [<-|Hne].
  - rewrite lookup_insert_eq, H0. simpl. unfold fed. rewrite decide_True; [done|]. apply elem_of_app. right. by apply list_elem_of_singleton.
  - rewrite lookup_insert_ne, Hch by done. destruct (channels b0 !! s) as [c'|]; [|done]. simpl. f_equal. unfold fed.
    apply decide_ext. rewrite elem_of_app, list_elem_of_singleton. naive_solver.
Qed.

(** While the subscribers have room the next one can be served. *)
Lemma serving_goes_on b0 pub ev l0 b sub rest : NoDup l0 → serving b0 pub ev l0 b (sub :: rest) →
  (∃ c, channels b0 !! sub = Some c ∧ closed c = false ∧ (length (buffer c) < bufferSize b0)%nat) →
  ∃ b', serves pub b b' ∧ serving b0 pub ev l0 b' rest.
Proof.
  intros Hnd Hs (c & H0 & Hcl & Hroom). pose proof Hs as (_ & Ez & Ep & served & -> & Hch).
  assert (channels b !! sub = Some c) as Hc.
  { rewrite Hch, H0. simpl. unfold fed. rewrite decide_False; [done|]. apply NoDup_app in Hnd as (_ & Hnot & _).
    intros Hin. apply (Hnot _ Hin), elem_of_cons. by left. }
  destruct (serving_next _ _ _ _ _ _ _ _ Hnd Hs Hc) as [_ Hn]. eexists. split; [|exact Hn].
  assert (publishing b !! pub = Some (ev, sub :: rest)) as Hp by (rewrite Ep; apply lookup_insert_eq).
  split; [|split].
  - eapply bus_send; [exact Hp|]. unfold chan_send. rewrite Hc, Hcl, Ez. by rewrite (proj2 (Nat.ltb_lt _ _) Hroom).
  - simpl. intros E. apply (f_equal (.!! sub)) in E. rewrite lookup_insert_eq, Hc in E. injection E as E.
    apply (f_equal buffer) in E. simpl in E. apply (f_equal length) in E. rewrite length_app in E. simpl in E. lia.
  - exists ev, sub, rest. split; [done|]. simpl. apply lookup_insert_eq.
Qed.

(** The subscribers of the copied list. *)
Lemma publish_copy_open n b ev : bus_inv n b → NoDup (publish_copy b ev) ∧
  ∀ sub c, channels b !! sub = Some c → sub ∈ publish_copy b ev ↔ closed c = false ∧ sub_evType c = ev_Type ev.
Proof.
  intros Hinv. unfold publish_copy. destruct (subs b !! ev_Type ev) as [l|] eqn:E; simpl.
  - destruct (bi_listed _ _ Hinv _ _ E) as [Hnd Hin]. split; [done|]. intros sub c Hc. split.
    + intros Hs. destruct (Hin _ Hs) as (c' & Hc' & ? & ?). by simplify_eq.
    + intros [Hcl Et]. destruct (bi_open _ _ Hinv _ _ Hc Hcl) as (k & Hk & ?). rewrite Et, E in Hk. by injection Hk as <-.
  - split; [constructor|]. intros sub c Hc. split; [by intros ?%elem_of_nil|]. intros [Hcl Et].
    destruct (bi_open _ _ Hinv _ _ Hc Hcl) as (k & Hk & ?). congruence.
Qed.

(** C35. Delivery.  A publication begins in a reachable state in which every open
    subscription to its type has room.  Then the bus can serve the next of its
    subscribers after whatever part of them it has served, without giving one
    up, until none is left; the publication can return, and leaves the event
    exactly once, behind the earlier ones, in each open channel of its type and
    in no other. *)
Theorem publish_delivers n b pub ev :
  bus_reachable n b → publishing b !! pub = None →
  (∀ sub c, channels b !! sub = Some c → closed c = false → sub_evType c = ev_Type ev → (length (buffer c) < n)%nat) →
  ∃ b0, bus_ok_step b b0 ∧ (∃ b1, rtc (serves pub) b0 b1 ∧ publishing b1 !! pub = Some (ev, [])) ∧
    ∀ b1, rtc (serves pub) b0 b1 →
      (∃ b2, serves pub b1 b2) ∨
      (bus_ok_step b1 (end_publish b1 pub) ∧ publishing (end_publish b1 pub) = publishing b ∧ subs b1 = subs b ∧
       ∀ sub, channels b1 !! sub = (λ c, if decide (closed c = false ∧ sub_evType c = ev_Type ev)
         then MkChannel (sub_evType c) (buffer c ++ [ev]) (closed c) else c) <$> channels b !! sub).
Proof.
  intros Hinv%bus_reachable_inv Hno Hroom. destruct (publish_copy_open _ _ ev Hinv) as [Hnd Hcopy].
  set (l0 := publish_copy b ev) in *. exists (set_publishing b pub ev l0). split; [by apply bus_publish|].
  assert (∀ sub, sub ∈ l0 → ∃ c, channels b !! sub = Some c ∧ closed c = false ∧ (length (buffer c) < bufferSize b)%nat) as Hsub.
  { intros sub Hin. assert (∃ c, channels b !! sub = Some c) as [c Hc].
    { unfold l0, publish_copy in Hin. destruct (subs b !! ev_Type ev) as [l|] eqn:E; [|by apply elem_of_nil in Hin].
      destruct (proj2 (bi_listed _ _ Hinv _ _ E) _ Hin) as (c & ? & _). by exists c. }
    pose proof (proj1 (Hcopy _ _ Hc) Hin) as [Hcl Et]. exists c. rewrite (bi_size _ _ Hinv). eauto. }
  assert (∀ sub b1 l, serving b pub ev l0 b1 (sub :: l) → sub ∈ l0) as Hleft.
  { intros sub b1 l (_ & _ & _ & served & -> & _). apply elem_of_app. right. apply elem_of_cons. by left. }
  split.
  - assert (∀ l b1, serving b pub ev l0 b1 l → ∃ b2, rtc (serves pub) b1 b2 ∧ publishing b2 !! pub = Some (ev, [])) as Hrun.
    { induction l as [|sub l IH]; intros b1 Hs.
      - exists b1. split; [done|]. destruct Hs as (_ & _ & -> & _). apply lookup_insert_eq.
      - destruct (serving_goes_on _ _ _ _ _ _ _ Hnd Hs (Hsub _ (Hleft _ _ _ Hs))) as (b2 & H2 & Hs2).
        destruct (IH b2 Hs2) as (b3 & ? & ?). exists b3. split; [by eapply rtc_l|done]. }
    apply (Hrun l0), serving_start.
  - intros b1 Hr. assert (∃ l, serving b pub ev l0 b1 l) as [[|sub l] Hs].
    { revert b1 Hr. apply (rtc_ind_r (λ b1, ∃ l, serving b pub ev l0 b1 l)); [exists l0; apply serving_start|].
      intros x y _ Hxy [l Hs]. pose proof Hs as (_ & _ & Ep & _). assert (publishing x !! pub = Some (ev, l)) as Hp by (rewrite Ep; apply lookup_insert_eq).
      destruct l as [|sub rest]; [destruct Hxy as (_ & _ & ev' & s & r & Hq & _); congruence|].
      destruct (serves_send _ _ _ _ _ _ Hp Hxy) as (c & Hc & _ & ->). exists rest.
      by apply (serving_next _ _ _ _ _ _ _ _ Hnd Hs Hc). }
    + right. destruct Hs as (Es & _ & Ep & served & E & Hch). rewrite app_nil_r in E. subst served.
      assert (publishing b1 !! pub = Some (ev, [])) as Hp by (rewrite Ep; apply lookup_insert_eq).
      split; [by eapply bus_return|]. split; [simpl; rewrite Ep, delete_insert_eq; by apply delete_id|]. split; [done|].
      intros sub. rewrite Hch. destruct (channels b !! sub) as [c|] eqn:Hc; [|done]. simpl. f_equal. unfold fed.
      apply decide_ext. by apply Hcopy.
    + left. destruct (serving_goes_on _ _ _ _ _ _ _ Hnd Hs (Hsub _ (Hleft _ _ _ Hs))) as (b2 & H2 & _). by exists b2.
Qed.

(** ** Panics *)

(** Steps in which no subscription is cancelled while a publication has it
    left to serve. *)
Definition quiet_step (b b' : EventBus) : Prop :=
  (∃ sub, b' = Unsubscribe b sub ∧ ∀ pub ev l, publishing b !! pub = Some (ev, l) → sub ∉ l) ∨
  (bus_ok_step b b' ∧ ∀ sub c, channels b !! sub = Some c → closed c = false →
     ∃ c', channels b' !! sub = Some c' ∧ closed c' = false).

(** What a running publication has left to serve is open. *)
Definition copies_open (b : EventBus) : Prop :=
  ∀ pub ev l sub, publishing b !! pub = Some (ev, l) → sub ∈ l →
    ∃ c, channels b !! sub = Some c ∧ closed c = false.

Lemma Unsubscribe_channels b sub s :
  s ≠ sub → channels (Unsubscribe b sub) !! s = channels b !! s ∧ publishing (Unsubscribe b sub) = publishing b.
Proof.
  intros Hne. unfold Unsubscribe. repeat (case_match; try done). simpl. by rewrite lookup_insert_ne.
Qed.

(** The publications of the next state: those of this one, with a suffix left,
    or a new copy. *)
Lemma bus_ok_step_publishing b b' pub ev l :
  bus_ok_step b b' → publishing b' !! pub = Some (ev, l) →
  (∃ l0, publishing b !! pub = Some (ev, l0) ∧ ∀ s, s ∈ l → s ∈ l0) ∨ l = publish_copy b ev.
Proof.
  intros Hstep Hp. inversion Hstep; subst; clear Hstep; simpl in Hp.
  - left. eauto.
  - rewrite Unsubscribe_publishing in Hp. left. eauto.
  - apply lookup_insert_Some in Hp as [[<- [= <- <-]]|[_ Hp]]; [by right|left; eauto].
  - match goal with H : chan_send _ _ _ = _ |- _ => apply chan_send_Ok in H as (c & _ & _ & _ & ->) end.
    apply lookup_insert_Some in Hp as [[<- [= <- <-]]|[_ Hp]]; left; [|by eauto].
    eexists. split; [done|]. intros s ?. by constructor.
  - apply lookup_insert_Some in Hp as [[<- [= <- <-]]|[_ Hp]]; left; [|by eauto].
    eexists. split; [done|]. intros s ?. by constructor.
  - apply lookup_delete_Some in Hp as [_ Hp]. left. eauto.
  - apply lookup_delete_Some in Hp as [_ Hp]. left. eauto.
  - left. eauto.
Qed.

Lemma quiet_step_copies n b b' :
  bus_inv n b → copies_open b → quiet_step b b' → copies_open b'.
Proof.
  intros Hinv Hopen [(sub & -> & Hno)|[Hstep Hkeep]] pub ev l s Hp Hs.
  - rewrite Unsubscribe_publishing in Hp. destruct (Hopen _ _ _ _ Hp Hs) as (c & Hc & Hcl).
    exists c. split; [|done]. rewrite (proj1 (Unsubscribe_channels b sub s ltac:(intros ->; by eapply Hno))).
    done.
  - destruct (bus_ok_step_publishing _ _ _ _ _ Hstep Hp) as [(l0 & Hp0 & Hsub)| ->].
    + destruct (Hopen _ _ _ _ Hp0 (Hsub _ Hs)) as (c & Hc & Hcl). by eapply Hkeep.
    + unfold publish_copy in Hs. destruct (subs b !! ev_Type ev) as [k|] eqn:E; simpl in Hs; [|by apply elem_of_nil in Hs].
      destruct (bi_listed _ _ Hinv _ _ E) as [_ Hin]. destruct (Hin _ Hs) as (c & Hc & _ & Hcl). by eapply Hkeep.
Qed.

(** C34. No crash.  As long as no subscription is cancelled while a running
    publication still has it in its copied list, no interleaving makes a send
    on a closed channel. *)
Theorem quiet_bus_never_panics n b : rtc quiet_step (NewEventBus n) b → ¬ bus_step b Panic.
Proof.
  intros Hr. assert (bus_inv n b ∧ copies_open b) as [Hinv Hopen].
  { revert b Hr. apply (rtc_ind_r (λ b, bus_inv n b ∧ copies_open b) (NewEventBus n)).
    - split; [apply bus_inv_start|]. intros pub ev l s. simpl. by rewrite lookup_empty.
    - intros b b' _ Hstep [Hinv Hopen]. split; [|by eapply quiet_step_copies].
      destruct Hstep as [(sub & -> & _)|[Hstep _]]; [by apply Unsubscribe_inv|by eapply bus_ok_step_inv]. }
  intros Hstep. inversion Hstep; subst.
  match goal with H : publishing b !! _ = Some (_, ?s :: _) |- _ =>
    destruct (Hopen _ _ _ s H) as (c & Hc & Hcl); [constructor|] end.
  unfold chan_send in *. rewrite Hc, Hcl in *. by case_match.
Qed.

(** The race.  [Publish] copies the list under the lock and sends after it is
    released: when [Unsubscribe] closes the channel in between, the send panics
    and the process dies. *)
Theorem publish_unsubscribe_race n t ev :
  ev_Type ev = t → ∃ b, bus_reachable n b ∧ bus_step b Panic.
Proof.
  intros Ht. set (b1 := Subscribe (NewEventBus n) 0 t).
  set (b2 := set_publishing b1 0 ev (publish_copy b1 ev)). set (b3 := Unsubscribe b2 0).
  assert (publish_copy b1 ev = [0%nat]) as Hcopy.
  { unfold publish_copy, b1. simpl. by rewrite Ht, lookup_insert_eq. }
  assert (b3 = MkEventBus (<[t := []]> (subs b2)) (<[0%nat := MkChannel t [] true]> (channels b2))
    (publishing b2) n) as Eb3.
  { unfold b3, Unsubscribe. simpl. rewrite lookup_insert_eq. simpl. by rewrite lookup_insert_eq. }
  exists b3. split.
  - eapply rtc_l; [apply (bus_subscribe _ 0%nat t); reflexivity|].
    eapply rtc_l; [apply (bus_publish _ 0%nat ev); reflexivity|].
    eapply rtc_l; [apply (bus_unsubscribe _ 0%nat)|]. apply rtc_refl.
  - rewrite Eb3. apply (bus_send_closed _ 0%nat ev 0%nat []).
    + simpl. by rewrite Hcopy.
    + unfold chan_send. simpl. by rewrite lookup_insert_eq.
Qed.

(** ** Witnesses *)

Definition example_event : Event := MkEvent EventNeighborUpdate (DataString "10.0.0.2").
Definition example_bus : EventBus := Subscribe (NewEventBus 2) 0 EventNeighborUpdate.

Lemma example_bus_reachable : bus_reachable 2 example_bus.
Proof. eapply rtc_l; [apply (bus_subscribe _ 0%nat EventNeighborUpdate); reflexivity|apply rtc_refl]. Defined.

Lemma bus_invariant_witness : bus_reachable 2 example_bus ∧ bus_inv 2 example_bus.
Proof. split; [exact example_bus_reachable|]. apply bus_invariant. exact example_bus_reachable. Defined.

(** Two subscribers of the type and one of another; the second has an event. *)
Definition busy_bus : EventBus :=
  set_channel (Subscribe (Subscribe (Subscribe (NewEventBus 2) 0 EventNeighborUpdate) 1 EventRouteInstall) 2 EventNeighborUpdate)
    2 (MkChannel EventNeighborUpdate [example_event] false).

Lemma busy_bus_reachable : bus_reachable 2 busy_bus.
Proof.
  set (b := Subscribe (Subscribe (Subscribe (NewEventBus 2) 0 EventNeighborUpdate) 1 EventRouteInstall) 2 EventNeighborUpdate).
  set (ev := example_event).
  eapply rtc_l; [apply (bus_subscribe _ 0%nat EventNeighborUpdate); reflexivity|].
  eapply rtc_l; [apply (bus_subscribe _ 1%nat EventRouteInstall); reflexivity|].
  eapply rtc_l; [apply (bus_subscribe _ 2%nat EventNeighborUpdate); reflexivity|].
  eapply rtc_l; [apply (bus_publish _ 0%nat ev); reflexivity|].
  eapply rtc_l; [apply (bus_timeout _ 0%nat ev 0%nat [2%nat]); reflexivity|].
  eapply rtc_l; [apply (bus_send _ 0%nat ev 2%nat [] (set_channel (set_publishing b 0 ev [2%nat]) 2 (MkChannel EventNeighborUpdate [ev] false))); reflexivity|].
  eapply rtc_l; [apply (bus_return _ 0%nat ev); reflexivity|]. apply rtc_refl.
Qed.

Lemma publish_delivers_witness :
  ∃ b0 b1, bus_ok_step busy_bus b0 ∧ rtc (serves 0) b0 b1 ∧ publishing b1 !! 0%nat = Some (example_event, []) ∧
    ((∃ b2, serves 0 b1 b2) ∨ (buffer <$> channels b1 !! 2%nat = Some [example_event; example_event])).
Proof.
  destruct (publish_delivers 2 busy_bus 0 example_event busy_bus_reachable) as (b0 & H0 & (b1 & H1 & Hp) & Hd).
  - vm_compute. reflexivity.
  - intros sub c Hc _ _. apply (elem_of_map_to_list (channels busy_bus) sub c) in Hc.
    assert (Forall (λ p : nat * Channel, (length (buffer p.2) < 2)%nat) (map_to_list (channels busy_bus))) as Hf
      by (apply (bool_decide_unpack _); vm_compute; exact I).
    rewrite Forall_forall in Hf. exact (Hf _ Hc).
  - exists b0, b1. split; [exact H0|]. split; [exact H1|]. split; [exact Hp|].
    destruct (Hd b1 H1) as [H|(_ & _ & _ & Hch)]; [left; exact H|right]. rewrite Hch. vm_compute. reflexivity.
Defined.

Lemma quiet_bus_never_panics_witness :
  rtc quiet_step (NewEventBus 2) example_bus ∧ ¬ bus_step example_bus Panic.
Proof.
  assert (rtc quiet_step (NewEventBus 2) example_bus) as Hr.
  { eapply rtc_l; [|apply rtc_refl]. right. split.
    - apply (bus_subscribe _ 0%nat EventNeighborUpdate). reflexivity.
    - intros sub c Hc. simpl in Hc. by rewrite lookup_empty in Hc. }
  split; [exact Hr|]. apply (quiet_bus_never_panics 2). exact Hr.
Defined.

Lemma publish_unsubscribe_race_witness :
  ev_Type example_event = EventNeighborUpdate ∧ ∃ b, bus_reachable 2 b ∧ bus_step b Panic.
Proof.
  split; [reflexivity|]. apply (publish_unsubscribe_race 2 EventNeighborUpdate example_event). reflexivity.
Defined.
