(* ===== verification/Config.v ===== *)
(** * Configuration (internal/config/config.go)

    The configuration record, its validation, and the manager that loads and
    reloads it with rollback.  Reading the file and the YAML decoder (a third
    party library that fills in the fields the file sets) are parameters. *)

From S2P Require Import Prelude GoNet TimeVal.

Record Config := MkConfig {
  cfg_RouterID : string;
  cfg_Interfaces : list string;
  HelloInterval : Z;
  TCInterval : Z;
  Metrics_Type : string;
  APIPort : Z;
  JWTSecret : string;
  ZAPIAddress : string;
  cfg_Standalone : bool;
  MulticastLoopPrevention : string;
}.

(** The zero value, and the value the decoder starts from. *)
Definition zero_config : Config := MkConfig "" [] 0 0 "" 0 "" "" false "".
Definition default_config : Config :=
  MkConfig "" [] 0 0 "" 8080 "olsr-default-jwt-secret-key-must-be-changed"
    "/var/run/frr/zserv.api" false "none".

(** The loop over the interface names, with the map [seen]. *)
Fixpoint validate_interfaces (seen : gmap string bool) (ifaces : list string) : res unit :=
  match ifaces with
  | [] => Ok tt
  | iface :: ifaces =>
      _ ← check (negb (bool_decide (iface = ""))) "interface name cannot be empty";
      _ ← check (negb (map_bool seen iface)) "duplicate interface detected";
      validate_interfaces (<[iface := true]> seen) ifaces
  end.

Definition validate (cfg : Config) : res unit :=
  _ ← check (negb (bool_decide (cfg_RouterID cfg = ""))) "router_id is required";
  _ ← check (match ParseIP (cfg_RouterID cfg) with
             | Some ip => bool_decide (is_Some (To4 ip))
             | None => false
             end) "router_id must be a valid IPv4 address";
  _ ← check (negb (length (cfg_Interfaces cfg) =? 0)%nat) "at least one interface must be specified";
  _ ← validate_interfaces ∅ (cfg_Interfaces cfg);
  _ ← check (0 <? HelloInterval cfg) "hello_interval must be positive";
  _ ← check (0 <? TCInterval cfg) "tc_interval must be positive";
  _ ← check (bool_decide (Metrics_Type cfg ∈ ["etx"; "hopcount"; ""])) "invalid metrics type";
  check (bool_decide (MulticastLoopPrevention cfg ∈ ["none"; "nftables"; "nfqueue"; ""]))
    "invalid multicast_loop_prevention type".

(** ** The manager *)

Record Manager := MkManager {
  config : option Config;    (* [None] is nil *)
  configPath : string;
}.

Definition NewManager (configPath : string) : Manager := MkManager None configPath.

Section manager.
Context {Data : Type}.
(** [os.ReadFile] of the cleaned path, and [yaml.Unmarshal] into a config. *)
Context (ReadFile : string → res Data) (Unmarshal : Data → Config → res Config).

Definition loadAndValidate (path : string) : res Config :=
  match ReadFile path with
  | Ok data =>
      match Unmarshal data default_config with
      | Ok cfg => match validate cfg with
                  | Ok _ => Ok cfg
                  | _ => Err "config validation failed"
                  end
      | _ => Err "failed to parse yaml config"
      end
  | _ => Err "failed to read config file"
  end.

Definition Load (m : Manager) : Manager * res unit :=
  match loadAndValidate (configPath m) with
  | Ok cfg => (MkManager (Some cfg) (configPath m), Ok tt)
  | _ => (m, Err "load")
  end.

Definition Reload (m : Manager) : Manager * res unit :=
  match loadAndValidate (configPath m) with
  | Ok cfg => (MkManager (Some cfg) (configPath m), Ok tt)
  | _ => (m, Err "reload validation failed, rolling back")
  end.

Definition ValidateFile (path : string) : res unit := _ ← loadAndValidate path; Ok tt.
End manager.

Definition Get (m : Manager) : Config := default zero_config (config m).

(** ** Correctness *)

(** A configuration the daemon can run with. *)
Record valid_config (cfg : Config) : Prop := {
  vc_router : ∃ ip p, ParseIP (cfg_RouterID cfg) = Some ip ∧ To4 ip = Some p;
  vc_some : cfg_Interfaces cfg ≠ [];
  vc_named : "" ∉ cfg_Interfaces cfg;
  vc_distinct : NoDup (cfg_Interfaces cfg);
  vc_hello : 0 < HelloInterval cfg;
  vc_tc : 0 < TCInterval cfg;
  vc_metrics : Metrics_Type cfg ∈ ["etx"; "hopcount"; ""];
  vc_loop : MulticastLoopPrevention cfg ∈ ["none"; "nftables"; "nfqueue"; ""];
}.

Lemma validate_interfaces_spec seen ifaces :
  validate_interfaces seen ifaces = Ok tt ↔
  "" ∉ ifaces ∧ NoDup ifaces ∧ ∀ i, i ∈ ifaces → map_bool seen i = false.
Proof.
  revert seen. induction ifaces as [|i l IH]; intros seen; simpl.
  { split; [|done]. intros _. split; [by intros ?%elem_of_nil|]. split; [constructor|by intros ? ?%elem_of_nil]. }
  rewrite not_elem_of_cons, NoDup_cons. destruct (decide (i = "")) as [->|Hne]; simpl.
  { split; [done|]. by intros [[? _] _]. }
  rewrite bool_decide_false by done. simpl. destruct (map_bool seen i) eqn:Es; simpl.
  { split; [done|]. intros (_ & _ & Hl). rewrite Hl in Es; [done|constructor]. }
  rewrite IH. unfold map_bool in *. split.
  - intros (Hno & Hnd & Hl). split; [done|]. assert (i ∉ l) as Hi.
    { intros Hi%Hl. by rewrite lookup_insert_eq in Hi. }
    split; [done|]. intros j [->|Hj]%elem_of_cons; [done|]. specialize (Hl _ Hj).
    rewrite lookup_insert_ne in Hl; [done|]. by intros ->.
  - intros ((_ & Hno) & (Hi & Hnd) & Hl). split; [done|]. split; [done|].
    intros j Hj. rewrite lookup_insert_ne by (by intros ->). apply Hl. by constructor.
Qed.

Lemma validate_valid cfg : validate cfg = Ok tt ↔ valid_config cfg.
Proof.
  unfold validate. split.
  - intros H. res_steps H. to_prop.
    match goal with Hif : validate_interfaces _ _ = Ok ?u |- _ =>
      destruct u; apply validate_interfaces_spec in Hif as (Hn & Hd & _) end.
    rewrite bool_decide_eq_true in *.
    destruct (ParseIP (cfg_RouterID cfg)) as [ip|] eqn:Eip; [|done].
    match goal with Hip : bool_decide (is_Some (To4 ip)) = true |- _ => apply bool_decide_eq_true in Hip as [q Hq] end.
    split; try done; [by exists ip, q|]. intros E. by rewrite E in *.
  - intros [(ip & q & Hip & Hq) Hsome Hn Hd Hh Ht Hm Hl].
    rewrite (bool_decide_false (cfg_RouterID cfg = "")); [|intros E; rewrite E in Hip; by vm_compute in Hip].
    rewrite Hip, (bool_decide_true (is_Some _)) by eauto.
    destruct (cfg_Interfaces cfg) as [|i l] eqn:Ei; [done|]. cbn [length Nat.eqb negb check].
    rewrite (proj2 (validate_interfaces_spec ∅ (i :: l))) by done.
    rewrite !(proj2 (Z.ltb_lt _ _)) by done. by rewrite !bool_decide_true.
Qed.

(** Validation: [validate] accepts exactly the valid configurations. *)
Theorem validate_spec cfg : validate cfg = Ok tt ↔ valid_config cfg.
Proof. apply validate_valid. Qed.

Section history.
Context {Data : Type}.

(** The life of a manager: loads and reloads, whatever the file holds then. *)
Inductive manager_step (m : Manager) : Manager → Prop :=
  | mgr_load (ReadFile : string → res Data) Unmarshal : manager_step m (Load ReadFile Unmarshal m).1
  | mgr_reload (ReadFile : string → res Data) Unmarshal : manager_step m (Reload ReadFile Unmarshal m).1.

Lemma loadAndValidate_valid (ReadFile : string → res Data) Unmarshal path cfg :
  loadAndValidate ReadFile Unmarshal path = Ok cfg → valid_config cfg.
Proof.
  unfold loadAndValidate. destruct (ReadFile path); try done. destruct (Unmarshal _ _) as [c| | |]; try done.
  destruct (validate c) as [[]| | |] eqn:E; try done. intros [= <-]. by apply validate_valid.
Qed.

(** C37. Rollback.  Whatever the file holds at each load and reload, and whatever
    the decoder does, [Get] returns the zero configuration as long as no load
    has succeeded and a valid one ever after; a load or reload that fails
    leaves the configuration as it was, one that succeeds installs what
    [loadAndValidate] returned. *)
Theorem manager_keeps_valid path m :
  rtc manager_step (NewManager path) m →
  configPath m = path ∧ (Get m = zero_config ∨ valid_config (Get m)) ∧
  ∀ (ReadFile : string → res Data) Unmarshal,
    match loadAndValidate ReadFile Unmarshal path with
    | Ok cfg => Get (Reload ReadFile Unmarshal m).1 = cfg ∧ (Reload ReadFile Unmarshal m).2 = Ok tt
    | _ => (Reload ReadFile Unmarshal m).1 = m ∧ (Reload ReadFile Unmarshal m).2 ≠ Ok tt
    end.
Proof.
  intros Hr. assert (configPath m = path ∧ (config m = None ∨ ∃ c, config m = Some c ∧ valid_config c)) as [Hp Hc].
  { revert m Hr. apply (rtc_ind_r (λ m, configPath m = path ∧ (config m = None ∨ ∃ c, config m = Some c ∧ valid_config c))).
    - split; [done|by left].
    - intros m m' _ [R U|R U] [Hp Hm]; unfold Load, Reload;
        destruct (loadAndValidate R U (configPath m)) as [c| | |] eqn:E; simpl; try done;
        (split; [done|right]); exists c; (split; [done|]); by eapply loadAndValidate_valid. }
  split; [done|]. split.
  - unfold Get. destruct Hc as [->|(c & -> & ?)]; [by left|by right].
  - intros R U. unfold Reload. rewrite Hp. destruct (loadAndValidate R U path); try done; by rewrite <-Hp.
Qed.
End history.

(** The router identifier is compared as text with addresses printed by
    [net.IP.String], but [validate] also accepts texts that do not print back
    to themselves, such as an IPv4-mapped address. *)
Theorem router_id_not_canonical :
  ∃ cfg ip, validate cfg = Ok tt ∧ ParseIP (cfg_RouterID cfg) = Some ip ∧
    IP_String ip ≠ cfg_RouterID cfg.
Proof.
  exists (MkConfig "::ffff:10.0.0.1" ["eth0"] Second Second "" 8080 "" "" false "none"), (IPv4 10 0 0 1).
  split; [vm_compute; reflexivity|]. split; [vm_compute; reflexivity|]. vm_compute. discriminate.
Qed.

Definition example_config : Config :=
  MkConfig "10.0.0.1" ["eth0"; "eth1"] (2 * Second) (5 * Second) "hopcount" 8080 "secret" "" false "none".

Lemma manager_keeps_valid_witness :
  let R (_ : string) : res unit := Ok tt in
  let U (_ : unit) (_ : Config) : res Config := Ok example_config in
  let m := (Load R U (NewManager "olsrd.yaml")).1 in
  Get m = example_config ∧ (Get m = zero_config ∨ valid_config (Get m)).
Proof.
  simpl. split; [vm_compute; reflexivity|].
  apply (manager_keeps_valid (Data := unit) "olsrd.yaml").
  eapply rtc_l; [|apply rtc_refl].
  apply (mgr_load _ (λ _, Ok tt) (λ _ _, Ok example_config)).
Defined.
