(* ===== verification/Daemon.v ===== *)
(** * The routing daemon (cmd/olsrd/daemon.go)

    The handlers of the daemon over the state of its managers: reception and
    dispatch of packets, the forwarding decision, the periodic HELLO, TC and
    HNA messages, aging, the route calculation, and the dispatch of route
    events to the installers.  The socket, the interface monitor, the installers
    and the metrics are outside: a handler returns what it sends and
    publishes, and [Monitor] is what the monitor reports.  [clock] gives the
    time read at each place of an execution path. *)

From S2P Require Import Prelude GoNet TimeVal Packet Events Neighbor Topology Hna Heap Dijkstra Spf Molsr Config.

(** [netlink.Monitor]: the interfaces with their addresses, and the indices. *)
Record Monitor := MkMonitor {
  GetInterfaces : list (string * list string);
  Monitor_GetIfaceIndex : string → Z;
}.

Record Daemon := MkDaemon {
  d_cfg : Config;                       (* cfgMgr.Get() *)
  neighMgr : NeighborManager;
  topoMgr : TopologyManager;
  hnaMgr : HNAManager;
  molsrMgr : MOLSRManager;
  spf_RouterID : string;                (* of the SPF engine: its lookup's router, *)
  activeRoutes : gmap string Route;     (* and its routes *)
  packetSeq : Z;
  messageSeq : Z;
}.

Definition set_cfg d x :=
  MkDaemon x (neighMgr d) (topoMgr d) (hnaMgr d) (molsrMgr d) (spf_RouterID d) (activeRoutes d) (packetSeq d) (messageSeq d).
Definition set_neighMgr d x :=
  MkDaemon (d_cfg d) x (topoMgr d) (hnaMgr d) (molsrMgr d) (spf_RouterID d) (activeRoutes d) (packetSeq d) (messageSeq d).
Definition set_topoMgr d x :=
  MkDaemon (d_cfg d) (neighMgr d) x (hnaMgr d) (molsrMgr d) (spf_RouterID d) (activeRoutes d) (packetSeq d) (messageSeq d).
Definition set_hnaMgr d x :=
  MkDaemon (d_cfg d) (neighMgr d) (topoMgr d) x (molsrMgr d) (spf_RouterID d) (activeRoutes d) (packetSeq d) (messageSeq d).
Definition set_molsrMgr d x :=
  MkDaemon (d_cfg d) (neighMgr d) (topoMgr d) (hnaMgr d) x (spf_RouterID d) (activeRoutes d) (packetSeq d) (messageSeq d).
Definition set_activeRoutes d x :=
  MkDaemon (d_cfg d) (neighMgr d) (topoMgr d) (hnaMgr d) (molsrMgr d) (spf_RouterID d) x (packetSeq d) (messageSeq d).

(** What a handler does to the outside, in order. *)
Inductive Output :=
  | Sent (data : list Z)
  | Published (e : Event).

(** ** Interfaces *)

(** The addresses of the interfaces, in the order of the two loops. *)
Definition interface_addrs (mon : Monitor) : list (string * string) :=
  i ← GetInterfaces mon; (λ ip, (i.1, ip)) <$> i.2.

(** [nhIP.To4()[0]] panics when the next hop is not an IPv4 address. *)
Fixpoint same_subnet_iface (nh : IP) (l : list (string * string)) : res (option string) :=
  match l with
  | [] => Ok None
  | (name, ipStr) :: l =>
      match ParseIP ipStr with
      | Some ip =>
          match To4 ip with
          | Some a => match To4 nh with
                      | None => Panic
                      | Some b => if bool_decide (take 3 a = take 3 b) then Ok (Some name)
                                  else same_subnet_iface nh l
                      end
          | None => same_subnet_iface nh l
          end
      | None => same_subnet_iface nh l
      end
  end.

Definition findOutgoingInterface (mon : Monitor) (cfg : Config) (nextHop : string) : res string :=
  match ParseIP nextHop with
  | None => Ok ""
  | Some nhIP =>
      r ← same_subnet_iface nhIP (interface_addrs mon);
      Ok (match r with Some name => name | None => default "" (head (cfg_Interfaces cfg)) end)
  end.

(** The lookups that [initializeComponents] installs.  The SPF engine's returns
    an index only; a panic of [findOutgoingInterface] is not carried through, and
    [AddressSafety] shows that there is none.
    Its router ID is the one configured at the start, its interfaces are those
    configured now. *)
Definition iface_index (mon : Monitor) (cfg : Config) (nextHop : string) : Z :=
  match findOutgoingInterface mon cfg nextHop with Ok name => Monitor_GetIfaceIndex mon name | _ => 0 end.

Definition daemon_lookup (mon : Monitor) (routerID : string) (cfg : Config) : nmLookup :=
  local_lookup (MkLocalRouterLookup routerID (Some (iface_index mon cfg))).

Definition molsr_lookup (mon : Monitor) (cfg : Config) (nextHop : string) : res Z :=
  let idx := iface_index mon cfg nextHop in
  if idx =? 0 then Err "interface index not found" else Ok idx.

(** [initializeComponents], for the protocol state. *)
Definition initializeComponents (cfg : Config) (mon : Monitor) : Daemon :=
  let molsr := NewMOLSRManager (cfg_RouterID cfg) in
  MkDaemon cfg (NewNeighborManager (cfg_RouterID cfg)) NewTopologyManager NewHNAManager
    (MkMOLSRManager (molsr_routerID molsr) (sourceClaims molsr) (confirmParents molsr) (localGroup molsr)
       (activeMfc molsr) (Some (molsr_lookup mon cfg)))
    (cfg_RouterID cfg) ∅ 0 0.

Section handlers.
Context {MO : MapOrder} {FC : FloatConv}.

(** [broadcastPacket]: the bytes written on each interface, nothing when the
    packet cannot be serialized. *)
Definition broadcastPacket (pkt : Packet) : list Output :=
  match SerializePacket pkt with Ok data => [Sent data] | _ => [] end.

(** ** Periodic messages *)

(** The sequence numbers of a packet and its message; both counters advance. *)
Definition next_seq (d : Daemon) : Z * Z * Daemon :=
  (packetSeq d, messageSeq d,
   MkDaemon (d_cfg d) (neighMgr d) (topoMgr d) (hnaMgr d) (molsrMgr d) (spf_RouterID d) (activeRoutes d)
     (u16 (packetSeq d + 1)) (u16 (messageSeq d + 1))).

Definition router_ip (d : Daemon) : IP := default [] (ParseIP (cfg_RouterID (d_cfg d))).

Definition mk_packet (pktSeq : Z) (typ vtime : Z) (orig : IP) (ttl msgSeq : Z) (body : Body) : Packet :=
  MkPacket (MkPacketHeader 0 pktSeq) [MkMessage (MkMessageHeader typ vtime orig ttl 0 msgSeq) body].

(** The neighbor addresses of the links in a state. *)
Definition addrs_in (s : LinkState) (links : list LinkTuple) : list IP :=
  omap (λ l, ip ← ParseIP (link_NeighborIP l); if bool_decide (State l = s) then Some ip else None) links.

Definition link_code (linkType neighType : Z) : Z :=
  Z.lor (Z.land linkType 3) (Z.shiftl (Z.land neighType 3) 2).

Definition link_message (code : Z) (addrs : list IP) : list HelloLinkMessage :=
  if (0 <? length addrs)%nat then [MkHelloLinkMessage code addrs] else [].

Definition hello_links (links : list LinkTuple) : list HelloLinkMessage :=
  link_message (link_code LinkTypeSym NeighTypeSym) (addrs_in LinkStateSymmetric links) ++
  link_message (link_code LinkTypeAsym NeighTypeNotNeigh) (addrs_in LinkStateAsymmetric links) ++
  link_message (link_code LinkTypeLost NeighTypeNotNeigh) (addrs_in LinkStateLost links).

Definition hello_packet (p : list positive) (d : Daemon) : Packet :=
  mk_packet (packetSeq d) MsgTypeHello (6 * Second) (router_ip d) 1 (messageSeq d)
    (BodyHello (MkHelloMessage (HelloInterval (d_cfg d)) WillDefault (hello_links (GetLinks p (neighMgr d))))).

Definition sendHello (p : list positive) (d : Daemon) : Daemon * list Output :=
  let '(_, _, d') := next_seq d in (d', broadcastPacket (hello_packet p d)).

Definition sendTC (p : list positive) (now : Z) (d : Daemon) : Daemon * list Output :=
  let selectors := GetMPRSelectors p now (neighMgr d) in
  if (length selectors =? 0)%nat then (d, [])
  else
    let '(pktSeq, msgSeq, d') := next_seq d in
    (d', broadcastPacket (mk_packet pktSeq MsgTypeTC (15 * Second) (router_ip d) 255 msgSeq
           (BodyTC (MkTCMessage msgSeq ((λ sel, default [] (ParseIP sel)) <$> selectors))))).

Definition sendHNA (p : list positive) (d : Daemon) : Daemon * list Output :=
  let localHNAs := GetLocalHNAs p (hnaMgr d) in
  if (length localHNAs =? 0)%nat then (d, [])
  else
    let '(pktSeq, msgSeq, d') := next_seq d in
    (d', broadcastPacket (mk_packet pktSeq MsgTypeHNA (15 * Second) (router_ip d) 255 msgSeq
           (BodyHNA (MkHNAMessage ((λ hna, MkHNAAssociation (net_IP hna) hna) <$> localHNAs))))).

(** ** Reception *)

Context (clock : list positive → Z).

Definition shouldForwardMessage (p : list positive) (nm : NeighborManager) (raddr : IP) (msg : Message) : bool :=
  let h := msg_Header msg in
  if (TTL h <=? 1) || (msg_Type h =? MsgTypeHello) || (msg_Type h =? MsgTypeConfirmParent) then false
  else if msg_Type h =? MsgTypeSourceClaim then true
  else existsb (λ mpr, bool_decide (mpr = IP_String raddr)) (GetMPRSelectors p (clock p) nm).

(** The [switch] on the message type; a body of another Go type is ignored. *)
Definition dispatch (p : list positive) (raddr : IP) (d : Daemon) (msg : Message) : Daemon * list Event :=
  let h := msg_Header msg in
  let orig := OriginatorAddress h in
  if msg_Type h =? MsgTypeHello then
    match msg_Body msg with
    | BodyHello b =>
        let '(nm, evs) := ProcessHello p (clock (1%positive :: p)) (clock (2%positive :: p)) (neighMgr d)
                            raddr orig b (Vtime h) in (set_neighMgr d nm, evs)
    | _ => (d, [])
    end
  else if msg_Type h =? MsgTypeTC then
    match msg_Body msg with
    | BodyTC b => let '(tm, evs) := ProcessTC (clock (1%positive :: p)) (topoMgr d) orig b (Vtime h) in
                  (set_topoMgr d tm, evs)
    | _ => (d, [])
    end
  else if msg_Type h =? MsgTypeMID then
    match msg_Body msg with
    | BodyMID b => let '(tm, evs) := ProcessMID (topoMgr d) orig b (Vtime h) in (set_topoMgr d tm, evs)
    | _ => (d, [])
    end
  else if msg_Type h =? MsgTypeHNA then
    match msg_Body msg with
    | BodyHNA b => let '(hm, evs) := ProcessHNA (clock (1%positive :: p)) (hnaMgr d) orig b (Vtime h) in
                   (set_hnaMgr d hm, evs)
    | _ => (d, [])
    end
  else if msg_Type h =? MsgTypeSourceClaim then
    match msg_Body msg with
    | BodySourceClaim b =>
        let '(m, evs) := ProcessSourceClaim (clock (1%positive :: p)) (molsrMgr d) orig b (Vtime h) in
        (set_molsrMgr d m, evs)
    | _ => (d, [])
    end
  else if msg_Type h =? MsgTypeConfirmParent then
    match msg_Body msg with
    | BodyConfirmParent b =>
        let '(m, evs) := ProcessConfirmParent (clock (1%positive :: p)) (molsrMgr d) orig b (Vtime h) in
        (set_molsrMgr d m, evs)
    | _ => (d, [])
    end
  else (d, []).

(** [forwardedMsg.Header.TTL--], [HopCount++] on a copy, 8 bits each. *)
Definition forwarded (msg : Message) : Message :=
  let h := msg_Header msg in
  MkMessage (MkMessageHeader (msg_Type h) (Vtime h) (OriginatorAddress h) (u8 (TTL h - 1)) (u8 (HopCount h + 1))
               (SeqNum h)) (msg_Body msg).

(** The loop body over [pkt.Messages]. *)
Definition process_message (p : list positive) (raddr : IP) (header : PacketHeader) (d : Daemon) (msg : Message)
    : Daemon * list Output :=
  let h := msg_Header msg in
  if bool_decide (IP_String (OriginatorAddress h) = cfg_RouterID (d_cfg d)) then (d, [])
  else
    let '(tm, dup) := IsDuplicate (clock (1%positive :: p)) (topoMgr d) (OriginatorAddress h) (SeqNum h) (Vtime h) in
    let d := set_topoMgr d tm in
    if dup then (d, [])
    else
      let '(d, evs) := dispatch (2%positive :: p) raddr d msg in
      (d, (Published <$> evs) ++
          (if shouldForwardMessage (3%positive :: p) (neighMgr d) raddr msg
           then broadcastPacket (MkPacket header [forwarded msg]) else [])).

(** The path of a message is extended by the number of messages after it. *)
Fixpoint process_messages (p : list positive) (raddr : IP) (header : PacketHeader) (d : Daemon) (msgs : list Message)
    : Daemon * list Output :=
  match msgs with
  | [] => (d, [])
  | msg :: msgs =>
      let '(d, out) := process_message (Pos.of_succ_nat (length msgs) :: p) raddr header d msg in
      let '(d, out') := process_messages p raddr header d msgs in
      (d, out ++ out')
  end.

(** A parse error only counts; a panic of the parser ends the process. *)
Definition processReceivedData (p : list positive) (d : Daemon) (data : list Z) (raddr : IP)
    : res (Daemon * list Output) :=
  match DeserializePacket data with
  | Ok pkt => Ok (process_messages p raddr (pkt_Header pkt) d (Messages pkt))
  | Err _ => Ok (d, [])
  | Panic => Panic
  | Diverge => Diverge
  end.

(** ** Aging and route calculation *)

Definition performAging (p : list positive) (d : Daemon) : Daemon * list Output :=
  let '(nm, e1, _) := Neighbor.AgeOut (1%positive :: p) (clock (1%positive :: p)) (clock (2%positive :: p)) (neighMgr d) in
  let '(tm, e2, _) := Topology.AgeOut (2%positive :: p) (clock (3%positive :: p)) (topoMgr d) in
  let '(hm, e3, _) := Hna.AgeOut (3%positive :: p) (clock (4%positive :: p)) (hnaMgr d) in
  let '(mm, e4, _) := Molsr.AgeOut (4%positive :: p) (clock (5%positive :: p)) (molsrMgr d) in
  (set_molsrMgr (set_hnaMgr (set_topoMgr (set_neighMgr d nm) tm) hm) mm,
   Published <$> e1 ++ e2 ++ e3 ++ e4).

(** [runSpf] of [topologyUpdateLoop]. *)
Definition runSpf (p : list positive) (mon : Monitor) (elapsed : Z) (d : Daemon) : Daemon * list Output :=
  let '(d, evs) :=
    match CalculateRoutes (1%positive :: p) (daemon_lookup mon (spf_RouterID d) (d_cfg d)) (clock p) elapsed (activeRoutes d)
            (neighMgr d) (topoMgr d) (hnaMgr d) with
    | Ok (routes, evs) => (set_activeRoutes d routes, evs)
    | _ => (d, [])
    end in
  let '(m, evs') := RecalculateMroutes (λ q dest, GetNextHopForDest q (activeRoutes d) dest) (2%positive :: p) (molsrMgr d) in
  (set_molsrMgr d m, Published <$> evs ++ evs').

(** ** Route installation *)

(** The calls of the installers: the unicast router or zebra, the multicast
    router, and the loop-prevention manager. *)
Inductive RouterCall :=
  | AddRoute (prefix nextHop : string) (ifIndex metric : Z)
  | DeleteRoute (prefix nextHop : string) (ifIndex : Z)
  | AddMulticastRoute (srcIP grpIP : string) (iif : Z) (oifs : list Z)
  | DeleteMulticastRoute (srcIP grpIP : string) (iif : Z) (oifs : list Z)
  | OnMulticastRouteAdd (srcIP grpIP nextHopIP : string)
  | OnMulticastRouteDelete (srcIP grpIP : string).

(** The loop body of [routeInstallationLoop]. *)
Definition routeInstallation (p : list positive) (routes : gmap string Route) (e : Event) : list RouterCall :=
  match ev_Data e with
  | DataRoute action r =>
      if bool_decide (action = "add") then [AddRoute (Prefix r) (NextHop r) (IfaceIndex r) (Metric r)]
      else if bool_decide (action = "delete") then [DeleteRoute (Prefix r) (NextHop r) (IfaceIndex r)]
      else []
  | DataMulticast action m =>
      if bool_decide (action = "add_multicast") then
        AddMulticastRoute (mfe_SourceIP m) (mfe_GroupID m) (IIF m) (OIFs m) ::
        match GetNextHopForDest p routes (mfe_SourceIP m) with
        | Ok (nextHopIP, _) => [OnMulticastRouteAdd (mfe_SourceIP m) (mfe_GroupID m) nextHopIP]
        | _ => []
        end
      else if bool_decide (action = "delete_multicast") then
        [DeleteMulticastRoute (mfe_SourceIP m) (mfe_GroupID m) (IIF m) (OIFs m);
         OnMulticastRouteDelete (mfe_SourceIP m) (mfe_GroupID m)]
      else []
  | _ => []
  end.
End handlers.
