(* ===== verification/DaemonFacts.v ===== *)
(** * Reception and forwarding in the daemon (cmd/olsrd/daemon.go)

    What one received message makes the daemon do: which messages it relays and
    what the next hop reads, that a message is handled once in its validity
    time, and the interface chosen for a next hop. *)

From S2P Require Import Prelude GoNet TimeVal Packet PacketCodec PacketRelay Events Neighbor NeighborTables NeighborInvariant Topology Hna Heap Dijkstra Spf Molsr Config Daemon.

(** The frames among the outputs. *)
Definition sends (out : list Output) : list (list Z) :=
  omap (λ o, match o with Sent data => Some data | Published _ => None end) out.

Lemma sends_app o1 o2 : sends (o1 ++ o2) = sends o1 ++ sends o2.
Proof. apply omap_app. Qed.

Lemma sends_published (evs : list Event) : sends (Published <$> evs) = [].
Proof. induction evs as [|e evs IH]; [done|]. simpl. exact IH. Qed.

Section reception.
Context {MO : MapOrder} {FC : FloatConv}.

(** ** The tables a message can touch *)

Definition is_own (d : Daemon) (msg : Message) : Prop :=
  IP_String (OriginatorAddress (msg_Header msg)) = cfg_RouterID (d_cfg d).

(** The message was accepted before and its validity has not ended. *)
Definition known_at (now : Z) (d : Daemon) (msg : Message) : Prop :=
  ∃ e, dup_at (topoMgr d) (IP_String (OriginatorAddress (msg_Header msg))) (SeqNum (msg_Header msg)) = Some e ∧
    now < e.

(** The message is handled: not this router's own, and not a duplicate. *)
Definition accepted (now : Z) (d : Daemon) (msg : Message) : Prop := ¬ is_own d msg ∧ ¬ known_at now d msg.

Lemma IsDuplicate_known now d msg :
  let h := msg_Header msg in
  (IsDuplicate now (topoMgr d) (OriginatorAddress h) (SeqNum h) (Vtime h)).2 = true ↔ known_at now d msg.
Proof.
  cbv zeta. rewrite IsDuplicate_result. unfold known_at. destruct (dup_at _ _ _) as [e|]; simpl.
  - unfold Before. rewrite Z.ltb_lt. naive_solver.
  - split; [done|]. by intros (e & ? & _).
Qed.

(** A duplicate leaves the table as it is. *)
Lemma IsDuplicate_stays now tm o s v :
  (IsDuplicate now tm o s v).2 = true → (IsDuplicate now tm o s v).1 = tm.
Proof.
  intros H. pose proof (IsDuplicate_result now tm o s v) as Hr. rewrite H in Hr.
  unfold IsDuplicate, dup_at, map_map in *. destruct tm as [topo dups mid rev]. simpl in *.
  destruct (dups !! IP_String o) as [seqs|] eqn:E; simpl in *; [|done].
  destruct (seqs !! s) as [e|]; simpl in *; [|done]. rewrite <-Hr. f_equal. by rewrite insert_id.
Qed.

(** [process_message] in its three cases. *)
Lemma process_message_cases clock p raddr hdr d msg :
  let now := clock (1%positive :: p) in let h := msg_Header msg in
  let tm := (IsDuplicate now (topoMgr d) (OriginatorAddress h) (SeqNum h) (Vtime h)).1 in
  let de := dispatch clock (2%positive :: p) raddr (set_topoMgr d tm) msg in
  (¬ accepted now d msg ∧ process_message clock p raddr hdr d msg = (d, [])) ∨
  (accepted now d msg ∧ process_message clock p raddr hdr d msg =
     (de.1, (Published <$> de.2) ++
        (if shouldForwardMessage clock (3%positive :: p) (neighMgr de.1) raddr msg
         then broadcastPacket (MkPacket hdr [forwarded msg]) else []))).
Proof.
  unfold process_message, accepted. cbv zeta. case_bool_decide as Hown; [left; by split; [unfold is_own; tauto|]|].
  pose proof (IsDuplicate_known (clock (1%positive :: p)) d msg) as Hk. cbv zeta in Hk.
  pose proof (IsDuplicate_stays (clock (1%positive :: p)) (topoMgr d) (OriginatorAddress (msg_Header msg))
    (SeqNum (msg_Header msg)) (Vtime (msg_Header msg))) as Hst.
  destruct (IsDuplicate _ _ _ _ _) as [tm dup]. cbn [fst snd] in *. destruct dup.
  - left. split; [tauto|]. rewrite Hst by done. by destruct d.
  - right. split; [split; [exact Hown|]; by rewrite <-Hk|]. by destruct (dispatch _ _ _ _ _).
Qed.

(** ** Forwarding *)

Lemma dispatch_neighMgr clock p raddr d msg :
  msg_Type (msg_Header msg) ≠ MsgTypeHello → neighMgr (dispatch clock p raddr d msg).1 = neighMgr d.
Proof.
  intros Hne. unfold dispatch. cbv zeta. rewrite (proj2 (Z.eqb_neq _ _) Hne).
  repeat case_match; simplify_eq/=; done.
Qed.

Lemma GetMPRSelectors_elem p now nm s :
  s ∈ GetMPRSelectors p now nm ↔ ∃ e, mprSelectors nm !! s = Some e ∧ now < e.
Proof.
  unfold GetMPRSelectors. rewrite list_elem_of_omap. split.
  - intros ([k e] & Hk%elem_of_range & He). unfold Before in He. simpl in *.
    destruct (Z.ltb_spec now e); simplify_eq. eauto.
  - intros (e & He & Hlt). exists (s, e). rewrite elem_of_range. split; [done|]. simpl. unfold Before.
    by rewrite (proj2 (Z.ltb_lt _ _) Hlt).
Qed.

(** The forwarding rule: hop budget left, a type that is relayed, and either
    flooding (SOURCE CLAIM) or a sender that selected this router as relay. *)
Definition must_forward (now : Z) (nm : NeighborManager) (raddr : IP) (msg : Message) : Prop :=
  let t := msg_Type (msg_Header msg) in
  1 < TTL (msg_Header msg) ∧ t ≠ MsgTypeHello ∧ t ≠ MsgTypeConfirmParent ∧
  (t = MsgTypeSourceClaim ∨ ∃ e, mprSelectors nm !! IP_String raddr = Some e ∧ now < e).

Lemma shouldForwardMessage_spec clock p nm raddr msg :
  shouldForwardMessage clock p nm raddr msg = true ↔ must_forward (clock p) nm raddr msg.
Proof.
  unfold shouldForwardMessage, must_forward. cbv zeta.
  destruct (Z.leb_spec (TTL (msg_Header msg)) 1); simpl; [split; [done|lia]|].
  destruct (Z.eqb_spec (msg_Type (msg_Header msg)) MsgTypeHello); simpl; [naive_solver|].
  destruct (Z.eqb_spec (msg_Type (msg_Header msg)) MsgTypeConfirmParent); simpl; [naive_solver|].
  destruct (Z.eqb_spec (msg_Type (msg_Header msg)) MsgTypeSourceClaim); [split; [intros _; tauto|done]|].
  rewrite <-GetMPRSelectors_elem with (p := p), existsb_exists. setoid_rewrite bool_decide_eq_true.
  setoid_rewrite <-list_elem_of_In. naive_solver lia.
Qed.

(** An unknown message has no serializer: [broadcastPacket] only logs. *)
Lemma broadcast_raw hdr msg : (∃ r, msg_Body msg = BodyRaw r) → broadcastPacket (MkPacket hdr [forwarded msg]) = [].
Proof.
  intros [r Hr]. unfold broadcastPacket, SerializePacket, serializeMessage. simpl. rewrite Hr.
  unfold To4_or. by destruct (To4 _).
Qed.

(** What the next hop reads of a relayed message. *)
Definition next_hop_message (msg : Message) : Message :=
  let h := msg_Header msg in
  MkMessage (MkMessageHeader (msg_Type h) (canon_time (Vtime h)) (OriginatorAddress h) (TTL h - 1) (u8 (HopCount h + 1))
               (SeqNum h)) (msg_Body msg).

Lemma broadcast_forwarded hdr msg :
  is_u16 (PacketSeqNum hdr) → parsed_message 65531 msg → known_type (msg_Type (msg_Header msg)) →
  msg_Type (msg_Header msg) ≠ MsgTypeHello → 1 < TTL (msg_Header msg) →
  ∃ frame, broadcastPacket (MkPacket hdr [forwarded msg]) = [Sent frame] ∧
    DeserializePacket frame =
      Ok (MkPacket (MkPacketHeader (Z.of_nat (length frame)) (PacketSeqNum hdr)) [next_hop_message msg]).
Proof.
  intros Hseq Hm Hk Hh Ht.
  destruct (relay_roundtrip hdr msg (forwarded msg) Hseq Hm Hk Hh) as (frame & Hs & Hd); try done.
  exists frame. unfold broadcastPacket. rewrite Hs. split; [done|]. rewrite Hd. simpl.
  destruct (pm_ttl _ _ Hm). unfold next_hop_message. by rewrite u8_id by (unfold is_u8; lia).
Qed.

(** C7. Forwarding.  A message of a received packet is sent on exactly when it is
    accepted (not the router's own, not a duplicate), is of a type the parser
    knows, has more than one hop left, is neither a HELLO nor a CONFIRM PARENT,
    and is a SOURCE CLAIM or comes from a current MPR selector.  It is then sent
    once, and what the next hop parses is the same message with one hop less to
    go and one more behind, its validity time rounded to a time code. *)
Theorem forwarding_spec clock p raddr d data pkt msg :
  Forall is_u8 data → DeserializePacket data = Ok pkt → msg ∈ Messages pkt →
  let out := (process_message clock p raddr (pkt_Header pkt) d msg).2 in
  let relayed := accepted (clock (1%positive :: p)) d msg ∧ known_type (msg_Type (msg_Header msg)) ∧
                 must_forward (clock (3%positive :: p)) (neighMgr d) raddr msg in
  (relayed → ∃ frame, sends out = [frame] ∧
    DeserializePacket frame =
      Ok (MkPacket (MkPacketHeader (Z.of_nat (length frame)) (PacketSeqNum (pkt_Header pkt)))
            [next_hop_message msg])) ∧
  (¬ relayed → sends out = []).
Proof.
  intros Hu8 Hd Hin. destruct (deserialize_parsed data pkt Hu8 Hd) as [Hseq Hms].
  rewrite Forall_forall in Hms. specialize (Hms _ Hin). cbv zeta.
  destruct (process_message_cases clock p raddr (pkt_Header pkt) d msg) as [[Hna ->]|[Ha ->]]; [by split; [tauto|]|].
  cbn [snd]. rewrite sends_app, sends_published. cbn [app].
  set (de := dispatch _ _ _ _ _).
  assert (shouldForwardMessage clock (3%positive :: p) (neighMgr de.1) raddr msg = true ↔
    must_forward (clock (3%positive :: p)) (neighMgr d) raddr msg) as Hf.
  { rewrite shouldForwardMessage_spec. unfold must_forward, de.
    destruct (decide (msg_Type (msg_Header msg) = MsgTypeHello)); [tauto|]. by rewrite dispatch_neighMgr. }
  destruct (shouldForwardMessage _ _ _ _ _); [apply proj1 in Hf; specialize (Hf eq_refl)|].
  2:{ split; [|done]. intros (_ & _ & Hm). by apply Hf in Hm. }
  split.
  - intros (_ & Hk & Ht & Hh & _). destruct (broadcast_forwarded (pkt_Header pkt) msg) as (frame & -> & Hfr); eauto.
  - intros Hno. rewrite broadcast_raw; [done|].
    destruct Hms as [_ _ _ _ (bytes & _ & _ & Hb)]. apply deserializeBody_cases in Hb.
    unfold known_type in Hno. naive_solver.
Qed.

(** ** A message is handled once *)

(** One step of a daemon in which every time read is at most [T]: a reception,
    a periodic task, a route calculation, a call of the API on the HNA or MOLSR
    manager, or a configuration reload. *)
Inductive daemon_step (T : Z) (d : Daemon) : Daemon → Prop :=
  | ds_receive clock p data raddr d' out : (∀ q, clock q ≤ T) →
      processReceivedData clock p d data raddr = Ok (d', out) → daemon_step T d d'
  | ds_age clock p : (∀ q, clock q ≤ T) → daemon_step T d (performAging clock p d).1
  | ds_hello p : daemon_step T d (sendHello p d).1
  | ds_tc p now : now ≤ T → daemon_step T d (sendTC p now d).1
  | ds_hna p : daemon_step T d (sendHNA p d).1
  | ds_spf clock p mon elapsed : (∀ q, clock q ≤ T) → daemon_step T d (runSpf clock p mon elapsed d).1
  | ds_hna_api hm : daemon_step T d (set_hnaMgr d hm)
  | ds_molsr_api mm : daemon_step T d (set_molsrMgr d mm)
  | ds_reload cfg : daemon_step T d
      (set_cfg d cfg).

(** The table remembers the message past [T]. *)
Definition remembers (T : Z) (orig : string) (seq : Z) (tm : TopologyManager) : Prop :=
  ∃ e, dup_at tm orig seq = Some e ∧ T < e.

Lemma remembers_op T orig seq tm op : op_time op ≤ T → remembers T orig seq tm → remembers T orig seq (run_op tm op).
Proof.
  intros Ht (e & He & Hlt). exists e. split; [|done].
  destruct op as [now o s v|now o tc v|now o mid v|p now]; cbn [run_op op_time] in *.
  - rewrite dup_at_IsDuplicate. case_decide; [|done]. rewrite He. simpl. unfold Before.
    by rewrite (proj2 (Z.ltb_lt now e)) by lia.
  - unfold ProcessTC. by destruct (foldl _ _ _).
  - done.
  - rewrite dup_at_AgeOut, He. simpl. by rewrite decide_True by lia.
Qed.

Lemma dispatch_dup clock p raddr d msg orig seq :
  dup_at (topoMgr (dispatch clock p raddr d msg).1) orig seq = dup_at (topoMgr d) orig seq.
Proof.
  unfold dispatch, ProcessTC, ProcessMID. cbv zeta. repeat (case_match; simplify_eq/=); done.
Qed.

Lemma process_message_remembers T clock p raddr hdr d msg orig seq : (∀ q, clock q ≤ T) →
  remembers T orig seq (topoMgr d) → remembers T orig seq (topoMgr (process_message clock p raddr hdr d msg).1).
Proof.
  intros Hc Hr. destruct (process_message_cases clock p raddr hdr d msg) as [[_ ->]|[_ ->]]; [done|].
  cbn [fst]. unfold remembers. rewrite dispatch_dup.
  apply (remembers_op T orig seq (topoMgr d)
    (OpIsDuplicate (clock (1%positive :: p)) (OriginatorAddress (msg_Header msg)) (SeqNum (msg_Header msg))
      (Vtime (msg_Header msg)))); [apply Hc|done].
Qed.

Lemma process_messages_ind (P : Daemon → Prop) clock p raddr hdr d msgs :
  (∀ p d msg, P d → P (process_message clock p raddr hdr d msg).1) →
  P d → P (process_messages clock p raddr hdr d msgs).1.
Proof.
  intros Hstep. revert d. induction msgs as [|msg msgs IH]; intros d Hd; [done|]. cbn [process_messages].
  specialize (Hstep (Pos.of_succ_nat (length msgs) :: p) d msg Hd).
  destruct (process_message _ _ _ _ _ _) as [d1 o1]. specialize (IH d1 Hstep).
  by destruct (process_messages _ _ _ _ _ _).
Qed.

Lemma daemon_step_remembers T d d' orig seq :
  daemon_step T d d' → remembers T orig seq (topoMgr d) → remembers T orig seq (topoMgr d').
Proof.
  intros Hs Hr. destruct Hs as [clock p data raddr d' out Hc H|clock p Hc|p|p now _|p|clock p mon elapsed _|hm|mm|cfg];
    try done.
  - unfold processReceivedData in H. destruct (DeserializePacket data) as [pkt| | |]; simplify_eq; [|done].
    pose proof (process_messages_ind (λ d, remembers T orig seq (topoMgr d)) clock p raddr (pkt_Header pkt) d
      (Messages pkt)) as Hind. rewrite H in Hind. apply Hind; [|done].
    intros. by apply process_message_remembers.
  - pose proof (remembers_op T orig seq (topoMgr d) (OpAgeOut (2%positive :: p) (clock (3%positive :: p)))) as Ho.
    cbn [op_time run_op] in Ho. unfold performAging.
    destruct (Neighbor.AgeOut _ _ _ _) as [[nm e1] c1]. destruct (Topology.AgeOut _ _ _) as [[tm e2] c2].
    destruct (Hna.AgeOut _ _ _) as [[hm e3] c3]. destruct (Molsr.AgeOut _ _ _) as [[mm e4] c4]. cbn in *. auto.
  - unfold sendTC. by destruct (length _ =? 0)%nat.
  - unfold sendHNA. by destruct (length _ =? 0)%nat.
  - unfold runSpf. destruct (CalculateRoutes _ _ _ _ _ _ _ _) as [[routes evs]| | |];
      destruct (RecalculateMroutes _ _ _) as [m evs']; done.
Qed.

(** C8. A message is handled once.  Once a daemon has accepted a message, then
    until the message's validity time ends no copy of it (same originator and
    sequence number, from any sender, in any packet, with any other fields)
    changes its state or makes it send or publish anything, whatever it did in
    between. *)
Theorem message_handled_once T clock p raddr hdr d msg d2 clock' p' raddr' hdr' msg' :
  accepted (clock (1%positive :: p)) d msg → (∀ q, clock q ≤ T) →
  T < clock (1%positive :: p) + Vtime (msg_Header msg) →
  rtc (daemon_step T) (process_message clock p raddr hdr d msg).1 d2 →
  IP_String (OriginatorAddress (msg_Header msg')) = IP_String (OriginatorAddress (msg_Header msg)) →
  SeqNum (msg_Header msg') = SeqNum (msg_Header msg) → clock' (1%positive :: p') ≤ T →
  process_message clock' p' raddr' hdr' d2 msg' = (d2, []).
Proof.
  intros Hacc Hc HT Hrtc Ho Hs Hc'.
  set (orig := IP_String (OriginatorAddress (msg_Header msg))) in *. set (seq := SeqNum (msg_Header msg)) in *.
  assert (remembers T orig seq (topoMgr (process_message clock p raddr hdr d msg).1)) as Hr.
  { destruct (process_message_cases clock p raddr hdr d msg) as [[? _]|[_ ->]]; [done|]. cbn [fst].
    unfold remembers. rewrite dispatch_dup. cbn [topoMgr set_topoMgr]. rewrite dup_at_IsDuplicate, decide_True by done.
    destruct Hacc as [_ Hk]. unfold known_at in Hk. fold orig seq in Hk. fold seq.
    destruct (dup_at (topoMgr d) orig seq) as [e|] eqn:E; simpl; [|by eauto].
    unfold Before. destruct (Z.ltb_spec (clock (1%positive :: p)) e); [|by eauto]. destruct Hk. eauto. }
  assert (remembers T orig seq (topoMgr d2)) as (e & He & Hlt).
  { clear -Hrtc Hr. induction Hrtc as [|d1 d1' d2 Hstep _ IH]; [done|]. apply IH.
    by eapply daemon_step_remembers. }
  destruct (process_message_cases clock' p' raddr' hdr' d2 msg') as [[_ ->]|[[_ Hk] _]]; [done|].
  destruct Hk. exists e. rewrite Ho, Hs. split; [done|lia].
Qed.
(** ** The interface of a next hop *)

(** The interface address [ipStr] is IPv4 and on the /24 network of [b]. *)
Definition on_subnet (b : IP) (ipStr : string) : Prop :=
  ∃ ip a, ParseIP ipStr = Some ip ∧ To4 ip = Some a ∧ take 3 a = take 3 b.

Lemma same_subnet_iface_spec nh b l : To4 nh = Some b →
  ∃ r, same_subnet_iface nh l = Ok r ∧
  match r with
  | Some name => ∃ l1 ipStr l2, l = l1 ++ (name, ipStr) :: l2 ∧ on_subnet b ipStr ∧ ∀ x, x ∈ l1 → ¬ on_subnet b x.2
  | None => ∀ x, x ∈ l → ¬ on_subnet b x.2
  end.
Proof.
  intros Hb. induction l as [|[name ipStr] l (r & IH & Hr)]; [exists None; split; [done|]; by intros x ?%elem_of_nil|].
  assert (¬ on_subnet b ipStr → ∃ r, Ok r = same_subnet_iface nh l ∧ match r with
    | Some name0 => ∃ l1 ipStr0 l2, (name, ipStr) :: l = l1 ++ (name0, ipStr0) :: l2 ∧ on_subnet b ipStr0 ∧
        ∀ x, x ∈ l1 → ¬ on_subnet b x.2
    | None => ∀ x, x ∈ (name, ipStr) :: l → ¬ on_subnet b x.2
    end) as Hskip.
  { intros Hno. exists r. split; [done|]. destruct r as [n|].
    - destruct Hr as (l1 & i & l2 & -> & Hi & Hl1). exists ((name, ipStr) :: l1), i, l2. split; [done|]. split; [done|].
      intros x [->|?]%elem_of_cons; auto.
    - intros x [->|?]%elem_of_cons; auto. }
  cbn [same_subnet_iface]. destruct (ParseIP ipStr) as [ip|] eqn:Ep.
  2:{ destruct Hskip as (r' & E & H'); [by intros (? & ? & E & _); congruence|]. by exists r'. }
  destruct (To4 ip) as [a|] eqn:Ea.
  2:{ destruct Hskip as (r' & E & H'); [by intros (? & ? & ? & ? & _); congruence|]. by exists r'. }
  rewrite Hb. case_bool_decide as Et.
  - exists (Some name). split; [done|]. exists [], ipStr, l. split; [done|]. split; [by exists ip, a|].
    by intros x ?%elem_of_nil.
  - destruct Hskip as (r' & E & H'); [intros (? & ? & ? & ? & ?); congruence|]. by exists r'.
Qed.

Definition has_IPv4 (x : string * string) : bool :=
  match ParseIP x.2 with Some ip => bool_decide (is_Some (To4 ip)) | None => false end.

(** The outgoing interface.  For an IPv4 next hop, [findOutgoingInterface]
    does not panic; it returns the first interface, in the monitor's order, with
    an IPv4 address on the next hop's /24 network, and the first configured one
    when there is none.  For a string that is no address it returns the empty
    name; for an IPv6 next hop it panics as soon as some interface has an IPv4
    address. *)
Theorem findOutgoingInterface_spec mon cfg nextHop :
  match ParseIP nextHop with
  | None => findOutgoingInterface mon cfg nextHop = Ok ""
  | Some nh =>
      match To4 nh with
      | Some b => ∃ name, findOutgoingInterface mon cfg nextHop = Ok name ∧
          ((∃ l1 ipStr l2, interface_addrs mon = l1 ++ (name, ipStr) :: l2 ∧ on_subnet b ipStr ∧
              ∀ x, x ∈ l1 → ¬ on_subnet b x.2) ∨
           ((∀ x, x ∈ interface_addrs mon → ¬ on_subnet b x.2) ∧ name = default "" (head (cfg_Interfaces cfg))))
      | None => findOutgoingInterface mon cfg nextHop =
          if existsb has_IPv4 (interface_addrs mon) then Panic else Ok (default "" (head (cfg_Interfaces cfg)))
      end
  end.
Proof.
  unfold findOutgoingInterface. destruct (ParseIP nextHop) as [nh|]; [|done].
  destruct (To4 nh) as [b|] eqn:Hb.
  - destruct (same_subnet_iface_spec nh b (interface_addrs mon) Hb) as (r & -> & Hr). rewrite res_bind_Ok.
    eexists. split; [done|]. destruct r as [name|]; [by left|by right].
  - assert (same_subnet_iface nh (interface_addrs mon) =
      if existsb has_IPv4 (interface_addrs mon) then Panic else Ok None) as ->; [|by destruct (existsb _ _)].
    induction (interface_addrs mon) as [|[name ipStr] l IH]; [done|].
    cbn [same_subnet_iface existsb]. rewrite IH.
    assert (has_IPv4 (name, ipStr) = match ParseIP ipStr with Some ip => bool_decide (is_Some (To4 ip)) | None => false end)
      as -> by done.
    destruct (ParseIP ipStr) as [ip|]; [|done]. destruct (To4 ip) as [a|]; [by rewrite Hb|done].
Qed.
End reception.

(** * Concrete inputs *)

(** A daemon at 2.2.2.2 receives a SOURCE CLAIM of 1.1.1.1 from 10.0.0.7. *)
Definition config_at (id : string) : Config :=
  MkConfig id ["eth0"] (2 * Second) (5 * Second) "etx" 8080 "" "" true "none".
Definition no_monitor : Monitor := MkMonitor [] (λ _, 0).
Definition daemon_2 : Daemon := initializeComponents (config_at "2.2.2.2") no_monitor.

Definition received_claim : Message :=
  MkMessage (MkMessageHeader MsgTypeSourceClaim (@DecodeTimeVal amd64_conv 2) [1; 1; 1; 1] 255 0 300)
    (BodySourceClaim (MkSourceClaimMessage [10; 0; 0; 1] [239; 1; 1; 1])).

Lemma claim_accepted now : accepted now daemon_2 received_claim.
Proof. split; [by vm_compute|]. intros (e & He & _). by vm_compute in He. Defined.

Lemma forwarding_spec_witness :
  ∃ frame, sends (@process_message canonical_order (λ _, Second) [] [10; 0; 0; 7] (MkPacketHeader 24 42)
                    daemon_2 received_claim).2 = [frame] ∧
    @DeserializePacket amd64_conv frame =
      Ok (MkPacket (MkPacketHeader (Z.of_nat (length frame)) 42) [@next_hop_message amd64_conv received_claim]).
Proof.
  apply (@forwarding_spec canonical_order amd64_conv (λ _, Second) [] [10; 0; 0; 7] daemon_2 claim_bytes
    (MkPacket (MkPacketHeader 24 42) [received_claim]) received_claim).
  - apply (bool_decide_unpack _). vm_compute. exact I.
  - reflexivity.
  - constructor.
  - split; [apply claim_accepted|]. split; [vm_compute; tauto|]. split; [reflexivity|].
    split; [discriminate|]. split; [discriminate|]. left. reflexivity.
Defined.

(** The same claim, relayed by another neighbor two seconds later, after an
    aging, is ignored. *)
Lemma message_handled_once_witness :
  let clock := λ _ : list positive, Second in
  let d1 := (@process_message canonical_order clock [] [10; 0; 0; 7] (MkPacketHeader 24 42) daemon_2 received_claim).1 in
  let d2 := (@performAging canonical_order (λ _, 2 * Second) [] d1).1 in
  @process_message canonical_order (λ _, 3 * Second) [] [10; 0; 0; 9] (MkPacketHeader 24 7) d2
    (forwarded received_claim) = (d2, []).
Proof.
  cbv zeta.
  apply (@message_handled_once canonical_order amd64_conv (3 * Second) (λ _, Second) [] [10; 0; 0; 7]
    (MkPacketHeader 24 42) daemon_2 received_claim).
  - apply claim_accepted.
  - intros q. discriminate.
  - vm_compute. reflexivity.
  - apply rtc_once. apply ds_age. intros q. discriminate.
  - reflexivity.
  - reflexivity.
  - discriminate.
Defined.
