(* ===== verification/LinkSensing.v ===== *)
(** * Link sensing between two daemons (cmd/olsrd/daemon.go, internal/olsr/neighbor.go)

    [sendHello] of one daemon and the reception of its bytes by another: what
    the HELLO says of the sender's links, what it makes of the receiver's link,
    and the exchange of HELLOs that makes a link symmetric on both sides. *)

From S2P Require Import Prelude GoNet TimeVal Packet PacketCodec PacketRelay Events Neighbor NeighborTables NeighborInvariant Topology Hna Heap Dijkstra Spf Molsr Config Daemon DaemonFacts.

#[local] Opaque EncodeTimeVal DecodeTimeVal.

Section sensing.
Context {MO : MapOrder} {FC : FloatConv}.

Definition seq_ok (d : Daemon) : Prop := is_u16 (packetSeq d) ∧ is_u16 (messageSeq d).

(** The HELLO of a daemon, as its neighbors parse it. *)
Definition hello_message (p : list positive) (d : Daemon) : Message :=
  MkMessage (MkMessageHeader MsgTypeHello (6 * Second) (router_ip d) 1 0 (messageSeq d))
    (BodyHello (MkHelloMessage (HelloInterval (d_cfg d)) WillDefault (hello_links (GetLinks p (neighMgr d))))).

Lemma sendHello_sends p d frame :
  sends (sendHello p d).2 = [frame] ↔ SerializePacket (hello_packet p d) = Ok frame.
Proof.
  unfold sendHello, next_seq, broadcastPacket. cbn [snd].
  destruct (SerializePacket (hello_packet p d)) as [data| | |]; simpl; split; congruence.
Qed.

(** A sent HELLO parses, as the one message of its packet. *)
Lemma hello_frame_parses p d frame : seq_ok d → SerializePacket (hello_packet p d) = Ok frame →
  DeserializePacket frame =
    Ok (MkPacket (MkPacketHeader (Z.of_nat (length frame)) (packetSeq d)) [canon_message (hello_message p d)]).
Proof.
  intros [Hp Hm] Hs. rewrite (deserialize_serialize _ _ Hs); [done|].
  split; [done|]. by repeat apply Forall_cons_2.
Qed.

(** ** What a HELLO says *)

(** The daemon holds a link to the address [t], symmetric or asymmetric. *)
Definition hears (d : Daemon) (t : string) : Prop :=
  ∃ k l ip, links (neighMgr d) !! k = Some l ∧ ParseIP (link_NeighborIP l) = Some ip ∧ IP_String ip = t ∧
    (State l = LinkStateSymmetric ∨ State l = LinkStateAsymmetric).

Lemma elem_of_addrs_in s ls ip :
  ip ∈ addrs_in s ls ↔ ∃ l, l ∈ ls ∧ ParseIP (link_NeighborIP l) = Some ip ∧ State l = s.
Proof.
  unfold addrs_in. rewrite list_elem_of_omap. split.
  - intros (l & Hl & E). exists l. destruct (ParseIP (link_NeighborIP l)) as [ip'|]; simpl in E; [|done].
    case_bool_decide; naive_solver.
  - intros (l & Hl & Hip & Hs). exists l. split; [done|]. rewrite Hip. simpl. by rewrite bool_decide_true.
Qed.

Lemma elem_of_link_message code addrs lm :
  lm ∈ link_message code addrs ↔ addrs ≠ [] ∧ lm = MkHelloLinkMessage code addrs.
Proof.
  unfold link_message. destruct addrs as [|a addrs]; simpl.
  - rewrite elem_of_nil. naive_solver.
  - rewrite list_elem_of_singleton. naive_solver.
Qed.

Lemma elem_of_hello_links ls lm :
  lm ∈ hello_links ls ↔
  (lm = MkHelloLinkMessage 6 (addrs_in LinkStateSymmetric ls) ∧ addrs_in LinkStateSymmetric ls ≠ []) ∨
  (lm = MkHelloLinkMessage 1 (addrs_in LinkStateAsymmetric ls) ∧ addrs_in LinkStateAsymmetric ls ≠ []) ∨
  (lm = MkHelloLinkMessage 3 (addrs_in LinkStateLost ls) ∧ addrs_in LinkStateLost ls ≠ []).
Proof.
  unfold hello_links. rewrite !elem_of_app, !elem_of_link_message.
  change (link_code LinkTypeSym NeighTypeSym) with 6. change (link_code LinkTypeAsym NeighTypeNotNeigh) with 1.
  change (link_code LinkTypeLost NeighTypeNotNeigh) with 3. naive_solver.
Qed.

(** A serialized HELLO holds only IPv4 addresses. *)
Lemma hello_addrs_IPv4 p d frame lm a :
  SerializePacket (hello_packet p d) = Ok frame → lm ∈ hello_links (GetLinks p (neighMgr d)) →
  a ∈ link_NeighborAddresses lm → is_Some (To4 a).
Proof.
  intros (bss & Hb & _)%SerializePacket_Ok Hlm Ha. cbn [hello_packet mk_packet Messages] in Hb.
  inversion_clear Hb as [|? bs ? ? Hm _]. unfold serializeMessage in Hm. res_steps Hm.
  cbn [msg_Body serializeBody] in H0. unfold serializeHelloMessage in H0. cbn [LinkMessages] in H0. res_steps H0.
  apply res_mapM_Ok in H2. apply list_elem_of_lookup in Hlm as [i Hi].
  destruct (Forall2_lookup_l _ _ _ _ _ H2 Hi) as (lbs & _ & Hl).
  unfold serializeHelloLink in Hl. res_steps Hl. apply res_mapM_Ok in H3.
  apply list_elem_of_lookup in Ha as [j Hj].
  destruct (Forall2_lookup_l _ _ _ _ _ H3 Hj) as (abs & _ & Hab).
  unfold To4_or in Hab. destruct (To4 a); [by eexists|done].
Qed.

Lemma IP_String_canon a : is_Some (To4 a) → IP_String (canon_ip a) = IP_String a.
Proof. intros [q Hq]. unfold canon_ip. rewrite Hq. simpl. symmetry. by apply IP_String_To4. Qed.

Definition hello_body (p : list positive) (d : Daemon) : HelloMessage :=
  MkHelloMessage (canon_time (HelloInterval (d_cfg d))) WillDefault
    (canon_link <$> hello_links (GetLinks p (neighMgr d))).

(** The receiver finds its address exactly when the sender holds a link to it. *)
Lemma hello_body_hears p d frame t : SerializePacket (hello_packet p d) = Ok frame →
  hello_hears (hello_body p d) t ↔ hears d t.
Proof.
  intros Hs. unfold hello_hears, hears, hello_body. cbn [LinkMessages]. split.
  - intros (lm & a & (lm0 & -> & Hlm)%list_elem_of_fmap & Ha & <- & Hcode).
    cbn [canon_link link_NeighborAddresses] in Ha. apply list_elem_of_fmap in Ha as (a0 & -> & Ha).
    rewrite (IP_String_canon _ (hello_addrs_IPv4 _ _ _ _ _ Hs Hlm Ha)).
    apply elem_of_hello_links in Hlm as [[-> _]|[[-> _]|[-> _]]]; cbn [link_NeighborAddresses] in Ha.
    3:{ vm_compute in Hcode. naive_solver. }
    all: apply elem_of_addrs_in in Ha as (l & Hl & Hip & Hst); unfold GetLinks in Hl;
      apply list_elem_of_fmap in Hl as ([k l'] & -> & Hk%elem_of_range); eauto 10.
  - intros (k & l & ip & Hk & Hip & <- & Hst).
    assert (l ∈ GetLinks p (neighMgr d)) as Hl.
    { unfold GetLinks. apply list_elem_of_fmap. exists (k, l). by rewrite elem_of_range. }
    assert (∀ s c, State l = s → MkHelloLinkMessage c (addrs_in s (GetLinks p (neighMgr d))) ∈
        hello_links (GetLinks p (neighMgr d)) →
      (Z.land c 3 = LinkTypeSym ∨ Z.land c 3 = LinkTypeAsym) →
      ∃ lm addr, lm ∈ canon_link <$> hello_links (GetLinks p (neighMgr d)) ∧
        addr ∈ link_NeighborAddresses lm ∧ IP_String addr = IP_String ip ∧
        (linkType lm = LinkTypeSym ∨ linkType lm = LinkTypeAsym ∨ neighType lm = NeighTypeSym ∨
         neighType lm = NeighTypeMPR)) as Hgen.
    { intros s c Hs' Hin Hc.
      assert (ip ∈ addrs_in s (GetLinks p (neighMgr d))) as Ha by (apply elem_of_addrs_in; eauto).
      eexists _, (canon_ip ip). split; [apply list_elem_of_fmap; eauto|]. cbn [canon_link link_NeighborAddresses].
      split; [apply list_elem_of_fmap; eauto|].
      split; [apply IP_String_canon, (hello_addrs_IPv4 _ _ _ _ _ Hs Hin); done|].
      unfold linkType. simpl. tauto. }
    assert (∀ s, State l = s → addrs_in s (GetLinks p (neighMgr d)) ≠ []) as Hne.
    { intros s Hs' E. assert (ip ∈ addrs_in s (GetLinks p (neighMgr d))) as Ha by (apply elem_of_addrs_in; eauto).
      rewrite E in Ha. by apply elem_of_nil in Ha. }
    destruct Hst as [Hst|Hst]; [apply (Hgen _ 6 Hst)|apply (Hgen _ 1 Hst)];
      try (apply elem_of_hello_links; eauto); by (left + right).
Qed.
(** ** Receiving a HELLO *)

Lemma receive_single clock p d frame raddr hdr msg : DeserializePacket frame = Ok (MkPacket hdr [msg]) →
  processReceivedData clock p d frame raddr = Ok (process_message clock (1%positive :: p) raddr hdr d msg).
Proof.
  intros Hd. unfold processReceivedData. rewrite Hd. cbn [pkt_Header Messages process_messages length].
  change (Pos.of_succ_nat 0) with 1%positive.
  destruct (process_message _ _ _ _ _ _) as [d' out]. by rewrite app_nil_r.
Qed.

Lemma recalculateMPRs_tables p now nm : ∃ s, recalculateMPRs p now nm = set_mprSet nm s.
Proof.
  unfold recalculateMPRs. destruct (computeMPRs p now nm) as [s|]; [by exists s|].
  exists (mprSet nm). by destruct nm.
Qed.

(** The state of a daemon that took a HELLO of [orig] from [sender]. *)
Record took_hello (d d' : Daemon) (sender orig : string) (seq : Z) (heard : bool) (exp : Z) : Prop := {
  th_rest : d_cfg d' = d_cfg d ∧ packetSeq d' = packetSeq d ∧ messageSeq d' = messageSeq d;
  th_id : nm_routerID (neighMgr d') = nm_routerID (neighMgr d);
  th_link : links (neighMgr d') = <[sender := hello_link (neighMgr d) sender heard exp]> (links (neighMgr d));
  th_neighbor : ∃ n, neighbors (neighMgr d') !! orig = Some n ∧ Symmetric n = heard;
  th_dups o s : (o, s) ≠ (orig, seq) → dup_at (topoMgr d') o s = dup_at (topoMgr d) o s;
}.

Lemma router_ip_IPv4 p d frame : SerializePacket (hello_packet p d) = Ok frame → is_Some (To4 (router_ip d)).
Proof.
  intros (bss & Hb & _)%SerializePacket_Ok. cbn [hello_packet mk_packet Messages] in Hb.
  inversion_clear Hb as [|? bs ? ? Hm _]. unfold serializeMessage in Hm. res_steps Hm.
  cbn [msg_Header OriginatorAddress] in H. unfold To4_or in H. destruct (To4 (router_ip d)); [by eexists|done].
Qed.

Lemma accepted_canon p q frame now a b : SerializePacket (hello_packet p a) = Ok frame →
  accepted now b (hello_message q a) → accepted now b (canon_message (hello_message p a)).
Proof.
  intros Hs. pose proof (router_ip_IPv4 _ _ _ Hs) as Ho. unfold accepted, is_own, known_at, canon_message.
  cbn [msg_Header OriginatorAddress SeqNum hello_message]. by rewrite (IP_String_canon _ Ho).
Qed.

Lemma dispatch_hello clock p raddr d v o ttl hc sq b :
  dispatch clock p raddr d (MkMessage (MkMessageHeader MsgTypeHello v o ttl hc sq) (BodyHello b)) =
  let r := ProcessHello p (clock (1%positive :: p)) (clock (2%positive :: p)) (neighMgr d) raddr o b v in
  (set_neighMgr d r.1, r.2).
Proof. unfold dispatch. simpl. by destruct (ProcessHello _ _ _ _ _ _ _ _). Qed.

(** The HELLO on the wire. *)
Lemma canon_hello_message p d : canon_message (hello_message p d) =
  MkMessage (MkMessageHeader MsgTypeHello (canon_time (6 * Second)) (canon_ip (router_ip d)) 1 0 (messageSeq d))
    (BodyHello (hello_body p d)).
Proof. done. Qed.

Lemma hello_received clock p q raddr a b frame :
  seq_ok a → SerializePacket (hello_packet q a) = Ok frame →
  accepted (clock (1%positive :: 1%positive :: p)) b (hello_message q a) →
  ∃ b' out heard, processReceivedData clock p b frame raddr = Ok (b', out) ∧ sends out = [] ∧
    (heard = true ↔ hears a (nm_routerID (neighMgr b))) ∧
    took_hello b b' (IP_String raddr) (IP_String (router_ip a)) (messageSeq a) heard
      (clock (1%positive :: 2%positive :: 1%positive :: p) + canon_time (6 * Second)).
Proof.
  intros Hseq Hs Hacc. pose proof (router_ip_IPv4 _ _ _ Hs) as Ho.
  rewrite (receive_single _ _ _ _ _ _ _ (hello_frame_parses _ _ _ Hseq Hs)).
  set (msg := canon_message (hello_message q a)).
  destruct (process_message_cases clock (1%positive :: p) raddr
    (MkPacketHeader (Z.of_nat (length frame)) (packetSeq a)) b msg) as [[Hna _]|[_ ->]].
  { destruct Hna. by apply (accepted_canon q q frame). }
  assert (∀ P nm, shouldForwardMessage clock P nm raddr msg = false) as Hno.
  { intros P nm. apply not_true_iff_false. rewrite shouldForwardMessage_spec. by intros (_ & E & _). }
  rewrite Hno. rewrite app_nil_r. set (tm := (IsDuplicate _ _ _ _ _).1). subst msg. rewrite canon_hello_message, dispatch_hello. cbv zeta.
  destruct (ProcessHello_effect (2%positive :: 1%positive :: p) (clock (1%positive :: 2%positive :: 1%positive :: p))
    (clock (2%positive :: 2%positive :: 1%positive :: p)) (neighMgr b) raddr (canon_ip (router_ip a)) (hello_body q a)
    (canon_time (6 * Second))) as (nm1 & heard & Hh & Heff & _ & Heq).
  rewrite (hello_body_hears _ _ _ _ Hs) in Hh. rewrite IP_String_canon in Heff by done.
  assert (∀ nm, links nm = links nm1 → neighbors nm = neighbors nm1 → nm_routerID nm = nm_routerID nm1 →
    took_hello b (set_neighMgr (set_topoMgr b tm) nm) (IP_String raddr) (IP_String (router_ip a)) (messageSeq a) heard
      (clock (1%positive :: 2%positive :: 1%positive :: p) + canon_time (6 * Second))) as Htook.
  { intros nm El En Ei. destruct Heff as [Hi Hl Hn _ _]. split; cbn [neighMgr topoMgr set_neighMgr set_topoMgr d_cfg packetSeq messageSeq].
    - done.
    - congruence.
    - congruence.
    - rewrite En, Hn, lookup_insert_eq. eauto.
    - intros o s Hne. subst tm. rewrite dup_at_IsDuplicate. apply decide_False. intros [<- <-].
      destruct Hne. cbn. by rewrite IP_String_canon. }
  cbn [set_topoMgr neighMgr] in *. rewrite Heq. destruct (link_flips _ _ _).
  - destruct (recalculateMPRs_tables (2%positive :: 1%positive :: p) (clock (2%positive :: 2%positive :: 1%positive :: p)) nm1)
      as [s Er]. rewrite Er. eexists _, _, heard. split; [done|]. split; [apply sends_published|]. split; [done|].
    by apply Htook.
  - eexists _, _, heard. split; [done|]. split; [done|]. split; [done|]. by apply Htook.
Qed.

(** C10. Link sensing.  When a daemon receives the bytes of another's HELLO, that
    it has not handled yet, its link to the sending address becomes symmetric
    if the other daemon holds a symmetric or asymmetric link to this router's
    address, and asymmetric otherwise; the originator's neighbor tuple follows,
    the link expires six seconds (as a time code) after the reception, and
    nothing is sent on. *)
Theorem hello_link_sensing clock p q raddr a b frame :
  seq_ok a → sends (sendHello q a).2 = [frame] →
  accepted (clock (1%positive :: 1%positive :: p)) b (hello_message q a) →
  ∃ b' out heard l n, processReceivedData clock p b frame raddr = Ok (b', out) ∧ sends out = [] ∧
    (heard = true ↔ hears a (nm_routerID (neighMgr b))) ∧
    links (neighMgr b') !! IP_String raddr = Some l ∧
    State l = (if heard then LinkStateSymmetric else LinkStateAsymmetric) ∧
    link_ExpirationTime l = clock (1%positive :: 2%positive :: 1%positive :: p) + canon_time (6 * Second) ∧
    neighbors (neighMgr b') !! IP_String (router_ip a) = Some n ∧ Symmetric n = heard.
Proof.
  intros Hseq Hs%sendHello_sends Hacc.
  destruct (hello_received clock p q raddr a b frame Hseq Hs Hacc) as (b' & out & heard & Hp & Ho & Hh & Ht).
  destruct Ht as [_ _ Hl (n & Hn & Hsym) _].
  exists b', out, heard, (hello_link (neighMgr b) (IP_String raddr) heard
    (clock (1%positive :: 2%positive :: 1%positive :: p) + canon_time (6 * Second))), n.
  rewrite Hl, lookup_insert_eq. split_and!; try done; by destruct heard.
Qed.
(** ** HELLOs are sent *)

Definition is_IPv4 (a : IP) : Prop := is_Some (To4 a).

Lemma serializeHelloLink_fits lm : Forall is_IPv4 (link_NeighborAddresses lm) →
  Z.of_nat (length (link_NeighborAddresses lm)) ≤ 16000 →
  ∃ bs, serializeHelloLink lm = Ok bs ∧ length bs = (4 + 4 * length (link_NeighborAddresses lm))%nat.
Proof.
  intros Hf Hl. assert (∃ ps, res_mapM (To4_or "invalid IPv4 address for neighbor") (link_NeighborAddresses lm) = Ok ps)
    as [ps Hps].
  { clear Hl. induction Hf as [|a l [q Hq] _ [ps IH]]; [by exists []|]. exists (q :: ps). apply res_mapM_Ok.
    constructor; [unfold To4_or; by rewrite Hq|by apply res_mapM_Ok]. }
  pose proof (To4_or_mapM _ _ _ Hps) as [_ Hf4]. pose proof (length_concat_const 4 ps Hf4) as Hlen.
  apply res_mapM_Ok in Hps as Hf2. apply Forall2_length in Hf2.
  unfold serializeHelloLink. rewrite Hps, res_bind_Ok.
  set (bytes := [LinkCode lm; 0] ++ be16 0 ++ concat ps).
  assert (length bytes = 4 + 4 * length (link_NeighborAddresses lm))%nat as Hb.
  { unfold bytes. rewrite !length_app. unfold IP in *. simpl. lia. }
  rewrite check_true, res_bind_Ok by (apply Z.leb_le; lia). eexists. split; [done|].
  by rewrite length_PutUint16.
Qed.

Definition addr_count (lms : list HelloLinkMessage) : nat := sum_list_with (λ lm, length (link_NeighborAddresses lm)) lms.

Lemma serializeHelloMessage_fits b : Forall (λ lm, Forall is_IPv4 (link_NeighborAddresses lm)) (LinkMessages b) →
  Z.of_nat (addr_count (LinkMessages b)) ≤ 16000 →
  ∃ bs, serializeHelloMessage b = Ok bs ∧
    length bs = (4 + 4 * length (LinkMessages b) + 4 * addr_count (LinkMessages b))%nat.
Proof.
  intros Hf Hl.
  assert (∃ ls, res_mapM serializeHelloLink (LinkMessages b) = Ok ls ∧
    length (concat ls) = (4 * length (LinkMessages b) + 4 * addr_count (LinkMessages b))%nat) as (ls & Hls & Hlen).
  { induction Hf as [|lm l Hlm _ IH]; [by exists []|]. cbn [addr_count sum_list_with] in *. unfold addr_count in *.
    destruct IH as (ls & Hls & Hlen); [lia|].
    destruct (serializeHelloLink_fits lm Hlm) as (bs & Hbs & Hb); [lia|].
    exists (bs :: ls). split; [apply res_mapM_Ok; constructor; [done|by apply res_mapM_Ok]|].
    cbn [concat length]. rewrite length_app. lia. }
  unfold serializeHelloMessage. rewrite Hls, res_bind_Ok. eexists. split; [done|]. rewrite !length_app. simpl. lia.
Qed.

Lemma link_message_count c l : addr_count (link_message c l) = length l ∧ (length (link_message c l) ≤ 1)%nat.
Proof. destruct l; simpl; lia. Qed.

Lemma hello_links_count ls : (addr_count (hello_links ls) ≤ length ls)%nat ∧ (length (hello_links ls) ≤ 3)%nat.
Proof.
  unfold hello_links, addr_count. rewrite !sum_list_with_app, !length_app.
  change (sum_list_with _ ?l) with (addr_count l).
  destruct (link_message_count (link_code LinkTypeSym NeighTypeSym) (addrs_in LinkStateSymmetric ls)) as [-> ?].
  destruct (link_message_count (link_code LinkTypeAsym NeighTypeNotNeigh) (addrs_in LinkStateAsymmetric ls)) as [-> ?].
  destruct (link_message_count (link_code LinkTypeLost NeighTypeNotNeigh) (addrs_in LinkStateLost ls)) as [-> ?].
  split; [|lia]. clear. induction ls as [|l ls IH]; [done|]. unfold addrs_in in *. cbn [omap list_omap length].
  destruct (ParseIP (link_NeighborIP l)); simpl; [|lia].
  repeat case_bool_decide; try congruence; simpl; lia.
Qed.

(** Every link of the daemon is to an IPv4 address, or to a string that is no address. *)
Definition links_IPv4 (d : Daemon) : Prop :=
  ∀ k l ip, links (neighMgr d) !! k = Some l → ParseIP (link_NeighborIP l) = Some ip → is_IPv4 ip.

Lemma hello_is_sent p d : is_IPv4 (router_ip d) → links_IPv4 d → Z.of_nat (size (links (neighMgr d))) ≤ 16000 →
  ∃ frame, SerializePacket (hello_packet p d) = Ok frame.
Proof.
  intros [o Ho] Hl Hn. set (ls := GetLinks p (neighMgr d)).
  assert (length ls = size (links (neighMgr d))) as Hls by (unfold ls, GetLinks; by rewrite length_fmap, length_range).
  destruct (hello_links_count ls) as [Hc H3].
  set (b := MkHelloMessage (HelloInterval (d_cfg d)) WillDefault (hello_links ls)).
  destruct (serializeHelloMessage_fits b) as (bs & Hbs & Hlen).
  { apply Forall_forall. intros lm Hlm. apply Forall_forall. intros a Ha. cbn [b LinkMessages] in Hlm.
    apply elem_of_hello_links in Hlm as [[-> _]|[[-> _]|[-> _]]]; cbn [link_NeighborAddresses] in Ha;
      apply elem_of_addrs_in in Ha as (l & Hin & Hip & _); unfold ls, GetLinks in Hin;
      apply list_elem_of_fmap in Hin as ([k l'] & -> & Hk%elem_of_range); eauto. }
  { cbn [b LinkMessages]. lia. }
  cbn [b LinkMessages] in Hlen.
  assert (∃ mb, serializeMessage (hello_message p d) = Ok mb ∧ Z.of_nat (length mb) ≤ 65000) as (mb & Hmb & Hmbl).
  { unfold serializeMessage. cbn [hello_message msg_Header msg_Body OriginatorAddress serializeBody].
    unfold To4_or. rewrite Ho, res_bind_Ok. fold ls b. rewrite Hbs, res_bind_Ok.
    set (bytes := _ ++ _). assert (length bytes = 12 + length bs)%nat as Hb.
    { unfold bytes. rewrite !length_app, (To4_length _ _ Ho). simpl. lia. }
    rewrite check_true, res_bind_Ok by (apply Z.leb_le; lia). eexists. split; [done|]. rewrite length_PutUint16. lia. }
  unfold SerializePacket. change (Messages (hello_packet p d)) with [hello_message p d].
  cbn [res_mapM]. rewrite Hmb, !res_bind_Ok. cbn [concat]. rewrite app_nil_r.
  rewrite check_true by (apply Z.leb_le; simpl length; lia). eauto.
Qed.
(** ** The handshake *)

(** A daemon at the address [ip]: its state up to the fields the handshake reads. *)
Record daemon_at (ip : IP) (seq : Z) (d : Daemon) : Prop := {
  at_cfg : cfg_RouterID (d_cfg d) = IP_String ip;
  at_id : nm_routerID (neighMgr d) = IP_String ip;
  at_packet : is_u16 (packetSeq d);
  at_message : messageSeq d = seq;
}.

(** Its links: none, or one, to [ip]. *)
Definition no_link (d : Daemon) : Prop := links (neighMgr d) = ∅.
Definition one_link (ip : IP) (s : LinkState) (d : Daemon) : Prop :=
  ∃ l, links (neighMgr d) = {[IP_String ip := l]} ∧ link_NeighborIP l = IP_String ip ∧ State l = s.

Lemma daemon_at_router_ip ip seq d : is_ip4 ip → daemon_at ip seq d → router_ip d = v4InV6Prefix ++ ip.
Proof. intros Hip Hd. unfold router_ip. by rewrite (at_cfg _ _ _ Hd), ParseIP_String. Qed.

Lemma v4InV6_String ip : is_ip4 ip → IP_String (v4InV6Prefix ++ ip) = IP_String ip.
Proof. intros [Hip _]. apply IP_String_To4. by apply To4_v4InV6. Qed.

Lemma one_link_hears ip s d : is_ip4 ip → one_link ip s d → s = LinkStateSymmetric ∨ s = LinkStateAsymmetric →
  hears d (IP_String ip).
Proof.
  intros Hip (l & Hl & Hn & Hs) Hst. exists (IP_String ip), l, (v4InV6Prefix ++ ip).
  rewrite Hl, lookup_singleton_eq, Hn, ParseIP_String, v4InV6_String, Hs by done. done.
Qed.

Lemma no_link_hears t d : no_link d → ¬ hears d t.
Proof. intros Hl (k & l & ip & Hk & _). rewrite Hl in Hk. by rewrite lookup_empty in Hk. Qed.

(** Sending: the frame exists, and only the sequence numbers advance. *)
Lemma handshake_send p ip seq d : is_ip4 ip → daemon_at ip seq d → is_u16 seq →
  (no_link d ∨ ∃ ip' s, is_ip4 ip' ∧ one_link ip' s d) →
  ∃ frame, sends (sendHello p d).2 = [frame] ∧ seq_ok d ∧ SerializePacket (hello_packet p d) = Ok frame ∧
    daemon_at ip (u16 (seq + 1)) (sendHello p d).1 ∧ neighMgr (sendHello p d).1 = neighMgr d ∧
    topoMgr (sendHello p d).1 = topoMgr d.
Proof.
  intros Hip Hd Hseq Hl.
  destruct (hello_is_sent p d) as [frame Hf].
  - rewrite (daemon_at_router_ip ip seq d) by done. exists ip. destruct Hip. by apply To4_v4InV6.
  - intros k l q Hk Hq. destruct Hl as [Hl|(ip' & s & Hip' & l' & Hl & Hn & _)]; rewrite Hl in Hk.
    + by rewrite lookup_empty in Hk.
    + apply lookup_singleton_Some in Hk as [_ <-]. rewrite Hn, ParseIP_String in Hq by done. simplify_eq.
      exists ip'. destruct Hip'. by apply To4_v4InV6.
  - destruct Hl as [Hl|(ip' & s & _ & l' & Hl & _)]; rewrite Hl; [by rewrite map_size_empty|by rewrite map_size_singleton].
  - exists frame. split; [by apply sendHello_sends|]. destruct Hd as [Hc Hi Hp Hm].
    split; [by split; [|rewrite Hm]|]. split; [done|]. split; [|done].
    split; cbn; [done|done|apply u16_range|by rewrite Hm].
Qed.

(** Receiving: the link appears in the state the HELLO tells. *)
Lemma handshake_receive clock p q a b ipa ipb sa sb frame s (Hab : ipa ≠ ipb) :
  is_ip4 ipa → is_ip4 ipb → daemon_at ipa sa a → daemon_at ipb sb b →
  seq_ok a → SerializePacket (hello_packet q a) = Ok frame →
  dup_at (topoMgr b) (IP_String ipa) sa = None →
  (no_link a ∧ s = LinkStateAsymmetric ∨
   ∃ s', one_link ipb s' a ∧ (s' = LinkStateSymmetric ∨ s' = LinkStateAsymmetric) ∧ s = LinkStateSymmetric) →
  (no_link b ∨ ∃ s', one_link ipa s' b) →
  ∃ b' out, processReceivedData clock p b frame ipa = Ok (b', out) ∧ daemon_at ipb sb b' ∧ one_link ipa s b' ∧
    (∀ o n, (o, n) ≠ (IP_String ipa, sa) → dup_at (topoMgr b') o n = dup_at (topoMgr b) o n).
Proof.
  intros Hia Hib Ha Hb Hseq Hs Hdup Hla Hlb.
  assert (IP_String (router_ip a) = IP_String ipa) as Eo
    by (rewrite (daemon_at_router_ip ipa sa a) by done; by apply v4InV6_String).
  destruct (hello_received clock p q ipa a b frame Hseq Hs) as (b' & out & heard & Hp & _ & Hh & Ht).
  { split; unfold is_own, known_at; cbn [hello_message msg_Header OriginatorAddress SeqNum]; rewrite Eo.
    - rewrite (at_cfg _ _ _ Hb). intros E. by apply Hab, IP_String_inj.
    - rewrite (at_message _ _ _ Ha), Hdup. by intros (e & ? & _). }
  exists b', out. split; [done|]. destruct Ht as [(Hc & Hps & Hms) Hid Hl _ Hd]. rewrite Eo, (at_message _ _ _ Ha) in Hd.
  destruct Hb as [Hbc Hbi Hbp Hbm]. rewrite Hbi in Hh.
  split; [split; congruence|]. split; [|exact Hd].
  assert (heard = bool_decide (s = LinkStateSymmetric)) as ->.
  { destruct Hla as [[Hn ->]|(s' & Ho & Hs' & ->)].
    - destruct heard; [|done]. destruct (no_link_hears (IP_String ipb) a Hn). by apply Hh.
    - destruct heard; [done|]. by rewrite (proj2 Hh (one_link_hears _ _ _ Hib Ho Hs')). }
  unfold one_link. rewrite Hl. unfold hello_link.
  assert (s = LinkStateSymmetric ∨ s = LinkStateAsymmetric) as Hss by naive_solver.
  destruct Hlb as [Hn|(s' & l & Hl' & Hn & _)].
  - rewrite Hn, insert_empty, lookup_empty. eexists. split; [done|]. destruct Hss as [->| ->]; simpl; auto.
  - rewrite Hl', insert_singleton_eq, lookup_singleton_eq. eexists. split; [done|]. destruct Hss as [->| ->]; simpl; auto.
Qed.

(** C9. The HELLO handshake.  Two daemons start at different IPv4 addresses, with
    any configuration.  A HELLO of the first, one of the second and another of
    the first, each received from its sender's address at any time, make the
    link symmetric at both ends. *)
Theorem hello_handshake ipa ipb cfga cfgb mona monb clk1 clk2 clk3 p1 p2 p3 q1 q2 q3 :
  is_ip4 ipa → is_ip4 ipb → ipa ≠ ipb →
  cfg_RouterID cfga = IP_String ipa → cfg_RouterID cfgb = IP_String ipb →
  let a0 := initializeComponents cfga mona in
  let b0 := initializeComponents cfgb monb in
  ∃ f1 f2 f3 b1 a2 b3 o1 o2 o3,
    sends (sendHello q1 a0).2 = [f1] ∧ processReceivedData clk1 p1 b0 f1 ipa = Ok (b1, o1) ∧
    sends (sendHello q2 b1).2 = [f2] ∧
    processReceivedData clk2 p2 (sendHello q1 a0).1 f2 ipb = Ok (a2, o2) ∧
    sends (sendHello q3 a2).2 = [f3] ∧
    processReceivedData clk3 p3 (sendHello q2 b1).1 f3 ipa = Ok (b3, o3) ∧
    State <$> links (neighMgr a2) !! IP_String ipb = Some LinkStateSymmetric ∧
    State <$> links (neighMgr b3) !! IP_String ipa = Some LinkStateSymmetric.
Proof.
  intros Hia Hib Hab Hca Hcb a0 b0.
  assert (daemon_at ipa 0 a0) as Ha0 by (split; simpl; done).
  assert (daemon_at ipb 0 b0) as Hb0 by (split; simpl; done).
  destruct (handshake_send q1 ipa 0 a0) as (f1 & Hf1 & Hq1 & Hs1 & Ha1 & En1 & Et1); [done..|by left|].
  destruct (handshake_receive clk1 p1 q1 a0 b0 ipa ipb 0 0 f1 LinkStateAsymmetric Hab) as (b1 & o1 & Hp1 & Hb1 & Hl1 & Hd1);
    [done..|by left|by left|].
  destruct (handshake_send q2 ipb 0 b1) as (f2 & Hf2 & Hq2 & Hs2 & Hb2 & En2 & Et2); [done..|right; eauto|].
  destruct (handshake_receive clk2 p2 q2 b1 (sendHello q1 a0).1 ipb ipa 0 (u16 1) f2 LinkStateSymmetric) as
    (a2 & o2 & Hp2 & Ha2 & Hl2 & _); [done..|right; eauto|left; unfold no_link; by rewrite En1|].
  destruct (handshake_send q3 ipa (u16 1) a2) as (f3 & Hf3 & Hq3 & Hs3 & _); [done..|right; eauto|].
  destruct (handshake_receive clk3 p3 q3 a2 (sendHello q2 b1).1 ipa ipb (u16 1) (u16 1) f3 LinkStateSymmetric) as
    (b3 & o3 & Hp3 & _ & Hl3 & _); [done..| |right; eauto|right; exists LinkStateAsymmetric; unfold one_link; by rewrite En2|].
  { rewrite Et2, Hd1; done. }
  exists f1, f2, f3, b1, a2, b3, o1, o2, o3. split_and!; try done.
  - destruct Hl2 as (l & -> & _ & Hst). rewrite lookup_singleton_eq. simpl. by rewrite Hst.
  - destruct Hl3 as (l & -> & _ & Hst). rewrite lookup_singleton_eq. simpl. by rewrite Hst.
Qed.
End sensing.

(** * Concrete inputs *)

(** Daemons at 10.0.0.1 and 10.0.0.2; all clocks stand still. *)
Definition daemon_at_1 : Daemon := initializeComponents (config_at "10.0.0.1") no_monitor.
Definition daemon_at_2 : Daemon := initializeComponents (config_at "10.0.0.2") no_monitor.

(** The first HELLO of 10.0.0.1: 20 bytes, no links. *)
Definition first_hello : list Z := [0; 20; 0; 0; 1; 2; 0; 16; 10; 0; 0; 1; 1; 0; 0; 0; 0; 0; 241; 3].

Lemma hello_link_sensing_witness :
  ∃ b' out l, @processReceivedData canonical_order amd64_conv (λ _, Second) [] daemon_at_2 first_hello (addr 1) = Ok (b', out) ∧
    links (neighMgr b') !! "10.0.0.1" = Some l ∧ State l ≠ LinkStatePending.
Proof.
  destruct (@hello_link_sensing canonical_order amd64_conv (λ _, Second) [] [] (addr 1) daemon_at_1 daemon_at_2 first_hello)
    as (b' & out & heard & l & n & Hp & _ & _ & Hl & Hs & _).
  - split; split; (discriminate || reflexivity).
  - vm_compute. reflexivity.
  - split; [by vm_compute|]. intros (e & He & _). by vm_compute in He.
  - exists b', out, l. split; [exact Hp|]. split; [exact Hl|]. rewrite Hs. by destruct heard.
Defined.

Lemma hello_handshake_witness :
  ∃ a2 b3,
    State <$> links (neighMgr a2) !! "10.0.0.2" = Some LinkStateSymmetric ∧
    State <$> links (neighMgr b3) !! "10.0.0.1" = Some LinkStateSymmetric.
Proof.
  destruct (@hello_handshake canonical_order amd64_conv (addr 1) (addr 2) (config_at "10.0.0.1") (config_at "10.0.0.2")
    no_monitor no_monitor (λ _, Second) (λ _, Second) (λ _, Second) [] [] [] [] [] [])
    as (f1 & f2 & f3 & b1 & a2 & b3 & o1 & o2 & o3 & _ & _ & _ & _ & _ & _ & Ha & Hb).
  - apply (bool_decide_unpack (length (addr 1) = 4%nat ∧ Forall is_u8 (addr 1))). vm_compute. exact I.
  - apply (bool_decide_unpack (length (addr 2) = 4%nat ∧ Forall is_u8 (addr 2))). vm_compute. exact I.
  - discriminate.
  - vm_compute. reflexivity.
  - vm_compute. reflexivity.
  - exists a2, b3. split; [exact Ha|exact Hb].
Defined.
