(* ===== verification/Network.v ===== *)
(** * A network of daemons

    Daemons that exchange the frames they send, with any loss, delay, repetition
    and reordering, each configured and driven in any way.  What holds of every
    reachable state of such a network follows from the messages the daemons
    build: HELLOs name nobody as relay, so there are no MPR selectors, no TC
    is ever sent, and no message is ever relayed. *)

From S2P Require Import Prelude GoNet TimeVal Packet PacketCodec PacketRelay Events Neighbor NeighborTables NeighborInvariant Topology Hna Heap Dijkstra Spf Molsr Config Daemon DaemonFacts LinkSensing.

#[local] Opaque EncodeTimeVal DecodeTimeVal.

Section network.
Context {MO : MapOrder} {FC : FloatConv}.

(** What a daemon does of its own: the periodic tasks, the route calculation,
    calls of the API on its HNA and MOLSR managers, a configuration reload. *)
Inductive local_step (d : Daemon) : Daemon → list Output → Prop :=
  | local_hello p : local_step d (sendHello p d).1 (sendHello p d).2
  | local_tc p now : local_step d (sendTC p now d).1 (sendTC p now d).2
  | local_hna p : local_step d (sendHNA p d).1 (sendHNA p d).2
  | local_age clock p : local_step d (performAging clock p d).1 (performAging clock p d).2
  | local_spf clock p mon elapsed :
      local_step d (runSpf clock p mon elapsed d).1 (runSpf clock p mon elapsed d).2
  | local_hna_api hm : local_step d (set_hnaMgr d hm) []
  | local_molsr_api mm : local_step d (set_molsrMgr d mm) []
  | local_reload cfg : local_step d
      (set_cfg d cfg) [].

(** The daemons, and all frames sent so far. *)
Record Network := MkNetwork { nodes : gmap nat Daemon; air : list (list Z) }.

Inductive net_step (net : Network) : Network → Prop :=
  | net_local i d d' out : nodes net !! i = Some d → local_step d d' out →
      net_step net (MkNetwork (<[i := d']> (nodes net)) (air net ++ sends out))
  | net_receive i d clock p frame raddr d' out : nodes net !! i = Some d → frame ∈ air net →
      processReceivedData clock p d frame raddr = Ok (d', out) →
      net_step net (MkNetwork (<[i := d']> (nodes net)) (air net ++ sends out)).

(** All daemons freshly started, nothing sent. *)
Definition net_init (net : Network) : Prop :=
  air net = [] ∧ ∀ i d, nodes net !! i = Some d → ∃ cfg mon, d = initializeComponents cfg mon.

(** ** The invariant *)

Definition quiet_message (m : Message) : Prop :=
  (msg_Type (msg_Header m) = MsgTypeHello ∧
     ∃ b, msg_Body m = BodyHello b ∧ Forall (λ lm, neighType lm ≠ NeighTypeMPR) (LinkMessages b)) ∨
  (msg_Type (msg_Header m) = MsgTypeHNA ∧ ∃ b, msg_Body m = BodyHNA b).

Definition quiet_frame (frame : list Z) : Prop :=
  ∃ pkt, DeserializePacket frame = Ok pkt ∧ Forall quiet_message (Messages pkt).

Record quiet (d : Daemon) : Prop := {
  quiet_selectors : mprSelectors (neighMgr d) = ∅;
  quiet_topology : topology (topoMgr d) = ∅;
  quiet_seq : seq_ok d;
}.

Lemma quiet_init cfg mon : quiet (initializeComponents cfg mon).
Proof. split; [done..|]. by split. Qed.

Lemma quiet_no_tc d p now : quiet d → sendTC p now d = (d, []).
Proof.
  intros Hq. unfold sendTC.
  assert (GetMPRSelectors p now (neighMgr d) = []) as ->; [|done].
  destruct (GetMPRSelectors p now (neighMgr d)) as [|s l] eqn:E; [done|].
  assert (s ∈ GetMPRSelectors p now (neighMgr d)) as (e & He & _)%GetMPRSelectors_elem by (rewrite E; constructor).
  by rewrite (quiet_selectors _ Hq), lookup_empty in He.
Qed.

(** ** What is sent *)

Lemma hello_links_no_mpr ls : Forall (λ lm, neighType lm ≠ NeighTypeMPR) (hello_links ls).
Proof.
  apply Forall_forall. intros lm Hlm.
  by apply elem_of_hello_links in Hlm as [[-> _]|[[-> _]|[-> _]]].
Qed.

Lemma hello_quiet p d frame : seq_ok d → frame ∈ sends (sendHello p d).2 → quiet_frame frame.
Proof.
  intros Hs Hf. assert (SerializePacket (hello_packet p d) = Ok frame) as Hser.
  { unfold sendHello, next_seq, broadcastPacket in Hf. cbn [snd] in Hf.
    destruct (SerializePacket (hello_packet p d)); simpl in Hf; try by apply elem_of_nil in Hf.
    by apply list_elem_of_singleton in Hf as ->. }
  eexists. split; [by apply (hello_frame_parses p d)|]. constructor; [|done]. left. split; [done|].
  eexists. split; [done|]. cbn [LinkMessages]. apply Forall_fmap. eapply Forall_impl; [apply hello_links_no_mpr|]. done.
Qed.

Lemma hna_quiet p d frame : seq_ok d → frame ∈ sends (sendHNA p d).2 → quiet_frame frame.
Proof.
  intros [Hp Hm] Hf. unfold sendHNA in Hf. destruct (length _ =? 0)%nat; [by apply elem_of_nil in Hf|].
  unfold next_seq, broadcastPacket in Hf. cbn [snd] in Hf.
  match type of Hf with context [SerializePacket ?pk] => set (pkt := pk) in Hf; destruct (SerializePacket pkt) as [data| | |] eqn:Hser end;
    simpl in Hf; try by apply elem_of_nil in Hf.
  apply list_elem_of_singleton in Hf as ->.
  eexists. split; [apply (deserialize_serialize _ _ Hser)|].
  - split; [done|]. constructor; [|done]. by split.
  - constructor; [|done]. right. split; [done|]. by eexists.
Qed.

Lemma sends_performAging clock p d : sends (performAging clock p d).2 = [].
Proof.
  unfold performAging.
  destruct (Neighbor.AgeOut _ _ _ _) as [[nm e1] c1]. destruct (Topology.AgeOut _ _ _) as [[tm e2] c2].
  destruct (Hna.AgeOut _ _ _) as [[hm e3] c3]. destruct (Molsr.AgeOut _ _ _) as [[mm e4] c4]. apply sends_published.
Qed.

Lemma sends_runSpf clock p mon elapsed d : sends (runSpf clock p mon elapsed d).2 = [].
Proof.
  unfold runSpf. destruct (CalculateRoutes _ _ _ _ _ _ _ _) as [[routes evs]| | |];
    destruct (RecalculateMroutes _ _ _) as [m evs']; apply sends_published.
Qed.

Lemma live_empty {K V} `{Countable K} (exp : V → Z) now : live exp now (∅ : gmap K V) = ∅.
Proof. apply map_eq. intros k. apply option_eq. intros v. rewrite live_lookup, lookup_empty. naive_solver. Qed.

Lemma performAging_quiet clock p d : quiet d → quiet (performAging clock p d).1.
Proof.
  intros [Hsel Htopo Hseq]. unfold performAging.
  pose proof (AgeOut_aged (1%positive :: p) (clock (1%positive :: p)) (clock (2%positive :: p)) (neighMgr d))
    as (nm1 & c & Hag & _ & _ & ->).
  pose proof (topology_AgeOut_empty (2%positive :: p) (clock (3%positive :: p)) (topoMgr d) Htopo) as Ht.
  destruct (Topology.AgeOut _ _ _) as [[tm e2] c2].
  destruct (Hna.AgeOut _ _ _) as [[hm e3] c3]. destruct (Molsr.AgeOut _ _ _) as [[mm e4] c4].
  assert (mprSelectors nm1 = ∅) as E by (rewrite (aged_selectors _ _ _ Hag), Hsel; apply live_empty).
  destruct c; [|by split].
  destruct (recalculateMPRs_tables (4%positive :: 1%positive :: p) (clock (2%positive :: p)) nm1) as [s ->]. by split.
Qed.

Lemma local_step_quiet d d' out : quiet d → local_step d d' out → quiet d' ∧ Forall quiet_frame (sends out).
Proof.
  intros Hq Hs. destruct Hq as [Hsel Htopo Hseq] eqn:Eq. clear Eq. pose proof Hseq as [Hp Hm].
  destruct Hs as [p|p now|p|clock p|clock p mon elapsed|hm|mm|cfg]; try by split; [split|].
  - split; [split; [done..|]|]; [split; apply u16_range|]. apply Forall_forall. intros f. by apply hello_quiet.
  - rewrite quiet_no_tc by done. by split.
  - split; [|apply Forall_forall; intros f; by apply hna_quiet]. unfold sendHNA.
    destruct (length _ =? 0)%nat; [done|]. split; [done..|]. split; apply u16_range.
  - rewrite sends_performAging. split; [by apply performAging_quiet|done].
  - rewrite sends_runSpf. split; [|done]. unfold runSpf.
    destruct (CalculateRoutes _ _ _ _ _ _ _ _) as [[routes evs]| | |];
      destruct (RecalculateMroutes _ _ _) as [m evs']; by split.
Qed.

(** ** What is received *)

Lemma no_mpr_selection id b : Forall (λ lm, neighType lm ≠ NeighTypeMPR) (LinkMessages b) →
  checkMPRSelection id b = false.
Proof.
  rewrite Forall_forall. intros Hf. apply not_true_iff_false. rewrite checkMPRSelection_spec.
  intros (lm & a & Hlm & _ & _ & E). by apply (Hf lm).
Qed.

Lemma dispatch_quiet clock p raddr d msg : quiet d → quiet_message msg → quiet (dispatch clock p raddr d msg).1.
Proof.
  intros [Hsel Htopo Hseq] Hm. destruct msg as [[t v o ttl hc sq] body]. unfold quiet_message in Hm.
  cbn [msg_Header msg_Body msg_Type] in Hm. destruct Hm as [[-> (b & -> & Hb)]|[-> (b & ->)]].
  - rewrite dispatch_hello. cbv zeta. cbn [fst].
    destruct (ProcessHello_effect p (clock (1%positive :: p)) (clock (2%positive :: p)) (neighMgr d) raddr o b v)
      as (nm1 & heard & _ & Heff & _ & ->).
    assert (mprSelectors nm1 = ∅) as E.
    { rewrite (he_selectors _ _ _ _ _ _ _ Heff), no_mpr_selection, andb_false_r by done. done. }
    destruct (link_flips _ _ _); [|by split].
    destruct (recalculateMPRs_tables p (clock (2%positive :: p)) nm1) as [s Er]. rewrite Er. by split.
  - unfold dispatch. simpl. destruct (ProcessHNA _ _ _ _ _). by split.
Qed.

Lemma process_message_quiet clock p raddr hdr d msg : quiet d → quiet_message msg →
  let r := process_message clock p raddr hdr d msg in quiet r.1 ∧ sends r.2 = [].
Proof.
  intros Hq Hm. cbv zeta. destruct (process_message_cases clock p raddr hdr d msg) as [[_ ->]|[_ ->]]; [done|].
  cbn [fst snd]. set (tm := (IsDuplicate _ _ _ _ _).1).
  assert (quiet (set_topoMgr d tm)) as Hq0 by (destruct Hq; by split).
  pose proof (dispatch_quiet clock (2%positive :: p) raddr _ msg Hq0 Hm) as Hd.
  split; [done|]. rewrite sends_app, sends_published.
  destruct (shouldForwardMessage _ _ _ _ _) eqn:E; [|done]. exfalso.
  apply shouldForwardMessage_spec in E as (_ & Hh & _ & [Hs|(e & He & _)]).
  - destruct Hm as [[E _]|[E _]]; rewrite E in *; done.
  - by rewrite (quiet_selectors _ Hd), lookup_empty in He.
Qed.

Lemma process_messages_quiet clock raddr hdr msgs : Forall quiet_message msgs → ∀ p d, quiet d →
  let r := process_messages clock p raddr hdr d msgs in quiet r.1 ∧ sends r.2 = [].
Proof.
  induction 1 as [|msg msgs Hm _ IH]; intros p d Hd; [done|]. cbv zeta in *. cbn [process_messages].
  destruct (process_message_quiet clock (Pos.of_succ_nat (length msgs) :: p) raddr hdr d msg Hd Hm) as [H1 H2].
  destruct (process_message _ _ _ _ _ _) as [d1 o1]. cbn [fst snd] in *.
  specialize (IH p d1 H1) as [H3 H4]. destruct (process_messages _ _ _ _ _ _) as [d2 o2]. cbn [fst snd] in *.
  split; [done|]. by rewrite sends_app, H2, H4.
Qed.

(** C29. A network of these daemons never selects relays.  In every reachable
    state of a network of freshly started daemons that hear only each other, no
    daemon has an MPR selector or a topology tuple and none would send a TC;
    every frame sent parses, and holds HELLO and HNA messages only. *)
Theorem network_never_selects_mprs init net :
  net_init init → rtc net_step init net →
  (∀ i d, nodes net !! i = Some d →
     mprSelectors (neighMgr d) = ∅ ∧ topology (topoMgr d) = ∅ ∧ ∀ p now, sendTC p now d = (d, [])) ∧
  (∀ frame, frame ∈ air net → ∃ pkt, DeserializePacket frame = Ok pkt ∧
     ∀ m, m ∈ Messages pkt → msg_Type (msg_Header m) = MsgTypeHello ∨ msg_Type (msg_Header m) = MsgTypeHNA).
Proof.
  intros [Hair Hinit] Hr.
  assert ((∀ i d, nodes net !! i = Some d → quiet d) ∧ Forall quiet_frame (air net)) as [Hn Hf].
  { assert ((∀ i d, nodes init !! i = Some d → quiet d) ∧ Forall quiet_frame (air init)) as H0.
    { rewrite Hair. split; [|done]. intros i d (cfg & mon & ->)%Hinit. apply quiet_init. }
    clear Hair Hinit. induction Hr as [|n1 n2 n3 Hs _ IH]; [done|]. apply IH. clear IH. destruct H0 as [Hn Hf].
    assert (∀ i d' out, quiet d' → Forall quiet_frame (sends out) →
      (∀ j d, <[i := d']> (nodes n1) !! j = Some d → quiet d) ∧ Forall quiet_frame (air n1 ++ sends out)) as Hgen.
    { intros i d' out Hq Ho. split; [|by apply Forall_app]. intros j d.
      rewrite lookup_insert_Some. intros [[_ <-]|[_ ?]]; eauto. }
    destruct Hs as [i d d' out Hi Hs|i d clock p frame raddr d' out Hi Hfr Hp].
    - apply (local_step_quiet d d' out) in Hs as [Hq Ho]; eauto.
    - rewrite Forall_forall in Hf. destruct (Hf _ Hfr) as (pkt & Hd & Hq).
      unfold processReceivedData in Hp. rewrite Hd in Hp.
      destruct (process_messages_quiet clock raddr (pkt_Header pkt) (Messages pkt) Hq p d (Hn _ _ Hi)) as [H1 H2].
      apply Ok_inj in Hp. rewrite Hp in *. apply Hgen; [done|]. cbn [snd] in H2. by rewrite H2. }
  split.
  - intros i d Hi. specialize (Hn i d Hi). destruct Hn eqn:E. split_and!; try done. intros. by apply quiet_no_tc.
  - intros frame Hfr. rewrite Forall_forall in Hf. destruct (Hf _ Hfr) as (pkt & Hd & Hq).
    exists pkt. split; [done|]. rewrite Forall_forall in Hq. intros m Hm. destruct (Hq m Hm) as [[? _]|[? _]]; auto.
Qed.
End network.

(** * A concrete network *)

(** 10.0.0.1 sends a HELLO, which 10.0.0.2 receives. *)
Definition net_0 : Network := MkNetwork {[0%nat := daemon_at_1; 1%nat := daemon_at_2]} [].
Definition net_1 : Network :=
  let r := @sendHello canonical_order [] daemon_at_1 in
  MkNetwork (<[0%nat := r.1]> (nodes net_0)) ([] ++ sends r.2).

Lemma network_witness :
  air net_1 = [first_hello] ∧
  ∃ pkt, @DeserializePacket amd64_conv first_hello = Ok pkt ∧
    ∀ m, m ∈ Messages pkt → msg_Type (msg_Header m) = MsgTypeHello ∨ msg_Type (msg_Header m) = MsgTypeHNA.
Proof.
  assert (air net_1 = [first_hello]) as E by (vm_compute; reflexivity). split; [exact E|].
  apply (@network_never_selects_mprs canonical_order amd64_conv net_0 net_1).
  - split; [reflexivity|]. intros i d Hi. exists (d_cfg d), no_monitor.
    unfold net_0, nodes in Hi. rewrite lookup_insert_Some, lookup_singleton_Some in Hi.
    destruct Hi as [[_ <-]|[_ [_ <-]]]; reflexivity.
  - apply rtc_once. eapply net_local; [|apply local_hello]. reflexivity.
  - rewrite E. constructor.
Defined.
