(* ===== verification/Zebra.v ===== *)
(** * The Zebra client (internal/zebra/client.go, zapi_multicast.go)

    The ZAPI frames the client builds, its state with [send] and the route
    calls, and the connection as a step relation: the connection loop, the read
    loops, [Stop] and the calls of the route installer, interleaved at the
    points where the code takes the lock or blocks.  The socket decides whether
    a dial, a write or a read succeeds: it is an argument [ok] or a choice of
    the relation.  Sleeping times have no effect on the state. *)

From S2P Require Import Prelude GoNet TimeVal.

(** ** Frames *)

Definition ZebraRouteAdd : Z := 8.
Definition ZebraRouteDelete : Z := 9.
Definition RouteOlsr : Z := 14.
Definition ZapiHeaderSize : Z := 10.
Definition ZapiMarker : Z := 254.
Definition ZapiVersion6 : Z := 6.
Definition ZebraIpmrRouteAdd : Z := 59.
Definition ZebraIpmrRouteDel : Z := 60.

(** [binary.BigEndian.PutUint16(data[0:2], uint16(len(data)))] after the check of the length. *)
Definition fill_size (data : list Z) (msg : string) : res (list Z) :=
  _ ← check (Z.of_nat (length data) <=? 65535) msg;
  Ok (PutUint16 data 0 (u16 (Z.of_nat (length data)))).

(** The header, with the size left at zero. *)
Definition zapi_header (cmd : Z) : list Z := be16 0 ++ [ZapiMarker; ZapiVersion6] ++ be32 0 ++ be16 cmd.

(** The length check panics, which [zebra_hello_frame] excludes. *)
Definition buildHelloMessage : res (list Z) :=
  let data := zapi_header 18 ++ [RouteOlsr] ++ be16 0 ++ be32 0 ++ [0] ++ [0] in
  if 65535 <? Z.of_nat (length data) then Panic
  else Ok (PutUint16 data 0 (u16 (Z.of_nat (length data)))).

Definition buildUnicastRouteMessage (cmd : Z) (prefix nexthop : string) (ifindex metric : Z) : res (list Z) :=
  match ParseCIDR prefix with
  | None => Err "invalid CIDR address"
  | Some (ip, ipNet) =>
      let ones := Mask_Size (net_Mask ipNet) in
      match To4 ip, To4 (default [] (ParseIP nexthop)) with
      | Some ip4, Some nh4 =>
          let psize := Z.quot (ones + 7) 8 in
          _ ← check (negb ((ones <? 0) || (32 <? ones))) "invalid IPv4 prefix length";
          prefixIP ← go_slice ip4 0 (Z.to_nat psize);
          _ ← check (negb (ifindex <? 0)) "invalid interface index";
          _ ← check (negb (metric <? 0)) "invalid metric";
          fill_size
            (zapi_header cmd ++
             [RouteOlsr] ++ be16 0 ++ be32 0 ++ be32 7 ++ [1] ++ [2] ++
             [u8 ones] ++ prefixIP ++
             be16 1 ++ be32 0 ++ [2] ++ [0] ++ nh4 ++ be32 (u32 ifindex) ++
             [150] ++ be32 (u32 metric)) "unicast route message size exceeds maximum uint16 size"
      | _, _ => Err "only IPv4 is supported in this OLSR implementation"
      end
  end.

Definition writeIpmrHeader (cmd : Z) : list Z := zapi_header cmd.

(** The loop over the outgoing interfaces. *)
Definition writeIpmrOif (oif : Z) : res (list Z) :=
  _ ← check (negb (oif <? 0)) "invalid OIF index"; Ok (be32 (u32 oif) ++ be32 1).

Definition writeIpmrBody (srcIPv4 grpIPv4 : IP) (iif : Z) (oifs : list Z) : res (list Z) :=
  _ ← check (negb (iif <? 0)) "invalid IIF index";
  _ ← check (negb (65535 <? Z.of_nat (length oifs))) "invalid OIFs count";
  entries ← res_mapM writeIpmrOif oifs;
  Ok ([2] ++ srcIPv4 ++ grpIPv4 ++ be32 (u32 iif) ++ be32 (u32 (Z.of_nat (length oifs))) ++ concat entries).

Definition BuildIpmrMessage (cmd : Z) (srcIP grpIP : IP) (iif : Z) (oifs : list Z) : res (list Z) :=
  match To4 srcIP, To4 grpIP with
  | Some srcIPv4, Some grpIPv4 =>
      body ← writeIpmrBody srcIPv4 grpIPv4 iif oifs;
      fill_size (writeIpmrHeader cmd ++ body) "multicast route message size exceeds maximum uint16 size"
  | _, _ => Err "IPMR route requires IPv4 addresses"
  end.

(** ** The client *)

(** An open or closed connection, with the frames written to it after the
    registration. *)
Record Conn := MkConn { conn_open : bool; frames : list (list Z) }.

Record ZAPIClient := MkZAPIClient {
  conn : option Conn;          (* [None] is nil *)
  connected : bool;
  reconnectChan : bool;        (* the channel of capacity one holds a token *)
  txTotal : Z;
  failureTotal : Z;
}.

Definition NewZAPIClient : ZAPIClient := MkZAPIClient None false false 0 0.

Definition set_connected (c : ZAPIClient) (b : bool) : ZAPIClient :=
  MkZAPIClient (conn c) b (reconnectChan c) (txTotal c) (failureTotal c).
Definition set_token (c : ZAPIClient) (b : bool) : ZAPIClient :=
  MkZAPIClient (conn c) (connected c) b (txTotal c) (failureTotal c).
Definition count_failure (c : ZAPIClient) : ZAPIClient :=
  MkZAPIClient (conn c) (connected c) (reconnectChan c) (txTotal c) (u64 (failureTotal c + 1)).
Definition close_conn (c : ZAPIClient) : ZAPIClient :=
  MkZAPIClient ((λ k, MkConn false (frames k)) <$> conn c) (connected c) (reconnectChan c) (txTotal c) (failureTotal c).

(** [send]; [ok] tells whether the write succeeds, which it never does on a
    closed connection. *)
Definition send (ok : bool) (c : ZAPIClient) (data : list Z) : ZAPIClient * res unit :=
  match connected c, conn c with
  | true, Some k =>
      if ok && conn_open k
      then (MkZAPIClient (Some (MkConn true (frames k ++ [data]))) true (reconnectChan c) (u64 (txTotal c + 1)) (failureTotal c),
            Ok tt)
      else (count_failure c, Err "write")
  | _, _ => (count_failure c, Err "zapi client not connected")
  end.

(** A built frame is sent; an error of the builder is returned. *)
Definition send_built (ok : bool) (c : ZAPIClient) (data : res (list Z)) : ZAPIClient * res unit :=
  match data with
  | Ok data => send ok c data
  | Err e => (c, Err e)
  | Panic => (c, Panic)
  | Diverge => (c, Diverge)
  end.

Definition AddUnicastRoute (ok : bool) (c : ZAPIClient) (prefix nexthop : string) (ifindex metric : Z) :=
  send_built ok c (buildUnicastRouteMessage ZebraRouteAdd prefix nexthop ifindex metric).

Definition DeleteUnicastRoute (ok : bool) (c : ZAPIClient) (prefix nexthop : string) (ifindex : Z) :=
  send_built ok c (buildUnicastRouteMessage ZebraRouteDelete prefix nexthop ifindex 0).

Definition AddMulticastRoute (ok : bool) (c : ZAPIClient) (srcIP grpIP : string) (iif : Z) (oifs : list Z) :=
  send_built ok c
    (BuildIpmrMessage ZebraIpmrRouteAdd (default [] (ParseIP srcIP)) (default [] (ParseIP grpIP)) iif oifs).

Definition DeleteMulticastRoute (ok : bool) (c : ZAPIClient) (srcIP grpIP : string) (iif : Z) (oifs : list Z) :=
  send_built ok c
    (BuildIpmrMessage ZebraIpmrRouteDel (default [] (ParseIP srcIP)) (default [] (ParseIP grpIP)) iif oifs).

Record UnicastRouteInfo := MkUnicastRouteInfo {
  ur_Prefix : string;
  ur_NextHop : string;
  ur_IfaceIndex : Z;
  ur_Metric : Z;
}.

(** The loop body of [syncRoutes]. *)
Definition sync_route (ok : bool) (c : ZAPIClient) (r : UnicastRouteInfo) : ZAPIClient :=
  (AddUnicastRoute ok c (ur_Prefix r) (ur_NextHop r) (ur_IfaceIndex r) (ur_Metric r)).1.

(** ** The connection *)

(** Where the connection loop is. *)
Inductive LoopState :=
  | LoopIdle                                  (* at the outer select *)
  | LoopDialing                               (* in connect, after the old connection is closed *)
  | LoopDialed                                (* connect returned nil *)
  | LoopSync                                  (* connected, before GetActiveUnicastRoutes *)
  | LoopSyncing (rest : list UnicastRouteInfo)
  | LoopSleeping                              (* at the inner select *)
  | LoopReturned.

Record ZebraState := MkZebraState {
  client : ZAPIClient;
  loop : LoopState;
  backoff : Z;
  reading : nat;       (* read loops blocked in Read *)
  lost : nat;          (* read loops that saw the error and have yet to trigger *)
  cancelled : bool;    (* Stop was called *)
}.

Definition maxBackoff : Z := 30 * Second.

(** [if backoff < maxBackoff { backoff *= 2 }] *)
Definition next_backoff (b : Z) : Z := if b <? maxBackoff then b * 2 else b.

(** The state after [Start] has put the first token. *)
Definition zebra_start : ZebraState := MkZebraState (set_token NewZAPIClient true) LoopIdle Second 0 0 false.

(** What a step has to do with the rest of the daemon: nothing, a call of
    [GetActiveUnicastRoutes] with its result, or a frame handed to [send]. *)
Inductive ZebraLabel :=
  | Internal
  | GotActiveRoutes (routes : list UnicastRouteInfo)
  | Called (data : list Z).

Inductive zebra_step (z : ZebraState) : ZebraLabel → ZebraState → Prop :=
  (* connectionLoop *)
  | zs_take : loop z = LoopIdle → reconnectChan (client z) = true →
      zebra_step z Internal (MkZebraState (set_connected (close_conn (set_token (client z) false)) false)
                      LoopDialing (backoff z) (reading z) (lost z) (cancelled z))
  | zs_dial_failed : loop z = LoopDialing →
      zebra_step z Internal (MkZebraState (count_failure (client z)) LoopSleeping (next_backoff (backoff z))
                      (reading z) (lost z) (cancelled z))
  | zs_dialed : loop z = LoopDialing →
      zebra_step z Internal (MkZebraState
                      (MkZAPIClient (Some (MkConn true [])) (connected (client z)) (reconnectChan (client z))
                         (txTotal (client z)) (failureTotal (client z)))
                      LoopDialed (backoff z) (reading z) (lost z) (cancelled z))
  | zs_connected : loop z = LoopDialed →
      zebra_step z Internal (MkZebraState (set_connected (client z) true) LoopSync Second
                      (reading z) (lost z) (cancelled z))
  | zs_snapshot routes : loop z = LoopSync →
      zebra_step z (GotActiveRoutes routes) (MkZebraState (client z) (LoopSyncing routes) (backoff z) (reading z) (lost z) (cancelled z))
  | zs_sync ok r rest : loop z = LoopSyncing (r :: rest) →
      zebra_step z Internal (MkZebraState (sync_route ok (client z) r) (LoopSyncing rest) (backoff z)
                      (reading z) (lost z) (cancelled z))
  | zs_synced : loop z = LoopSyncing [] →
      zebra_step z Internal (MkZebraState (client z) LoopIdle (backoff z) (S (reading z)) (lost z) (cancelled z))
  | zs_wake : loop z = LoopSleeping →
      zebra_step z Internal (MkZebraState (set_token (client z) true) LoopIdle (backoff z) (reading z) (lost z) (cancelled z))
  | zs_done : cancelled z = true → loop z = LoopIdle ∨ loop z = LoopSleeping →
      zebra_step z Internal (MkZebraState (client z) LoopReturned (backoff z) (reading z) (lost z) (cancelled z))
  (* readLoop: a read fails, then the trigger *)
  | zs_read_failed n : reading z = S n →
      zebra_step z Internal (MkZebraState (set_connected (client z) false) (loop z) (backoff z) n (S (lost z)) (cancelled z))
  | zs_trigger n : lost z = S n →
      zebra_step z Internal (MkZebraState (set_token (client z) true) (loop z) (backoff z) (reading z) n (cancelled z))
  (* the installer and Stop *)
  | zs_call ok data :
      zebra_step z (Called data) (MkZebraState (send ok (client z) data).1 (loop z) (backoff z) (reading z) (lost z) (cancelled z))
  | zs_stop :
      zebra_step z Internal (MkZebraState (set_connected (close_conn (client z)) false) (loop z) (backoff z)
                      (reading z) (lost z) true).

Definition zebra_moves (z z' : ZebraState) : Prop := ∃ l, zebra_step z l z'.

Definition zebra_reachable : ZebraState → Prop := rtc zebra_moves zebra_start.
