(* ===== verification/ZebraFacts.v ===== *)
(** * The Zebra client: frames and connection

    The frames on every branch, a reader that recovers the route of a unicast
    frame, and the invariant of the connection. *)

From Stdlib Require Import Ascii.
From S2P Require Import Prelude GoNet TimeVal Packet PacketCodec Events Neighbor Topology Hna Heap Dijkstra Spf Molsr Config Daemon Zebra.

(** ** Printed prefixes *)

(** A prefix as [IPNet.String] prints it. *)
Definition printed_prefix (ip : IP) (n : Z) : string := IP_String ip +:+ "/" +:+ appendDecimal n.

(** Reading a printed mask length and rebuilding its mask, for the 33 lengths. *)
Lemma mask_length_roundtrip n : 0 ≤ n ≤ 32 → dtoi (appendDecimal n) = Some n ∧ Mask_Size (CIDRMask n 32) = n.
Proof.
  intros Hn. assert (n ∈ seqZ 0 33) as Hin by (apply elem_of_seqZ; lia). clear Hn.
  revert n Hin. apply Forall_forall. apply (bool_decide_unpack _). vm_compute. exact I.
Qed.

Lemma ParseCIDR_printed ip n : is_ip4 ip → 0 ≤ n ≤ 32 →
  ∃ net, ParseCIDR (printed_prefix ip n) = Some (v4InV6Prefix ++ ip, net) ∧ Mask_Size (net_Mask net) = n.
Proof.
  intros Hip Hn. destruct (mask_length_roundtrip n Hn) as [Hd Hm].
  unfold ParseCIDR, printed_prefix. rewrite IP_String_ip4 by done. change ("/" +:+ appendDecimal n) with (String "/"%char (appendDecimal n)).
  rewrite (split_at_dotted "/"%char) by done. rewrite <-IP_String_ip4 by done. rewrite ParseIP_String by done.
  rewrite IP_String_ip4, first_sep_dotted by done. simpl (is_char _ _). cbv iota zeta. rewrite Hd.
  destruct (Z.ltb_spec 32 n); [lia|]. eexists. split; [done|]. exact Hm.
Qed.

(** ** The unicast frame *)

(** [binary.BigEndian.Uint32] *)
Definition value32 (a b c d : Z) : Z := ((a * 256 + b) * 256 + c) * 256 + d.

Lemma value32_be32 v : 0 ≤ v < 2 ^ 32 → ∃ a b c d, be32 v = [a; b; c; d] ∧ value32 a b c d = v.
Proof.
  intros Hv. unfold be32. do 4 eexists. split; [done|]. unfold value32, u8.
  rewrite !Z.shiftr_div_pow2 by lia. change (2 ^ 8) with 256. change (2 ^ 16) with (256 * 256).
  change (2 ^ 24) with (256 * 256 * 256). change (2 ^ 32) with 4294967296 in Hv.
  rewrite <-!Z.div_div by lia.
  pose proof (Z.div_mod v 256 ltac:(lia)). pose proof (Z.div_mod (v `div` 256) 256 ltac:(lia)).
  pose proof (Z.div_mod (v `div` 256 `div` 256) 256 ltac:(lia)).
  assert (v `div` 256 `div` 256 `div` 256 < 256) by (repeat (apply Z.div_lt_upper_bound; [lia|]); lia).
  assert (0 ≤ v `div` 256 `div` 256 `div` 256) by (repeat (apply Z.div_pos; [|lia]); lia).
  rewrite (Z.mod_small (v `div` 256 `div` 256 `div` 256)) by lia. lia.
Qed.

(** The fields of a unicast frame. *)
Record ZapiRoute := MkZapiRoute {
  zr_cmd : Z;
  zr_prefixLen : Z;
  zr_prefix : list Z;
  zr_nexthop : list Z;
  zr_ifindex : Z;
  zr_metric : Z;
}.

(** The part after the prefix. *)
Definition decode_nexthop (cmd len : Z) (prefix rest : list Z) : option ZapiRoute :=
  match rest with
  | [c0; c1; _; _; _; _; typ; _; a; b; c; d; i0; i1; i2; i3; _; m0; m1; m2; m3] =>
      if (256 * c0 + c1 =? 1) && (typ =? 2)
      then Some (MkZapiRoute cmd len prefix [a; b; c; d] (value32 i0 i1 i2 i3) (value32 m0 m1 m2 m3)) else None
  | _ => None
  end.

(** A reader of the layout: one IPv4 next hop with its interface, a distance
    and a metric; the size field must be the length of the frame. *)
Definition decode_route (f : list Z) : option ZapiRoute :=
  match f with
  | s0 :: s1 :: marker :: version :: _ :: _ :: _ :: _ :: c0 :: c1 ::
    typ :: _ :: _ :: _ :: _ :: _ :: _ :: g0 :: g1 :: g2 :: g3 :: safi :: family :: len :: rest =>
      let n := Z.to_nat ((len + 7) `quot` 8) in
      if (256 * s0 + s1 =? Z.of_nat (length f)) && (marker =? ZapiMarker) && (version =? ZapiVersion6) &&
         (typ =? RouteOlsr) && (value32 g0 g1 g2 g3 =? 7) && (safi =? 1) && (family =? 2) && (n <=? length rest)%nat
      then decode_nexthop (256 * c0 + c1) len (take n rest) (drop n rest) else None
  | _ => None
  end.

Lemma be16_value v : is_u16 v → ∃ a b, be16 v = [a; b] ∧ 256 * a + b = v.
Proof.
  unfold is_u16. intros Hv. unfold be16. do 2 eexists. split; [done|]. unfold u8.
  rewrite Z.shiftr_div_pow2 by lia. change (2 ^ 8) with 256.
  rewrite (Z.mod_small (v `div` 256)) by (split; [apply Z.div_pos; lia|apply Z.div_lt_upper_bound; lia]).
  pose proof (Z.div_mod v 256 ltac:(lia)). lia.
Qed.

Lemma decode_route_frame cmd ones prefixIP nh ifindex metric :
  is_u16 cmd → 0 ≤ ones ≤ 32 → length prefixIP = Z.to_nat ((ones + 7) `quot` 8) → length nh = 4%nat →
  0 ≤ ifindex < 2 ^ 32 → 0 ≤ metric < 2 ^ 32 →
  let data := zapi_header cmd ++
             [RouteOlsr] ++ be16 0 ++ be32 0 ++ be32 7 ++ [1] ++ [2] ++
             [u8 ones] ++ prefixIP ++
             be16 1 ++ be32 0 ++ [2] ++ [0] ++ nh ++ be32 ifindex ++ [150] ++ be32 metric in
  ∃ f, fill_size data "unicast route message size exceeds maximum uint16 size" = Ok f ∧
    decode_route f = Some (MkZapiRoute cmd ones prefixIP nh ifindex metric).
Proof.
  intros Hcmd Hones Hp Hnh Hif Hme. cbv zeta.
  assert ((length prefixIP ≤ 4)%nat) as Hp4.
  { rewrite Hp. pose proof (Z.quot_le_mono (ones + 7) 39 8 ltac:(lia) ltac:(lia)) as Hq. change (39 ÷ 8) with 4 in Hq.
    change (Z.quot (ones + 7) 8) with ((ones + 7) ÷ 8). lia. }
  do 5 (destruct nh as [|? nh]; try discriminate Hnh).
  destruct (value32_be32 ifindex Hif) as (i0 & i1 & i2 & i3 & -> & Ei).
  destruct (value32_be32 metric Hme) as (m0 & m1 & m2 & m3 & -> & Em).
  destruct (be16_value cmd Hcmd) as (c0 & c1 & Ec & Evc).
  unfold fill_size, zapi_header. rewrite Ec.
  match goal with |- context [Z.of_nat (length ?x)] => set (data := x) end.
  assert (length data = 45 + length prefixIP)%nat as Hlen by (unfold data; rewrite !length_app; simpl; lia).
  rewrite check_true, res_bind_Ok by (apply Z.leb_le; lia). eexists. split; [done|].
  rewrite u16_id by (unfold is_u16; lia).
  destruct (be16_value (Z.of_nat (length data))) as (s0 & s1 & Es & Evs); [unfold is_u16; lia|].
  assert (PutUint16 data 0 (Z.of_nat (length data)) = s0 :: s1 :: drop 2 data) as ->.
  { unfold data at 1 3. unfold be16 in Es. simplify_eq. reflexivity. }
  unfold decode_route, data at 1. cbn [be16 be32 app drop].
  change (u8 (Z.shiftr 0 24)) with 0. change (u8 (Z.shiftr 0 16)) with 0. change (u8 (Z.shiftr 0 8)) with 0. change (u8 0) with 0.
  rewrite (u8_id ones) by (unfold is_u8; lia).
  replace (256 * s0 + s1 =? _) with true.
  2:{ symmetry. apply Z.eqb_eq. rewrite Evs, Hlen. unfold data. cbn [be16 be32 app drop length]. rewrite !length_app. cbn [length].
      lia. }
  rewrite !Z.eqb_refl. cbn [andb].
  rewrite <-Hp.
  rewrite (proj2 (Nat.leb_le (length prefixIP) _)) by (rewrite length_app; lia).
  rewrite take_app_length, drop_app_length. unfold decode_nexthop. simpl. by rewrite Evc, Ei, Em.
Qed.

Lemma unicast_frame cmd ip n nh ifindex metric :
  is_u16 cmd → is_ip4 ip → 0 ≤ n ≤ 32 → is_ip4 nh →
  if (ifindex <? 0) then
    buildUnicastRouteMessage cmd (printed_prefix ip n) (IP_String nh) ifindex metric = Err "invalid interface index"
  else if (metric <? 0) then
    buildUnicastRouteMessage cmd (printed_prefix ip n) (IP_String nh) ifindex metric = Err "invalid metric"
  else ∃ f, buildUnicastRouteMessage cmd (printed_prefix ip n) (IP_String nh) ifindex metric = Ok f ∧
    decode_route f =
      Some (MkZapiRoute cmd n (take (Z.to_nat ((n + 7) `quot` 8)) ip) nh (u32 ifindex) (u32 metric)).
Proof.
  intros Hcmd Hip Hn Hnh. destruct (ParseCIDR_printed ip n Hip Hn) as (net & Hc & Hm).
  unfold buildUnicastRouteMessage. rewrite Hc, Hm, ParseIP_String by done. cbv zeta.
  change (default [] (Some (v4InV6Prefix ++ nh))) with (v4InV6Prefix ++ nh).
  destruct Hip as [Hl4 _], Hnh as [Hn4 _]. rewrite !To4_v4InV6 by done.
  assert (Z.to_nat ((n + 7) `quot` 8) ≤ 4)%nat as Hq.
  { pose proof (Z.quot_le_mono (n + 7) 39 8 ltac:(lia) ltac:(lia)) as Hq. change (39 ÷ 8) with 4 in Hq.
    change (Z.quot (n + 7) 8) with ((n + 7) ÷ 8). lia. }
  rewrite (check_true (negb ((n <? 0) || (32 <? n)))), res_bind_Ok by (destruct (Z.ltb_spec n 0), (Z.ltb_spec 32 n); (done || lia)).
  assert (go_slice ip 0 (Z.to_nat ((n + 7) `quot` 8)) = Ok (take (Z.to_nat ((n + 7) `quot` 8)) ip)) as ->.
  { unfold go_slice. rewrite Hl4, (proj2 (Nat.leb_le _ 4)) by done. by rewrite drop_0, Nat.sub_0_r. }
  rewrite res_bind_Ok. destruct (ifindex <? 0) eqn:Ei; [done|]. destruct (metric <? 0) eqn:Em; [done|].
  cbn [negb check]. rewrite !res_bind_Ok.
  apply decode_route_frame; try done; [by rewrite length_take, Hl4, Nat.min_l|..];
    unfold u32; apply Z.mod_pos_bound; lia.
Qed.

(** The unicast frame.  For a prefix printed as [IPNet.String] prints it and
    an IPv4 next hop, [buildUnicastRouteMessage] fails on a negative interface
    index or metric and otherwise builds a frame whose size field is its length
    and whose fields read back as the command, the prefix cut to its bytes, the
    next hop, and the interface and metric modulo 2^32. *)
Theorem unicast_frame_spec cmd ip n nh ifindex metric :
  is_u16 cmd → is_ip4 ip → 0 ≤ n ≤ 32 → is_ip4 nh →
  if (ifindex <? 0) then
    buildUnicastRouteMessage cmd (printed_prefix ip n) (IP_String nh) ifindex metric = Err "invalid interface index"
  else if (metric <? 0) then
    buildUnicastRouteMessage cmd (printed_prefix ip n) (IP_String nh) ifindex metric = Err "invalid metric"
  else ∃ f, buildUnicastRouteMessage cmd (printed_prefix ip n) (IP_String nh) ifindex metric = Ok f ∧
    decode_route f =
      Some (MkZapiRoute cmd n (take (Z.to_nat ((n + 7) `quot` 8)) ip) nh (u32 ifindex) (u32 metric)).
Proof. apply unicast_frame. Qed.

(** ** The other frames *)

(** The registration: 19 bytes, so the length check of the builder never panics. *)
Lemma zebra_hello_frame : buildHelloMessage =
  Ok [0; 19; ZapiMarker; ZapiVersion6; 0; 0; 0; 0; 0; 18; RouteOlsr; 0; 0; 0; 0; 0; 0; 0; 0].
Proof. reflexivity. Qed.

Lemma writeIpmrOifs oifs : res_mapM writeIpmrOif oifs =
  if existsb (λ oif, oif <? 0) oifs then Err "invalid OIF index"
  else Ok ((λ oif, be32 (u32 oif) ++ be32 1) <$> oifs).
Proof.
  induction oifs as [|o oifs IH]; [done|]. cbn [res_mapM existsb]. rewrite IH. unfold writeIpmrOif at 1.
  destruct (o <? 0); [done|]. by destruct (existsb _ oifs).
Qed.

(** A multicast frame on every branch: its size field holds its length, 27
    bytes and 8 for each outgoing interface, so at most 8188 of them fit,
    well below the 65535 that [writeIpmrBody] lets through. *)
Lemma ipmr_frame_spec cmd s g iif oifs : is_ip4 s → is_ip4 g →
  BuildIpmrMessage cmd s g iif oifs =
    if iif <? 0 then Err "invalid IIF index"
    else if 65535 <? Z.of_nat (length oifs) then Err "invalid OIFs count"
    else if existsb (λ oif, oif <? 0) oifs then Err "invalid OIF index"
    else if 8188 <? Z.of_nat (length oifs) then Err "multicast route message size exceeds maximum uint16 size"
    else Ok (be16 (27 + 8 * Z.of_nat (length oifs)) ++ [ZapiMarker; ZapiVersion6] ++ be32 0 ++ be16 cmd ++
             [2] ++ s ++ g ++ be32 (u32 iif) ++ be32 (Z.of_nat (length oifs)) ++
             concat ((λ oif, be32 (u32 oif) ++ be32 1) <$> oifs)).
Proof.
  intros [Hs4 Hsf] [Hg4 Hgf]. unfold BuildIpmrMessage. rewrite !To4_ip4 by done. unfold writeIpmrBody.
  destruct (iif <? 0); [done|]. destruct (Z.ltb_spec 65535 (Z.of_nat (length oifs))) as [|Hl]; [done|].
  cbn [negb check]. rewrite !res_bind_Ok, writeIpmrOifs. destruct (existsb _ oifs); [done|]. rewrite !res_bind_Ok.
  unfold fill_size. match goal with |- context [Z.of_nat (length (writeIpmrHeader cmd ++ ?b))] => set (body := b) end.
  assert (length (concat ((λ oif, be32 (u32 oif) ++ be32 1) <$> oifs)) = 8 * length oifs)%nat as Hc.
  { clear. induction oifs as [|o oifs IH]; [done|]. cbn [fmap list_fmap concat]. rewrite length_app, IH. simpl. lia. }
  assert (Z.of_nat (length (writeIpmrHeader cmd ++ body)) = 27 + 8 * Z.of_nat (length oifs)) as ->.
  { unfold body. rewrite !length_app, Hc, Hs4, Hg4. simpl. lia. }
  destruct (Z.ltb_spec 8188 (Z.of_nat (length oifs))).
  - by rewrite (proj2 (Z.leb_gt _ _)) by lia.
  - rewrite (proj2 (Z.leb_le _ _)) by lia. cbn [check]. rewrite res_bind_Ok, u16_id by (unfold is_u16; lia).
    unfold body, u32 at 2. rewrite (Z.mod_small (Z.of_nat (length oifs)) (2 ^ 32)) by lia. reflexivity.
Qed.

(** ** The connection *)

(** The loop is between taking a token and going back to the outer select. *)
Definition busy (l : LoopState) : nat :=
  match l with LoopIdle | LoopReturned => 0 | _ => 1 end.

Definition tokens (z : ZebraState) : nat := if reconnectChan (client z) then 1 else 0.

(** Who will bring the connection back: a token, the loop, or a read loop. *)
Definition keepers (z : ZebraState) : nat := tokens z + busy (loop z) + reading z + lost z.

Record zebra_inv (z : ZebraState) : Prop := {
  zi_keepers : (keepers z ≤ 1)%nat ∧ (loop z ≠ LoopReturned → keepers z = 1%nat);
  zi_dialed : match loop z with
              | LoopDialed | LoopSync | LoopSyncing _ => ∃ k, conn (client z) = Some k ∧ (cancelled z = false → conn_open k = true)
              | _ => True
              end;
  zi_connected : connected (client z) = true →
    ∃ k, conn (client z) = Some k ∧ (cancelled z = false → conn_open k = true);
  zi_backoff : ∃ i, (i ≤ 5)%nat ∧ backoff z = 2 ^ Z.of_nat i * Second;
}.

Lemma next_backoff_power i : (i ≤ 5)%nat → ∃ j, (j ≤ 5)%nat ∧ next_backoff (2 ^ Z.of_nat i * Second) = 2 ^ Z.of_nat j * Second.
Proof.
  intros Hi. exists (Nat.min (S i) 5). split; [lia|].
  do 6 (destruct i as [|i]; [vm_compute; reflexivity|]). lia.
Qed.

(** What [send] leaves alone, and what it counts. *)
Lemma send_effect ok c data : let c' := (send ok c data).1 in
  connected c' = connected c ∧ reconnectChan c' = reconnectChan c ∧
  (conn c' = conn c ∨
   ∃ k, conn c = Some k ∧ conn_open k = true ∧ conn c' = Some (MkConn true (frames k ++ [data]))).
Proof.
  cbv zeta. unfold send. destruct (connected c) eqn:Ec, (conn c) as [k|] eqn:Ek; try (simpl; rewrite ?Ec, ?Ek; tauto).
  destruct (ok && conn_open k) eqn:Eo; [|simpl; rewrite Ec, Ek; tauto].
  apply andb_true_iff in Eo as [_ Eo]. simpl. split; [done|]. split; [done|]. right. exists k. done.
Qed.

Lemma send_inv ok data c l b r s x : zebra_inv (MkZebraState c l b r s x) →
  zebra_inv (MkZebraState (send ok c data).1 l b r s x).
Proof.
  intros [Hk Hd Hc Hb]. pose proof (send_effect ok c data) as (E1 & E2 & E3). cbv zeta in *.
  set (c' := (send ok c data).1) in *. simpl in *.
  assert (∀ Q : Prop → Prop, (∃ k, conn c = Some k ∧ (x = false → conn_open k = true)) →
    ∃ k, conn c' = Some k ∧ (x = false → conn_open k = true)) as Hopen.
  { intros _ (k & Hk' & Ho). destruct E3 as [E|(k0 & _ & _ & E)]; rewrite E; eauto. }
  split; simpl.
  - unfold keepers, tokens in *. simpl in *. by rewrite E2.
  - destruct l; try done; by apply (Hopen id).
  - rewrite E1. intros H. by apply (Hopen id), Hc.
  - done.
Qed.

Lemma send_built_inv ok data c l b r s x : zebra_inv (MkZebraState c l b r s x) →
  zebra_inv (MkZebraState (send_built ok c data).1 l b r s x).
Proof. destruct data; [apply send_inv|done..]. Qed.

(** The fields of the invariant that a step leaves alone. *)
Ltac zebra_fields i :=
  split; simpl; unfold keepers, tokens; simpl;
  try first [done | by exists i | by eauto | lia].

Lemma zebra_step_inv z e z' : zebra_inv z → zebra_step z e z' → zebra_inv z'.
Proof.
  destruct z as [[k cn t tx fl] l b r s x]. intros Hi Hs.
  pose proof Hi as [[Hk1 Hk2] Hd Hc (i & Hi5 & Hb)]. unfold keepers, tokens in Hk1, Hk2. simpl in *.
  destruct Hs as [Hl Ht|Hl|Hl|Hl|routes Hl|ok u rest Hl|Hl|Hl|Hx Hl|n Hn|n Hn|ok data|]; simpl in *; subst; simpl in *.
  - zebra_fields i.
  - destruct (next_backoff_power i Hi5) as (j & Hj & Ej). zebra_fields i.
  - zebra_fields i.
  - zebra_fields i. exists 0%nat. split; [lia|done].
  - zebra_fields i.
  - apply (send_built_inv ok (buildUnicastRouteMessage ZebraRouteAdd (ur_Prefix u) (ur_NextHop u) (ur_IfaceIndex u) (ur_Metric u))).
    zebra_fields i.
  - zebra_fields i.
  - specialize (Hk2 ltac:(done)). destruct t; [lia|]. zebra_fields i.
  - zebra_fields i. split; [|done]. destruct Hl as [-> | ->]; simpl in *; lia.
  - zebra_fields i.
  - destruct t; [lia|]. zebra_fields i.
  - by apply send_inv.
  - zebra_fields i.
    + destruct l; try done; destruct Hd as (k' & -> & _); simpl; eauto.
Qed.

Lemma zebra_inv_start : zebra_inv zebra_start.
Proof. split; simpl; try done. exists 0%nat. split; [lia|done]. Qed.

(** C36. The connection.  In every reachable state exactly one party is due to
    bring the connection back (the token in the channel, the busy loop, or one
    read loop), so that no two read loops ever run and no trigger is lost; a
    client that reports connected has a connection, open unless [Stop] was
    called; and the backoff is
    a power of two of at most 32 seconds. *)
Theorem zebra_invariant z : zebra_reachable z → zebra_inv z.
Proof.
  intros Hr. pose proof zebra_inv_start as H0.
  induction Hr as [|z1 z2 z3 [e Hs] _ IH]; [done|]. apply IH. by eapply zebra_step_inv.
Qed.

(** The loop does not come back. *)
Lemma loop_returned_stays z z' : loop z = LoopReturned → rtc zebra_moves z z' → loop z' = LoopReturned.
Proof.
  intros Hl Hr. induction Hr as [|z1 z2 z3 [e Hs] _ IH]; [done|]. apply IH. destruct Hs; simpl in *; congruence || naive_solver.
Qed.

(** The loop can come to its end, and stays there. *)
Definition can_return (z : ZebraState) : Prop :=
  ∃ z', rtc zebra_moves z z' ∧ ∀ z'', rtc zebra_moves z' z'' → loop z'' = LoopReturned.

Lemma can_return_step z e z1 : zebra_step z e z1 → can_return z1 → can_return z.
Proof. intros Hs (z' & Hr & H). exists z'. split; [|done]. eapply rtc_l; [by exists e|done]. Qed.

Lemma idle_can_return z : cancelled z = true → loop z = LoopIdle ∨ loop z = LoopSleeping → can_return z.
Proof.
  intros Hc Hl. eapply can_return_step; [by apply zs_done|]. eexists. split; [apply rtc_refl|]. intros z''.
  by apply loop_returned_stays.
Qed.

Lemma syncing_can_return routes : ∀ z, cancelled z = true → loop z = LoopSyncing routes → can_return z.
Proof.
  induction routes as [|r routes IH]; intros z Hc Hl.
  - eapply can_return_step; [by apply zs_synced|]. apply idle_can_return; [done|by left].
  - eapply can_return_step; [by apply (zs_sync _ true)|]. by apply IH.
Qed.

(** Once it is told to end, it always can: a dial may fail, and a
    synchronisation comes to its end. *)
Lemma loop_can_return z : cancelled z = true → can_return z.
Proof.
  assert (∀ z, cancelled z = true → loop z = LoopSync → can_return z) as Hsync.
  { intros z0 Hc Hl. eapply can_return_step; [by apply (zs_snapshot _ [])|]. by apply (syncing_can_return []). }
  intros Hc. destruct (loop z) as [| | | |routes| |] eqn:El.
  - apply idle_can_return; [done|by left].
  - eapply can_return_step; [by apply zs_dial_failed|]. apply idle_can_return; [done|by right].
  - eapply can_return_step; [by apply zs_connected|]. by apply Hsync.
  - by apply Hsync.
  - by apply (syncing_can_return routes).
  - apply idle_can_return; [done|by right].
  - exists z. split; [done|]. intros z''. by apply loop_returned_stays.
Qed.

(** The backoff passes its maximum of 30 seconds. *)
Lemma backoff_exceeds_max : ∃ z, zebra_reachable z ∧ maxBackoff < backoff z.
Proof.
  assert (∀ n, (n ≤ 5)%nat → ∃ c, zebra_reachable (MkZebraState c LoopIdle (2 ^ Z.of_nat n * Second) 0 0 false) ∧
    reconnectChan c = true) as Hgen.
  { induction n as [|n IH]; intros Hn; [eexists; split; [apply rtc_refl|done]|].
    destruct IH as (c & Hr & Ht); [lia|]. eexists. split; [|shelve].
    eapply rtc_r; [eapply rtc_r; [eapply rtc_r; [exact Hr|]|]|].
    - eexists. apply zs_take; done.
    - eexists. apply zs_dial_failed. done.
    - assert (next_backoff (2 ^ Z.of_nat n * Second) = 2 ^ Z.of_nat (S n) * Second) as E.
      { do 5 (destruct n as [|n]; [done|]). lia. }
      simpl. rewrite E. eexists. apply zs_wake. done.
    Unshelve. done. }
  destruct (Hgen 5%nat) as (c & Hr & _); [lia|]. eexists. split; [exact Hr|]. done.
Qed.

(** The client may connect after [Stop]: a token that is in the channel, or a
    dial under way, is not affected by it. *)
Lemma connected_after_stop : ∃ z k, zebra_reachable z ∧ cancelled z = true ∧ connected (client z) = true ∧
  conn (client z) = Some k ∧ conn_open k = true.
Proof.
  exists (MkZebraState (MkZAPIClient (Some (MkConn true [])) true false 0 0) LoopSync Second 0 0 true), (MkConn true []).
  split; [|done].
  eapply rtc_l; [eexists; apply zs_take; reflexivity|]. eapply rtc_l; [eexists; apply zs_stop|].
  eapply rtc_l; [eexists; apply zs_dialed; reflexivity|]. apply rtc_once. eexists. refine (zs_connected _ _). reflexivity.
Qed.

(** ** Witnesses *)

Lemma unicast_frame_spec_witness :
  (∃ f, buildUnicastRouteMessage ZebraRouteAdd (printed_prefix [10; 0; 0; 3] 32) (IP_String [10; 0; 0; 2]) 4 2 = Ok f ∧
     decode_route f = Some (MkZapiRoute 8 32 [10; 0; 0; 3] [10; 0; 0; 2] 4 2)) ∧
  buildUnicastRouteMessage ZebraRouteAdd (printed_prefix [10; 0; 0; 3] 32) (IP_String [10; 0; 0; 2]) (-1) 2 =
    Err "invalid interface index".
Proof.
  assert (is_ip4 [10; 0; 0; 3]) as H3 by (split; [done|]; repeat apply Forall_cons_2; try apply Forall_nil_2; unfold is_u8; lia).
  assert (is_ip4 [10; 0; 0; 2]) as H2 by (split; [done|]; repeat apply Forall_cons_2; try apply Forall_nil_2; unfold is_u8; lia).
  assert (is_u16 ZebraRouteAdd) as Hc by (unfold is_u16, ZebraRouteAdd; lia).
  split.
  - exact (unicast_frame_spec ZebraRouteAdd [10; 0; 0; 3] 32 [10; 0; 0; 2] 4 2 Hc H3 ltac:(lia) H2).
  - exact (unicast_frame_spec ZebraRouteAdd [10; 0; 0; 3] 32 [10; 0; 0; 2] (-1) 2 Hc H3 ltac:(lia) H2).
Defined.

(** The client after the first token is taken. *)
Lemma zebra_invariant_witness : ∃ z, loop z = LoopDialing ∧ zebra_inv z.
Proof.
  eexists. split; [|apply (zebra_invariant _)]; cycle 1.
  { apply rtc_once. eexists. apply zs_take; reflexivity. }
  reflexivity.
Defined.
