(* ===== verification/ZebraSync.v ===== *)
(** * Routes through Zebra (cmd/olsrd/daemon.go, internal/zebra/client.go)

    The engine, the queue of route events, the route installer and the Zebra
    client together: what the synchronization after a reconnection writes, and
    the order of writes that leaves a withdrawn route installed. *)

From S2P Require Import Prelude GoNet TimeVal Packet Events DiffSync Neighbor Topology Hna Heap Dijkstra Spf SpfSync Molsr Config Daemon Zebra ZebraFacts.

(** ** The daemon's side *)

(** The closure of [initializeComponents] that feeds [GetActiveUnicastRoutes]. *)
Definition route_info (r : Route) : UnicastRouteInfo :=
  MkUnicastRouteInfo (Prefix r) (NextHop r) (IfaceIndex r) (Metric r).

(** [handleUnicastAdd] and [handleUnicastDelete] when Zebra is used; multicast
    routes do not go through it. *)
Definition zapi_call (ok : bool) (c : ZAPIClient) (rc : RouterCall) : ZAPIClient :=
  match rc with
  | AddRoute prefix nextHop ifIndex metric => (AddUnicastRoute ok c prefix nextHop ifIndex metric).1
  | DeleteRoute prefix nextHop ifIndex => (DeleteUnicastRoute ok c prefix nextHop ifIndex).1
  | _ => c
  end.

Definition set_client (z : ZebraState) (c : ZAPIClient) : ZebraState :=
  MkZebraState c (loop z) (backoff z) (reading z) (lost z) (cancelled z).

Record Install := MkInstall {
  in_zebra : ZebraState;
  in_routes : gmap string Route;   (* the engine's active routes *)
  in_queue : list Event;           (* published and not yet read by the installer *)
}.

Section install.
Context {MO : MapOrder} (lk : nmLookup).

(** One step of the client, of the installer, or of the engine, which publishes
    under its lock. *)
Inductive install_step (s : Install) : Install → Prop :=
  | in_internal z' : zebra_step (in_zebra s) Internal z' →
      install_step s (MkInstall z' (in_routes s) (in_queue s))
  | in_snapshot p z' : zebra_step (in_zebra s) (GotActiveRoutes (route_info <$> GetRoutes p (in_routes s))) z' →
      install_step s (MkInstall z' (in_routes s) (in_queue s))
  | in_event ok p e q : in_queue s = e :: q →
      install_step s
        (MkInstall (set_client (in_zebra s) (foldl (zapi_call ok) (client (in_zebra s)) (routeInstallation p (in_routes s) e)))
           (in_routes s) q)
  | in_spf evs routes : spf_step lk (in_routes s) evs routes →
      install_step s
        (MkInstall (in_zebra s) routes (in_queue s ++ filter (λ e, ev_Type e = EventRouteInstall) evs)).

Definition install_reachable : Install → Prop := rtc install_step (MkInstall zebra_start ∅ []).
End install.

(** ** An undisturbed synchronization *)

(** The frame of a route, if it can be built. *)
Definition add_frame (r : UnicastRouteInfo) : option (list Z) :=
  match buildUnicastRouteMessage ZebraRouteAdd (ur_Prefix r) (ur_NextHop r) (ur_IfaceIndex r) (ur_Metric r) with
  | Ok f => Some f
  | _ => None
  end.

Lemma sync_route_frames r c k :
  connected c = true → conn c = Some k → conn_open k = true →
  let c' := sync_route true c r in
  connected c' = true ∧ conn c' = Some (MkConn true (frames k ++ option_list (add_frame r))).
Proof.
  intros Hc Hk Ho. unfold sync_route, AddUnicastRoute, add_frame. destruct k as [o fs]. simpl in Ho. subst o.
  destruct (buildUnicastRouteMessage _ _ _ _ _) as [f|e| |]; cbv zeta;
    [cbn [send_built]; unfold send; by rewrite Hc, Hk|by rewrite app_nil_r..].
Qed.

Lemma sync_frames rs c k :
  connected c = true → conn c = Some k → conn_open k = true →
  let c' := foldl (sync_route true) c rs in
  connected c' = true ∧ conn c' = Some (MkConn true (frames k ++ omap add_frame rs)).
Proof.
  revert c k. induction rs as [|r rs IH]; intros c k Hc Hk Ho; cbv zeta.
  - simpl. rewrite app_nil_r, Hc, Hk. destruct k. simpl in *. by subst.
  - destruct (sync_route_frames r c k Hc Hk Ho) as [Hc' Hk']. cbv zeta in *. cbn [foldl].
    destruct (IH _ _ Hc' Hk' eq_refl) as [H1 H2]. split; [done|]. rewrite H2. simpl. rewrite <-app_assoc.
    by destruct (add_frame r).
Qed.

(** A route in the form the engine builds: a printed IPv4 prefix and next hop,
    with an index and a metric that fit their fields. *)
Definition routable (r : Route) (z : ZapiRoute) : Prop :=
  ∃ ip n nh, is_ip4 ip ∧ 0 ≤ n ≤ 32 ∧ is_ip4 nh ∧ 0 ≤ IfaceIndex r < 2 ^ 32 ∧ 0 ≤ Metric r < 2 ^ 32 ∧
    Prefix r = printed_prefix ip n ∧ NextHop r = IP_String nh ∧
    z = MkZapiRoute ZebraRouteAdd n (take (Z.to_nat ((n + 7) `quot` 8)) ip) nh (IfaceIndex r) (Metric r).

Lemma add_frame_routable r z : routable r z → ∃ f, add_frame (route_info r) = Some f ∧ decode_route f = Some z.
Proof.
  intros (ip & n & nh & Hip & Hn & Hnh & Hi & Hm & Hp & Hh & ->).
  pose proof (unicast_frame ZebraRouteAdd ip n nh (IfaceIndex r) (Metric r) ltac:(done) Hip Hn Hnh) as H.
  destruct (Z.ltb_spec (IfaceIndex r) 0); [lia|]. destruct (Z.ltb_spec (Metric r) 0); [lia|].
  destruct H as (f & Hf & Hd). exists f. unfold add_frame, route_info. simpl. rewrite Hp, Hh, Hf. split; [done|].
  rewrite Hd. unfold u32. by rewrite !Z.mod_small by lia.
Qed.

(** The relation of a table and the reading of its frames. *)
Lemma omap_routable rs zs : Forall2 routable rs zs →
  decode_route <$> omap add_frame (route_info <$> rs) = Some <$> zs.
Proof.
  induction 1 as [|r z rs zs (f & Hf & Hd)%add_frame_routable _ IH]; [done|].
  cbn [fmap list_fmap omap list_omap]. rewrite Hf. cbn. by rewrite Hd, IH.
Qed.

(** The steps of an undisturbed synchronization. *)
Lemma sync_steps lk `{MapOrder} rs c b n l x routes q :
  rtc (install_step lk) (MkInstall (MkZebraState c (LoopSyncing rs) b n l x) routes q)
    (MkInstall (MkZebraState (foldl (sync_route true) c rs) LoopIdle b (S n) l x) routes q).
Proof.
  revert c. induction rs as [|r rs IH]; intros c.
  - apply rtc_once. by apply in_internal, (zs_synced (MkZebraState c (LoopSyncing []) b n l x)).
  - eapply rtc_l; [|apply IH]. by apply in_internal, (zs_sync (MkZebraState c (LoopSyncing (r :: rs)) b n l x) true r rs).
Qed.

(** The client's invariant holds in the whole system. *)
Lemma zapi_call_inv ok rc z : zebra_inv z → zebra_inv (set_client z (zapi_call ok (client z) rc)).
Proof.
  destruct z as [c l b r n x], rc; try done; apply send_built_inv.
Qed.

Lemma install_inv lk `{MapOrder} s : install_reachable lk s → zebra_inv (in_zebra s).
Proof.
  apply (rtc_ind_r (λ s, zebra_inv (in_zebra s))); [apply (zebra_inv_start)|].
  intros s1 s2 _ Hs IH. destruct Hs as [z' Hz|p z' Hz|ok p e q _|]; simpl; [by eapply zebra_step_inv..| |done].
  generalize (routeInstallation p (in_routes s1) e). revert IH. generalize (in_zebra s1). intros z Hz calls.
  revert z Hz. induction calls as [|rc calls IH]; intros z Hz; [by destruct z|].
  apply (IH (set_client z (zapi_call ok (client z) rc))). by apply zapi_call_inv.
Qed.

(** Synchronization.  From a state of the daemon in which the client has
    just connected, the synchronization can run to its end, and when no other
    step comes between and no write fails it has written exactly one frame for
    each active route: the frames after those of the connection read back as
    the routes of the table, in some iteration order. *)
Theorem sync_installs_active lk `{MapOrder} s k p zs :
  install_reachable lk s → loop (in_zebra s) = LoopSync → connected (client (in_zebra s)) = true →
  conn (client (in_zebra s)) = Some k → cancelled (in_zebra s) = false →
  Forall2 routable (GetRoutes p (in_routes s)) zs →
  ∃ s' fs, rtc (install_step lk) s s' ∧ loop (in_zebra s') = LoopIdle ∧
    in_routes s' = in_routes s ∧ in_queue s' = in_queue s ∧
    conn (client (in_zebra s')) = Some (MkConn true (frames k ++ fs)) ∧ decode_route <$> fs = Some <$> zs.
Proof.
  intros Hr Hl Hc Hk Hx Hz. apply install_inv in Hr as [_ _ Ho _].
  destruct (Ho Hc) as (k' & Hk' & Hopen). rewrite Hk in Hk'. injection Hk' as <-.
  destruct s as [[c l b n w x] routes q]. simpl in *. subst.
  destruct (sync_frames (route_info <$> GetRoutes p routes) c k Hc Hk (Hopen eq_refl)) as [Hc' Hf]. cbv zeta in *.
  exists (MkInstall (MkZebraState (foldl (sync_route true) c (route_info <$> GetRoutes p routes)) LoopIdle b (S n) w false) routes q),
    (omap add_frame (route_info <$> GetRoutes p routes)).
  split; [|repeat split; [exact Hf|by apply omap_routable]].
  eapply rtc_l; [|apply sync_steps].
  by apply (in_snapshot _ (MkInstall (MkZebraState c LoopSync b n w false) routes q) p), zs_snapshot.
Qed.

(** ** The order of writes *)

Definition lk_1 : nmLookup := MkLookup "10.0.0.1" (λ _, 4).

(** The neighbor 10.0.0.2 of the router 10.0.0.1, before and after it is gone. *)
Definition nm_before : NeighborManager :=
  (@ProcessHello canonical_order [] Second Second (NewNeighborManager "10.0.0.1") [10; 0; 0; 2] [10; 0; 0; 2]
     (MkHelloMessage Second 3 []) (6 * Second)).1.
Definition nm_after : NeighborManager := (@Neighbor.AgeOut canonical_order [] (100 * Second) (100 * Second) nm_before).1.1.

Definition route_2 : Route := MkRoute "10.0.0.2/32" "10.0.0.2" 1 4.

Definition add_2 : ZapiRoute := MkZapiRoute ZebraRouteAdd 32 [10; 0; 0; 2] [10; 0; 0; 2] 4 1.
Definition delete_2 : ZapiRoute := MkZapiRoute ZebraRouteDelete 32 [10; 0; 0; 2] [10; 0; 0; 2] 4 0.

Definition event_2 (action : string) : Event := MkEvent EventRouteInstall (DataRoute action route_2).

Definition spf_event (n : Z) : Event := MkEvent EventSPFTrigger (DataSPF (Duration_Seconds 0) n).

Lemma spf_learns_2 : @spf_step canonical_order lk_1 ∅ [event_2 "add"; spf_event 1] {["10.0.0.2/32" := route_2]}.
Proof.
  apply (@spf_run canonical_order lk_1 [] Second 0 ∅ nm_before NewTopologyManager NewHNAManager). vm_compute. reflexivity.
Qed.

Lemma spf_forgets_2 : @spf_step canonical_order lk_1 {["10.0.0.2/32" := route_2]} [event_2 "delete"; spf_event 0] ∅.
Proof.
  apply (@spf_run canonical_order lk_1 [] (100 * Second) 0 _ nm_after NewTopologyManager NewHNAManager). vm_compute. reflexivity.
Qed.

(** The client, connected for the first time, after one frame that was not sent. *)
Definition client_up (frames : list (list Z)) : ZAPIClient :=
  MkZAPIClient (Some (MkConn true frames)) true false (Z.of_nat (length frames)) 1.

(** The route is learned while the client is down and its event is lost; the
    client connects. *)
Lemma install_connected : @install_reachable canonical_order lk_1
  (MkInstall (MkZebraState (client_up []) LoopSync Second 0 0 false) {["10.0.0.2/32" := route_2]} []).
Proof.
  eapply rtc_l; [apply in_spf, spf_learns_2|]. eapply rtc_l; [apply (in_event _ _ true [] (event_2 "add") []); reflexivity|].
  eapply rtc_l; [apply in_internal, zs_take; reflexivity|]. eapply rtc_l; [apply in_internal, zs_dialed; reflexivity|].
  apply rtc_once. refine (in_internal _ _ _ (zs_connected _ _)). reflexivity.
Qed.

Definition frame_of (r : res (list Z)) : list Z := match r with Ok f => f | _ => [] end.
Definition add_frame_2 : list Z := frame_of (buildUnicastRouteMessage ZebraRouteAdd "10.0.0.2/32" "10.0.0.2" 4 1).
Definition delete_frame_2 : list Z := frame_of (buildUnicastRouteMessage ZebraRouteDelete "10.0.0.2/32" "10.0.0.2" 4 0).

(** The route is withdrawn, and its deletion sent, between the call of
    [GetActiveUnicastRoutes] and the write of the route. *)
Lemma install_stale : @install_reachable canonical_order lk_1
  (MkInstall (MkZebraState (client_up [delete_frame_2; add_frame_2]) LoopIdle Second 1 0 false) ∅ []).
Proof.
  unfold install_reachable. etrans; [exact install_connected|].
  eapply rtc_l; [apply (in_snapshot _ _ []), zs_snapshot; reflexivity|]. eapply rtc_l; [apply in_spf, spf_forgets_2|].
  eapply rtc_l; [apply (in_event _ _ true [] (event_2 "delete") []); reflexivity|].
  eapply rtc_l; [apply in_internal, (zs_sync _ true (route_info route_2) []); reflexivity|].
  apply rtc_once. refine (in_internal _ _ _ (zs_synced _ _)). reflexivity.
Qed.

(** C40. A withdrawn route.  The daemon can come to rest with no active route and
    no event left, the client connected and its loop idle, while the last of
    the two frames it has written to Zebra adds a route: the synchronization
    wrote the route after its deletion. *)
Theorem stale_route_after_sync : ∃ s k d a,
  @install_reachable canonical_order lk_1 s ∧ in_routes s = ∅ ∧ in_queue s = [] ∧ loop (in_zebra s) = LoopIdle ∧
  connected (client (in_zebra s)) = true ∧ conn (client (in_zebra s)) = Some k ∧ conn_open k = true ∧
  frames k = [d; a] ∧ decode_route d = Some delete_2 ∧ decode_route a = Some add_2.
Proof.
  eexists _, _, delete_frame_2, add_frame_2. split; [exact install_stale|]. repeat split; vm_compute; reflexivity.
Qed.

(** ** Witness *)

Lemma sync_installs_active_witness : ∃ s' fs, loop (in_zebra s') = LoopIdle ∧
  conn (client (in_zebra s')) = Some (MkConn true fs) ∧ decode_route <$> fs = [Some add_2].
Proof.
  assert (routable route_2 add_2) as Hr.
  { exists [10; 0; 0; 2], 32, [10; 0; 0; 2].
    assert (is_ip4 [10; 0; 0; 2]) as H2 by (split; [done|]; repeat apply Forall_cons_2; try apply Forall_nil_2; unfold is_u8; lia).
    split; [exact H2|]. split; [lia|]. split; [exact H2|]. repeat split; vm_compute; (reflexivity || discriminate). }
  assert (Forall2 routable (@GetRoutes canonical_order [] {["10.0.0.2/32" := route_2]}) [add_2]) as Hrs.
  { assert (@GetRoutes canonical_order [] {["10.0.0.2/32" := route_2]} = [route_2]) as -> by (vm_compute; reflexivity).
    constructor; [exact Hr|constructor]. }
  destruct (@sync_installs_active lk_1 canonical_order _ (MkConn true []) [] [add_2] install_connected)
    as (s' & fs & _ & Hl & _ & _ & Hc & Hd); [reflexivity..|exact Hrs|].
  exists s', fs. split; [exact Hl|]. split; [exact Hc|exact Hd].
Defined.
