(* ===== verification/Effects.v ===== *)
(** * State, errors and calls to the system

    Code that changes a state, fails with an error and keeps the changes made
    before the failure, and calls the operating system: a computation maps a
    state to a state and a result.  [keeps P] says that a computation preserves
    [P] however it ends. *)

From S2P Require Import Prelude.

Definition eff (S A : Type) : Type := S → S * res A.

Definition eff_ret {S A} (a : A) : eff S A := λ s, (s, Ok a).
Definition eff_res {S A} (r : res A) : eff S A := λ s, (s, r).
Definition eff_bind {S A B} (m : eff S A) (k : A → eff S B) : eff S B := λ s,
  match m s with
  | (s, Ok a) => k a s
  | (s, Err e) => (s, Err e)
  | (s, Panic) => (s, Panic)
  | (s, Diverge) => (s, Diverge)
  end.
Definition eff_get {S A} (f : S → A) : eff S A := λ s, (s, Ok (f s)).
Definition eff_mod {S} (f : S → S) : eff S unit := λ s, (f s, Ok tt).

Declare Scope eff_scope.
Delimit Scope eff_scope with eff.
Notation "x ←! m ; k" := (eff_bind m (λ x, k)) (at level 20, m at level 100, k at level 200, only parsing) : eff_scope.
Notation "m ;; k" := (eff_bind m (λ _, k)) (at level 100, k at level 200, right associativity) : eff_scope.

(** [for _, x := range l { f(x) }] with the loop's variable threaded through. *)
Fixpoint eff_fold {S A B} (f : B → A → eff S B) (b : B) (l : list A) : eff S B :=
  match l with
  | [] => eff_ret b
  | x :: l => eff_bind (f b x) (λ b, eff_fold f b l)
  end.

(** ** What computations preserve *)

Definition keeps {S A} (P : S → Prop) (m : eff S A) : Prop := ∀ s, P s → P (m s).1.

Section keeps.
Context {S : Type} (P : S → Prop).

Lemma keeps_ret {A} (a : A) : keeps P (eff_ret a).
Proof. by intros s. Qed.

Lemma keeps_res {A} (r : res A) : keeps P (eff_res r).
Proof. by intros s. Qed.

Lemma keeps_get {A} (f : S → A) : keeps P (eff_get f).
Proof. by intros s. Qed.

Lemma keeps_mod (f : S → S) : (∀ s, P s → P (f s)) → keeps P (eff_mod f).
Proof. intros Hf s. apply Hf. Qed.

Lemma keeps_bind {A B} (m : eff S A) (k : A → eff S B) :
  keeps P m → (∀ a, keeps P (k a)) → keeps P (eff_bind m k).
Proof.
  intros Hm Hk s Hs. specialize (Hm s Hs). unfold eff_bind.
  destruct (m s) as [s' [a|e| |]]; simpl in *; [by apply Hk|done..].
Qed.

Lemma keeps_fold {A B} (f : B → A → eff S B) l : (∀ b x, keeps P (f b x)) → ∀ b, keeps P (eff_fold f b l).
Proof.
  intros Hf. induction l as [|x l IH]; intros b; [apply keeps_ret|]. by apply keeps_bind.
Qed.
End keeps.

Create HintDb eff.
#[export] Hint Resolve keeps_ret keeps_res keeps_get keeps_mod keeps_bind keeps_fold : eff.

(** A sequence that succeeds: each part does. *)
Lemma eff_bind_Ok {S A B} (m : eff S A) (k : A → eff S B) s s' b :
  eff_bind m k s = (s', Ok b) ↔ ∃ s1 a, m s = (s1, Ok a) ∧ k a s1 = (s', Ok b).
Proof.
  unfold eff_bind. destruct (m s) as [s1 [a|e| |]]; naive_solver.
Qed.

(** One step of a sequence whose first part is known. *)
Lemma eff_bind_ok {S A B} (m : eff S A) (k : A → eff S B) s s' a :
  m s = (s', Ok a) → eff_bind m k s = k a s'.
Proof. unfold eff_bind. by intros ->. Qed.

Lemma eff_bind_err {S A B} (m : eff S A) (k : A → eff S B) s s' e :
  m s = (s', Err e) → eff_bind m k s = (s', Err e).
Proof. unfold eff_bind. by intros ->. Qed.

(** ** Computations that return or fail with an error *)

Definition returned {A} (r : res A) : Prop := match r with Ok _ | Err _ => True | _ => False end.

Definition returns {S A} (m : eff S A) : Prop := ∀ s, returned (m s).2.

Section returns.
Context {S : Type}.

Lemma returns_ret {A} (a : A) : returns (S := S) (eff_ret a).
Proof. by intros s. Qed.

Lemma returns_res {A} (r : res A) : returned r → returns (S := S) (eff_res r).
Proof. by intros Hr s. Qed.

Lemma returns_get {A} (f : S → A) : returns (eff_get f).
Proof. by intros s. Qed.

Lemma returns_mod (f : S → S) : returns (eff_mod f).
Proof. by intros s. Qed.

Lemma returns_bind {A B} (m : eff S A) (k : A → eff S B) :
  returns m → (∀ a, returns (k a)) → returns (eff_bind m k).
Proof.
  intros Hm Hk s. specialize (Hm s). unfold eff_bind.
  destruct (m s) as [s' [a|e| |]]; simpl in *; [apply Hk|done..].
Qed.

Lemma returns_fold {A B} (f : B → A → eff S B) l : (∀ b x, returns (f b x)) → ∀ b, returns (eff_fold f b l).
Proof. intros Hf. induction l as [|x l IH]; intros b; [apply returns_ret|]. by apply returns_bind. Qed.
End returns.

#[export] Hint Resolve returns_ret returns_res returns_get returns_mod returns_bind returns_fold : eff.
