(* ===== verification/GoStrings.v ===== *)
(** * The parts of Go's [strings] package the daemon calls

    A string is its bytes.  On ASCII strings [ToLower] and [Fields] are computed
    here; beyond ASCII they follow the tables of the [unicode] package, which
    are the class [GoUnicode]. *)

From Stdlib Require Import Ascii.
From S2P Require Import Prelude GoNet.
Local Open Scope string_scope.
Local Open Scope list_scope.
Local Open Scope Z_scope.

Class GoUnicode := {
  unicode_ToLower : string → string;
  unicode_Fields : string → list string;
}.

Fixpoint is_ascii (s : string) : bool :=
  match s with "" => true | String c s => (nat_of_ascii c <? 128)%nat && is_ascii s end.

(** The parts of [s] between the characters that satisfy [f]. *)
Fixpoint split_by (f : ascii → bool) (s : string) : list string :=
  match s with
  | "" => [""]
  | String c s =>
      if f c then "" :: split_by f s
      else match split_by f s with x :: l => String c x :: l | [] => [String c ""] end
  end.

(** [strings.Split(s, sep)] for a separator of one character *)
Definition Split (s : string) (sep : ascii) : list string := split_by (λ c, is_char c sep) s.

(** [strings.Join(l, sep)] *)
Fixpoint Join (l : list string) (sep : string) : string :=
  match l with
  | [] => ""
  | [x] => x
  | x :: l => x +:+ sep +:+ Join l sep
  end.

Definition ascii_lower (c : ascii) : ascii :=
  if ((65 <=? nat_of_ascii c) && (nat_of_ascii c <=? 90))%nat then ascii_of_nat (nat_of_ascii c + 32) else c.

Fixpoint map_string (f : ascii → ascii) (s : string) : string :=
  match s with "" => "" | String c s => String (f c) (map_string f s) end.

(** The bytes that [strings.Fields] takes for white space. *)
Definition ascii_space (c : ascii) : bool :=
  ((9 <=? nat_of_ascii c) && (nat_of_ascii c <=? 13) || (nat_of_ascii c =? 32))%nat.

Section strings.
Context {U : GoUnicode}.

Definition ToLower (s : string) : string := if is_ascii s then map_string ascii_lower s else unicode_ToLower s.

Definition Fields (s : string) : list string :=
  if is_ascii s then filter (λ x, x ≠ "") (split_by ascii_space s) else unicode_Fields s.
End strings.

(** [strings.ReplaceAll(s, c, )] with the empty string, for one character *)
Fixpoint remove_char (d : ascii) (s : string) : string :=
  match s with "" => "" | String c s => if is_char c d then remove_char d s else String c (remove_char d s) end.

Fixpoint has_char (d : ascii) (s : string) : bool :=
  match s with "" => false | String c s => is_char c d || has_char d s end.

(** ** Lemmas *)

Lemma split_by_nonempty f s : split_by f s ≠ [].
Proof. destruct s as [|c s]; [done|]. simpl. destruct (f c); [done|]. by destruct (split_by f s). Qed.

(** The first part and the rest. *)
Lemma Split_split_at s sep :
  Split s sep = match split_at sep s with Some (a, b) => a :: Split b sep | None => [s] end.
Proof.
  unfold Split. induction s as [|c s IH]; [done|]. simpl. destruct (is_char c sep); [done|].
  rewrite IH. by destruct (split_at sep s) as [[a b]|].
Qed.

Lemma remove_char_spec d s : has_char d (remove_char d s) = false.
Proof. induction s as [|c s IH]; [done|]. simpl. destruct (is_char c d) eqn:E; [done|]. simpl. by rewrite E. Qed.

Lemma remove_char_keeps d e s : has_char e s = false → has_char e (remove_char d s) = false.
Proof.
  induction s as [|c s IH]; [done|]. simpl. intros [H1 H2]%orb_false_iff.
  destruct (is_char c d); [by apply IH|]. simpl. by rewrite H1, IH.
Qed.

Lemma remove_char_id d s : has_char d s = false → remove_char d s = s.
Proof. induction s as [|c s IH]; [done|]. simpl. intros [-> H]%orb_false_iff. by rewrite IH. Qed.

Lemma has_char_app d s t : has_char d (s +:+ t) = has_char d s || has_char d t.
Proof. induction s as [|c s IH]; [done|]. rewrite str_app_cons. simpl. by rewrite IH, orb_assoc. Qed.

Lemma split_at_None d s : has_char d s = false → split_at d s = None.
Proof. induction s as [|c s IH]; [done|]. simpl. intros [-> H]%orb_false_iff. by rewrite IH. Qed.

Section printed.
Context (c : ascii) (Hdigit : char_digit c = None) (Hdot : c ≠ "."%char).

Lemma has_char_digit d : 0 ≤ d < 10 → has_char c (digit d) = false.
Proof using Hdigit. intros Hd. unfold digit. simpl. by rewrite is_char_false_digit. Qed.

Lemma has_char_octet x : is_u8 x → has_char c (appendDecimal x) = false.
Proof using Hdigit.
  unfold is_u8. intros Hx. unfold appendDecimal.
  assert (0 ≤ x `div` 100 < 10) by (split; [apply Z.div_pos; lia|apply Z.div_lt_upper_bound; lia]).
  pose proof (Z.mod_pos_bound x 10 ltac:(lia)). pose proof (Z.mod_pos_bound (x `div` 10) 10 ltac:(lia)).
  rewrite !has_char_app. destruct (100 <=? x), (10 <=? x); rewrite ?has_char_digit by lia; done.
Qed.

Lemma has_char_dotted ip : is_ip4 ip → has_char c (dotted ip) = false.
Proof using Hdigit Hdot.
  intros (x & y & z & w & -> & Hx & Hy & Hz & Hw)%is_ip4_inv. unfold dotted.
  assert (has_char c "." = false) as Hd.
  { cbn [has_char]. rewrite orb_false_r. unfold is_char. apply Ascii.eqb_neq. congruence. }
  by rewrite !has_char_app, Hd, !has_char_octet by done.
Qed.
End printed.

(** A printed pair of addresses splits at its colon. *)
Lemma Split_printed_pair s g : is_ip4 s → is_ip4 g →
  Split (IP_String s +:+ ":" +:+ IP_String g) ":"%char = [IP_String s; IP_String g].
Proof.
  intros Hs Hg. rewrite !IP_String_ip4 by done. change (":" +:+ dotted g) with (String ":"%char (dotted g)).
  rewrite Split_split_at, split_at_dotted by done. f_equal.
  by rewrite Split_split_at, split_at_None by (by apply has_char_dotted).
Qed.

Lemma printed_pair_inj s g s' g' : is_ip4 s → is_ip4 s' → is_ip4 g → is_ip4 g' →
  IP_String s +:+ ":" +:+ IP_String g = IP_String s' +:+ ":" +:+ IP_String g' → (s, g) = (s', g').
Proof.
  intros Hs Hs' Hg Hg' E. apply (f_equal (λ x, Split x ":"%char)) in E.
  rewrite !Split_printed_pair in E by done. injection E as E1 E2.
  apply IP_String_inj in E1, E2; [congruence|done..].
Qed.
