(* ===== verification/Mroute.v ===== *)
(** * Multicast routers (internal/mroute/mroute.go, mroute_linux.go, mroute_vtysh.go)

    The kernel router of the standalone daemon, with its numbering of virtual
    interfaces and the structures it hands to setsockopt, and the router that
    configures FRR through vtysh.  Whether a system call or a command succeeds
    is decided by the system, from everything it was asked before; a router
    keeps the log of what it asked. *)

From S2P Require Import Prelude GoNet Effects.

(** [int32(z)] *)
Definition i32 (z : Z) : Z := (z + 2 ^ 31) `mod` 2 ^ 32 - 2 ^ 31.

(** ** The kernel router *)

Definition MRT_INIT : Z := 200.
Definition MRT_ADD_VIF : Z := 202.
Definition MRT_ADD_MFC : Z := 204.
Definition MRT_DEL_MFC : Z := 205.
Definition VIFF_USE_IFINDEX : Z := 8.

Record vifctl := MkVifctl {
  vifc_vifi : Z;
  vifc_flags : Z;
  vifc_threshold : Z;
  vifc_rate_limit : Z;
  vifc_lcl_ifindex : Z;
  vifc_rmt_addr : list Z;
}.

Record mfcctl := MkMfcctl {
  mfcc_origin : list Z;
  mfcc_mcastgrp : list Z;
  mfcc_parent : Z;
  mfcc_ttls : list Z;
  mfcc_pkt_cnt : Z;
  mfcc_byte_cnt : Z;
  mfcc_wrong_if : Z;
  mfcc_expire : Z;
}.

(** The system calls: [unix.Socket], [unix.Close], and setsockopt with an
    integer or one of the structures. *)
Inductive SysCall :=
  | Socket
  | CloseSocket
  | SetsockoptInt (opt val : Z)
  | SetsockoptVif (opt : Z) (vc : vifctl)
  | SetsockoptMfc (opt : Z) (mc : mfcctl).

Notation SysLog := (list (SysCall * bool)).

(** The answers of the system: success, and the descriptor of a new socket. *)
Class Kernel := {
  succeeds : SysLog → SysCall → bool;
  newfd : SysLog → Z;
  newfd_nonneg log : 0 ≤ newfd log;
}.

Record LinuxMulticastRouter := MkLinuxRouter {
  fd : Z;
  vifMap : gmap Z Z;      (* interface index to VIF index *)
  nextVif : Z;
  sysLog : SysLog;
}.

Definition NewLinuxMulticastRouter : LinuxMulticastRouter := MkLinuxRouter (-1) ∅ 0 [].

Definition set_fd (x : Z) (r : LinuxMulticastRouter) := MkLinuxRouter x (vifMap r) (nextVif r) (sysLog r).
Definition set_vifMap (x : gmap Z Z) (r : LinuxMulticastRouter) := MkLinuxRouter (fd r) x (nextVif r) (sysLog r).
Definition set_nextVif (x : Z) (r : LinuxMulticastRouter) := MkLinuxRouter (fd r) (vifMap r) x (sysLog r).
Definition set_sysLog (x : SysLog) (r : LinuxMulticastRouter) := MkLinuxRouter (fd r) (vifMap r) (nextVif r) x.

Section linux.
Context {K : Kernel}.

Notation mr A := (eff LinuxMulticastRouter A).

Definition syscall (c : SysCall) : mr bool := λ r,
  let ok := succeeds (sysLog r) c in (set_sysLog (sysLog r ++ [(c, ok)]) r, Ok ok).

Definition mroute_Start : mr unit := (
  f ←! eff_get fd;
  if negb (f =? -1) then eff_ret tt
  else
    ok ←! syscall Socket;
    if negb ok then eff_res (Err "failed to open raw IGMP socket")
    else
      f ←! eff_get (λ r, newfd (sysLog r));
      ok ←! syscall (SetsockoptInt MRT_INIT 1);
      if negb ok then syscall CloseSocket ;; eff_res (Err "failed to initialize multicast routing")
      else eff_mod (set_fd f))%eff.

Definition mroute_Stop : mr unit := (
  f ←! eff_get fd;
  if f =? -1 then eff_ret tt
  else syscall CloseSocket ;; eff_mod (λ r, set_nextVif 0 (set_vifMap ∅ (set_fd (-1) r))))%eff.

(** [nextVif] advances before the index is validated and the system is asked. *)
Definition registerVif (ifindex : Z) : mr Z := (
  m ←! eff_get vifMap;
  match m !! ifindex with
  | Some vif => eff_ret vif
  | None =>
      vif ←! eff_get nextVif;
      if 32 <=? vif then eff_res (Err "maximum number of virtual interfaces (32) reached")
      else
        eff_mod (set_nextVif (u16 (vif + 1))) ;;
        if ifindex <? 0 then eff_res (Err "invalid interface index")
        else
          ok ←! syscall (SetsockoptVif MRT_ADD_VIF (MkVifctl vif VIFF_USE_IFINDEX 1 0 (i32 ifindex) [0; 0; 0; 0]));
          if negb ok then eff_res (Err "failed to add VIF")
          else eff_mod (λ r, set_vifMap (<[ifindex := vif]> (vifMap r)) r) ;; eff_ret vif
  end)%eff.

(** [ttls[oifVif] = 1] on the array of 32 *)
Definition set_ttl (ttls : list Z) (vif : Z) : res (list Z) :=
  if (0 <=? vif) && (vif <? Z.of_nat (length ttls)) then Ok (<[Z.to_nat vif := 1]> ttls) else Panic.

(** The loop body over the outgoing interfaces. *)
Definition oif_vif (ttls : list Z) (oif : Z) : mr (list Z) := (
  vif ←! registerVif oif;
  eff_res (set_ttl ttls vif))%eff.

Definition zero_mfc (src grp : IP) (parent : Z) (ttls : list Z) : mfcctl :=
  MkMfcctl src grp parent ttls 0 0 0 0.

Definition linux_AddMulticastRoute (srcIP grpIP : string) (iif : Z) (oifs : list Z) : mr unit := (
  f ←! eff_get fd;
  if f =? -1 then eff_res (Err "multicast router not started")
  else match To4 (default [] (ParseIP srcIP)), To4 (default [] (ParseIP grpIP)) with
  | Some src, Some grp =>
      parentVif ←! registerVif iif;
      ttls ←! eff_fold oif_vif (replicate 32 0) oifs;
      ok ←! syscall (SetsockoptMfc MRT_ADD_MFC (zero_mfc src grp parentVif ttls));
      if negb ok then eff_res (Err "failed to add multicast forwarding cache entry") else eff_ret tt
  | _, _ => eff_res (Err "invalid IPv4 addresses")
  end)%eff.

Definition linux_DeleteMulticastRoute (srcIP grpIP : string) (iif : Z) (oifs : list Z) : mr unit := (
  f ←! eff_get fd;
  if f =? -1 then eff_res (Err "multicast router not started")
  else match To4 (default [] (ParseIP srcIP)), To4 (default [] (ParseIP grpIP)) with
  | Some src, Some grp =>
      m ←! eff_get vifMap;
      match m !! iif with
      | None => eff_ret tt
      | Some parentVif =>
          ok ←! syscall (SetsockoptMfc MRT_DEL_MFC (zero_mfc src grp parentVif (replicate 32 0)));
          if negb ok then eff_res (Err "failed to delete multicast forwarding cache entry") else eff_ret tt
      end
  | _, _ => eff_res (Err "invalid IPv4 addresses")
  end)%eff.
End linux.

(** ** The vtysh router *)

Notation CmdLog := (list (list string * bool)).

(** What running a command gives, after the commands run before, and the name
    of an interface index ([net.InterfaceByIndex]). *)
Class Shell := {
  exits_zero : CmdLog → list string → bool;
  ifname : Z → option string;
}.

Record VTYSHMulticastRouter := MkVtyshRouter {
  v_interfaces : list string;
  v_log : CmdLog;
}.

Definition NewVTYSHMulticastRouter (interfaces : list string) : VTYSHMulticastRouter := MkVtyshRouter interfaces [].

Section vtysh.
Context {Sh : Shell}.

Notation vr A := (eff VTYSHMulticastRouter A).

Definition execCommand (argv : list string) : vr bool := λ r,
  let ok := exits_zero (v_log r) argv in (MkVtyshRouter (v_interfaces r) (v_log r ++ [(argv, ok)]), Ok ok).

Definition vtysh_argv (iface cmd : string) : list string :=
  ["vtysh"; "-c"; "configure terminal"; "-c"; "interface " +:+ iface; "-c"; cmd].

(** [fmt.Sprintf("ip mroute %s %s %s", oifName, grpIP, srcIP)] and the [no] form. *)
Definition mroute_cmd (no : bool) (oif grp src : string) : string :=
  (if no then "no ip mroute " else "ip mroute ") +:+ oif +:+ " " +:+ grp +:+ " " +:+ src.

(** A failure to enable PIM is only logged. *)
Definition enable_pim (_ : unit) (iface : string) : vr unit := (
  execCommand (vtysh_argv iface "ip pim") ;; eff_ret tt)%eff.

Definition vtysh_Start : vr unit := (
  ifs ←! eff_get v_interfaces;
  eff_fold enable_pim tt ifs)%eff.

(** Indices without a name are skipped; no index at all stands for "lo". *)
Definition oif_names (oifs : list Z) : list string :=
  match oifs with [] => ["lo"] | _ => omap ifname oifs end.

Definition add_oif (iif grp src : string) (_ : unit) (oif : string) : vr unit := (
  enable_pim tt iif ;;
  (if bool_decide (oif = iif) then eff_ret tt else enable_pim tt oif) ;;
  ok ←! execCommand (vtysh_argv iif (mroute_cmd false oif grp src));
  if negb ok then eff_res (Err "failed to run vtysh to add mroute") else eff_ret tt)%eff.

Definition delete_oif (iif grp src : string) (_ : unit) (oif : string) : vr unit := (
  ok ←! execCommand (vtysh_argv iif (mroute_cmd true oif grp src));
  if negb ok then eff_res (Err "failed to run vtysh to delete mroute") else eff_ret tt)%eff.

Definition vtysh_AddMulticastRoute (srcIP grpIP : string) (iif : Z) (oifs : list Z) : vr unit :=
  match ifname iif with
  | None => eff_res (Err "failed to resolve IIF name")
  | Some iifName => eff_fold (add_oif iifName grpIP srcIP) tt (oif_names oifs)
  end.

Definition vtysh_DeleteMulticastRoute (srcIP grpIP : string) (iif : Z) (oifs : list Z) : vr unit :=
  match ifname iif with
  | None => eff_res (Err "failed to resolve IIF name")
  | Some iifName => eff_fold (delete_oif iifName grpIP srcIP) tt (oif_names oifs)
  end.
End vtysh.

(** [NewMulticastRouter] on Linux *)
Definition NewMulticastRouter (standalone : bool) (interfaces : list string)
    : VTYSHMulticastRouter + LinuxMulticastRouter :=
  if standalone then inr NewLinuxMulticastRouter else inl (NewVTYSHMulticastRouter interfaces).
