(* ===== verification/MrouteFacts.v ===== *)
(** * Correctness of the multicast routers (internal/mroute/mroute_linux.go, mroute_vtysh.go)

    The kernel's forwarding cache and interface table as the successful system
    calls of the log make them, the bounds and the invariant of the interface
    numbering, what adding and deleting a route does to the cache, and the
    static routes the vtysh commands leave configured. *)

From S2P Require Import Prelude GoNet Effects Mroute.

(** ** The kernel's tables *)

Record KernelMrt := MkKernelMrt {
  kvifs : gmap Z Z;                          (* VIF index to interface index *)
  kmfc : gmap (IP * IP) (Z * list Z);        (* origin and group to parent and TTLs *)
}.

Definition empty_mrt : KernelMrt := MkKernelMrt ∅ ∅.

(** A successful call acts on the tables; closing the socket clears them. *)
Definition mrt_apply (k : KernelMrt) (e : SysCall * bool) : KernelMrt :=
  match e with
  | (CloseSocket, _) => empty_mrt
  | (SetsockoptVif opt vc, true) =>
      if opt =? MRT_ADD_VIF then MkKernelMrt (<[vifc_vifi vc := vifc_lcl_ifindex vc]> (kvifs k)) (kmfc k) else k
  | (SetsockoptMfc opt mc, true) =>
      let key := (mfcc_origin mc, mfcc_mcastgrp mc) in
      if opt =? MRT_ADD_MFC then MkKernelMrt (kvifs k) (<[key := (mfcc_parent mc, mfcc_ttls mc)]> (kmfc k))
      else if opt =? MRT_DEL_MFC then MkKernelMrt (kvifs k) (delete key (kmfc k)) else k
  | _ => k
  end.

Definition mrt (r : LinuxMulticastRouter) : KernelMrt := foldl mrt_apply empty_mrt (sysLog r).

(** ** Numberings and TTL arrays *)

(** The numbers below [n] are given to distinct, valid interface indices. *)
Definition numbering (n : Z) (m : gmap Z Z) : Prop :=
  (∀ i v, m !! i = Some v → 0 ≤ i ∧ 0 ≤ v < n) ∧
  (∀ i j v, m !! i = Some v → m !! j = Some v → i = j).

(** The TTL array forwards to the interfaces [oifs]. *)
Definition ttls_for (m : gmap Z Z) (ttls : list Z) (oifs : gset Z) : Prop :=
  length ttls = 32%nat ∧
  (∀ j, j ∈ oifs ↔ ∃ v, m !! j = Some v ∧ ttls !! Z.to_nat v = Some 1) ∧
  (∀ n x, ttls !! n = Some x → x = 0 ∨ x = 1 ∧ ∃ j, m !! j = Some (Z.of_nat n)).

Lemma ttls_for_extend n m m' ttls oifs : numbering n m' → m ⊆ m' → ttls_for m ttls oifs → ttls_for m' ttls oifs.
Proof.
  intros [Hr Hi] Hsub (Hl & Ho & Hx). split; [done|]. split.
  - intros j. rewrite Ho. split.
    + intros (v & Hv & Ht). exists v. split; [by eapply lookup_weaken|done].
    + intros (v & Hv & Ht). exists v. split; [|done].
      destruct (Hx _ _ Ht) as [|(_ & j' & Hj')]; [done|]. destruct (Hr j v Hv) as [_ [Hv0 _]].
      rewrite Z2Nat.id in Hj' by done. pose proof (lookup_weaken _ _ _ _ Hj' Hsub) as Hj2.
      by rewrite (Hi j j' v Hv Hj2).
  - intros k x Hk. destruct (Hx k x Hk) as [|(-> & j & Hj)]; [by left|]. right. split; [done|].
    exists j. by eapply lookup_weaken.
Qed.

Lemma ttls_for_set n m ttls oifs j v : numbering n m → m !! j = Some v → v < 32 → ttls_for m ttls oifs →
  ttls_for m (<[Z.to_nat v := 1]> ttls) ({[j]} ∪ oifs).
Proof.
  intros [Hr Hi] Hj Hv (Hl & Ho & Hx). destruct (Hr j v Hj) as [_ [Hv0 _]].
  assert (Z.to_nat v < length ttls)%nat by lia.
  split; [by rewrite length_insert|]. split.
  - intros k. rewrite elem_of_union, elem_of_singleton, Ho. split.
    + intros [->|(w & Hw & Ht)].
      * exists v. split; [done|]. by rewrite list_lookup_insert_eq.
      * exists w. split; [done|]. destruct (decide (Z.to_nat v = Z.to_nat w)) as [E|E].
        -- rewrite E. apply list_lookup_insert_eq. lia.
        -- by rewrite list_lookup_insert_ne.
    + intros (w & Hw & Ht). destruct (decide (v = w)) as [<-|E]; [left; by eapply Hi|].
      right. exists w. split; [done|]. destruct (Hr k w Hw) as [_ [Hw0 _]].
      rewrite list_lookup_insert_ne in Ht by lia. done.
  - intros k x Hk. destruct (decide (Z.to_nat v = k)) as [<-|E].
    + rewrite list_lookup_insert_eq in Hk by done. injection Hk as <-. right. split; [done|]. exists j.
      by rewrite Z2Nat.id.
    + rewrite list_lookup_insert_ne in Hk by done. by apply Hx.
Qed.

Lemma ttls_for_zero m : ttls_for m (replicate 32 0) ∅.
Proof.
  split; [done|]. split.
  - intros j. split; [done|]. intros (v & _ & Ht). by apply lookup_replicate in Ht as [[=] _].
  - intros n x Hn. apply lookup_replicate in Hn as [-> _]. by left.
Qed.

Lemma set_ttl_Ok m ttls oifs v : ttls_for m ttls oifs → 0 ≤ v < 32 → set_ttl ttls v = Ok (<[Z.to_nat v := 1]> ttls).
Proof.
  intros (Hl & _) Hv. unfold set_ttl. rewrite Hl. by rewrite (proj2 (Z.leb_le 0 v)), (proj2 (Z.ltb_lt v _)) by lia.
Qed.

(** ** The invariant of the kernel router *)

Record router_inv (r : LinuxMulticastRouter) : Prop := {
  ri_next : 0 ≤ nextVif r ≤ 32;
  ri_numbering : numbering (nextVif r) (vifMap r);
  ri_vifs i v : vifMap r !! i = Some v → kvifs (mrt r) !! v = Some (i32 i);
  ri_mfc key p t : kmfc (mrt r) !! key = Some (p, t) →
    (∃ i, vifMap r !! i = Some p) ∧ ∃ oifs, ttls_for (vifMap r) t oifs;
  ri_stopped : fd r = -1 → vifMap r = ∅ ∧ nextVif r = 0 ∧ mrt r = empty_mrt;
}.

(** The numbering grew, and the cache is as it was. *)
Definition extends (r r' : LinuxMulticastRouter) : Prop :=
  vifMap r ⊆ vifMap r' ∧ kmfc (mrt r') = kmfc (mrt r) ∧ fd r' = fd r.

Lemma extends_refl r : extends r r.
Proof. done. Qed.

Lemma extends_trans r1 r2 r3 : extends r1 r2 → extends r2 r3 → extends r1 r3.
Proof. intros (H1 & H2 & H3) (H4 & H5 & H6). split; [by etrans|]. by rewrite H5, H6. Qed.

Lemma mrt_snoc r c ok : mrt (set_sysLog (sysLog r ++ [(c, ok)]) r) = mrt_apply (mrt r) (c, ok).
Proof. unfold mrt. simpl. by rewrite foldl_snoc. Qed.

(** A number that is taken and not used: the numbering below stays as it is. *)
Lemma take_vif_inv r : router_inv r → fd r ≠ -1 → nextVif r < 32 → router_inv (set_nextVif (u16 (nextVif r + 1)) r).
Proof.
  intros [Hn [Hr Hi] Hv Hm Hs] Hfd Hlt. rewrite u16_id by (unfold is_u16; lia).
  split; simpl; try done; [lia|]. split; [|done]. intros i v Hiv. destruct (Hr i v Hiv). lia.
Qed.

Lemma log_inv r c ok : router_inv r → mrt_apply (mrt r) (c, ok) = mrt r →
  router_inv (set_sysLog (sysLog r ++ [(c, ok)]) r).
Proof. intros [Hn Hr Hv Hm Hs] E. split; simpl; rewrite ?mrt_snoc, ?E; done. Qed.

Definition add_vif (ifindex vif : Z) (r : LinuxMulticastRouter) : LinuxMulticastRouter :=
  set_vifMap (<[ifindex := vif]> (vifMap r))
    (set_sysLog (sysLog r ++ [(SetsockoptVif MRT_ADD_VIF (MkVifctl vif VIFF_USE_IFINDEX 1 0 (i32 ifindex) [0; 0; 0; 0]), true)])
       (set_nextVif (u16 (vif + 1)) r)).

Lemma add_vif_inv r i : router_inv r → fd r ≠ -1 → nextVif r < 32 → 0 ≤ i → vifMap r !! i = None →
  router_inv (add_vif i (nextVif r) r) ∧ extends r (add_vif i (nextVif r) r).
Proof.
  intros [Hn [Hr Hi] Hv Hm Hs] Hfd Hlt H0 Hnone. unfold add_vif. rewrite u16_id by (unfold is_u16; lia).
  assert (vifMap r ⊆ <[i := nextVif r]> (vifMap r)) as Hsub by by apply insert_subseteq.
  assert (numbering (nextVif r + 1) (<[i := nextVif r]> (vifMap r))) as Hnum.
  { split.
    - intros j v [[<- <-]|[_ Hj]]%lookup_insert_Some; [lia|]. destruct (Hr j v Hj). lia.
    - intros j k v [[<- <-]|[_ Hj]]%lookup_insert_Some [[<- Hk]|[_ Hk]]%lookup_insert_Some; try done.
      + destruct (Hr k _ Hk). lia.
      + subst. destruct (Hr j _ Hj). lia.
      + by eapply Hi. }
  match goal with |- router_inv ?x ∧ _ => set (r' := x) end.
  assert (mrt r' = MkKernelMrt (<[nextVif r := i32 i]> (kvifs (mrt r))) (kmfc (mrt r))) as Em.
  { unfold r', mrt. simpl. by rewrite foldl_snoc. }
  split; [|split; [done|split; [by rewrite Em|done]]].
  split; rewrite ?Em; simpl; [lia|done|..|done].
  - intros j v [[<- <-]|[_ Hj]]%lookup_insert_Some; [apply lookup_insert_eq|].
    destruct (Hr j v Hj). rewrite lookup_insert_ne by lia. by apply Hv.
  - intros key p t Hk. destruct (Hm key p t Hk) as [(j & Hj) (oifs & Ho)]. split.
    + exists j. by eapply lookup_weaken.
    + exists oifs. by eapply ttls_for_extend.
Qed.

Section linux_facts.
Context {K : Kernel}.

(** Registration: the index has a number, or there is an error; the cache stays. *)
Lemma registerVif_spec i r : router_inv r → fd r ≠ -1 →
  ∃ r', router_inv r' ∧ extends r r' ∧
    ((∃ v, registerVif i r = (r', Ok v) ∧ vifMap r' !! i = Some v) ∨ ∃ e, registerVif i r = (r', Err e)).
Proof.
  intros Hr Hfd. unfold registerVif, eff_bind, eff_get, eff_mod, eff_ret, eff_res.
  destruct (vifMap r !! i) as [v|] eqn:Hi.
  { exists r. split; [done|]. split; [done|]. left. eauto. }
  destruct (Z.leb_spec 32 (nextVif r)) as [Hn|Hn].
  { exists r. split; [done|]. split; [done|]. right. eauto. }
  pose proof (take_vif_inv r Hr Hfd Hn) as Ht.
  destruct (Z.ltb_spec i 0) as [H0|H0].
  { eexists. split; [exact Ht|]. split; [done|]. right. eauto. }
  unfold syscall. cbn [sysLog set_nextVif].
  destruct (succeeds _ _); cbn [negb].
  - destruct (add_vif_inv r i Hr Hfd Hn H0 Hi) as [Hinv Hext].
    exists (add_vif i (nextVif r) r). split; [done|]. split; [done|]. left. exists (nextVif r).
    split; [done|]. apply lookup_insert_eq.
  - match goal with |- context [SetsockoptVif MRT_ADD_VIF ?vc] => set (c := SetsockoptVif MRT_ADD_VIF vc) end.
    pose proof (log_inv (set_nextVif (u16 (nextVif r + 1)) r) c false Ht eq_refl) as Hl.
    eexists. split; [exact Hl|]. split; [|right; by eexists].
    split; [done|]. by rewrite mrt_snoc.
Qed.

(** The loop over the outgoing interfaces. *)
Lemma oif_loop_spec oifs : ∀ r ttls done_, router_inv r → fd r ≠ -1 → ttls_for (vifMap r) ttls done_ →
  ∃ r', router_inv r' ∧ extends r r' ∧
    ((∃ ttls', eff_fold oif_vif ttls oifs r = (r', Ok ttls') ∧ ttls_for (vifMap r') ttls' (done_ ∪ list_to_set oifs)) ∨
     ∃ e, eff_fold oif_vif ttls oifs r = (r', Err e)).
Proof.
  induction oifs as [|o oifs IH]; intros r ttls done_ Hr Hfd Ht.
  { exists r. split; [done|]. split; [done|]. left. exists ttls. split; [done|]. simpl.
    by rewrite union_empty_r_L. }
  destruct (registerVif_spec o r Hr Hfd) as (r1 & Hr1 & Hx1 & [(v & E & Hv)|(e & E)]); cbn [eff_fold];
    unfold oif_vif at 1 3, eff_bind; rewrite E.
  - pose proof Hx1 as (Hsub & _ & Hfd1). destruct (ri_numbering r1 Hr1) as [Hrange Hinj].
    destruct (Hrange o v Hv) as [_ Hvr]. pose proof (ri_next r1 Hr1).
    assert (ttls_for (vifMap r1) ttls done_) as Ht1 by (eapply ttls_for_extend; [by apply ri_numbering|done..]).
    cbn [eff_res]. unfold eff_res. rewrite (set_ttl_Ok (vifMap r1) ttls done_ v) by (done || lia).
    assert (fd r1 ≠ -1) as Hfd1' by by rewrite Hfd1.
    destruct (IH r1 (<[Z.to_nat v := 1]> ttls) ({[o]} ∪ done_) Hr1 Hfd1') as (r2 & Hr2 & Hx2 & Hres).
    { eapply ttls_for_set; [by apply ri_numbering|done|lia|done]. }
    exists r2. split; [done|]. split; [by eapply extends_trans|].
    destruct Hres as [(ttls' & E2 & Ht2)|(e & E2)]; [left|right; by exists e].
    exists ttls'. split; [done|]. simpl.
    replace (done_ ∪ ({[o]} ∪ list_to_set oifs)) with ({[o]} ∪ done_ ∪ list_to_set oifs : gset Z) by set_solver. done.
  - exists r1. split; [done|]. split; [done|]. right. by exists e.
Qed.

(** What a route forwards: from one interface to a set of interfaces. *)
Definition forwards (r : LinuxMulticastRouter) (key : IP * IP) (iif : Z) (oifs : gset Z) : Prop :=
  ∃ p t, kmfc (mrt r) !! key = Some (p, t) ∧ vifMap r !! iif = Some p ∧ ttls_for (vifMap r) t oifs.

Lemma forwards_extend r r' key iif oifs :
  router_inv r' → vifMap r ⊆ vifMap r' → kmfc (mrt r') !! key = kmfc (mrt r) !! key →
  forwards r key iif oifs → forwards r' key iif oifs.
Proof.
  intros Hr' Hsub E (p & t & Hk & Hp & Ht). exists p, t. rewrite E. split; [done|].
  split; [by eapply lookup_weaken|]. eapply ttls_for_extend; [by apply ri_numbering|done..].
Qed.

(** Writing one entry of the cache. *)
Lemma log_mfc r key e k : router_inv r → fd r ≠ -1 →
  mrt_apply (mrt r) e = MkKernelMrt (kvifs (mrt r)) k →
  (∀ p t, k !! key = Some (p, t) → (∃ i, vifMap r !! i = Some p) ∧ ∃ oifs, ttls_for (vifMap r) t oifs) →
  (∀ key', key' ≠ key → k !! key' = kmfc (mrt r) !! key') →
  let r' := set_sysLog (sysLog r ++ [e]) r in
  router_inv r' ∧ vifMap r' = vifMap r ∧ kmfc (mrt r') = k.
Proof.
  intros [Hn Hr Hv Hm Hs] Hfd E Hk Ho. cbv zeta. destruct e as [c ok].
  assert (mrt (set_sysLog (sysLog r ++ [(c, ok)]) r) = MkKernelMrt (kvifs (mrt r)) k) as Em by by rewrite mrt_snoc.
  split; [|split; [done|by rewrite Em]]. split; rewrite ?Em; simpl; try done.
  intros key' p t Hkey. destruct (decide (key' = key)) as [->|Hne]; [by apply Hk|]. rewrite Ho in Hkey by done. by apply Hm in Hkey.
Qed.

(** The state did not change. *)
Local Ltac same_state r := exists r; split; [done|]; split; [done|]; split; [done|].

(** Adding a route: either an error, which leaves every route as it was, or
    exactly this route is set. *)
Lemma add_route_cases srcIP grpIP iif oifs r : router_inv r →
  ∃ r', router_inv r' ∧ vifMap r ⊆ vifMap r' ∧ fd r' = fd r ∧
    ((∃ e, linux_AddMulticastRoute srcIP grpIP iif oifs r = (r', Err e)) ∧ kmfc (mrt r') = kmfc (mrt r) ∨
     ∃ src grp, linux_AddMulticastRoute srcIP grpIP iif oifs r = (r', Ok tt) ∧
       To4 (default [] (ParseIP srcIP)) = Some src ∧ To4 (default [] (ParseIP grpIP)) = Some grp ∧
       forwards r' (src, grp) iif (list_to_set oifs) ∧
       ∀ key, key ≠ (src, grp) → kmfc (mrt r') !! key = kmfc (mrt r) !! key).
Proof.
  intros Hr. unfold linux_AddMulticastRoute. rewrite (eff_bind_ok _ _ r r (fd r)) by done.
  destruct (Z.eqb_spec (fd r) (-1)) as [|Hfd]; [same_state r; left; split; [by eexists|done]|].
  destruct (To4 (default [] (ParseIP srcIP))) as [src|] eqn:Hsrc, (To4 (default [] (ParseIP grpIP))) as [grp|] eqn:Hgrp;
    try (same_state r; left; split; [by eexists|done]).
  destruct (registerVif_spec iif r Hr Hfd) as (r1 & Hr1 & (Hs1 & Hk1 & Hf1) & [(p & E1 & Hp)|(e & E1)]);
    [rewrite (eff_bind_ok _ _ _ _ _ E1)|rewrite (eff_bind_err _ _ _ _ _ E1)]; [|same_state r1; left; split; [by eexists|done]].
  assert (fd r1 ≠ -1) as Hfd1 by by rewrite Hf1.
  destruct (oif_loop_spec oifs r1 (replicate 32 0) ∅ Hr1 Hfd1 (ttls_for_zero _)) as
    (r2 & Hr2 & (Hs2 & Hk2 & Hf2) & [(t & E2 & Ht)|(e & E2)]);
    [rewrite (eff_bind_ok _ _ _ _ _ E2)|rewrite (eff_bind_err _ _ _ _ _ E2)];
    [|exists r2; split; [done|]; split; [by etrans|]; split; [by rewrite Hf2|]; left; split; [by eexists|by rewrite Hk2]].
  rewrite union_empty_l_L in Ht. assert (fd r2 ≠ -1) as Hfd2 by by rewrite Hf2.
  unfold eff_bind, syscall. set (c := SetsockoptMfc MRT_ADD_MFC (zero_mfc src grp p t)).
  assert (vifMap r2 !! iif = Some p) as Hp2 by by eapply lookup_weaken.
  destruct (succeeds (sysLog r2) c); cbn [negb].
  - destruct (log_mfc r2 (src, grp) (c, true) (<[(src, grp) := (p, t)]> (kmfc (mrt r2))) Hr2 Hfd2 eq_refl) as (Hr3 & Ev & Ek).
    { intros p' t'. rewrite lookup_insert_eq. intros [= <- <-]. split; [by exists iif|by exists (list_to_set oifs)]. }
    { intros key' Hne. by rewrite lookup_insert_ne. }
    eexists. split; [exact Hr3|]. split; [etrans; [exact Hs1|exact Hs2]|]. split; [simpl; by rewrite Hf2|]. right. exists src, grp.
    split; [done|]. split; [done|]. split; [done|]. split.
    + exists p, t. rewrite Ek, lookup_insert_eq. done.
    + intros key Hne. by rewrite Ek, lookup_insert_ne, Hk2, Hk1.
  - eexists. split; [apply (log_inv r2 c false Hr2); reflexivity|]. split; [etrans; [exact Hs1|exact Hs2]|].
    split; [simpl; by rewrite Hf2|]. left. split; [by eexists|]. rewrite mrt_snoc. simpl. by rewrite Hk2.
Qed.

Lemma delete_route_cases srcIP grpIP iif oifs r : router_inv r →
  ∃ r', router_inv r' ∧ vifMap r' = vifMap r ∧ fd r' = fd r ∧
    ((∃ e, linux_DeleteMulticastRoute srcIP grpIP iif oifs r = (r', Err e)) ∧ kmfc (mrt r') = kmfc (mrt r) ∨
     ∃ src grp, linux_DeleteMulticastRoute srcIP grpIP iif oifs r = (r', Ok tt) ∧
       To4 (default [] (ParseIP srcIP)) = Some src ∧ To4 (default [] (ParseIP grpIP)) = Some grp ∧
       kmfc (mrt r') = match vifMap r !! iif with
                       | Some _ => delete (src, grp) (kmfc (mrt r))
                       | None => kmfc (mrt r)
                       end).
Proof.
  intros Hr. unfold linux_DeleteMulticastRoute. rewrite (eff_bind_ok _ _ r r (fd r)) by done.
  destruct (Z.eqb_spec (fd r) (-1)) as [|Hfd]; [same_state r; left; split; [by eexists|done]|].
  destruct (To4 (default [] (ParseIP srcIP))) as [src|] eqn:Hsrc, (To4 (default [] (ParseIP grpIP))) as [grp|] eqn:Hgrp;
    try (same_state r; left; split; [by eexists|done]).
  unfold eff_get, eff_bind, syscall.
  destruct (vifMap r !! iif) as [p|] eqn:Hi; [|same_state r; right; by exists src, grp].
  set (c := SetsockoptMfc MRT_DEL_MFC (zero_mfc src grp p (replicate 32 0))).
  destruct (succeeds (sysLog r) c); cbn [negb].
  - destruct (log_mfc r (src, grp) (c, true) (delete (src, grp) (kmfc (mrt r))) Hr Hfd eq_refl) as (Hr3 & Ev & Ek).
    { intros p' t'. by rewrite lookup_delete_eq. }
    { intros key' Hne. by rewrite lookup_delete_ne. }
    eexists. split; [exact Hr3|]. split; [done|]. split; [done|]. right. by exists src, grp.
  - eexists. split; [apply (log_inv r c false Hr); reflexivity|]. split; [done|].
    split; [done|]. left. split; [by eexists|]. by rewrite mrt_snoc.
Qed.

Lemma Start_inv r : router_inv r → router_inv (mroute_Start r).1 ∧ ∃ x, (mroute_Start r).2 = Ok x ∨ ∃ e, (mroute_Start r).2 = Err e.
Proof.
  intros Hr. unfold mroute_Start, eff_bind, eff_get, eff_mod, eff_ret, eff_res, syscall.
  destruct (Z.eqb_spec (fd r) (-1)) as [Hfd|Hfd]; cbn [negb]; [|by split; [|exists tt; left]].
  pose proof (log_inv r Socket (succeeds (sysLog r) Socket) Hr eq_refl) as H1.
  destruct (succeeds (sysLog r) Socket) eqn:E1; cbn [negb]; [|by split; [|exists tt; right; eexists]].
  set (r1 := set_sysLog (sysLog r ++ [(Socket, true)]) r) in *.
  pose proof (log_inv r1 (SetsockoptInt MRT_INIT 1) (succeeds (sysLog r1) (SetsockoptInt MRT_INIT 1)) H1 eq_refl) as H2.
  set (r2 := set_sysLog (sysLog r1 ++ [(SetsockoptInt MRT_INIT 1, _)]) r1) in *.
  destruct (succeeds (sysLog r1) (SetsockoptInt MRT_INIT 1)); cbn [negb].
  - split; [|exists tt; by left]. destruct H2 as [Hn Hnum Hv Hm Hs]. split; try done. simpl.
    intros Hneg. pose proof (newfd_nonneg (sysLog r1)) as H0. unfold r1 in H0. simpl in H0. lia.
  - split; [|exists tt; right; by eexists]. apply log_inv; [done|]. symmetry. by apply (ri_stopped r2 H2).
Qed.

Lemma Stop_inv r : router_inv r → router_inv (mroute_Stop r).1 ∧ (mroute_Stop r).2 = Ok tt.
Proof.
  intros Hr. unfold mroute_Stop, eff_bind, eff_get, eff_mod, eff_ret, syscall.
  destruct (Z.eqb_spec (fd r) (-1)) as [Hfd|Hfd]; [done|]. split; [|done].
  match goal with |- router_inv ?x => set (r' := x) end.
  assert (mrt r' = empty_mrt) as Em by (unfold r', mrt; simpl; by rewrite foldl_snoc).
  by split; rewrite ?Em.
Qed.

(** ** Sequences of operations *)

Inductive mr_op :=
  | OpStart
  | OpStop
  | OpAdd (srcIP grpIP : string) (iif : Z) (oifs : list Z)
  | OpDelete (srcIP grpIP : string) (iif : Z) (oifs : list Z).

Definition run_mr (op : mr_op) : eff LinuxMulticastRouter unit :=
  match op with
  | OpStart => mroute_Start
  | OpStop => mroute_Stop
  | OpAdd s g iif oifs => linux_AddMulticastRoute s g iif oifs
  | OpDelete s g iif oifs => linux_DeleteMulticastRoute s g iif oifs
  end.

(** The router after a sequence of calls, whatever they returned. *)
Definition router_after (ops : list mr_op) : LinuxMulticastRouter :=
  foldl (λ r op, (run_mr op r).1) NewLinuxMulticastRouter ops.

Lemma run_mr_inv op r : router_inv r →
  router_inv (run_mr op r).1 ∧ ((run_mr op r).2 = Ok tt ∨ ∃ e, (run_mr op r).2 = Err e).
Proof.
  intros Hr. destruct op as [| |s g iif oifs|s g iif oifs]; simpl.
  - destruct (Start_inv r Hr) as [? [[] ?]]. done.
  - destruct (Stop_inv r Hr). split; [done|by left].
  - destruct (add_route_cases s g iif oifs r Hr) as (r' & Hr' & _ & _ & [[(e & ->) _]|(? & ? & -> & _)]);
      (split; [done|]); [right; by eexists|by left].
  - destruct (delete_route_cases s g iif oifs r Hr) as (r' & Hr' & _ & _ & [[(e & ->) _]|(? & ? & -> & _)]);
      (split; [done|]); [right; by eexists|by left].
Qed.

Lemma router_after_inv ops : router_inv (router_after ops).
Proof.
  unfold router_after. induction ops as [|op ops IH] using rev_ind.
  - by split.
  - rewrite foldl_snoc. by apply run_mr_inv.
Qed.

(** C31. Interface numbers.  After any calls of the kernel router, with the system
    answering in any way, at most 32 numbers are taken; the registered
    interfaces have distinct numbers among them, each known to the kernel
    under that number; every cache entry comes from a registered interface
    and forwards to registered ones; and the next call returns or fails with an
    error: no number is ever outside the array of TTLs. *)
Theorem router_numbers_bounded ops op :
  let r := router_after ops in
  0 ≤ nextVif r ≤ 32 ∧
  (∀ i v, vifMap r !! i = Some v →
     0 ≤ i ∧ 0 ≤ v < nextVif r ∧ kvifs (mrt r) !! v = Some (i32 i) ∧ ∀ j, vifMap r !! j = Some v → j = i) ∧
  (∀ key p t, kmfc (mrt r) !! key = Some (p, t) → ∃ iif oifs, forwards r key iif oifs) ∧
  ((run_mr op r).2 = Ok tt ∨ ∃ e, (run_mr op r).2 = Err e).
Proof.
  cbv zeta. destruct (router_after_inv ops) as [Hn [Hr Hi] Hv Hm Hs].
  split; [done|]. split; [|split].
  - intros i v Hiv. destruct (Hr i v Hiv). split; [done|]. split; [done|]. split; [by apply Hv|].
    intros j Hj. by eapply Hi.
  - intros key p t Hk. destruct (Hm key p t Hk) as [(i & Hi') (O & HO)]. by exists i, O, p, t.
  - apply run_mr_inv, router_after_inv.
Qed.

(** Kernel routes.  After any calls: adding a route either fails and leaves
    every route as it was, or sets exactly this route, from its incoming
    interface to its outgoing interfaces; every other route forwards as
    before.  Deleting removes exactly the route of the source and group, or
    nothing if the incoming interface was never registered. *)
Theorem linux_routes_spec ops srcIP grpIP iif oifs :
  let r := router_after ops in
  match linux_AddMulticastRoute srcIP grpIP iif oifs r with
  | (r', Ok _) => ∃ src grp,
      To4 (default [] (ParseIP srcIP)) = Some src ∧ To4 (default [] (ParseIP grpIP)) = Some grp ∧
      forwards r' (src, grp) iif (list_to_set oifs) ∧
      ∀ key, key ≠ (src, grp) → ∀ i o, forwards r key i o → forwards r' key i o
  | (r', Err _) => ∀ key i o, forwards r key i o → forwards r' key i o
  | _ => False
  end ∧
  match linux_DeleteMulticastRoute srcIP grpIP iif oifs r with
  | (r', Ok _) => ∃ src grp,
      To4 (default [] (ParseIP srcIP)) = Some src ∧ To4 (default [] (ParseIP grpIP)) = Some grp ∧
      ∀ key i o, forwards r' key i o ↔ forwards r key i o ∧ (key = (src, grp) → vifMap r !! iif = None)
  | (r', Err _) => ∀ key i o, forwards r' key i o ↔ forwards r key i o
  | _ => False
  end.
Proof.
  cbv zeta. pose proof (router_after_inv ops) as Hr. generalize dependent (router_after ops). intros r Hr. split.
  - destruct (add_route_cases srcIP grpIP iif oifs r Hr) as (r' & Hr' & Hsub & _ & [[(e & ->) Hk]|(s & g & -> & Hs & Hg & Hf & Ho)]).
    + intros key i o. apply forwards_extend; [done..|by rewrite Hk].
    + exists s, g. split; [done|]. split; [done|]. split; [done|].
      intros key Hne i o. apply forwards_extend; [done..|by apply Ho].
  - destruct (delete_route_cases srcIP grpIP iif oifs r Hr) as (r' & Hr' & Ev & _ & [[(e & ->) Hk]|(s & g & -> & Hs & Hg & Hk)]).
    + intros key i o. unfold forwards. by rewrite Hk, Ev.
    + exists s, g. split; [done|]. split; [done|]. intros key i o. unfold forwards. rewrite Hk, Ev.
      destruct (vifMap r !! iif) as [v|] eqn:Hv; [|naive_solver].
      destruct (decide (key = (s, g))) as [->|Hne]; [rewrite lookup_delete_eq; naive_solver|].
      rewrite lookup_delete_ne by done. naive_solver.
Qed.

(** ** Capacity *)

(** The numbers still needed for the interfaces [I] are there. *)
Definition fits (I : gset Z) (r : LinuxMulticastRouter) : Prop :=
  nextVif r + Z.of_nat (size (I ∖ dom (vifMap r))) ≤ 32.

Lemma registerVif_fits I i r : (∀ log c, succeeds log c = true) →
  router_inv r → fd r ≠ -1 → i ∈ I → 0 ≤ i → fits I r →
  ∃ r' v, registerVif i r = (r', Ok v) ∧ fits I r'.
Proof.
  intros Hok Hr Hfd Hi H0 Hf. unfold registerVif, eff_bind, eff_get, eff_mod, eff_ret, syscall.
  destruct (vifMap r !! i) as [v|] eqn:Hv; [by exists r, v|].
  assert (i ∈ I ∖ dom (vifMap r)) as Hin by (apply elem_of_difference; split; [done|by apply not_elem_of_dom]).
  assert (size (I ∖ dom (vifMap r)) = S (size ((I ∖ dom (vifMap r)) ∖ {[i]}))) as Hs.
  { rewrite (union_difference_L {[i]} (I ∖ dom (vifMap r))) at 1 by set_solver.
    by rewrite size_union, size_singleton by set_solver. }
  unfold fits in Hf. destruct (Z.leb_spec 32 (nextVif r)); [lia|]. destruct (Z.ltb_spec i 0); [lia|].
  rewrite Hok. cbn [negb]. eexists _, _. split; [done|]. unfold fits. simpl.
  pose proof (ri_next r Hr). rewrite u16_id by (unfold is_u16; lia). rewrite dom_insert_L.
  replace (I ∖ ({[i]} ∪ dom (vifMap r))) with ((I ∖ dom (vifMap r)) ∖ {[i]}) by set_solver. lia.
Qed.

Lemma oif_loop_fits I oifs : (∀ log c, succeeds log c = true) → (∀ o, o ∈ oifs → o ∈ I ∧ 0 ≤ o) →
  ∀ r ttls O, router_inv r → fd r ≠ -1 → ttls_for (vifMap r) ttls O → fits I r →
  ∃ r' ttls', eff_fold oif_vif ttls oifs r = (r', Ok ttls').
Proof.
  intros Hok HI r ttls O Hr Hfd Ht Hf.
  destruct (oif_loop_spec oifs r ttls O Hr Hfd Ht) as (r' & _ & _ & [(t' & E & _)|(e & E)]); [by exists r', t'|].
  exfalso. revert r ttls O Hr Hfd Ht Hf E. induction oifs as [|o oifs IH]; intros r ttls O Hr Hfd Ht Hf E; [done|].
  destruct (HI o ltac:(by left)) as [Ho H0].
  destruct (registerVif_fits I o r Hok Hr Hfd Ho H0 Hf) as (r1 & v & E1 & Hf1).
  destruct (registerVif_spec o r Hr Hfd) as (r1' & Hr1 & (Hsub & _ & Hfd1) & [(v' & E1' & Hv)|(e' & E1')]);
    rewrite E1' in E1; [|done]. simplify_eq.
  destruct (ri_numbering r1 Hr1) as [Hrange Hinj]. destruct (Hrange o v Hv) as [_ Hvr]. pose proof (ri_next r1 Hr1).
  cbn [eff_fold] in E. unfold oif_vif at 1, eff_bind in E. rewrite E1' in E. unfold eff_res in E.
  assert (ttls_for (vifMap r1) ttls O) as Ht1 by (eapply ttls_for_extend; [by apply ri_numbering|done..]).
  rewrite (set_ttl_Ok (vifMap r1) ttls O v) in E by (done || lia).
  eapply (IH ltac:(intros o' Ho'; apply HI; by right) r1 (<[Z.to_nat v := 1]> ttls) ({[o]} ∪ O)); [done|by rewrite Hfd1| |done|exact E].
  eapply ttls_for_set; [by apply ri_numbering|done|lia|done].
Qed.

(** A running router on a system that refuses nothing adds every route between
    valid interfaces as long as there are numbers for the new ones. *)
Lemma add_route_succeeds srcIP grpIP src grp iif oifs r : (∀ log c, succeeds log c = true) →
  router_inv r → fd r ≠ -1 →
  To4 (default [] (ParseIP srcIP)) = Some src → To4 (default [] (ParseIP grpIP)) = Some grp →
  (∀ i, i ∈ iif :: oifs → 0 ≤ i) → fits (list_to_set (iif :: oifs)) r →
  (linux_AddMulticastRoute srcIP grpIP iif oifs r).2 = Ok tt.
Proof.
  intros Hok Hr Hfd Hs Hg H0 Hf. unfold linux_AddMulticastRoute. rewrite (eff_bind_ok _ _ r r (fd r)) by done.
  destruct (Z.eqb_spec (fd r) (-1)) as [|_]; [done|]. rewrite Hs, Hg.
  set (I := list_to_set (iif :: oifs) : gset Z) in *.
  destruct (registerVif_fits I iif r Hok Hr Hfd) as (r1 & v & E1 & Hf1);
    [apply elem_of_list_to_set; by left|apply H0; by left|done|].
  destruct (registerVif_spec iif r Hr Hfd) as (r1' & Hr1 & (_ & _ & Hfd1) & [(v' & E1' & Hv)|(e' & E1')]);
    rewrite E1' in E1; [|done]. simplify_eq. rewrite (eff_bind_ok _ _ _ _ _ E1').
  destruct (oif_loop_fits I oifs Hok) with (r := r1) (ttls := replicate 32 0) (O := (∅ : gset Z)) as (r2 & t & E2);
    [|done|by rewrite Hfd1|apply ttls_for_zero|done|].
  { intros o Ho. split; [apply elem_of_list_to_set; by right|apply H0; by right]. }
  rewrite (eff_bind_ok _ _ _ _ _ E2). unfold eff_bind, syscall. by rewrite Hok.
Qed.
End linux_facts.

(** ** Numbers that are lost *)

(** A system that refuses the interface 7 only. *)
Definition refuse_7 : Kernel.
Proof.
  refine {| succeeds := λ _ c, match c with SetsockoptVif _ vc => negb (vifc_lcl_ifindex vc =? 7) | _ => true end;
            newfd := λ _, 3 |}.
  done.
Defined.

(** Lost numbers.  A number is spent on every refused registration: after 32
    failures for one interface no interface is registered, and no route between
    others can be added until the router is stopped. *)
Theorem vif_numbers_leak :
  let r := @router_after refuse_7 (OpStart :: replicate 32 (OpAdd "10.0.0.2" "224.0.1.1" 7 [])) in
  vifMap r = ∅ ∧ kvifs (mrt r) = ∅ ∧ nextVif r = 32 ∧
  (@linux_AddMulticastRoute refuse_7 "10.0.0.2" "224.0.1.1" 1 [2] r).2 =
    Err "maximum number of virtual interfaces (32) reached".
Proof. cbv zeta. repeat split; vm_compute; reflexivity. Qed.

(** ** The vtysh router *)

Section vtysh_facts.
Context {Sh : Shell}.

Definition mroute_argv (no : bool) (iif oif grp src : string) : list string :=
  vtysh_argv iif (mroute_cmd no oif grp src).

(** The static route is configured: the last successful command about it is the
    one that adds it. *)
Definition configured (log : CmdLog) (iif oif grp src : string) : bool :=
  foldl (λ b e,
    if bool_decide (e = (mroute_argv false iif oif grp src, true)) then true
    else if bool_decide (e = (mroute_argv true iif oif grp src, true)) then false else b) false log.

Lemma configured_snoc log e iif oif grp src :
  configured (log ++ [e]) iif oif grp src =
    if bool_decide (e = (mroute_argv false iif oif grp src, true)) then true
    else if bool_decide (e = (mroute_argv true iif oif grp src, true)) then false
    else configured log iif oif grp src.
Proof. unfold configured. by rewrite foldl_snoc. Qed.

Lemma add_del_differ iif oif grp src iif' oif' grp' src' :
  mroute_argv false iif oif grp src ≠ mroute_argv true iif' oif' grp' src'.
Proof. intros [=]. Qed.

Lemma pim_not_mroute i no iif oif grp src : vtysh_argv i "ip pim" ≠ mroute_argv no iif oif grp src.
Proof. destruct no; intros [=]. Qed.

(** What a command leaves configured. *)
Lemma execCommand_eq argv r :
  execCommand argv r = (MkVtyshRouter (v_interfaces r) (v_log r ++ [(argv, exits_zero (v_log r) argv)]),
                        Ok (exits_zero (v_log r) argv)).
Proof. done. Qed.

Definition keeps_routes (r r' : VTYSHMulticastRouter) : Prop :=
  ∀ iif oif grp src, configured (v_log r) iif oif grp src = true → configured (v_log r') iif oif grp src = true.

Lemma enable_pim_configured u i r iif oif grp src :
  configured (v_log (enable_pim u i r).1) iif oif grp src = configured (v_log r) iif oif grp src.
Proof.
  unfold enable_pim, eff_bind. rewrite execCommand_eq. simpl. rewrite configured_snoc.
  rewrite !bool_decide_false; [done|..]; intros [E _]%pair_equal_spec; by apply pim_not_mroute in E.
Qed.

Lemma enable_pim_Ok u i r : (enable_pim u i r).2 = Ok tt.
Proof. done. Qed.

(** One outgoing interface of an addition. *)
Lemma add_oif_cases iif grp src u oif r :
  ∃ r', keeps_routes r r' ∧
    (add_oif iif grp src u oif r = (r', Ok tt) ∧ configured (v_log r') iif oif grp src = true ∨
     ∃ e, add_oif iif grp src u oif r = (r', Err e)).
Proof.
  set (r1 := (enable_pim tt iif r).1).
  assert (∃ r2, (∀ i o g s, configured (v_log r2) i o g s = configured (v_log r) i o g s) ∧
    add_oif iif grp src u oif r =
      (ok ←! execCommand (mroute_argv false iif oif grp src);
       if negb ok then eff_res (Err "failed to run vtysh to add mroute") else eff_ret tt)%eff r2) as (r2 & Hr2 & ->).
  { unfold add_oif. rewrite (eff_bind_ok _ _ r r1 tt) by done. case_bool_decide.
    - exists r1. split; [|done]. intros. apply enable_pim_configured.
    - exists (enable_pim tt oif r1).1. split; [|done]. intros. unfold r1. by rewrite !enable_pim_configured. }
  unfold eff_bind. rewrite execCommand_eq. set (ok := exits_zero _ _).
  exists (MkVtyshRouter (v_interfaces r2) (v_log r2 ++ [(mroute_argv false iif oif grp src, ok)])).
  split; [|destruct ok; cbn [negb]; [left; split; [done|]|right; by eexists]].
  - intros i o g s Hc. cbn [v_log]. rewrite configured_snoc, Hr2, Hc. case_bool_decide; [done|].
    rewrite bool_decide_false; [done|]. intros [E _]%pair_equal_spec. by apply add_del_differ in E.
  - cbn [v_log]. by rewrite configured_snoc, bool_decide_true.
Qed.

Lemma add_oifs_cases iif grp src oifs : ∀ u r,
  ∃ r', keeps_routes r r' ∧
    (eff_fold (add_oif iif grp src) u oifs r = (r', Ok tt) ∧
       (∀ oif, oif ∈ oifs → configured (v_log r') iif oif grp src = true) ∨
     ∃ e, eff_fold (add_oif iif grp src) u oifs r = (r', Err e)).
Proof.
  induction oifs as [|o oifs IH]; intros [] r.
  { exists r. split; [by intros ?|]. left. split; [done|]. by intros o ?%not_elem_of_nil. }
  destruct (add_oif_cases iif grp src tt o r) as (r1 & Hk1 & [[E1 Hc]|(e & E1)]); cbn [eff_fold].
  - rewrite (eff_bind_ok _ _ _ _ _ E1). destruct (IH tt r1) as (r2 & Hk2 & Hres).
    exists r2. split; [by intros i o' g s Hi; apply Hk2, Hk1|]. destruct Hres as [[E2 Ho]|Hres]; [left|by right].
    split; [done|]. intros oif [->|Hin]%elem_of_cons; [by apply Hk2|by apply Ho].
  - rewrite (eff_bind_err _ _ _ _ _ E1). exists r1. split; [done|]. right. by exists e.
Qed.

(** One outgoing interface of a deletion. *)
Lemma delete_oif_cases iif grp src u oif r :
  ∃ r', keeps_routes r' r ∧
    (delete_oif iif grp src u oif r = (r', Ok tt) ∧ configured (v_log r') iif oif grp src = false ∨
     ∃ e, delete_oif iif grp src u oif r = (r', Err e)).
Proof.
  unfold delete_oif, eff_bind. rewrite execCommand_eq.
  fold (mroute_argv true iif oif grp src). set (ok := exits_zero _ _).
  exists (MkVtyshRouter (v_interfaces r) (v_log r ++ [(mroute_argv true iif oif grp src, ok)])).
  split; [|destruct ok; cbn [negb]; [left; split; [done|]|right; by eexists]].
  - intros i o g s. cbn [v_log]. rewrite configured_snoc. rewrite bool_decide_false; [by case_bool_decide|].
    intros [E _]%pair_equal_spec. symmetry in E. by apply add_del_differ in E.
  - cbn [v_log]. rewrite configured_snoc, bool_decide_false, bool_decide_true; [done..|].
    intros [E' _]%pair_equal_spec. symmetry in E'. by apply add_del_differ in E'.
Qed.

Lemma delete_oifs_cases iif grp src oifs : ∀ u r,
  ∃ r', keeps_routes r' r ∧
    (eff_fold (delete_oif iif grp src) u oifs r = (r', Ok tt) ∧
       (∀ oif, oif ∈ oifs → configured (v_log r') iif oif grp src = false) ∨
     ∃ e, eff_fold (delete_oif iif grp src) u oifs r = (r', Err e)).
Proof.
  induction oifs as [|o oifs IH]; intros [] r.
  { exists r. split; [by intros ?|]. left. split; [done|]. by intros o ?%not_elem_of_nil. }
  destruct (delete_oif_cases iif grp src tt o r) as (r1 & Hk1 & [[E1 Hc]|(e & E1)]); cbn [eff_fold].
  - rewrite (eff_bind_ok _ _ _ _ _ E1). destruct (IH tt r1) as (r2 & Hk2 & Hres).
    exists r2. split; [by intros i o' g s Hi; apply Hk1, Hk2|]. destruct Hres as [[E2 Ho]|Hres]; [left|by right].
    split; [done|]. intros oif [->|Hin]%elem_of_cons; [|by apply Ho].
    destruct (configured (v_log r2) iif o grp src) eqn:E; [|done]. apply Hk2 in E. congruence.
  - rewrite (eff_bind_err _ _ _ _ _ E1). exists r1. split; [done|]. right. by exists e.
Qed.

(** Additions and deletions on every branch: an addition withdraws no route, and
    when it succeeds the route to each of its interfaces is configured; a
    deletion configures none, and when it succeeds none of its routes is left. *)
Lemma vtysh_routes_spec srcIP grpIP iif oifs r :
  match vtysh_AddMulticastRoute srcIP grpIP iif oifs r with
  | (r', Ok _) => keeps_routes r r' ∧ ∃ n, ifname iif = Some n ∧
      ∀ oif, oif ∈ oif_names oifs → configured (v_log r') n oif grpIP srcIP = true
  | (r', Err _) => keeps_routes r r'
  | _ => False
  end ∧
  match vtysh_DeleteMulticastRoute srcIP grpIP iif oifs r with
  | (r', Ok _) => keeps_routes r' r ∧ ∃ n, ifname iif = Some n ∧
      ∀ oif, oif ∈ oif_names oifs → configured (v_log r') n oif grpIP srcIP = false
  | (r', Err _) => keeps_routes r' r
  | _ => False
  end.
Proof.
  unfold vtysh_AddMulticastRoute, vtysh_DeleteMulticastRoute.
  destruct (ifname iif) as [n|]; [|by split; intros ?]. split.
  - destruct (add_oifs_cases n grpIP srcIP (oif_names oifs) tt r) as (r' & Hk & [[-> Hc]|(e & ->)]); [|done].
    split; [done|]. by exists n.
  - destruct (delete_oifs_cases n grpIP srcIP (oif_names oifs) tt r) as (r' & Hk & [[-> Hc]|(e & ->)]); [|done].
    split; [done|]. by exists n.
Qed.

Lemma elem_of_oif_names oif n oifs : oif ∈ oifs → ifname oif = Some n → n ∈ oif_names oifs.
Proof.
  intros Hin Hn. destruct oifs as [|o oifs]; [by apply not_elem_of_nil in Hin|].
  apply list_elem_of_omap. by exists oif.
Qed.
End vtysh_facts.
