(* ===== verification/MrouteSync.v ===== *)
(** * Multicast routes from the manager to the routers (cmd/olsrd/daemon.go, internal/mroute)

    The multicast events of the MOLSR manager, the installer, and a router: the
    kernel's forwarding cache follows the manager's entries; the routes
    configured through vtysh keep interfaces that an entry has lost. *)

From S2P Require Import Prelude GoNet GoStrings TimeVal Packet Events DiffSync Neighbor Topology Hna Heap Dijkstra Spf Molsr MolsrFacts Config Daemon Effects Mroute MrouteFacts.

(** ** The installer *)

(** [handleMulticastAdd] and [handleMulticastDelete], for the router. *)
Definition linux_call `{Kernel} (rc : RouterCall) : eff LinuxMulticastRouter unit :=
  match rc with
  | AddMulticastRoute s g iif oifs => linux_AddMulticastRoute s g iif oifs
  | DeleteMulticastRoute s g iif oifs => linux_DeleteMulticastRoute s g iif oifs
  | _ => eff_ret tt
  end.

Definition vtysh_call `{Shell} (rc : RouterCall) : eff VTYSHMulticastRouter unit :=
  match rc with
  | AddMulticastRoute s g iif oifs => vtysh_AddMulticastRoute s g iif oifs
  | DeleteMulticastRoute s g iif oifs => vtysh_DeleteMulticastRoute s g iif oifs
  | _ => eff_ret tt
  end.

(** One event, and the active unicast routes when it is handled. *)
Definition linux_event `{MapOrder} `{Kernel} (_ : unit) (x : (list positive * gmap string Route) * Event)
    : eff LinuxMulticastRouter unit :=
  eff_fold (λ _ rc, linux_call rc) tt (routeInstallation x.1.1 x.1.2 x.2).

Definition vtysh_event `{MapOrder} `{Shell} (_ : unit) (x : (list positive * gmap string Route) * Event)
    : eff VTYSHMulticastRouter unit :=
  eff_fold (λ _ rc, vtysh_call rc) tt (routeInstallation x.1.1 x.1.2 x.2).

(** ** Keys *)

Lemma mfc_key_inj s g s' g' : is_ip4 s → is_ip4 s' → is_ip4 g → is_ip4 g' →
  mfc_key (IP_String s) (IP_String g) = mfc_key (IP_String s') (IP_String g') → (s, g) = (s', g').
Proof. apply printed_pair_inj. Qed.

(** An entry of printed IPv4 addresses, and an event for the installer with one. *)
Definition entry_of (s g : IP) (m : MulticastForwardingEntry) : Prop :=
  is_ip4 s ∧ is_ip4 g ∧ mfe_SourceIP m = IP_String s ∧ mfe_GroupID m = IP_String g.

Definition event_printed (e : Event) : Prop :=
  ev_Type e = EventRouteInstall ∧
  match ev_Data e with DataMulticast _ m => ∃ s g, entry_of s g m | _ => True end.

Lemma To4_printed ip : is_ip4 ip → To4 (default [] (ParseIP (IP_String ip))) = Some ip.
Proof. intros Hip. rewrite ParseIP_String by done. apply To4_v4InV6, Hip. Qed.

(** ** The kernel follows the manager *)

Section linux_sync.
Context {MO : MapOrder} {K : Kernel}.

(** The kernel forwards each entry of the table, and nothing else between IPv4
    addresses. *)
Definition installed (t : gmap string MulticastForwardingEntry) (r : LinuxMulticastRouter) : Prop :=
  ∀ s g, is_ip4 s → is_ip4 g →
    match t !! mfc_key (IP_String s) (IP_String g) with
    | Some m => forwards r (s, g) (IIF m) (list_to_set (OIFs m))
    | None => kmfc (mrt r) !! (s, g) = None
    end.

Lemma installed_add t r r' s g m : router_inv r' → vifMap r ⊆ vifMap r' → entry_of s g m → installed t r →
  forwards r' (s, g) (IIF m) (list_to_set (OIFs m)) →
  (∀ key, key ≠ (s, g) → kmfc (mrt r') !! key = kmfc (mrt r) !! key) →
  installed (<[mfc_key (mfe_SourceIP m) (mfe_GroupID m) := m]> t) r'.
Proof.
  intros Hr' Hsub (Hs & Hg & -> & ->) Hin Hf Ho s' g' Hs' Hg'.
  destruct (decide ((s, g) = (s', g'))) as [[= <- <-]|Hne]; [by rewrite lookup_insert_eq|].
  rewrite lookup_insert_ne by (intros E; by apply Hne, mfc_key_inj).
  specialize (Hin s' g' Hs' Hg'). destruct (t !! _) as [m'|].
  - eapply forwards_extend; [done..| |done]. apply Ho. congruence.
  - rewrite Ho by congruence. done.
Qed.

Lemma installed_delete t r r' s g m : vifMap r' = vifMap r → entry_of s g m → installed t r →
  kmfc (mrt r') = delete (s, g) (kmfc (mrt r)) →
  installed (delete (mfc_key (mfe_SourceIP m) (mfe_GroupID m)) t) r'.
Proof.
  intros Ev (Hs & Hg & -> & ->) Hin Ek s' g' Hs' Hg'.
  destruct (decide ((s, g) = (s', g'))) as [[= <- <-]|Hne]; [by rewrite lookup_delete_eq, Ek, lookup_delete_eq|].
  rewrite lookup_delete_ne by (intros E; by apply Hne, mfc_key_inj).
  specialize (Hin s' g' Hs' Hg'). unfold forwards. rewrite Ek, Ev, lookup_delete_ne by congruence. exact Hin.
Qed.

(** One event handled without an error. *)
Lemma linux_event_installed t r r' x : router_inv r → installed t r → event_printed x.2 →
  mfc_tracked t [x.2] → linux_event tt x r = (r', Ok tt) → router_inv r' ∧ installed (mfc_apply t x.2) r'.
Proof.
  intros Hr Hin Hp [Ht _] E. destruct x as [[p routes] [ty d]]. unfold linux_event, routeInstallation in E.
  unfold event_printed, mfc_apply in *. simpl in *. destruct Hp as [-> Hp].
  destruct d as [?|act ?|act m|?|? ?]; simpl in *; try (injection E as <-; done).
  { repeat case_bool_decide; simpl in E; injection E as <-; done. }
  destruct Hp as (s & g & He). pose proof He as (Hs & Hg & Es & Eg).
  destruct (decide (act = "add_multicast")) as [->|Hadd].
  { destruct (add_route_cases (mfe_SourceIP m) (mfe_GroupID m) (IIF m) (OIFs m) r Hr) as
      (r1 & Hr1 & Hsub & _ & [[(e & E1) _]|(s' & g' & E1 & Hs' & Hg' & Hf & Ho)]).
    { rewrite bool_decide_true in E by done. cbn [eff_fold linux_call] in E. by rewrite (eff_bind_err _ _ _ _ _ E1) in E. }
    rewrite Es, To4_printed in Hs' by done. rewrite Eg, To4_printed in Hg' by done. simplify_eq.
    assert (r' = r1) as ->.
    { rewrite bool_decide_true in E by done. cbn [eff_fold linux_call] in E. rewrite (eff_bind_ok _ _ _ _ _ E1) in E.
      destruct (GetNextHopForDest _ _ _) as [[]| | |]; by injection E. }
    split; [done|]. by eapply installed_add. }
  rewrite (bool_decide_false (act = "add_multicast")) in E by done.
  destruct (decide (act = "delete_multicast")) as [->|Hdel]; [|rewrite bool_decide_false in E by done; by injection E as <-].
  rewrite bool_decide_true in E by done. cbn [eff_fold linux_call] in E.
  destruct (delete_route_cases (mfe_SourceIP m) (mfe_GroupID m) (IIF m) (OIFs m) r Hr) as
    (r1 & Hr1 & Ev & _ & [[(e & E1) _]|(s' & g' & E1 & Hs' & Hg' & Hk)]).
  { by rewrite (eff_bind_err _ _ _ _ _ E1) in E. }
  rewrite (eff_bind_ok _ _ _ _ _ E1) in E. assert (r' = r1) as -> by by injection E.
  rewrite Es, To4_printed in Hs' by done. rewrite Eg, To4_printed in Hg' by done. simplify_eq.
  specialize (Ht m eq_refl). split; [done|]. apply (installed_delete t r r1 s' g'); [done..|].
  rewrite Hk. specialize (Hin s' g' Hs Hg). rewrite Es, Eg in Ht.
  destruct (t !! mfc_key (IP_String s') (IP_String g')) as [m0|]; simpl in Ht; [|done].
  injection Ht as Ei _. destruct Hin as (p0 & t0 & _ & Hv & _). by rewrite <-Ei, Hv.
Qed.

(** Events handled one after the other without an error. *)
Lemma linux_events_installed xs : ∀ t r r', router_inv r → installed t r → Forall event_printed xs.*2 →
  mfc_tracked t xs.*2 → eff_fold linux_event tt xs r = (r', Ok tt) → installed (foldl mfc_apply t xs.*2) r'.
Proof.
  induction xs as [|x xs IH]; intros t r r' Hr Hin Hp Ht E; [by injection E as <-|].
  apply Forall_cons in Hp as [Hx Hp]. destruct Ht as [Htx Ht]. cbn [eff_fold] in E.
  apply eff_bind_Ok in E as (r1 & [] & E1 & E2).
  destruct (linux_event_installed t r r1 x Hr Hin Hx) as [Hr1 Hin1]; [by split|done|].
  simpl. by eapply IH.
Qed.

(** From the manager to the kernel.  After any recalculations of the
    multicast entries, with the published events installed in order on a
    kernel router whose cache was empty and without a failing call, the
    kernel's cache is the manager's table: it forwards every active entry from
    its incoming interface to exactly its outgoing ones, and has nothing for
    the other pairs of addresses. *)
Theorem kernel_follows_manager ops xs active r' :
  mfc_runs xs.*2 active → Forall event_printed xs.*2 →
  kmfc (mrt (router_after ops)) = ∅ → eff_fold linux_event tt xs (router_after ops) = (r', Ok tt) →
  ∀ s g, is_ip4 s → is_ip4 g →
    match active !! mfc_key (IP_String s) (IP_String g) with
    | Some m => forwards r' (s, g) (IIF m) (list_to_set (OIFs m))
    | None => kmfc (mrt r') !! (s, g) = None
    end.
Proof.
  intros (_ & Hag & Ht)%mfc_runs_facts Hp H0 E s g Hs Hg.
  assert (installed ∅ (router_after ops)) as Hin.
  { intros s' g' _ _. by rewrite lookup_empty, H0. }
  pose proof (linux_events_installed xs ∅ _ r' (router_after_inv ops) Hin Hp Ht E s g Hs Hg) as H.
  apply (f_equal (.!! mfc_key (IP_String s) (IP_String g))) in Hag. rewrite !lookup_fmap in Hag.
  destruct (foldl mfc_apply ∅ xs.*2 !! _) as [m|], (active !! _) as [m'|]; try done.
  simpl in Hag. injection Hag as E1 E2. by rewrite <-E1, <-E2.
Qed.
End linux_sync.

(** ** Interfaces that vtysh keeps *)

(** The event of one changed entry. *)
Lemma sync_changed_entry `{MapOrder} p k old new : mfc_changed old new = true →
  syncMFCRoutes p {[k := old]} {[k := new]} =
    [MkEvent EventRouteInstall (DataMulticast "add_multicast" new)].
Proof.
  intros Hc. assert (∀ q (m : MulticastForwardingEntry), range q {[k := m]} = [(k, m)]) as Hr.
  { intros q m. apply Permutation_singleton_r. rewrite range_perm. by rewrite map_to_list_singleton. }
  unfold syncMFCRoutes. rewrite !Hr. simpl. by rewrite !lookup_singleton_eq, Hc.
Qed.

(** A lost interface.  When an entry loses an outgoing interface, the manager
    publishes the new entry only, and the vtysh router adds its interfaces: if
    nothing fails, the static route to the lost interface is still configured,
    next to those of the new entry. *)
Theorem vtysh_keeps_lost_interface `{MapOrder} `{Shell} p q routes old new r1 r2 r3 (oif : Z) iifName oifName :
  mfc_key (mfe_SourceIP old) (mfe_GroupID old) = mfc_key (mfe_SourceIP new) (mfe_GroupID new) →
  oif ∈ OIFs old → oif ∉ OIFs new → ifname (IIF old) = Some iifName → ifname oif = Some oifName →
  vtysh_AddMulticastRoute (mfe_SourceIP old) (mfe_GroupID old) (IIF old) (OIFs old) r1 = (r2, Ok tt) →
  eff_fold vtysh_event tt ((λ e, (q, routes, e)) <$>
    syncMFCRoutes p {[mfc_key (mfe_SourceIP old) (mfe_GroupID old) := old]}
                    {[mfc_key (mfe_SourceIP new) (mfe_GroupID new) := new]}) r2 = (r3, Ok tt) →
  configured (v_log r3) iifName oifName (mfe_GroupID old) (mfe_SourceIP old) = true ∧
  ∀ n o, ifname (IIF new) = Some n → o ∈ oif_names (OIFs new) →
    configured (v_log r3) n o (mfe_GroupID new) (mfe_SourceIP new) = true.
Proof.
  intros Hkey Hin Hnin Hi Ho E1 E2.
  pose proof (vtysh_routes_spec (mfe_SourceIP old) (mfe_GroupID old) (IIF old) (OIFs old) r1) as [H1 _].
  rewrite E1 in H1. destruct H1 as (_ & n1 & Hn1 & Hc1). rewrite Hi in Hn1. injection Hn1 as <-.
  rewrite <-Hkey, sync_changed_entry in E2.
  2:{ unfold mfc_changed. apply orb_true_iff. right. apply bool_decide_eq_true. congruence. }
  cbn [fmap list_fmap eff_fold] in E2. apply eff_bind_Ok in E2 as (r3' & [] & E2 & [= ->]).
  unfold vtysh_event, routeInstallation in E2. cbn [fst snd ev_Data] in E2. rewrite bool_decide_true in E2 by done.
  cbn [eff_fold vtysh_call] in E2. apply eff_bind_Ok in E2 as (r3' & [] & E2 & E3).
  assert (r3' = r3) as -> by (destruct (GetNextHopForDest _ _ _) as [[]| | |]; by injection E3).
  pose proof (vtysh_routes_spec (mfe_SourceIP new) (mfe_GroupID new) (IIF new) (OIFs new) r2) as [H2 _].
  rewrite E2 in H2. destruct H2 as (Hk & n2 & Hn2 & Hc2). split.
  - apply Hk, Hc1. by eapply elem_of_oif_names.
  - intros n o Hn. rewrite Hn2 in Hn. injection Hn as <-. apply Hc2.
Qed.

(** ** A next hop that changes *)

Section next_hop.
Context {MO : MapOrder}.

(** Only the interface of a next hop enters the entries. *)
Definition same_interfaces (f f' : list positive → string → res (string * Z)) : Prop :=
  ∀ p d, match f p d, f' p d with Ok (_, i), Ok (_, i') => i = i' | Ok _, _ | _, Ok _ => False | _, _ => True end.

Lemma foldl_ext_all {A B} (g g' : A → B → A) a l : (∀ a b, g a b = g' a b) → foldl g a l = foldl g' a l.
Proof. intros Hg. revert a. induction l as [|x l IH]; intros a; simpl; [done|]. by rewrite Hg. Qed.

Lemma oif_step_interfaces f f' p i st ce : same_interfaces f f' → oif_step f p i st ce = oif_step f' p i st ce.
Proof.
  intros Hf. unfold oif_step. specialize (Hf (encode ce.1 :: p) ce.1).
  destruct (f _ _) as [[? ?]| | |], (f' _ _) as [[? ?]| | |]; try done. by subst.
Qed.

Lemma mfc_step_interfaces f f' p grp t sc : same_interfaces f f' → mfc_step f p grp t sc = mfc_step f' p grp t sc.
Proof.
  intros Hf. destruct sc as [src children]. unfold mfc_step. destruct (size children =? 0)%nat; [done|].
  pose proof (Hf (1%positive :: encode src :: p) src) as Hs.
  destruct (f _ src) as [[? ?]| | |], (f' _ src) as [[? ?]| | |]; try done. subst.
  by rewrite (foldl_ext_all _ _ _ _ (λ st ce, oif_step_interfaces f f' _ _ st ce Hf)).
Qed.

Lemma buildNewMFC_interfaces f f' p parents : same_interfaces f f' → buildNewMFC f p parents = buildNewMFC f' p parents.
Proof.
  intros Hf. unfold buildNewMFC. apply foldl_ext_all. intros acc gs. apply foldl_ext_all. intros t sc.
  by apply mfc_step_interfaces.
Qed.

(** A changed next hop.  When the unicast next hop toward a source changes to
    another neighbor on the same interface, the recalculation publishes
    nothing, so that loop prevention keeps expecting the hardware address of
    the neighbor it was told first. *)
Theorem next_hop_change_unseen f f' p m : same_interfaces f f' →
  (RecalculateMroutes f' p (RecalculateMroutes f p m).1).2 = [].
Proof.
  intros Hf. unfold RecalculateMroutes. destruct (MOLSR_IfaceIndexLookup m) eqn:Hl; simpl; [|by rewrite Hl].
  rewrite Hl. simpl. rewrite (buildNewMFC_interfaces f f') by done.
  by apply (diff_events_quiet mfc_forwarding mfc_changed
    (λ e, MkEvent EventRouteInstall (DataMulticast "add_multicast" e))
    (λ e, MkEvent EventRouteInstall (DataMulticast "delete_multicast" e)) mfc_changed_spec).
Qed.
End next_hop.

(** ** Witnesses *)

Definition accept_all : Kernel.
Proof. by refine {| succeeds := λ _ _, true; newfd := λ _, 3 |}. Defined.

Definition three_names : Shell :=
  {| exits_zero := λ _ _, true;
     ifname := λ i, if i =? 1 then Some "eth1" else if i =? 2 then Some "eth2" else if i =? 3 then Some "eth3" else None |}.

Definition mfe_2 : MulticastForwardingEntry := MkMFE "10.0.0.2" "224.0.1.1" 1 [2].
Definition mfe_3 : MulticastForwardingEntry := MkMFE "10.0.0.2" "224.0.1.1" 1 [3].

Lemma printed_2 : event_printed (MkEvent EventRouteInstall (DataMulticast "add_multicast" mfe_2)).
Proof.
  split; [done|]. exists [10; 0; 0; 2], [224; 0; 1; 1].
  split_and!; try done; split; try done; repeat apply Forall_cons_2; try apply Forall_nil_2; unfold is_u8; lia.
Qed.

Lemma kernel_follows_manager_witness :
  ∃ r', forwards r' ([10; 0; 0; 2], [224; 0; 1; 1]) 1 {[2]} ∧ kmfc (mrt r') !! ([10; 0; 0; 3], [224; 0; 1; 1]) = None.
Proof.
  set (xs := [(([] : list positive, ∅ : gmap string Route), MkEvent EventRouteInstall (DataMulticast "add_multicast" mfe_2))]).
  set (active := {["10.0.0.2:224.0.1.1" := mfe_2]} : gmap string MulticastForwardingEntry).
  assert (@mfc_runs canonical_order xs.*2 active) as Hruns.
  { assert (xs.*2 = [] ++ (@RecalculateMroutes canonical_order example_next_hop [] example_molsr_ready).2) as -> by (vm_compute; reflexivity).
    assert (active = activeMfc (@RecalculateMroutes canonical_order example_next_hop [] example_molsr_ready).1) as -> by (vm_compute; reflexivity).
    apply (mfc_next [] example_next_hop [] example_molsr_ready), mfc_start. }
  assert (Forall event_printed xs.*2) as Hp by (apply Forall_cons_2; [exact printed_2|apply Forall_nil_2]).
  set (r' := (eff_fold (@linux_event canonical_order accept_all) tt xs (@router_after accept_all [OpStart])).1).
  assert (eff_fold (@linux_event canonical_order accept_all) tt xs (@router_after accept_all [OpStart]) = (r', Ok tt)) as E
    by (vm_compute; reflexivity).
  pose proof (@kernel_follows_manager canonical_order accept_all [OpStart] xs active r' Hruns Hp eq_refl E) as H.
  assert (∀ a b c d, is_u8 a → is_u8 b → is_u8 c → is_u8 d → is_ip4 [a; b; c; d]) as Hip.
  { intros. split; [done|]. by repeat apply Forall_cons_2; try apply Forall_nil_2. }
  exists r'. split.
  - assert (forwards r' ([10; 0; 0; 2], [224; 0; 1; 1]) 1 (list_to_set [2])) as Hf.
    { exact (H [10; 0; 0; 2] [224; 0; 1; 1] (Hip 10 0 0 2 ltac:(done) ltac:(done) ltac:(done) ltac:(done))
        (Hip 224 0 1 1 ltac:(done) ltac:(done) ltac:(done) ltac:(done))). }
    replace ({[2]} : gset Z) with (list_to_set [2] : gset Z) by (vm_compute; reflexivity). exact Hf.
  - exact (H [10; 0; 0; 3] [224; 0; 1; 1] (Hip 10 0 0 3 ltac:(done) ltac:(done) ltac:(done) ltac:(done))
      (Hip 224 0 1 1 ltac:(done) ltac:(done) ltac:(done) ltac:(done))).
Defined.

Lemma vtysh_keeps_lost_interface_witness : ∃ r, 
  configured (v_log r) "eth1" "eth2" "224.0.1.1" "10.0.0.2" = true ∧
  configured (v_log r) "eth1" "eth3" "224.0.1.1" "10.0.0.2" = true.
Proof.
  set (r2 := (@vtysh_AddMulticastRoute three_names "10.0.0.2" "224.0.1.1" 1 [2] (NewVTYSHMulticastRouter [])).1).
  set (evs := (λ e, ([] : list positive, ∅ : gmap string Route, e)) <$>
    @syncMFCRoutes canonical_order [] {["10.0.0.2:224.0.1.1" := mfe_2]} {["10.0.0.2:224.0.1.1" := mfe_3]}).
  set (r3 := (eff_fold (@vtysh_event canonical_order three_names) tt evs r2).1).
  destruct (@vtysh_keeps_lost_interface canonical_order three_names [] [] ∅ mfe_2 mfe_3 (NewVTYSHMulticastRouter []) r2 r3 2
    "eth1" "eth2") as [H2 H3]; [reflexivity|by left|by intros [=]%list_elem_of_singleton|reflexivity|reflexivity|reflexivity|vm_compute; reflexivity|].
  exists r3. split; [exact H2|]. apply H3; [reflexivity|by left].
Defined.

(** 10.0.0.2 was reached directly and is now reached through 10.0.0.9. *)
Definition other_next_hop (p : list positive) (d : string) : res (string * Z) :=
  if bool_decide (d = "10.0.0.2") then Ok ("10.0.0.9", 1) else example_next_hop p d.

Lemma next_hop_change_unseen_witness :
  (@RecalculateMroutes canonical_order other_next_hop [] (@RecalculateMroutes canonical_order example_next_hop [] example_molsr_ready).1).2 = [] ∧
  other_next_hop [] "10.0.0.2" ≠ example_next_hop [] "10.0.0.2".
Proof.
  split; [|by vm_compute]. apply (@next_hop_change_unseen canonical_order).
  intros p d. unfold other_next_hop, example_next_hop. destruct (decide (d = "10.0.0.2")) as [->|H]; [done|].
  rewrite bool_decide_false by done. by destruct (bool_decide (d = "10.0.0.3")).
Defined.
