(* ===== verification/LoopPrevention.v ===== *)
(** * Multicast loop prevention (internal/mroute/loopprevention.go, loopprevention_linux.go, arp.go)

    The managers that let a multicast packet in only from the neighbor toward
    its source: one keeps nftables rules, one answers the kernel's queue.  Both
    learn the neighbor's hardware address from the ARP table.  What a command
    gives, the content of the ARP table, and the opening of the queue are
    arguments. *)

From Stdlib Require Import Ascii.
From S2P Require Import Prelude GoNet GoStrings Effects Mroute.

(** ** The ARP table *)

(** [/proc/net/arp] as it is read: [None] when it cannot be opened, otherwise the
    lines the scanner gives and whether it stopped with an error. *)
Notation ArpTable := (option (list string * bool)).

Section arp.
Context {U : GoUnicode}.

(** The loop over the lines after the header. *)
Fixpoint find_mac (ipAddr : string) (lines : list string) : option string :=
  match lines with
  | [] => None
  | line :: lines =>
      match Fields line with
      | ip :: _ :: _ :: mac :: _ =>
          if bool_decide (ip = ipAddr) && bool_decide (mac ≠ "00:00:00:00:00:00") && bool_decide (mac ≠ "")
          then Some mac else find_mac ipAddr lines
      | _ => find_mac ipAddr lines
      end
  end.

Definition ResolveMACFromARP (arp : ArpTable) (ipAddr : string) : res string :=
  match arp with
  | None => Err "failed to open /proc/net/arp"
  | Some (lines, failed) =>
      match find_mac ipAddr (drop 1 lines) with
      | Some mac => Ok mac
      | None => if failed : bool then Err "error reading /proc/net/arp" else Err "MAC address not found in ARP table"
      end
  end.
End arp.

(** ** The nftables manager *)

Record NFTablesManager := MkNFTables {
  nft_interfaces : list string;
  nft_routes : gmap string string;     (* "src:grp" to the MAC address *)
  nft_log : CmdLog;
}.

Definition NewNFTablesManager : NFTablesManager := MkNFTables [] ∅ [].

Definition table_argv (verb : string) : list string := ["nft"; verb; "table"; "inet"; "molsr_filter"].
Definition chain_argv : list string :=
  ["nft"; "add"; "chain"; "inet"; "molsr_filter"; "prerouting"; "{ type filter hook prerouting priority -150 ; }"].
Definition flush_argv : list string := ["nft"; "flush"; "chain"; "inet"; "molsr_filter"; "prerouting"].
Definition rule_argv (rule : list string) : list string :=
  ["nft"; "add"; "rule"; "inet"; "molsr_filter"; "prerouting"] ++ rule.
Definition accept_rule (iface srcIP grpIP mac : string) : list string :=
  ["iifname"; iface; "ip"; "saddr"; srcIP; "ip"; "daddr"; grpIP; "ether"; "saddr"; mac; "accept"].
Definition drop_rule (iface srcIP grpIP : string) : list string :=
  ["iifname"; iface; "ip"; "saddr"; srcIP; "ip"; "daddr"; grpIP; "drop"].
Definition queue_rule (iface : string) : list string :=
  ["iifname"; iface; "ip"; "daddr"; "224.0.0.0/4"; "queue"; "num"; "1"].

Section managers.
Context {MO : MapOrder} {U : GoUnicode} {Sh : Shell}.

Definition nft_exec (argv : list string) : eff NFTablesManager bool := λ m,
  let ok := exits_zero (nft_log m) argv in
  (MkNFTables (nft_interfaces m) (nft_routes m) (nft_log m ++ [(argv, ok)]), Ok ok).

Definition nft_Start (interfaces : list string) : eff NFTablesManager unit := (
  eff_mod (λ m, MkNFTables interfaces (nft_routes m) (nft_log m)) ;;
  nft_exec (table_argv "delete") ;;
  ok ←! nft_exec (table_argv "add");
  if negb ok then eff_res (Err "failed to create nftables table")
  else
    ok ←! nft_exec chain_argv;
    if negb ok then eff_res (Err "failed to create nftables prerouting chain") else eff_ret tt)%eff.

Definition nft_Stop : eff NFTablesManager unit := (nft_exec (table_argv "delete") ;; eff_ret tt)%eff.

(** The two rules of a route on one interface; a failure is only logged. *)
Definition nft_rules (srcIP grpIP mac : string) (_ : unit) (iface : string) : eff NFTablesManager unit := (
  nft_exec (rule_argv (accept_rule iface srcIP grpIP mac)) ;;
  nft_exec (rule_argv (drop_rule iface srcIP grpIP)) ;;
  eff_ret tt)%eff.

(** The loop body over the routes. *)
Definition nft_route_rules (_ : unit) (route : string * string) : eff NFTablesManager unit := (
  match Split route.1 ":"%char with
  | [srcIP; grpIP] =>
      ifs ←! eff_get nft_interfaces;
      eff_fold (nft_rules srcIP grpIP route.2) tt ifs
  | _ => eff_ret tt
  end)%eff.

Definition applyRules (p : list positive) : eff NFTablesManager unit := (
  nft_exec flush_argv ;;
  routes ←! eff_get nft_routes;
  eff_fold nft_route_rules tt (range p routes))%eff.

Definition nft_OnMulticastRouteAdd (p : list positive) (arp : ArpTable) (srcIP grpIP nextHopIP : string)
    : eff NFTablesManager unit := (
  mac ←! eff_res (ResolveMACFromARP arp nextHopIP);
  eff_mod (λ m, MkNFTables (nft_interfaces m) (<[srcIP +:+ ":" +:+ grpIP := ToLower mac]> (nft_routes m)) (nft_log m)) ;;
  applyRules p)%eff.

Definition nft_OnMulticastRouteDelete (p : list positive) (srcIP grpIP : string) : eff NFTablesManager unit := (
  eff_mod (λ m, MkNFTables (nft_interfaces m) (delete (srcIP +:+ ":" +:+ grpIP) (nft_routes m)) (nft_log m)) ;;
  applyRules p)%eff.

(** ** The NFQUEUE manager *)

Record NFQueueManager := MkNFQueue {
  nfq_interfaces : list string;
  nfq_routes : gmap string string;
  nfq_log : CmdLog;
  nfq : bool;                         (* the queue is open *)
}.

Definition NewNFQueueManager : NFQueueManager := MkNFQueue [] ∅ [] false.

Definition nfq_exec (argv : list string) : eff NFQueueManager bool := λ m,
  let ok := exits_zero (nfq_log m) argv in
  (MkNFQueue (nfq_interfaces m) (nfq_routes m) (nfq_log m ++ [(argv, ok)]) (nfq m), Ok ok).

Definition nfq_queue_rule (_ : unit) (iface : string) : eff NFQueueManager unit := (
  ok ←! nfq_exec (rule_argv (queue_rule iface));
  if negb ok then eff_res (Err "failed to add nftables queue rule") else eff_ret tt)%eff.

(** [opens] tells whether [nfqueue.Open] succeeds. *)
Definition nfq_Start (interfaces : list string) (opens : bool) : eff NFQueueManager unit := (
  eff_mod (λ m, MkNFQueue interfaces (nfq_routes m) (nfq_log m) (nfq m)) ;;
  nfq_exec (table_argv "delete") ;;
  ok ←! nfq_exec (table_argv "add");
  if negb ok then eff_res (Err "failed to create nftables table")
  else
    ok ←! nfq_exec chain_argv;
    if negb ok then eff_res (Err "failed to create nftables prerouting chain")
    else
      eff_fold nfq_queue_rule tt interfaces ;;
      if negb opens then eff_res (Err "failed to open NFQUEUE 1")
      else eff_mod (λ m, MkNFQueue (nfq_interfaces m) (nfq_routes m) (nfq_log m) true))%eff.

Definition nfq_Stop : eff NFQueueManager unit := (
  eff_mod (λ m, MkNFQueue (nfq_interfaces m) (nfq_routes m) (nfq_log m) false) ;;
  nfq_exec (table_argv "delete") ;; eff_ret tt)%eff.

Definition nfq_OnMulticastRouteAdd (arp : ArpTable) (srcIP grpIP nextHopIP : string) : eff NFQueueManager unit := (
  mac ←! eff_res (ResolveMACFromARP arp nextHopIP);
  eff_mod (λ m, MkNFQueue (nfq_interfaces m) (<[srcIP +:+ ":" +:+ grpIP := ToLower mac]> (nfq_routes m)) (nfq_log m) (nfq m)))%eff.

Definition nfq_OnMulticastRouteDelete (srcIP grpIP : string) : eff NFQueueManager unit :=
  eff_mod (λ m, MkNFQueue (nfq_interfaces m) (delete (srcIP +:+ ":" +:+ grpIP) (nfq_routes m)) (nfq_log m) (nfq m)).
End managers.

(** [fmt.Sprintf("%02x", b)] *)
Definition hex2 (b : Z) : string := hexDigit (b `div` 16) +:+ hexDigit (b `mod` 16).

Definition formatMAC (mac : list Z) : string := Join (hex2 <$> mac) ":".

(** The fields of [nfqueue.Attribute] that are read; [None] is nil. *)
Record Attribute := MkAttribute {
  PacketID : option Z;
  Payload : option (list Z);
  HwAddr : option (list Z);
}.

Inductive Verdict := NfAccept | NfDrop.

#[export] Instance Verdict_eq_dec : EqDecision Verdict.
Proof. solve_decision. Defined.

(** The verdict on a payload; the call panics if a byte of it were missing. *)
Definition packet_verdict (m : NFQueueManager) (payload : list Z) (hw : option (list Z)) : res Verdict :=
  if (length payload <? 20)%nat then Ok NfAccept
  else
    b ← go_index payload 0;
    if negb (Z.shiftr b 4 =? 4) then Ok NfAccept
    else
      s0 ← go_index payload 12; s1 ← go_index payload 13; s2 ← go_index payload 14; s3 ← go_index payload 15;
      d0 ← go_index payload 16; d1 ← go_index payload 17; d2 ← go_index payload 18; d3 ← go_index payload 19;
      Ok (match nfq_routes m !! (IP_String (IPv4 s0 s1 s2 s3) +:+ ":" +:+ IP_String (IPv4 d0 d1 d2 d3)) with
          | None => NfAccept
          | Some expectedMac =>
              match hw with
              | None => NfDrop
              | Some mac => if bool_decide (formatMAC mac = expectedMac) then NfAccept else NfDrop
              end
          end).

(** The verdict set for a packet, if one is set at all. *)
Definition hookFunc (m : NFQueueManager) (attr : Attribute) : res (option (Z * Verdict)) :=
  match PacketID attr, Payload attr with
  | Some packetID, Some payload => v ← packet_verdict m payload (HwAddr attr); Ok (Some (packetID, v))
  | _, _ => Ok None
  end.

(** [NewLoopPreventionManager] on Linux; the third manager does nothing. *)
Definition NewLoopPreventionManager (mode : string) : NFTablesManager + NFQueueManager + unit :=
  if bool_decide (mode = "nftables") then inl (inl NewNFTablesManager)
  else if bool_decide (mode = "nfqueue") then inl (inr NewNFQueueManager)
  else inr tt.
