(* ===== verification/LoopPreventionFacts.v ===== *)
(** * Correctness of loop prevention (internal/mroute/loopprevention_linux.go, arp.go)

    The verdict of the queue's hook on every packet, the chain of rules that the
    nft commands build, and that the two managers let the same packets in. *)

From Stdlib Require Import Ascii.
From S2P Require Import Prelude GoNet GoStrings Effects Mroute LoopPrevention.

(** ** The verdict of the hook *)

(** Source and destination of an IPv4 packet. *)
Definition ipv4_addresses (payload : list Z) : option (IP * IP) :=
  match payload with
  | b :: _ :: _ :: _ :: _ :: _ :: _ :: _ :: _ :: _ :: _ :: _ :: s0 :: s1 :: s2 :: s3 :: d0 :: d1 :: d2 :: d3 :: _ =>
      if Z.shiftr b 4 =? 4 then Some ([s0; s1; s2; s3], [d0; d1; d2; d3]) else None
  | _ => None
  end.

Definition route_key (s g : IP) : string := IP_String s +:+ ":" +:+ IP_String g.

(** What a route says about a packet's hardware address. *)
Definition mac_verdict (expected : option string) (hw : option (list Z)) : Verdict :=
  match expected with
  | None => NfAccept
  | Some mac => if bool_decide (formatMAC <$> hw = Some mac) then NfAccept else NfDrop
  end.

Lemma IP_String_IPv4 a b c d : IP_String (IPv4 a b c d) = IP_String [a; b; c; d].
Proof. apply IP_String_To4, To4_IPv4. Qed.

Lemma packet_verdict_eq m payload hw :
  packet_verdict m payload hw =
    Ok (match ipv4_addresses payload with
        | Some (s, d) => mac_verdict (nfq_routes m !! route_key s d) hw
        | None => NfAccept
        end).
Proof.
  unfold packet_verdict. do 20 (destruct payload as [|? payload]; [done|]).
  cbn [length]. rewrite (proj2 (Nat.ltb_ge _ 20)) by lia. cbn [ipv4_addresses].
  change (go_index _ 0) with (Ok z). rewrite res_bind_Ok. destruct (Z.shiftr z 4 =? 4); cbn [negb]; [|done].
  unfold go_index. cbn [lookup list_lookup]. rewrite !res_bind_Ok, !IP_String_IPv4. unfold route_key, mac_verdict.
  destruct (nfq_routes m !! _) as [mac|]; [|done]. destruct hw as [hw|]; [|done]. simpl.
  repeat case_bool_decide; naive_solver.
Qed.

(** C22. The hook.  No packet makes it panic; a packet without number or payload
    gets no verdict; any other packet is dropped exactly when it is IPv4 with
    its addresses in the payload, a route for its source and group is
    registered, and its hardware address is missing or not the expected one. *)
Theorem hookFunc_spec m attr :
  match PacketID attr, Payload attr with
  | Some packetID, Some payload => ∃ v, hookFunc m attr = Ok (Some (packetID, v)) ∧
      (v = NfDrop ↔ ∃ s d mac, ipv4_addresses payload = Some (s, d) ∧ nfq_routes m !! route_key s d = Some mac ∧
                      ∀ hw, HwAddr attr = Some hw → formatMAC hw ≠ mac)
  | _, _ => hookFunc m attr = Ok None
  end.
Proof.
  unfold hookFunc. destruct (PacketID attr) as [packetID|], (Payload attr) as [payload|]; try done.
  rewrite packet_verdict_eq, res_bind_Ok. eexists. split; [done|].
  destruct (ipv4_addresses payload) as [[s d]|]; [|naive_solver]. unfold mac_verdict.
  destruct (nfq_routes m !! route_key s d) as [mac|] eqn:Hm; [|naive_solver].
  case_bool_decide as Hb.
  - split; [done|]. intros (s' & d' & mac' & [= <- <-] & Hm' & Hne). rewrite Hm in Hm'. injection Hm' as <-.
    destruct (HwAddr attr) as [hw|]; [|done]. injection Hb as Hb. by apply Hne in Hb.
  - split; [|done]. intros _. exists s, d, mac. split; [done|]. split; [done|]. intros hw Hhw E. apply Hb.
    by rewrite Hhw, <-E.
Qed.

(** ** The chain of rules *)

Inductive NftRule :=
  | RAccept (iface srcIP grpIP mac : string)
  | RDrop (iface srcIP grpIP : string)
  | RQueue (iface : string).

(** The rule that a command adds. *)
Definition rule_of (argv : list string) : option NftRule :=
  match argv with
  | [_; _; _; _; _; _; _; iface; _; _; s; _; _; g; _; _; mac; _] =>
      if bool_decide (argv = rule_argv (accept_rule iface s g mac)) then Some (RAccept iface s g mac) else None
  | [_; _; _; _; _; _; _; iface; _; _; s; _; _; g; _] =>
      if bool_decide (argv = rule_argv (drop_rule iface s g)) then Some (RDrop iface s g) else None
  | [_; _; _; _; _; _; _; iface; _; _; _; _; _; _] =>
      if bool_decide (argv = rule_argv (queue_rule iface)) then Some (RQueue iface) else None
  | _ => None
  end.

Lemma rule_of_accept iface s g mac : rule_of (rule_argv (accept_rule iface s g mac)) = Some (RAccept iface s g mac).
Proof. simpl. by rewrite bool_decide_true. Qed.
Lemma rule_of_drop iface s g : rule_of (rule_argv (drop_rule iface s g)) = Some (RDrop iface s g).
Proof. simpl. by rewrite bool_decide_true. Qed.
Lemma rule_of_queue iface : rule_of (rule_argv (queue_rule iface)) = Some (RQueue iface).
Proof. simpl. by rewrite bool_decide_true. Qed.

(** The chain after a successful command; [None] without the chain. *)
Definition chain_step (c : option (list NftRule)) (e : list string * bool) : option (list NftRule) :=
  if negb e.2 then c
  else if bool_decide (e.1 = table_argv "delete") then None
  else if bool_decide (e.1 = chain_argv) then Some (default [] c)
  else if bool_decide (e.1 = flush_argv) then (λ _, []) <$> c
  else match rule_of e.1 with Some r => (λ l, l ++ [r]) <$> c | None => c end.

Definition chain (log : CmdLog) : option (list NftRule) := foldl chain_step None log.

(** A packet that arrives, with the addresses of its header. *)
Record ArrivingPacket := MkArriving {
  pk_iface : string;
  pk_hw : option (list Z);
  pk_payload : list Z;
}.

(** A rule's address, as a packet's address. *)
Definition addr_is (s : string) (ip : IP) : bool := bool_decide (ParseIP s ≫= To4 = Some ip).

Definition multicast (ip : IP) : bool := match ip with a :: _ => (224 <=? a) && (a <? 240) | [] => false end.

(** The first rule that matches decides; a queued packet gets the verdict [q]
    of the program, and a packet that no rule matches is let in. *)
Fixpoint chain_verdict (q : Verdict) (rules : list NftRule) (iface : string) (s d : IP) (hw : option (list Z)) : Verdict :=
  match rules with
  | [] => NfAccept
  | RAccept i s' g mac :: rules =>
      if bool_decide (i = iface) && addr_is s' s && addr_is g d && bool_decide (formatMAC <$> hw = Some mac)
      then NfAccept else chain_verdict q rules iface s d hw
  | RDrop i s' g :: rules =>
      if bool_decide (i = iface) && addr_is s' s && addr_is g d
      then NfDrop else chain_verdict q rules iface s d hw
  | RQueue i :: rules =>
      if bool_decide (i = iface) && multicast d then q else chain_verdict q rules iface s d hw
  end.

(** The verdicts of the two managers on an IPv4 packet. *)
Definition nft_verdict (m : NFTablesManager) (pkt : ArrivingPacket) : Verdict :=
  match ipv4_addresses (pk_payload pkt) with
  | Some (s, d) => chain_verdict NfAccept (default [] (chain (nft_log m))) (pk_iface pkt) s d (pk_hw pkt)
  | None => NfAccept
  end.

Definition nfq_verdict (m : NFQueueManager) (pkt : ArrivingPacket) : Verdict :=
  match ipv4_addresses (pk_payload pkt) with
  | Some (s, d) =>
      chain_verdict (match packet_verdict m (pk_payload pkt) (pk_hw pkt) with Ok v => v | _ => NfDrop end)
        (default [] (chain (nfq_log m))) (pk_iface pkt) s d (pk_hw pkt)
  | None => NfAccept
  end.

(** ** Verdicts of the rules of routes *)

Definition route_rules (ifs : list string) (route : string * string) : list NftRule :=
  match Split route.1 ":"%char with
  | [srcIP; grpIP] => i ← ifs; [RAccept i srcIP grpIP route.2; RDrop i srcIP grpIP]
  | _ => []
  end.

Lemma addr_is_printed ip ip' : is_ip4 ip → addr_is (IP_String ip) ip' = bool_decide (ip = ip').
Proof.
  intros Hip. unfold addr_is. rewrite ParseIP_String by done.
  change (Some (v4InV6Prefix ++ ip) ≫= To4) with (To4 (v4InV6Prefix ++ ip)). rewrite To4_v4InV6 by apply Hip.
  apply bool_decide_ext. naive_solver.
Qed.

Lemma route_rules_verdict q ifs s g mac rest iface s' d hw : is_ip4 s → is_ip4 g →
  chain_verdict q (route_rules ifs (route_key s g, mac) ++ rest) iface s' d hw =
    if bool_decide (iface ∈ ifs) && bool_decide ((s, g) = (s', d)) then mac_verdict (Some mac) hw
    else chain_verdict q rest iface s' d hw.
Proof.
  intros Hs Hg. unfold route_rules, route_key. cbn [fst snd]. rewrite Split_printed_pair by done.
  induction ifs as [|i ifs IH]; [done|]. cbn [mbind list_bind app chain_verdict].
  rewrite !addr_is_printed by done.
  destruct (decide (i = iface)) as [->|Hne].
  - rewrite !(bool_decide_true (iface = iface)), (bool_decide_true (iface ∈ iface :: ifs)) by (done || by left).
    cbn [andb]. destruct (decide (s = s')) as [->|Hs'].
    + destruct (decide (g = d)) as [->|Hg'].
      * rewrite (bool_decide_true (s' = s')), (bool_decide_true (d = d)), (bool_decide_true ((s', d) = (s', d))) by done.
        cbn [andb]. unfold mac_verdict. by repeat case_bool_decide.
      * rewrite (bool_decide_false (g = d)), (bool_decide_false ((s', g) = (s', d))) by congruence.
        rewrite andb_false_r. cbn [andb]. rewrite IH, (bool_decide_false ((s', g) = (s', d))) by congruence.
        by rewrite andb_false_r.
    + rewrite (bool_decide_false (s = s')), (bool_decide_false ((s, g) = (s', d))) by congruence. cbn [andb].
      rewrite IH, (bool_decide_false ((s, g) = (s', d))) by congruence. by rewrite andb_false_r.
  - rewrite !(bool_decide_false (i = iface)) by done. cbn [andb]. rewrite IH.
    rewrite (bool_decide_ext (iface ∈ i :: ifs) (iface ∈ ifs)); [done|]. rewrite elem_of_cons. naive_solver.
Qed.

(** The routes of a table, all of printed addresses. *)
Definition printed_routes (R : gmap string string) : Prop :=
  ∀ k mac, R !! k = Some mac → ∃ s g, is_ip4 s ∧ is_ip4 g ∧ k = route_key s g.

Lemma list_verdict q ifs l iface s d hw : is_ip4 s → is_ip4 d →
  (∀ k mac, (k, mac) ∈ l → ∃ s g, is_ip4 s ∧ is_ip4 g ∧ k = route_key s g) →
  chain_verdict q (l ≫= route_rules ifs) iface s d hw =
    if bool_decide (iface ∈ ifs) then mac_verdict ((list_to_map l : gmap string string) !! route_key s d) hw else NfAccept.
Proof.
  intros Hs Hd Hl. induction l as [|[k mac] l IH].
  { simpl. rewrite lookup_empty. by case_bool_decide. }
  destruct (Hl k mac) as (s' & g' & Hs' & Hg' & ->); [by left|]. cbn [mbind list_bind].
  rewrite route_rules_verdict, IH by (done || intros ???; eapply Hl; by right).
  simpl. destruct (decide ((s', g') = (s, d))) as [[= -> ->]|Hne].
  - rewrite lookup_insert_eq, (bool_decide_true ((s, d) = (s, d))), andb_true_r by done. by case_bool_decide.
  - rewrite (bool_decide_false ((s', g') = (s, d))), andb_false_r by done.
    rewrite lookup_insert_ne; [done|]. intros E. by apply Hne, printed_pair_inj.
Qed.

Section managers.
Context {MO : MapOrder} {U : GoUnicode} {Sh : Shell}.

Lemma routes_verdict q ifs p R iface s d hw : is_ip4 s → is_ip4 d → printed_routes R →
  chain_verdict q (range p R ≫= route_rules ifs) iface s d hw =
    if bool_decide (iface ∈ ifs) then mac_verdict (R !! route_key s d) hw else NfAccept.
Proof.
  intros Hs Hd HR. rewrite list_verdict by (done || intros k mac ?%elem_of_range; by eapply HR).
  by rewrite list_to_map_range.
Qed.

Lemma queue_verdict q ifs iface s d hw :
  chain_verdict q (RQueue <$> ifs) iface s d hw = if bool_decide (iface ∈ ifs) && multicast d then q else NfAccept.
Proof.
  induction ifs as [|i ifs IH]; [done|]. cbn [fmap list_fmap chain_verdict]. rewrite IH.
  destruct (decide (i = iface)) as [->|Hne].
  - rewrite (bool_decide_true (iface = iface)), (bool_decide_true (iface ∈ iface :: ifs)) by (done || by left). cbn [andb].
    destruct (multicast d); [done|]. by rewrite andb_false_r.
  - rewrite (bool_decide_false (i = iface)) by done. cbn [andb].
    rewrite (bool_decide_ext (iface ∈ i :: ifs) (iface ∈ ifs)); [done|]. rewrite elem_of_cons. naive_solver.
Qed.

(** ** What the operations write *)

(** No command of the log failed, except for the removal of an old table, which
    fails when there is none and whose error the code ignores. *)
Definition cmds_ok (log : CmdLog) : Prop := Forall (λ e, e.1 = table_argv "delete" ∨ e.2 = true) log.

Lemma chain_snoc log e : chain (log ++ [e]) = chain_step (chain log) e.
Proof. unfold chain. by rewrite foldl_snoc. Qed.

Lemma chain_step_rule c r rule : rule_of (rule_argv r) = Some rule →
  chain_step (Some c) (rule_argv r, true) = Some (c ++ [rule]).
Proof.
  intros Hr. unfold chain_step. cbn [fst snd negb].
  rewrite !bool_decide_false by (intros [=]). by rewrite Hr.
Qed.

(** The state with more commands in the log. *)
Definition nft_logged (m : NFTablesManager) (log : CmdLog) : NFTablesManager :=
  MkNFTables (nft_interfaces m) (nft_routes m) (nft_log m ++ log).

Lemma nft_logged_nil m : nft_logged m [] = m.
Proof. unfold nft_logged. rewrite app_nil_r. by destruct m. Qed.

Lemma nft_logged_app m l1 l2 : nft_logged (nft_logged m l1) l2 = nft_logged m (l1 ++ l2).
Proof. unfold nft_logged. simpl. by rewrite <-app_assoc. Qed.

(** The computation only runs commands; when they succeed they append the rules. *)
Definition appends (f : eff NFTablesManager unit) (ifs : list string) (rules : list NftRule) : Prop :=
  ∀ m, nft_interfaces m = ifs → ∃ log, f m = (nft_logged m log, Ok tt) ∧
    ∀ c, chain (nft_log m) = Some c → cmds_ok log → chain (nft_log m ++ log) = Some (c ++ rules).

Lemma appends_bind f g ifs l1 l2 : appends f ifs l1 → appends g ifs l2 → appends (eff_bind f (λ _, g)) ifs (l1 ++ l2).
Proof.
  intros Hf Hg m Hi. destruct (Hf m Hi) as (log1 & E1 & Hc1).
  destruct (Hg (nft_logged m log1) Hi) as (log2 & E2 & Hc2). exists (log1 ++ log2).
  rewrite (eff_bind_ok _ _ _ _ _ E1), E2, nft_logged_app. split; [done|]. intros c Hc [H1 H2]%Forall_app.
  rewrite !app_assoc. apply Hc2; [by apply Hc1|done].
Qed.

Lemma appends_ret ifs : appends (eff_ret tt) ifs [].
Proof. intros m _. exists []. rewrite nft_logged_nil. split; [done|]. intros c Hc _. by rewrite !app_nil_r. Qed.

Lemma appends_fold {A} (f : unit → A → eff NFTablesManager unit) g ifs l :
  (∀ u x, appends (f u x) ifs (g x)) → ∀ u, appends (eff_fold f u l) ifs (l ≫= g).
Proof.
  intros Hf. induction l as [|x l IH]; intros []; [apply appends_ret|].
  intros m Hi. destruct (appends_bind (f tt x) (eff_fold f tt l) ifs (g x) (l ≫= g) (Hf tt x) (IH tt) m Hi) as (log & E & Hc).
  exists log. split; [|exact Hc]. rewrite <-E. cbn [eff_fold]. unfold eff_bind. by destruct (f tt x m) as [m' [[]|?| |]].
Qed.

Lemma appends_rule r rule ifs : rule_of (rule_argv r) = Some rule →
  appends (eff_bind (nft_exec (rule_argv r)) (λ _, eff_ret tt)) ifs [rule].
Proof.
  intros Hr m _. exists [(rule_argv r, exits_zero (nft_log m) (rule_argv r))]. split; [done|].
  intros c Hc [[E|E] _]%Forall_cons; simpl in E; [done|]. by rewrite chain_snoc, Hc, E, (chain_step_rule _ _ _ Hr).
Qed.

Lemma nft_rules_appends s g mac u i ifs :
  appends (nft_rules s g mac u i) ifs [RAccept i s g mac; RDrop i s g].
Proof.
  intros m Hi. destruct (appends_bind _ _ ifs _ _ (appends_rule _ _ ifs (rule_of_accept i s g mac))
    (appends_rule _ _ ifs (rule_of_drop i s g)) m Hi) as (log & E & Hc).
  exists log. split; [exact E|exact Hc].
Qed.

Lemma route_rules_appends u route ifs : appends (nft_route_rules u route) ifs (route_rules ifs route).
Proof.
  unfold nft_route_rules, route_rules. destruct (Split route.1 ":"%char) as [|s [|g [|]]]; try apply appends_ret.
  intros m Hi. rewrite (eff_bind_ok _ _ m m (nft_interfaces m)) by done. rewrite Hi.
  by apply (appends_fold (nft_rules s g route.2) (λ i, [RAccept i s g route.2; RDrop i s g]) ifs);
    [intros; apply nft_rules_appends|..].
Qed.

Lemma applyRules_spec p m : ∃ log, applyRules p m = (nft_logged m log, Ok tt) ∧
  (is_Some (chain (nft_log m)) → cmds_ok log →
     chain (nft_log m ++ log) = Some (range p (nft_routes m) ≫= route_rules (nft_interfaces m))).
Proof.
  set (flush := [(flush_argv, exits_zero (nft_log m) flush_argv)]).
  destruct (appends_fold nft_route_rules (route_rules (nft_interfaces m)) (nft_interfaces m) (range p (nft_routes m))
    (λ u x, route_rules_appends u x _) tt (nft_logged m flush) eq_refl) as (log & E & Hc).
  exists (flush ++ log). split.
  - rewrite <-nft_logged_app, <-E. done.
  - intros [c Hm] [[[Hf|Hf] _]%Forall_cons Hlog]%Forall_app; simpl in Hf; [done|]. rewrite app_assoc. apply (Hc []); [|done].
    unfold flush. simpl. rewrite chain_snoc, Hm, Hf. unfold chain_step. cbn [fst snd negb].
    rewrite bool_decide_false, bool_decide_false, bool_decide_true by (done || by intros [=]). done.
Qed.

(** ** The two managers side by side *)

(** An event of the installer: a route with the ARP table at that moment. *)
Inductive lp_op :=
  | LpAdd (arp : ArpTable) (s g : IP) (nextHopIP : string)
  | LpDelete (s g : IP).

Definition run_nft (x : list positive * lp_op) : eff NFTablesManager unit :=
  match x.2 with
  | LpAdd arp s g nextHopIP => nft_OnMulticastRouteAdd x.1 arp (IP_String s) (IP_String g) nextHopIP
  | LpDelete s g => nft_OnMulticastRouteDelete x.1 (IP_String s) (IP_String g)
  end.

Definition run_nfq (op : lp_op) : eff NFQueueManager unit :=
  match op with
  | LpAdd arp s g nextHopIP => nfq_OnMulticastRouteAdd arp (IP_String s) (IP_String g) nextHopIP
  | LpDelete s g => nfq_OnMulticastRouteDelete (IP_String s) (IP_String g)
  end.

(** A route from an IPv4 address to a group of 224.0.0.0/4. *)
Definition op_multicast (op : lp_op) : Prop :=
  match op with
  | LpAdd _ s g _ => is_ip4 s ∧ is_ip4 g ∧ multicast g = true
  | LpDelete s g => is_ip4 s ∧ is_ip4 g
  end.

Definition nft_after (ifs : list string) (xs : list (list positive * lp_op)) : NFTablesManager :=
  foldl (λ m x, (run_nft x m).1) (nft_Start ifs NewNFTablesManager).1 xs.
Definition nfq_after (ifs : list string) (ops : list lp_op) : NFQueueManager :=
  foldl (λ m op, (run_nfq op m).1) (nfq_Start ifs true NewNFQueueManager).1 ops.

Record lp_sim (ifs : list string) (m1 : NFTablesManager) (m2 : NFQueueManager) : Prop := {
  sim_ifs : nft_interfaces m1 = ifs;
  sim_routes : nft_routes m1 = nfq_routes m2;
  sim_printed k mac : nfq_routes m2 !! k = Some mac →
    ∃ s g, is_ip4 s ∧ is_ip4 g ∧ multicast g = true ∧ k = route_key s g;
  sim_nft : cmds_ok (nft_log m1) → ∃ p, chain (nft_log m1) = Some (range p (nfq_routes m2) ≫= route_rules ifs);
  sim_nfq : cmds_ok (nfq_log m2) → chain (nfq_log m2) = Some (RQueue <$> ifs);
}.

Lemma queue_rules_chain ifs : ∀ u m, ∃ log r,
  eff_fold nfq_queue_rule u ifs m = (MkNFQueue (nfq_interfaces m) (nfq_routes m) (nfq_log m ++ log) (nfq m), r) ∧
    (cmds_ok log → r = Ok tt) ∧
    ∀ c, chain (nfq_log m) = Some c → cmds_ok log → chain (nfq_log m ++ log) = Some (c ++ (RQueue <$> ifs)).
Proof.
  induction ifs as [|i ifs IH]; intros [] m.
  { exists [], (Ok tt). rewrite app_nil_r. split; [by destruct m|]. split; [done|]. intros c Hc _. by rewrite app_nil_r. }
  cbn [eff_fold]. unfold nfq_queue_rule at 1, eff_bind at 1 2, nfq_exec.
  destruct (exits_zero (nfq_log m) (rule_argv (queue_rule i))) eqn:Ex; cbn [negb].
  - unfold eff_ret at 1. set (m1 := MkNFQueue _ _ _ _). destruct (IH tt m1) as (log & r & E & Hr & Hc).
    exists ((rule_argv (queue_rule i), true) :: log), r. rewrite E. unfold m1. simpl. rewrite <-app_assoc. split; [done|].
    split; [intros [_ H]%Forall_cons; by apply Hr|]. intros c Hm [_ H]%Forall_cons.
    specialize (Hc (c ++ [RQueue i])). unfold m1 in Hc. simpl in Hc. rewrite <-app_assoc in Hc. simpl in Hc.
    rewrite Hc, <-app_assoc; [done| |done]. by rewrite chain_snoc, Hm, (chain_step_rule _ _ _ (rule_of_queue i)).
  - eexists [(_, false)], _. split; [reflexivity|]. split; intros; by match goal with H : cmds_ok _ |- _ => apply Forall_cons in H as [[?|?] _] end.
Qed.

Lemma range_empty p : range p (∅ : gmap string string) = [].
Proof. apply Permutation_nil_r. by rewrite range_perm, map_to_list_empty. Qed.

(** A log that has begun with the creation of the table and the chain. *)
Lemma started_chain b : chain [(table_argv "delete", b); (table_argv "add", true); (chain_argv, true)] = Some [].
Proof. by destruct b. Qed.

Lemma cmds_ok_failed argv log : argv ≠ table_argv "delete" → ¬ cmds_ok ((argv, false) :: log).
Proof. by intros Hne [[E|E] _]%Forall_cons. Qed.

Lemma cmds_ok_tail e log : cmds_ok (e :: log) → cmds_ok log.
Proof. by intros [_ H]%Forall_cons. Qed.

Ltac not_ok := intros; exfalso; repeat match goal with
  | H : cmds_ok ((_, false) :: _) |- _ => by apply cmds_ok_failed in H
  | H : cmds_ok (_ :: _) |- _ => apply cmds_ok_tail in H
  end.

Lemma nft_Start_log ifs : let m := (nft_Start ifs NewNFTablesManager).1 in
  nft_interfaces m = ifs ∧ nft_routes m = ∅ ∧ (cmds_ok (nft_log m) → chain (nft_log m) = Some []).
Proof.
  unfold nft_Start, eff_bind, eff_mod, nft_exec, eff_ret, eff_res. cbn.
  destruct (exits_zero _ (table_argv "add")) eqn:E1; cbn; [|by split_and!; try done; not_ok].
  destruct (exits_zero _ chain_argv) eqn:E2; cbn; [|by split_and!; try done; not_ok].
  split_and!; try done. intros _. apply started_chain.
Qed.

Lemma nfq_Start_log ifs : let m := (nfq_Start ifs true NewNFQueueManager).1 in
  nfq_routes m = ∅ ∧ (cmds_ok (nfq_log m) → chain (nfq_log m) = Some (RQueue <$> ifs)).
Proof.
  unfold nfq_Start, eff_bind, eff_mod, nfq_exec, eff_ret, eff_res. cbn.
  destruct (exits_zero _ (table_argv "add")) eqn:E1; cbn; [|by split_and!; try done; not_ok].
  destruct (exits_zero _ chain_argv) eqn:E2; cbn; [|by split_and!; try done; not_ok].
  match goal with |- context [eff_fold nfq_queue_rule tt ifs ?m] => destruct (queue_rules_chain ifs tt m) as (log & r & E & Hr & Hc) end.
  rewrite E. simpl in *. assert (∀ b : bool, (cmds_ok ((table_argv "delete", b) :: (table_argv "add", true) :: (chain_argv, true) :: log)) → cmds_ok log) as Hok.
  { intros b. unfold cmds_ok. rewrite !Forall_cons. tauto. }
  destruct r as [[]|e| |]; simpl; (split; [done|]; intros H; specialize (Hok _ H); try by specialize (Hr Hok)).
  apply (Hc []); [apply started_chain|done].
Qed.

Lemma lp_sim_start ifs : lp_sim ifs (nft_Start ifs NewNFTablesManager).1 (nfq_Start ifs true NewNFQueueManager).1.
Proof.
  destruct (nft_Start_log ifs) as (H1 & H2 & H3), (nfq_Start_log ifs) as (H4 & H5).
  split; [done|congruence| | |done].
  - intros k mac. by rewrite H4, lookup_empty.
  - intros Hok. exists []. by rewrite H4, range_empty, H3.
Qed.

(** A change of the routes in both managers. *)
Lemma lp_sim_routes ifs m1 m2 p R : lp_sim ifs m1 m2 →
  (∀ k mac, R !! k = Some mac → ∃ s g, is_ip4 s ∧ is_ip4 g ∧ multicast g = true ∧ k = route_key s g) →
  lp_sim ifs (applyRules p (MkNFTables (nft_interfaces m1) R (nft_log m1))).1
    (MkNFQueue (nfq_interfaces m2) R (nfq_log m2) (nfq m2)).
Proof.
  intros [Hi _ _ Hc Hq] HR.
  destruct (applyRules_spec p (MkNFTables (nft_interfaces m1) R (nft_log m1))) as (log & E & Hlog).
  rewrite E. split; simpl; try done. intros [H1 H2]%Forall_app. exists p. rewrite <-Hi. apply Hlog; [|done].
  destruct (Hc H1) as (p0 & Hp). by eexists.
Qed.

Lemma lp_sim_op ifs m1 m2 p op : op_multicast op → lp_sim ifs m1 m2 →
  lp_sim ifs (run_nft (p, op) m1).1 (run_nfq op m2).1.
Proof.
  intros Hop Hs. pose proof Hs as [_ Hr Hp _ _]. unfold run_nft, run_nfq. cbn [fst snd].
  destruct op as [arp s g nh|s g]; cbn [op_multicast] in Hop.
  - unfold nft_OnMulticastRouteAdd, nfq_OnMulticastRouteAdd.
    destruct (ResolveMACFromARP arp nh) as [mac|e| |]; try done.
    rewrite (eff_bind_ok _ _ m1 m1 mac), (eff_bind_ok _ _ m2 m2 mac) by done.
    unfold eff_bind, eff_mod. cbn [fst]. rewrite Hr. apply lp_sim_routes; [done|].
    intros k mac' [[<- _]|[_ Hk]]%lookup_insert_Some; [|by eapply Hp]. exists s, g. split_and!; try done; apply Hop.
  - unfold nft_OnMulticastRouteDelete, nfq_OnMulticastRouteDelete, eff_bind, eff_mod. rewrite Hr. cbn [fst].
    apply lp_sim_routes; [done|]. intros k mac' [_ Hk]%lookup_delete_Some. by eapply Hp.
Qed.

Lemma ipv4_addresses_ip4 payload s d : Forall is_u8 payload → ipv4_addresses payload = Some (s, d) → is_ip4 s ∧ is_ip4 d.
Proof.
  intros Hf. do 20 (destruct payload as [|? payload]; [done|]). cbn [ipv4_addresses].
  repeat match goal with H : Forall is_u8 (_ :: _) |- _ => apply Forall_cons in H as [? H] end.
  case_match; [|done]. intros [= <- <-]. split; (split; [done|]); by repeat apply Forall_cons_2; try apply Forall_nil_2.
Qed.

(** C24. The two modes agree.  Started on the same interfaces, the queue opening,
    and told of the same multicast routes, the nftables rules and the queue with
    its hook decide alike about every packet: same interface, addresses and
    hardware address, same verdict.  No command must have failed up to then,
    other than the removal of an earlier table at the start, and the routes are
    for groups of 224.0.0.0/4. *)
Theorem loop_prevention_modes_agree ifs xs pkt :
  Forall op_multicast xs.*2 → Forall is_u8 (pk_payload pkt) →
  cmds_ok (nft_log (nft_after ifs xs)) → cmds_ok (nfq_log (nfq_after ifs xs.*2)) →
  nft_verdict (nft_after ifs xs) pkt = nfq_verdict (nfq_after ifs xs.*2) pkt.
Proof.
  intros Hops Hpay Hok1 Hok2.
  assert (lp_sim ifs (nft_after ifs xs) (nfq_after ifs xs.*2)) as [Hi Hr Hp Hc Hq].
  { unfold nft_after, nfq_after. generalize (lp_sim_start ifs).
    generalize (nft_Start ifs NewNFTablesManager).1, (nfq_Start ifs true NewNFQueueManager).1. clear Hok1 Hok2. revert Hops.
    induction xs as [|[p op] xs IH]; intros Hops m1 m2 Hs; [done|]. apply Forall_cons in Hops as [Hop Hops].
    cbn [fmap list_fmap foldl]. apply IH; [done|]. by apply lp_sim_op. }
  destruct (Hc Hok1) as (p & Hc'). specialize (Hq Hok2).
  unfold nft_verdict, nfq_verdict. destruct (ipv4_addresses (pk_payload pkt)) as [[s d]|] eqn:E; [|done].
  destruct (ipv4_addresses_ip4 _ _ _ Hpay E) as [Hs Hd]. rewrite Hc', Hq, packet_verdict_eq, E.
  assert (∀ l : list NftRule, default [] (Some l) = l) as Hdef by done. rewrite !Hdef.
  rewrite routes_verdict, queue_verdict; [|done..|].
  2:{ intros k mac Hk. destruct (Hp k mac Hk) as (s' & g' & ? & ? & _ & ->). by exists s', g'. }
  destruct (bool_decide (pk_iface pkt ∈ ifs)); [|done]. cbn [andb]. destruct (multicast d) eqn:Hm; [done|].
  unfold mac_verdict. destruct (nfq_routes _ !! route_key s d) as [mac|] eqn:Hk; [|done].
  destruct (Hp _ _ Hk) as (s' & g' & Hs' & Hg' & Hm' & E'). apply printed_pair_inj in E'; [|done..]. congruence.
Qed.
End managers.

(** ** Witnesses *)

Definition plain_unicode : GoUnicode := {| unicode_ToLower := λ s, s; unicode_Fields := λ s, [s] |}.
Definition all_succeed : Shell := {| exits_zero := λ _ _, true; ifname := λ _, None |}.

(** A host without the table: the table is removed only when it is there. *)
Definition clean_host : Shell :=
  {| exits_zero := λ log argv, if bool_decide (argv = table_argv "delete") then bool_decide (is_Some (chain log)) else true;
     ifname := λ _, None |}.

(** One line after the header: 10.0.0.9 is at aa:bb:cc:00:00:01. *)
Definition example_arp : ArpTable :=
  Some (["IP address HW type Flags HW address Mask Device";
         "10.0.0.9   0x1   0x2   AA:BB:CC:00:00:01   *   eth0"], false).

(** An IPv4 header from 10.0.0.2 to 224.0.1.1. *)
Definition example_payload : list Z := [69; 0; 0; 20; 0; 0; 0; 0; 1; 17; 0; 0; 10; 0; 0; 2; 224; 0; 1; 1].

Definition example_packet (last : Z) : ArrivingPacket :=
  MkArriving "eth0" (Some [170; 187; 204; 0; 0; last]) example_payload.

Definition example_ops : list (list positive * lp_op) :=
  [([], LpAdd example_arp [10; 0; 0; 2] [224; 0; 1; 1] "10.0.0.9")].

Lemma loop_prevention_modes_agree_witness :
  let nft := @nft_after canonical_order plain_unicode clean_host ["eth0"] example_ops in
  let nfq := @nfq_after plain_unicode clean_host ["eth0"] example_ops.*2 in
  nft_verdict nft (example_packet 1) = nfq_verdict nfq (example_packet 1) ∧ nfq_verdict nfq (example_packet 1) = NfAccept ∧
  nft_verdict nft (example_packet 2) = nfq_verdict nfq (example_packet 2) ∧ nfq_verdict nfq (example_packet 2) = NfDrop.
Proof.
  assert (∀ a b c d, is_u8 a → is_u8 b → is_u8 c → is_u8 d → is_ip4 [a; b; c; d]) as Hip.
  { intros. split; [done|]. by repeat apply Forall_cons_2; try apply Forall_nil_2. }
  assert (Forall op_multicast example_ops.*2) as Hops.
  { apply Forall_cons_2; [|apply Forall_nil_2].
    exact (conj (Hip 10 0 0 2 ltac:(done) ltac:(done) ltac:(done) ltac:(done))
             (conj (Hip 224 0 1 1 ltac:(done) ltac:(done) ltac:(done) ltac:(done)) eq_refl)). }
  assert (Forall is_u8 example_payload) as Hpay by (apply (bool_decide_unpack _); vm_compute; exact I).
  assert (cmds_ok (nft_log (@nft_after canonical_order plain_unicode clean_host ["eth0"] example_ops))) as Hok1
    by (apply (bool_decide_unpack _); vm_compute; exact I).
  assert (cmds_ok (nfq_log (@nfq_after plain_unicode clean_host ["eth0"] example_ops.*2))) as Hok2
    by (apply (bool_decide_unpack _); vm_compute; exact I).
  cbv zeta. split_and!.
  - exact (@loop_prevention_modes_agree canonical_order plain_unicode clean_host ["eth0"] example_ops
      (example_packet 1) Hops Hpay Hok1 Hok2).
  - vm_compute. reflexivity.
  - exact (@loop_prevention_modes_agree canonical_order plain_unicode clean_host ["eth0"] example_ops
      (example_packet 2) Hops Hpay Hok1 Hok2).
  - vm_compute. reflexivity.
Defined.
