(* ===== verification/Monitor.v ===== *)
(** * The interface monitor (internal/netlink/monitor.go, monitor_linux.go, monitor_stub.go)

    The table of interfaces, its two scans and its getters.  What the operating
    system lists is an argument; [None] is a failed query.  The two monitors
    have the same table and getters, which are written once. *)

From S2P Require Import Prelude GoNet Events.

Record InterfaceInfo := MkInterfaceInfo {
  ii_Name : string;
  ii_Index : Z;
  ii_IPs : list string;
  ii_MTU : Z;
  ii_IsUp : bool;
}.

(** The field [ifaces] of [LinuxMonitor] and [StubMonitor]. *)
Record InterfaceMonitor := MkInterfaceMonitor { ifaces : gmap string InterfaceInfo }.

Definition NewMonitor : InterfaceMonitor := MkInterfaceMonitor ∅.

(** [net.FlagUp] *)
Definition FlagUp : Z := 1.

(** ** Linux *)

(** The attributes of a link, with its IPv4 addresses. *)
Record NetLink := MkNetLink {
  nl_Name : string;
  nl_Index : Z;
  nl_Flags : Z;
  nl_MTU : Z;
  nl_Addrs : option (list IP);
}.

Definition link_info (l : NetLink) : InterfaceInfo :=
  MkInterfaceInfo (nl_Name l) (nl_Index l)
    (match nl_Addrs l with Some addrs => IP_String <$> addrs | None => [] end)
    (nl_MTU l) (negb (Z.land (nl_Flags l) FlagUp =? 0)).

Definition linux_scanInterfaces (links : option (list NetLink)) (m : InterfaceMonitor) : InterfaceMonitor :=
  match links with
  | None => m
  | Some links => MkInterfaceMonitor (foldl (λ acc l, <[nl_Name l := link_info l]> acc) ∅ links)
  end.

(** ** Other systems *)

(** An interface of [net.Interfaces] with its [Addrs]; an address that is not
    an [*net.IPNet] is [None]. *)
Record NetInterface := MkNetInterface {
  ni_Name : string;
  ni_Index : Z;
  ni_Flags : Z;
  ni_MTU : Z;
  ni_Addrs : option (list (option IPNet));
}.

Definition interface_info (i : NetInterface) : InterfaceInfo :=
  MkInterfaceInfo (ni_Name i) (ni_Index i)
    (match ni_Addrs i with
     | Some addrs => omap (λ a, ipNet ← a; _ ← To4 (net_IP ipNet); Some (IP_String (net_IP ipNet))) addrs
     | None => []
     end)
    (ni_MTU i) (negb (Z.land (ni_Flags i) FlagUp =? 0)).

(** The change detection for one interface. *)
Definition iface_changed (old : option InterfaceInfo) (info : InterfaceInfo) : bool :=
  match old with
  | None => true
  | Some old =>
      negb (Bool.eqb (ii_IsUp old) (ii_IsUp info)) || negb (length (ii_IPs old) =? length (ii_IPs info))%nat ||
      negb (ii_MTU old =? ii_MTU info)
  end.

Definition stub_step (old : gmap string InterfaceInfo) (st : gmap string InterfaceInfo * bool) (i : NetInterface)
    : gmap string InterfaceInfo * bool :=
  let info := interface_info i in
  (<[ni_Name i := info]> st.1, st.2 || iface_changed (old !! ni_Name i) info).

Definition stub_scanInterfaces (netIfaces : option (list NetInterface)) (m : InterfaceMonitor)
    : InterfaceMonitor * bool :=
  match netIfaces with
  | None => (m, false)
  | Some l =>
      let '(newIfaces, changed) := foldl (stub_step (ifaces m)) (∅, false) l in
      (MkInterfaceMonitor newIfaces, changed || negb (size (ifaces m) =? size newIfaces)%nat)
  end.

(** ** Updates *)

(** What the two channels of the Linux monitor announce; each update is
    scanned and published. *)
Inductive NetlinkUpdate := LinkUpdate | AddrUpdate.

Definition linux_update (u : NetlinkUpdate) (links : option (list NetLink)) (m : InterfaceMonitor)
    : InterfaceMonitor * list Event :=
  (linux_scanInterfaces links m,
   [MkEvent EventInterfaceUpdate
      (DataString (match u with LinkUpdate => "link_changed" | AddrUpdate => "address_changed" end))]).

(** A tick of the polling monitor. *)
Definition stub_tick (netIfaces : option (list NetInterface)) (m : InterfaceMonitor) : InterfaceMonitor * list Event :=
  let '(m, changed) := stub_scanInterfaces netIfaces m in
  (m, if changed then [MkEvent EventInterfaceUpdate (DataString "stub_polling_changed")] else []).

(** ** Getters *)

Definition mon_GetIfaceIndex (m : InterfaceMonitor) (name : string) : Z :=
  match ifaces m !! name with Some info => ii_Index info | None => 0 end.

Section getters.
Context {MO : MapOrder}.

Definition mon_GetInterfaces (p : list positive) (m : InterfaceMonitor) : list InterfaceInfo := (range p (ifaces m)).*2.

Definition mon_GetIfaceName (p : list positive) (m : InterfaceMonitor) (index : Z) : string :=
  match list_find (λ ni, ii_Index ni.2 = index) (range p (ifaces m)) with
  | Some (_, (name, _)) => name
  | None => ""
  end.

(** ** Facts *)

Lemma NoDup_fmap_inj {A B} (f : A → B) l x y : NoDup (f <$> l) → x ∈ l → y ∈ l → f x = f y → x = y.
Proof.
  induction l as [|z l IH]; [intros _ []%not_elem_of_nil|]. intros [Hz Hnd]%NoDup_cons.
  intros [->|Hx]%elem_of_cons [->|Hy]%elem_of_cons E; [done| | |by apply IH].
  - exfalso. apply Hz. rewrite E. by apply list_elem_of_fmap_2.
  - exfalso. apply Hz. rewrite <-E. by apply list_elem_of_fmap_2.
Qed.

Lemma scan_lookup links name info : NoDup (nl_Name <$> links) →
  foldl (λ acc l, <[nl_Name l := link_info l]> acc) (∅ : gmap string InterfaceInfo) links !! name = Some info ↔
    ∃ l, l ∈ links ∧ nl_Name l = name ∧ info = link_info l.
Proof.
  induction links as [|l links IH] using rev_ind.
  { intros _. cbn [foldl]. rewrite lookup_empty. split; [done|]. intros (l & []%not_elem_of_nil & _). }
  rewrite fmap_app. intros (Hnd & Hl & _)%NoDup_app. rewrite foldl_snoc, lookup_insert_Some, IH by done.
  assert (∀ l', l' ∈ links → nl_Name l' ≠ nl_Name l) as Hne.
  { intros l' Hl' E. apply (Hl (nl_Name l')); [by apply list_elem_of_fmap_2|]. rewrite E. by left. }
  setoid_rewrite elem_of_app. setoid_rewrite list_elem_of_singleton. split.
  - intros [[<- <-]|(_ & l' & Hl' & <- & ->)]; [exists l; naive_solver|exists l'; naive_solver].
  - intros (l' & [Hl'| ->] & <- & ->); [right|by left]. split; [by apply not_eq_sym, Hne|]. by exists l'.
Qed.

(** The Linux scan: links of distinct names and indices are found by name with
    their index and by index with their name, whatever the order of the table;
    every other name has the index 0, and a failed query changes nothing. *)
Lemma linux_scan_spec links m p :
  NoDup (nl_Name <$> links) → NoDup (nl_Index <$> links) →
  let m' := linux_scanInterfaces (Some links) m in
  (∀ l, l ∈ links → mon_GetIfaceIndex m' (nl_Name l) = nl_Index l ∧ mon_GetIfaceName p m' (nl_Index l) = nl_Name l) ∧
  (∀ name, name ∉ nl_Name <$> links → mon_GetIfaceIndex m' name = 0) ∧
  (∀ info, info ∈ mon_GetInterfaces p m' ↔ ∃ l, l ∈ links ∧ info = link_info l) ∧
  linux_scanInterfaces None m = m.
Proof.
  intros Hn Hi. cbv zeta.
  assert (∀ name info, ifaces (linux_scanInterfaces (Some links) m) !! name = Some info ↔
    ∃ l, l ∈ links ∧ nl_Name l = name ∧ info = link_info l) as Hlk by (intros; by apply scan_lookup).
  set (m' := linux_scanInterfaces (Some links) m) in *. split_and!; [| | |done].
  - intros l Hl. assert (ifaces m' !! nl_Name l = Some (link_info l)) as Hlook by (apply Hlk; by exists l).
    split; [unfold mon_GetIfaceIndex; by rewrite Hlook|]. unfold mon_GetIfaceName.
    destruct (list_find _ _) as [[n [name info]]|] eqn:E.
    + apply list_find_Some in E as (Hin%list_elem_of_lookup_2%elem_of_range & Hidx & _).
      apply Hlk in Hin as (l' & Hl' & <- & ->). simpl in Hidx. f_equal. by eapply (NoDup_fmap_inj nl_Index).
    + apply list_find_None in E. rewrite Forall_forall in E. exfalso.
      by apply (E (nl_Name l, link_info l)); [apply elem_of_range|].
  - intros name Hname. unfold mon_GetIfaceIndex. destruct (ifaces m' !! name) as [info|] eqn:E; [|done].
    apply Hlk in E as (l & Hl & <- & _). exfalso. apply Hname. by apply list_elem_of_fmap_2.
  - intros info. unfold mon_GetInterfaces. split.
    + intros ([name info'] & -> & Hin%elem_of_range)%list_elem_of_fmap.
      apply Hlk in Hin as (l & Hl & _ & ->). by exists l.
    + intros (l & Hl & ->). apply list_elem_of_fmap. exists (nl_Name l, link_info l). split; [done|].
      apply elem_of_range, Hlk. by exists l.
Qed.

(** The polling scan: when it reports no change, each listed interface was there
    with the same state, MTU and number of addresses. *)
Lemma stub_fold old l acc b :
  (foldl (stub_step old) (acc, b) l).2 = b || existsb (λ i, iface_changed (old !! ni_Name i) (interface_info i)) l.
Proof.
  revert acc b. induction l as [|i l IH]; intros acc b; cbn [foldl existsb]; [by rewrite orb_false_r|].
  unfold stub_step at 2. cbn [fst snd]. by rewrite IH, orb_assoc.
Qed.

Lemma stub_unchanged l m : (stub_scanInterfaces (Some l) m).2 = false → ∀ i, i ∈ l →
  ∃ old, ifaces m !! ni_Name i = Some old ∧ ii_IsUp old = ii_IsUp (interface_info i) ∧
    ii_MTU old = ii_MTU (interface_info i) ∧ length (ii_IPs old) = length (ii_IPs (interface_info i)).
Proof.
  unfold stub_scanInterfaces. destruct (foldl _ _ _) as [new ch] eqn:E.
  pose proof (stub_fold (ifaces m) l ∅ false) as Hch. rewrite E in Hch. simpl in *. subst ch.
  intros [H _]%orb_false_iff i Hi.
  assert (iface_changed (ifaces m !! ni_Name i) (interface_info i) = false) as Hc.
  { destruct (iface_changed _ _) eqn:Ec; [|done]. rewrite <-H. symmetry. apply existsb_exists. exists i.
    split; [|done]. by apply list_elem_of_In. }
  unfold iface_changed in Hc. destruct (ifaces m !! ni_Name i) as [old|]; [|done]. exists old.
  apply orb_false_iff in Hc as [[H1 H2]%orb_false_iff H3]. apply negb_false_iff in H1, H2, H3.
  split; [done|]. split; [by apply Bool.eqb_prop|]. split; [by apply Z.eqb_eq|by apply Nat.eqb_eq].
Qed.
End getters.

(** An address that replaces another is not a change. *)
Lemma stub_misses_renumbering :
  let eth0 ip := MkNetInterface "eth0" 2 1 1500 (Some [Some (MkIPNet ip [255; 255; 255; 0])]) in
  let m := (stub_scanInterfaces (Some [eth0 [10; 0; 0; 1]]) NewMonitor).1 in
  (stub_scanInterfaces (Some [eth0 [10; 9; 9; 1]]) m).2 = false ∧
  ii_IPs <$> ifaces (stub_scanInterfaces (Some [eth0 [10; 9; 9; 1]]) m).1 !! "eth0" = Some ["10.9.9.1"].
Proof. split; vm_compute; reflexivity. Qed.
