(* ===== verification/Api.v ===== *)
(** * The REST API (internal/api/server.go, handlers.go)

    The middlewares (audit log, rate limit, token), the handlers over the
    daemon's managers, and the routes of the server.  A request carries what
    the handlers read of it; its body is the JSON value it holds, [None] if it
    holds none.  The JWT library is the class [Jwt]. *)

From Stdlib Require Import Ascii.
From S2P Require Import Prelude GoNet GoStrings TimeVal Packet Events Neighbor Topology Hna Heap Dijkstra Spf Molsr Config Daemon Monitor.

(** ** JSON *)

(** A number is [Some z] when its text is a decimal integer. *)
Inductive json :=
  | JNull
  | JBool (b : bool)
  | JNumber (z : option Z)
  | JString (s : string)
  | JArray (l : list json)
  | JObject (members : list (string * json)).

(** What the standard library does beyond ASCII. *)
Class GoFold := { unicode_fold : string → string }.

Section decode.
Context {GF : GoFold}.

Definition fold_key (s : string) : string := if is_ascii s then map_string ascii_lower s else unicode_fold s.

(** The field a key names: an exact match, or else one up to case. *)
Definition field_of (fields : list string) (key : string) : option string :=
  if bool_decide (key ∈ fields) then Some key
  else snd <$> list_find (λ f, fold_key f = fold_key key) fields.

(** A string or int field, and whether the value fits it; null leaves it alone. *)
Definition decode_string (v : json) (old : string) : string * bool :=
  match v with JString s => (s, true) | JNull => (old, true) | _ => (old, false) end.

Definition decode_int (v : json) (old : Z) : Z * bool :=
  match v with
  | JNumber (Some z) => if bool_decide (is_int64 z) then (z, true) else (old, false)
  | JNull => (old, true)
  | _ => (old, false)
  end.

(** [Decode] into a struct: the members in order; unknown keys are skipped, and a
    member that does not fit is reported after the others are done. *)
Definition decode_struct {P} (fields : list string) (set : P → string → json → P * bool) (zero : P) (j : option json)
    : option P :=
  match j with
  | Some JNull => Some zero
  | Some (JObject members) =>
      let '(payload, ok) := foldl (λ st kv,
        match field_of fields kv.1 with
        | None => st
        | Some f => let '(payload, ok) := set st.1 f kv.2 in (payload, st.2 && ok)
        end) (zero, true) members in
      if ok : bool then Some payload else None
  | _ => None
  end.

Definition hnaPayload (j : option json) : option string :=
  decode_struct ["prefix"] (λ old _ v, decode_string v old) "" j.

Record sourceClaimPayload := MkSourceClaimPayload {
  sc_Source : string;
  sc_Group : string;
  sc_DurationSeconds : Z;
}.

Definition decode_source_claim : option json → option sourceClaimPayload :=
  decode_struct ["source"; "group"; "duration_seconds"] (λ old f v,
    if bool_decide (f = "source") then
      let '(s, ok) := decode_string v (sc_Source old) in (MkSourceClaimPayload s (sc_Group old) (sc_DurationSeconds old), ok)
    else if bool_decide (f = "group") then
      let '(s, ok) := decode_string v (sc_Group old) in (MkSourceClaimPayload (sc_Source old) s (sc_DurationSeconds old), ok)
    else
      let '(n, ok) := decode_int v (sc_DurationSeconds old) in (MkSourceClaimPayload (sc_Source old) (sc_Group old) n, ok))
    (MkSourceClaimPayload "" "" 0).

Record confirmParentPayload := MkConfirmParentPayload {
  cp_Source : string;
  cp_Group : string;
  cp_Parent : string;
  cp_Child : string;
  cp_DurationSeconds : Z;
}.

Definition decode_confirm_parent : option json → option confirmParentPayload :=
  decode_struct ["source"; "group"; "parent"; "child"; "duration_seconds"] (λ old f v,
    let '(MkConfirmParentPayload s g pa c n) := old in
    if bool_decide (f = "source") then let '(s, ok) := decode_string v s in (MkConfirmParentPayload s g pa c n, ok)
    else if bool_decide (f = "group") then let '(g, ok) := decode_string v g in (MkConfirmParentPayload s g pa c n, ok)
    else if bool_decide (f = "parent") then let '(pa, ok) := decode_string v pa in (MkConfirmParentPayload s g pa c n, ok)
    else if bool_decide (f = "child") then let '(c, ok) := decode_string v c in (MkConfirmParentPayload s g pa c n, ok)
    else let '(n, ok) := decode_int v n in (MkConfirmParentPayload s g pa c n, ok))
    (MkConfirmParentPayload "" "" "" "" 0).
End decode.

(** ** Requests, responses and the server *)

Record Request := MkRequest {
  rq_Method : string;
  rq_Path : string;
  rq_RemoteAddr : string;
  rq_Authorization : string;      (* a missing header reads as the empty string *)
  rq_AuditUser : string;          (* the header X-Audit-User *)
  rq_Body : option json;
}.

Inductive RespBody :=
  | RError (msg : string)
  | RMessage (msg : string)
  | RText (s : string)
  | RReady
  | RUnready (zapi spf interfaces : bool)
  | RNeighbors (neighbors : list NeighborTuple) (links : list LinkTuple) (mprs selectors : list string)
  | RTopology (topo : list TopologyTuple) (mid : gmap string (list string))
  | RRoutes (unicast : list Route) (multicast : list MulticastForwardingEntry)
  | RInterfaces (ifaces : list InterfaceInfo)
  | RHNA (entries : list HNAEntry)
  | RSourceClaims (claims : list SourceClaim)
  | RConfirmParents (parents : list ConfirmParentEntry).

Record Response := MkResponse { status : Z; body : RespBody }.

Record clientBucket := MkBucket { tokens : float64; lastUpdate : Z }.

Record AuditEntry := MkAuditEntry {
  au_client_ip : string;
  au_user : string;
  au_method : string;
  au_path : string;
}.

Record APIServer := MkAPIServer {
  api_daemon : Daemon;                  (* the managers, the engine and the configuration *)
  api_monitor : InterfaceMonitor;
  api_zapi : option bool;               (* [IsConnected], when there is a Zebra client *)
  rateLimits : gmap string clientBucket;
  audit : list AuditEntry;
  published : list Event;
}.

Definition set_daemon (s : APIServer) (d : Daemon) (evs : list Event) : APIServer :=
  MkAPIServer d (api_monitor s) (api_zapi s) (rateLimits s) (audit s) (published s ++ evs).
Definition set_rateLimits (s : APIServer) (m : gmap string clientBucket) : APIServer :=
  MkAPIServer (api_daemon s) (api_monitor s) (api_zapi s) m (audit s) (published s).
Definition add_audit (s : APIServer) (e : AuditEntry) : APIServer :=
  MkAPIServer (api_daemon s) (api_monitor s) (api_zapi s) (rateLimits s) (audit s ++ [e]) (published s).
Definition set_audit_user (r : Request) (u : string) : Request :=
  MkRequest (rq_Method r) (rq_Path r) (rq_RemoteAddr r) (rq_Authorization r) u (rq_Body r).

Notation handler := (Request → APIServer → APIServer * Response).

Definition http_error (msg : string) (code : Z) (s : APIServer) : APIServer * Response := (s, MkResponse code (RError msg)).
Definition MethodNotAllowed : APIServer → APIServer * Response := http_error "Method Not Allowed" 405.

(** [net.SplitHostPort], for the host; the empty string stands for an error. *)
Fixpoint split_last (c : ascii) (s : string) : option (string * string) :=
  match s with
  | "" => None
  | String d s =>
      match split_last c s with
      | Some (a, b) => Some (String d a, b)
      | None => if is_char d c then Some ("", s) else None
      end
  end.

Definition SplitHost (hostport : string) : string :=
  match split_last ":"%char hostport with
  | None => ""
  | Some (before, port) =>
      match hostport with
      | String "["%char rest =>
          match split_at "]"%char rest with
          | Some (host, after) =>
              if bool_decide (after = ":" +:+ port) && negb (has_char "["%char rest) && negb (has_char "]"%char after)
              then host else ""
          | None => ""
          end
      | _ =>
          if has_char ":"%char before || has_char "["%char hostport || has_char "]"%char hostport then "" else before
      end
  end.

Definition client_ip (r : Request) : string :=
  let host := SplitHost (rq_RemoteAddr r) in if bool_decide (host = "") then rq_RemoteAddr r else host.

Definition LF : ascii := "010"%char.
Definition CR : ascii := "013"%char.

Definition sanitizeLogField (s : string) : string := remove_char CR (remove_char LF s).

(** ** The rate limit *)

Definition limitRate : float64 := float_of_int 10.
Definition limitBurst : float64 := float_of_int 20.

(** [t.Sub(u)], which saturates *)
Definition time_Sub (t u : Z) : Z := Z.max (- 2 ^ 63) (Z.min (2 ^ 63 - 1) (t - u)).

(** Refill, cap, and the request's own token. *)
Definition take_token (b : clientBucket) (now : Z) : clientBucket * bool :=
  let elapsed := Duration_Seconds (time_Sub now (lastUpdate b)) in
  let tk := fadd (tokens b) (fmul elapsed limitRate) in
  let tk := if flt limitBurst tk then limitBurst else tk in
  if flt tk (float_of_int 1) then (MkBucket tk now, false) else (MkBucket (fsub tk (float_of_int 1)) now, true).

(** [created] is the time read for a new bucket. *)
Definition limit_client (m : gmap string clientBucket) (ip : string) (created now : Z) : gmap string clientBucket * bool :=
  let b := default (MkBucket limitBurst created) (m !! ip) in
  let '(b, allowed) := take_token b now in (<[ip := b]> m, allowed).

(** ** Tokens *)

(** [jwt.Parse] of a token, with the key function applied to whether the token's
    method is HMAC: [None] is an error; otherwise whether the token is valid,
    and the subject of its claims. *)
Class Jwt := { jwt_Parse : string → (bool → option string) → option (bool * string) }.

Section api.
Context {MO : MapOrder} {GF : GoFold} {U : GoUnicode} {J : Jwt} (clock : list positive → Z).

Definition key_func (secret : string) (hmac : bool) : option string := if hmac then Some secret else None.

(** The bearer token of the header. *)
Definition bearer_token (header : string) : option string :=
  match Split header " "%char with
  | [scheme; token] => if bool_decide (ToLower scheme = "bearer") then Some token else None
  | _ => None
  end.

Definition rateLimit (p : list positive) (next : handler) : handler := λ r s,
  let '(m, allowed) := limit_client (rateLimits s) (client_ip r) (clock (1%positive :: p)) (clock (2%positive :: p)) in
  let s := set_rateLimits s m in
  if allowed : bool then next r s else http_error "Too Many Requests" 429 s.

Definition jwtAuth (next : handler) : handler := λ r s,
  if bool_decide (rq_Authorization r = "") then http_error "Missing authorization token" 401 s
  else match bearer_token (rq_Authorization r) with
  | None => http_error "Invalid authorization header format" 401 s
  | Some token =>
      match jwt_Parse token (key_func (JWTSecret (d_cfg (api_daemon s)))) with
      | Some (true, sub) => next (if bool_decide (sub = "") then r else set_audit_user r sub) s
      | _ => http_error "Invalid or expired token" 401 s
      end
  end.

(** The user is read before the request is handled. *)
Definition auditLog (next : handler) : handler := λ r s,
  let user := if bool_decide (rq_AuditUser r = "") then "anonymous" else rq_AuditUser r in
  let entry := MkAuditEntry (sanitizeLogField (client_ip r)) (sanitizeLogField user)
                 (sanitizeLogField (rq_Method r)) (sanitizeLogField (rq_Path r)) in
  let '(s, resp) := next r s in
  (add_audit s entry, resp).

(** ** Handlers *)

Definition handleHealthz : handler := λ r s, (s, MkResponse 200 (RText "OK")).

Definition handleReadyz (p : list positive) : handler := λ r s,
  let zapiOk := default true (api_zapi s) in
  let ifacesOk := existsb ii_IsUp (mon_GetInterfaces p (api_monitor s)) in
  if negb zapiOk || negb ifacesOk then (s, MkResponse 503 (RUnready zapiOk true ifacesOk))
  else (s, MkResponse 200 RReady).

Definition get_only (resp : APIServer → RespBody) : handler := λ r s,
  if bool_decide (rq_Method r ≠ "GET") then MethodNotAllowed s else (s, MkResponse 200 (resp s)).

Definition handleNeighbors (p : list positive) : handler := get_only (λ s,
  let nm := neighMgr (api_daemon s) in
  RNeighbors (GetNeighbors (1%positive :: p) nm) (GetLinks (2%positive :: p) nm) (GetMPRSet (3%positive :: p) nm)
    (GetMPRSelectors (4%positive :: p) (clock p) nm)).

Definition handleTopology (p : list positive) : handler := get_only (λ s,
  let tm := topoMgr (api_daemon s) in RTopology (GetTopology (1%positive :: p) tm) (GetMIDMap (2%positive :: p) tm)).

Definition handleRoutes (p : list positive) : handler := get_only (λ s,
  RRoutes (GetRoutes (1%positive :: p) (activeRoutes (api_daemon s))) (GetActiveMFC (2%positive :: p) (molsrMgr (api_daemon s)))).

Definition handleInterfaces (p : list positive) : handler := get_only (λ s,
  RInterfaces (mon_GetInterfaces p (api_monitor s))).

Definition on_hna (f : HNAManager → IPNet → HNAManager * list Event) (code : Z) (msg : string) : handler := λ r s,
  match hnaPayload (rq_Body r) with
  | None => http_error "Bad Request" 400 s
  | Some prefix =>
      match ParseCIDR prefix with
      | None => http_error "Invalid CIDR prefix" 400 s
      | Some (_, ipNet) =>
          let '(h, evs) := f (hnaMgr (api_daemon s)) ipNet in
          (set_daemon s (set_hnaMgr (api_daemon s) h) evs, MkResponse code (RMessage msg))
      end
  end.

Definition handleHNA (p : list positive) : handler := λ r s,
  if bool_decide (rq_Method r = "GET") then (s, MkResponse 200 (RHNA (GetHNAEntries p (hnaMgr (api_daemon s)))))
  else if bool_decide (rq_Method r = "POST") then on_hna AddLocalHNA 201 "HNA prefix registered" r s
  else if bool_decide (rq_Method r = "DELETE") then on_hna RemoveLocalHNA 200 "HNA prefix deregistered" r s
  else MethodNotAllowed s.

(** [int64(z)] of a product of durations *)
Definition i64 (z : Z) : Z := (z + 2 ^ 63) `mod` 2 ^ 64 - 2 ^ 63.

Definition claim_duration (seconds : Z) : Z := if 0 <? seconds then i64 (seconds * Second) else 60 * Second.

Definition with_molsr (s : APIServer) (r : MOLSRManager * list Event) : APIServer :=
  set_daemon s (set_molsrMgr (api_daemon s) r.1) r.2.

Definition is_ip_string (x : string) : bool := match ParseIP x with Some _ => true | None => false end.

Definition handleSourceClaims (p : list positive) : handler := λ r s,
  let m := molsrMgr (api_daemon s) in
  if bool_decide (rq_Method r = "GET") then (s, MkResponse 200 (RSourceClaims (GetSourceClaims p m)))
  else if bool_decide (rq_Method r = "POST") then
    match decode_source_claim (rq_Body r) with
    | None => http_error "Bad Request" 400 s
    | Some pl =>
        if negb (is_ip_string (sc_Source pl)) || negb (is_ip_string (sc_Group pl))
        then http_error "Invalid IP address formats" 400 s
        else (with_molsr s (AddLocalSourceClaim (clock p) m (sc_Source pl) (sc_Group pl) (claim_duration (sc_DurationSeconds pl))),
              MkResponse 201 (RMessage "Source claim injected"))
    end
  else if bool_decide (rq_Method r = "DELETE") then
    match decode_source_claim (rq_Body r) with
    | None => http_error "Bad Request" 400 s
    | Some pl => (with_molsr s (DeleteLocalSourceClaim m (sc_Source pl) (sc_Group pl)),
                  MkResponse 200 (RMessage "Source claim deleted"))
    end
  else MethodNotAllowed s.

Definition handleConfirmParents (p : list positive) : handler := λ r s,
  let m := molsrMgr (api_daemon s) in
  if bool_decide (rq_Method r = "GET") then (s, MkResponse 200 (RConfirmParents (GetConfirmParents p m)))
  else if bool_decide (rq_Method r = "POST") then
    match decode_confirm_parent (rq_Body r) with
    | None => http_error "Bad Request" 400 s
    | Some pl =>
        if negb (is_ip_string (cp_Source pl)) || negb (is_ip_string (cp_Group pl)) ||
           negb (is_ip_string (cp_Parent pl)) || negb (is_ip_string (cp_Child pl))
        then http_error "Invalid IP address formats" 400 s
        else (with_molsr s (AddLocalConfirmParent (clock p) m (cp_Source pl) (cp_Group pl) (cp_Parent pl) (cp_Child pl)
                              (claim_duration (cp_DurationSeconds pl))),
              MkResponse 201 (RMessage "Confirm parent entry registered"))
    end
  else if bool_decide (rq_Method r = "DELETE") then
    match decode_confirm_parent (rq_Body r) with
    | None => http_error "Bad Request" 400 s
    | Some pl => (with_molsr s (DeleteLocalConfirmParent m (cp_Source pl) (cp_Group pl) (cp_Child pl)),
                  MkResponse 200 (RMessage "Confirm parent entry deleted"))
    end
  else MethodNotAllowed s.

(** ** The routes of [Start] *)

Definition secured (p : list positive) (h : list positive → handler) : handler :=
  auditLog (rateLimit p (jwtAuth (h (3%positive :: p)))).

(** The secured paths with their handlers. *)
Definition secured_handlers : list (string * (list positive → handler)) :=
  [("/api/v1/neighbors", handleNeighbors); ("/api/v1/topology", handleTopology); ("/api/v1/routes", handleRoutes);
   ("/api/v1/interfaces", handleInterfaces); ("/api/v1/hna", handleHNA);
   ("/api/v1/molsr/source-claims", handleSourceClaims); ("/api/v1/molsr/confirm-parents", handleConfirmParents)].

(** [None] stands for an answer of the multiplexer or of the metrics library. *)
Definition serve (p : list positive) (r : Request) (s : APIServer) : APIServer * option Response :=
  if bool_decide (rq_Path r = "/healthz") then prod_map id Some (handleHealthz r s)
  else if bool_decide (rq_Path r = "/readyz") then prod_map id Some (handleReadyz p r s)
  else match list_find (λ ph, ph.1 = rq_Path r) secured_handlers with
  | Some (_, (_, h)) => prod_map id Some (secured p h r s)
  | None => (s, None)
  end.
End api.
