(* ===== verification/ApiFacts.v ===== *)
(** * Correctness of the REST API (internal/api/server.go, handlers.go)

    Who may change the daemon's state and how, what the audit log holds, the
    rate limit, and the effect of the changing requests on what is listed. *)

From Stdlib Require Import Ascii.
From S2P Require Import Prelude GoNet GoStrings TimeVal Packet Events Neighbor Topology Hna Heap Dijkstra Spf Molsr Config Daemon Monitor Api.

Section facts.
Context {MO : MapOrder} {GF : GoFold} {U : GoUnicode} {J : Jwt} (clock : list positive → Z).

(** The request carries a bearer token that the library finds valid under the
    configured secret, with an HMAC method. *)
Definition authorized (s : APIServer) (r : Request) : Prop :=
  ∃ token sub, bearer_token (rq_Authorization r) = Some token ∧
    jwt_Parse token (key_func (JWTSecret (d_cfg (api_daemon s)))) = Some (true, sub).

(** Nothing of the daemon changed, and nothing was published. *)
Definition untouched (s s' : APIServer) : Prop :=
  api_daemon s' = api_daemon s ∧ published s' = published s ∧ api_monitor s' = api_monitor s ∧ api_zapi s' = api_zapi s.

Lemma untouched_trans s1 s2 s3 : untouched s1 s2 → untouched s2 s3 → untouched s1 s3.
Proof. intros (H1 & H2 & H3 & H4) (H5 & H6 & H7 & H8). unfold untouched. by rewrite H5, H6, H7, H8. Qed.

(** ** The middlewares *)

Lemma rateLimit_cases p (next : Request → APIServer → APIServer * Response) r s :
  ∃ m, rateLimit clock p next r s = next r (set_rateLimits s m) ∨
       rateLimit clock p next r s = (set_rateLimits s m, MkResponse 429 (RError "Too Many Requests")).
Proof.
  unfold rateLimit. destruct (limit_client _ _ _ _) as [m [|]]; exists m; [by left|by right].
Qed.

(** The handler runs on a request that differs in the audit user only. *)
Lemma jwtAuth_cases (next : Request → APIServer → APIServer * Response) r s :
  (authorized s r ∧ ∃ u, jwtAuth next r s = next (set_audit_user r u) s) ∨
  (¬ authorized s r ∧ ∃ msg, jwtAuth next r s = (s, MkResponse 401 (RError msg))).
Proof.
  unfold jwtAuth. destruct (decide (rq_Authorization r = "")) as [E|E].
  { rewrite bool_decide_true by done. right. split; [|by eexists]. intros (t & u & Hb & _). by rewrite E in Hb. }
  rewrite bool_decide_false by done. destruct (bearer_token (rq_Authorization r)) as [token|] eqn:Hb.
  - destruct (jwt_Parse token _) as [[[] sub]|] eqn:Hj.
    + left. split; [by exists token, sub|]. case_bool_decide; [exists (rq_AuditUser r)|by exists sub]. by destruct r.
    + right. split; [|by eexists]. intros (t & u & Hb' & Hj'). by simplify_eq.
    + right. split; [|by eexists]. intros (t & u & Hb' & Hj'). by simplify_eq.
  - right. split; [|by eexists]. intros (t & u & Hb' & _). by simplify_eq.
Qed.

(** ** The handlers *)

(** A response that goes with a change. *)
Definition change_response (r : Request) (resp : Response) : Prop :=
  (rq_Method r = "POST" ∧ status resp = 201 ∨ rq_Method r = "DELETE" ∧ status resp = 200).

Definition changes_only (h : Request → APIServer → APIServer * Response) : Prop :=
  ∀ r s, untouched s (h r s).1 ∨ change_response r (h r s).2.

Definition changes_nothing (h : Request → APIServer → APIServer * Response) : Prop := ∀ r s, untouched s (h r s).1.

Lemma get_only_untouched f : changes_nothing (get_only f).
Proof. intros r s. unfold get_only. by case_bool_decide. Qed.

Lemma handleHNA_changes p : changes_only (handleHNA p).
Proof.
  intros r s. unfold handleHNA. case_bool_decide; [by left|].
  assert (∀ f code msg, untouched s (on_hna f code msg r s).1 ∨ status (on_hna f code msg r s).2 = code) as Hh.
  { intros f code msg. unfold on_hna. destruct (hnaPayload _) as [prefix|]; [|by left].
    destruct (ParseCIDR prefix) as [[ip net]|]; [|by left]. destruct (f _ net). by right. }
  case_bool_decide; [destruct (Hh AddLocalHNA 201 "HNA prefix registered"); [by left|right; by left]|].
  case_bool_decide; [destruct (Hh RemoveLocalHNA 200 "HNA prefix deregistered"); [by left|right; by right]|by left].
Qed.

Lemma handleSourceClaims_changes p : changes_only (handleSourceClaims clock p).
Proof.
  intros r s. unfold handleSourceClaims. case_bool_decide; [by left|].
  case_bool_decide; [destruct (decode_source_claim _); [|by left]; destruct (_ || _); [by left|right; by left]|].
  case_bool_decide; [destruct (decode_source_claim _); [right; by right|by left]|by left].
Qed.

Lemma handleConfirmParents_changes p : changes_only (handleConfirmParents clock p).
Proof.
  intros r s. unfold handleConfirmParents. case_bool_decide; [by left|].
  case_bool_decide; [destruct (decode_confirm_parent _); [|by left]; destruct (_ || _); [by left|right; by left]|].
  case_bool_decide; [destruct (decode_confirm_parent _); [right; by right|by left]|by left].
Qed.

(** The paths whose handlers change something. *)
Definition changing_path (path : string) : Prop :=
  path = "/api/v1/hna" ∨ path = "/api/v1/molsr/source-claims" ∨ path = "/api/v1/molsr/confirm-parents".

Lemma secured_handlers_changes i path h : list_find (λ ph, ph.1 = path) (secured_handlers clock) = Some (i, (path, h)) →
  (∀ p, changes_nothing (h p)) ∨ changing_path path ∧ ∀ p, changes_only (h p).
Proof.
  intros (Hin%list_elem_of_lookup_2 & _ & _)%list_find_Some. unfold secured_handlers in Hin.
  repeat (apply elem_of_cons in Hin as [[= -> ->]|Hin]; [first
    [ left; intros p; apply get_only_untouched
    | right; split; [unfold changing_path; tauto|intros p];
      first [apply handleHNA_changes|apply handleSourceClaims_changes|apply handleConfirmParents_changes] ]|]).
  by apply not_elem_of_nil in Hin.
Qed.

(** A secured path on every branch. *)
Lemma secured_cases p h r s : let '(s', resp) := secured clock p h r s in
  (untouched s s' ∧ (status resp = 429 ∨ ¬ authorized s r ∧ status resp = 401) ∧ ∃ msg, body resp = RError msg) ∨
  (authorized s r ∧ ∃ s1 u, untouched s s1 ∧ untouched (h (3%positive :: p) (set_audit_user r u) s1).1 s' ∧
     resp = (h (3%positive :: p) (set_audit_user r u) s1).2).
Proof.
  unfold secured, auditLog. destruct (rateLimit_cases p (jwtAuth (h (3%positive :: p))) r s) as [m [-> | ->]].
  2:{ left. split; [done|]. split; [by left|by eexists]. }
  destruct (jwtAuth_cases (h (3%positive :: p)) r (set_rateLimits s m)) as [[Ha (u & ->)]|[Ha (msg & ->)]].
  - destruct (h (3%positive :: p) (set_audit_user r u) (set_rateLimits s m)) as [s1 resp] eqn:E.
    right. split; [done|]. exists (set_rateLimits s m), u. by rewrite E.
  - left. split; [done|]. split; [right; by split|by eexists].
Qed.

(** C25. Access.  A request changes the daemon, or publishes an event, only if it is
    a POST or DELETE on one of the three changing paths that is answered by 201
    or 200 and carries a valid token; and without a valid token a path under
    /api/v1 is answered by an error 401 or 429, with none of the daemon's data. *)
Theorem only_tokens_change_state p r s : let '(s', resp) := serve clock p r s in
  (untouched s s' ∨
   authorized s r ∧ changing_path (rq_Path r) ∧ ∃ rp, resp = Some rp ∧ change_response r rp) ∧
  (¬ authorized s r → rq_Path r ∈ (secured_handlers clock).*1 →
   untouched s s' ∧ ∃ msg, resp = Some (MkResponse 401 (RError msg)) ∨ resp = Some (MkResponse 429 (RError msg))).
Proof.
  unfold serve.
  destruct (decide (rq_Path r = "/healthz")) as [E|N1].
  { rewrite bool_decide_true by done. simpl. split; [by left|]. intros _. rewrite E. simpl. set_solver. }
  destruct (decide (rq_Path r = "/readyz")) as [E|N2].
  { rewrite bool_decide_false, bool_decide_true by (rewrite ?E; done). unfold handleReadyz.
    destruct (_ || _); (split; [by left|]); intros _; rewrite E; simpl; set_solver. }
  rewrite !bool_decide_false by done.
  destruct (list_find _ (secured_handlers clock)) as [[i [path h]]|] eqn:E.
  - pose proof E as (_ & Epath & _)%list_find_Some. simpl in Epath. subst path.
    pose proof (secured_cases p h r s) as Hc. destruct (secured clock p h r s) as [s' resp]. simpl.
    destruct Hc as [(Hu & Hst & msg & Hb)|(Ha & s1 & u & Hu1 & Hu2 & ->)].
    + split; [by left|]. intros _ _. split; [done|]. exists msg. destruct resp as [st b]. simpl in *. subst b.
      destruct Hst as [->|[_ ->]]; [by right|by left].
    + split; [|done]. set (r' := set_audit_user r u) in *.
      apply secured_handlers_changes in E as [Hn|[Hp Hch]].
      * left. eapply untouched_trans; [exact Hu1|]. eapply untouched_trans; [apply Hn|exact Hu2].
      * destruct (Hch (3%positive :: p) r' s1) as [Hn|Hr].
        -- left. eapply untouched_trans; [exact Hu1|]. eapply untouched_trans; [exact Hn|exact Hu2].
        -- right. split; [done|]. split; [done|]. by eexists.
  - split; [by left|]. intros _ Hin. exfalso. apply list_find_None in E. rewrite Forall_forall in E.
    apply list_elem_of_fmap in Hin as (ph & Hpath & Hin). by apply (E ph Hin).
Qed.

(** ** The audit log *)

(** No handler writes to the log. *)
Definition keeps_audit (h : Request → APIServer → APIServer * Response) : Prop := ∀ r s, audit (h r s).1 = audit s.

Lemma get_only_audit f : keeps_audit (get_only f).
Proof. intros r s. unfold get_only. by case_bool_decide. Qed.

Lemma handleHNA_audit p : keeps_audit (handleHNA p).
Proof.
  intros r s. unfold handleHNA, on_hna. repeat case_bool_decide; try done;
    destruct (hnaPayload _) as [prefix|]; try done; by destruct (ParseCIDR prefix) as [[ip net]|].
Qed.

Lemma handleSourceClaims_audit p : keeps_audit (handleSourceClaims clock p).
Proof.
  intros r s. unfold handleSourceClaims. repeat case_bool_decide; try done; destruct (decode_source_claim _); try done.
  by destruct (_ || _).
Qed.

Lemma handleConfirmParents_audit p : keeps_audit (handleConfirmParents clock p).
Proof.
  intros r s. unfold handleConfirmParents. repeat case_bool_decide; try done; destruct (decode_confirm_parent _); try done.
  by destruct (_ || _).
Qed.

Lemma secured_handlers_audit i path h p : list_find (λ ph, ph.1 = path) (secured_handlers clock) = Some (i, (path, h)) →
  keeps_audit (h p).
Proof.
  intros (Hin%list_elem_of_lookup_2 & _ & _)%list_find_Some. unfold secured_handlers in Hin.
  repeat (apply elem_of_cons in Hin as [[= -> ->]|Hin]; [first
    [ apply handleHNA_audit | apply handleSourceClaims_audit | apply handleConfirmParents_audit
    | apply get_only_audit ]|]).
  by apply not_elem_of_nil in Hin.
Qed.

Lemma sanitized c x : c = LF ∨ c = CR → has_char c (sanitizeLogField x) = false.
Proof.
  intros [->| ->]; unfold sanitizeLogField; [apply remove_char_keeps|]; apply remove_char_spec.
Qed.

(** The audit log.  Every request to a secured path, whatever its answer,
    appends one entry; its fields have no line breaks; and its user is the one
    the client wrote into the request, or "anonymous", with a valid token or
    without: the subject of the token never gets there. *)
Theorem audit_user_from_client p r s : rq_Path r ∈ (secured_handlers clock).*1 →
  ∃ e, audit (serve clock p r s).1 = audit s ++ [e] ∧
    au_user e = sanitizeLogField (if bool_decide (rq_AuditUser r = "") then "anonymous" else rq_AuditUser r) ∧
    ∀ c, c = LF ∨ c = CR →
      has_char c (au_client_ip e) = false ∧ has_char c (au_user e) = false ∧
      has_char c (au_method e) = false ∧ has_char c (au_path e) = false.
Proof.
  intros Hin. unfold serve.
  assert (rq_Path r ≠ "/healthz" ∧ rq_Path r ≠ "/readyz") as [N1 N2].
  { split; intros E; rewrite E in Hin; simpl in Hin; set_solver. }
  rewrite !bool_decide_false by done.
  destruct (list_find _ (secured_handlers clock)) as [[i [path h]]|] eqn:E.
  2:{ exfalso. apply list_find_None in E. rewrite Forall_forall in E.
      apply list_elem_of_fmap in Hin as (ph & Hpath & Hin). by apply (E ph Hin). }
  pose proof E as (_ & Epath & _)%list_find_Some. simpl in Epath. subst path.
  pose proof (secured_handlers_audit i _ h (3%positive :: p) E) as Hh.
  unfold secured, auditLog.
  exists (MkAuditEntry (sanitizeLogField (client_ip r))
    (sanitizeLogField (if bool_decide (rq_AuditUser r = "") then "anonymous" else rq_AuditUser r))
    (sanitizeLogField (rq_Method r)) (sanitizeLogField (rq_Path r))).
  split; [|split; [reflexivity|]].
  2:{ intros c Hc. cbn [au_client_ip au_user au_method au_path]. by rewrite !sanitized. }
  destruct (rateLimit_cases p (jwtAuth (h (3%positive :: p))) r s) as [m [-> | ->]]; [|done].
  destruct (jwtAuth_cases (h (3%positive :: p)) r (set_rateLimits s m)) as [[_ (u & ->)]|[_ (msg & ->)]]; [|done].
  specialize (Hh (set_audit_user r u) (set_rateLimits s m)). destruct (h _ _ _) as [s1 resp]. simpl in *. by rewrite Hh.
Qed.
End facts.

(** ** Witness *)

(** A library that knows one token, and plain ASCII. *)
Definition one_token : Jwt :=
  {| jwt_Parse := λ t key, if bool_decide (t = "t0k" ∧ key true = Some "secret") then Some (true, "operator") else None |}.
Definition ascii_only : GoUnicode := {| unicode_ToLower := λ s, s; unicode_Fields := λ s, [s] |}.
Definition ascii_fold : GoFold := {| unicode_fold := λ s, s |}.

Definition api_0 : APIServer :=
  MkAPIServer
    (initializeComponents (MkConfig "10.0.0.1" ["eth0"] (2 * Second) (5 * Second) "" 8080 "secret" "" false "none")
       (MkMonitor [] (λ _, 0))) (MkInterfaceMonitor ∅) None ∅ [] [].

(** The operator's token, with another name in the header. *)
Definition forged_request : Request :=
  MkRequest "GET" "/api/v1/hna" "10.0.0.9:4000" "Bearer t0k" "mallory" None.

Lemma audit_user_from_client_witness :
  (∃ e, audit (@serve canonical_order ascii_fold ascii_only one_token (λ _, 0) [] forged_request api_0).1 = [] ++ [e] ∧
     au_user e = "mallory") ∧
  (@serve canonical_order ascii_fold ascii_only one_token (λ _, 0) [] forged_request api_0).2 = Some (MkResponse 200 (RHNA [])).
Proof.
  split; [|vm_compute; reflexivity].
  assert (rq_Path forged_request ∈ (@secured_handlers canonical_order ascii_fold (λ _, 0)).*1) as Hin
    by (do 4 right; left).
  destruct (@audit_user_from_client canonical_order ascii_fold ascii_only one_token (λ _, 0) [] forged_request api_0 Hin)
    as (e & He & Hu & _).
  exists e. split; [exact He|]. rewrite Hu. reflexivity.
Defined.
