(* ===== verification/Floats.v ===== *)
(** * Rounding errors of float64 arithmetic

    Go's [float64] operations as [SpecFloat] computes them, on non-negative
    numbers: a float stands for an integer multiple of [2 ^ -1074], and an
    operation gives a float whose number differs from the exact result by at
    most the part [2 ^ -53] of it, or the least float.  What the rate limit of
    the API needs of the arithmetic. *)

From Corelib Require Import SpecFloat.
From S2P Require Import Prelude TimeVal.

(** ** Numbers of digits *)

Lemma digits2_pos_bounds m : let d := Z.pos (digits2_pos m) in 2 ^ (d - 1) ≤ Z.pos m < 2 ^ d.
Proof.
  induction m as [m IH|m IH|]; cbn [digits2_pos]; cbv zeta in *; [| |done];
    rewrite Pos2Z.inj_succ, Z.sub_succ_l in *; rewrite !Z.pow_succ_r by lia; lia.
Qed.

Lemma digits_unique m d : 0 < d → 2 ^ (d - 1) ≤ Z.pos m < 2 ^ d → Z.pos (digits2_pos m) = d.
Proof.
  intros Hd [H1 H2]. pose proof (digits2_pos_bounds m) as [H3 H4]. cbv zeta in *.
  assert (Z.pos (digits2_pos m) - 1 < d) by (apply (Z.pow_lt_mono_r_iff 2); lia).
  assert (d - 1 < Z.pos (digits2_pos m)) by (apply (Z.pow_lt_mono_r_iff 2); lia). lia.
Qed.

Lemma digits_at_most m d : 0 ≤ d → Z.pos m < 2 ^ d → Z.pos (digits2_pos m) ≤ d.
Proof.
  intros Hd H. pose proof (digits2_pos_bounds m) as [H3 _]. cbv zeta in *.
  assert (Z.pos (digits2_pos m) - 1 < d) by (apply (Z.pow_lt_mono_r_iff 2); lia). lia.
Qed.

Notation fexp64 := (fexp 53 1024).

Lemma fexp64_eq e : fexp64 e = Z.max (e - 53) (-1074).
Proof. reflexivity. Qed.

(** ** Shifts to the right *)

(** [X] lies in the cell [m] of a grid of step [g], at the place that the two
    bits tell: at its start, before, at, or behind its middle. *)
Definition cell (X g : Z) (mrs : shr_record) : Prop :=
  let '(Build_shr_record m r s) := mrs in
  0 ≤ m ∧
  match r, s with
  | false, false => X = m * g
  | false, true => m * g < X ∧ 2 * X < 2 * (m * g) + g
  | true, false => 2 * X = 2 * (m * g) + g
  | true, true => 2 * (m * g) + g < 2 * X ∧ X < m * g + g
  end.

Lemma cell_bounds X g mrs : 0 < g → cell X g mrs → 0 ≤ shr_m mrs ∧ shr_m mrs * g ≤ X < shr_m mrs * g + g.
Proof. intros Hg. destruct mrs as [m [] []]; simpl; lia. Qed.

Lemma cell_shr_1 X g mrs : 0 < g → cell X g mrs → cell X (2 * g) (shr_1 mrs).
Proof.
  intros Hg. destruct mrs as [[|[m|m|]|m] r s]; cbn; [..|lia].
  - destruct r, s; cbn; lia.
  - rewrite Pos2Z.inj_xI. replace ((2 * Z.pos m + 1) * g) with (2 * (Z.pos m * g) + g) by ring.
    replace (Z.pos m * (2 * g)) with (2 * (Z.pos m * g)) by ring. generalize (Z.pos m * g). destruct r, s; cbn; lia.
  - rewrite Pos2Z.inj_xO. replace (2 * Z.pos m * g) with (2 * (Z.pos m * g)) by ring.
    replace (Z.pos m * (2 * g)) with (2 * (Z.pos m * g)) by ring. generalize (Z.pos m * g). destruct r, s; cbn; lia.
  - destruct r, s; cbn; lia.
Qed.

Lemma cell_shr X g p mrs : 0 < g → cell X g mrs → cell X (g * 2 ^ Z.pos p) (SpecFloat.iter_pos shr_1 p mrs).
Proof.
  revert g mrs. induction p as [p IH|p IH|]; intros g mrs Hg H; cbn [SpecFloat.iter_pos].
  - rewrite (Pos2Z.inj_xI p). replace (g * 2 ^ (2 * Z.pos p + 1)) with (2 * g * 2 ^ Z.pos p * 2 ^ Z.pos p)
      by (replace (2 * Z.pos p + 1) with (Z.pos p + Z.pos p + 1) by lia; rewrite !Z.pow_add_r by lia; ring).
    apply IH; [nia|]. apply IH; [lia|]. by apply cell_shr_1.
  - rewrite (Pos2Z.inj_xO p). replace (g * 2 ^ (2 * Z.pos p)) with (g * 2 ^ Z.pos p * 2 ^ Z.pos p)
      by (replace (2 * Z.pos p) with (Z.pos p + Z.pos p) by lia; rewrite Z.pow_add_r by lia; ring).
    apply IH; [nia|]. by apply IH.
  - change (2 ^ 1) with 2. rewrite Z.mul_comm. by apply cell_shr_1.
Qed.

(** Rounding to the nearest multiple of the step. *)
Lemma cell_round X g mrs : 0 < g → cell X g mrs →
  let r := round_nearest_even (shr_m mrs) (loc_of_shr_record mrs) in
  shr_m mrs ≤ r ≤ shr_m mrs + 1 ∧ 2 * Z.abs (r * g - X) ≤ g.
Proof.
  intros Hg. destruct mrs as [m [] []]; cbn; intros [Hm H]; [lia| |lia..]. destruct (Z.even m); lia.
Qed.

(** ** What a float stands for *)

(** [x] is a non-negative finite float, [V] times [2 ^ -1074]. *)
Definition fval (x : float64) (V : Z) : Prop :=
  match x with
  | S754_zero _ => V = 0
  | S754_finite false m e => bounded 53 1024 m e = true ∧ V = Z.pos m * 2 ^ (e + 1074)
  | _ => False
  end.

(** The exponent of a float, and its mantissa: whole when it is not least. *)
Lemma bounded_cases m e : bounded 53 1024 m e = true →
  -1074 ≤ e ≤ 971 ∧ Z.pos m < 2 ^ 53 ∧ Z.max (Z.pos (digits2_pos m) + e - 53) (-1074) = e.
Proof.
  unfold bounded, canonical_mantissa. rewrite andb_true_iff, Z.eqb_eq, Z.leb_le, fexp64_eq. intros [H1 H2].
  pose proof (digits2_pos_bounds m) as [_ Hm]. cbv zeta in Hm. split; [lia|]. split; [|lia].
  eapply Z.lt_le_trans; [exact Hm|]. apply Z.pow_le_mono_r; lia.
Qed.

Lemma fval_nonneg x V : fval x V → 0 ≤ V.
Proof. destruct x as [?|?| |[] m e]; simpl; try done; [lia|]. intros [_ ->]. apply Z.mul_nonneg_nonneg; lia. Qed.

Lemma bounded_intro m e : -1074 ≤ e ≤ 971 → Z.pos m < 2 ^ 53 → 2 ^ 52 ≤ Z.pos m ∨ e = -1074 → bounded 53 1024 m e = true.
Proof.
  intros He Hm Hc. unfold bounded, canonical_mantissa. rewrite andb_true_iff, Z.eqb_eq, Z.leb_le, fexp64_eq.
  pose proof (digits_at_most m 53 ltac:(lia) Hm). split; [|lia].
  destruct Hc as [Hc|Hc]; [rewrite (digits_unique m 53) by (done || lia)|]; lia.
Qed.

(** ** Rounding *)

(** Rounding to 53 digits.  The exact result is [X / C] times [2 ^ -1074], in a
    cell of a grid of step [g], the exponent [e] of which is not greater than
    the exponent of the rounded result. *)
Lemma round_correct m e l X g C j :
  0 < C → 0 ≤ j → 0 ≤ e + 1074 + j → g * 2 ^ j = C * 2 ^ (e + 1074 + j) →
  e ≤ fexp64 (Z.pos (digits2_pos m) + e) → cell X g (shr_record_of_loc (Z.pos m) l) → X ≤ C * 2 ^ 1174 →
  ∃ V, fval (binary_round_aux 53 1024 false (Z.pos m) e l) V ∧ 2 ^ 53 * Z.abs (V * C - X) ≤ X + 2 ^ 53 * C.
Proof.
  intros HC Hj Hej Hg He Hcell HX. set (d := Z.pos (digits2_pos m)) in *. set (e' := fexp64 (d + e)) in *.
  set (n := e' - e). assert (e' = Z.max (d + e - 53) (-1074)) as Ee' by done.
  assert (0 < g) as Hg0 by (assert (0 < 2 ^ j) by lia; assert (0 < C * 2 ^ (e + 1074 + j)) by (apply Z.mul_pos_pos; lia); nia).
  set (g' := g * 2 ^ n).
  assert (g' = C * 2 ^ (e' + 1074)) as Eg'.
  { apply (Z.mul_cancel_r _ _ (2 ^ j)); [lia|]. unfold g'. replace (g * 2 ^ n * 2 ^ j) with (g * 2 ^ j * 2 ^ n) by ring.
    rewrite Hg, <-!Z.mul_assoc, <-!Z.pow_add_r by lia. do 2 f_equal. lia. }
  assert (0 < g') as Hg' by (unfold g'; apply Z.mul_pos_pos; [done|apply Z.pow_pos_nonneg; lia]).
  (* the first shift *)
  assert (∃ mrs, shr_fexp 53 1024 (Z.pos m) e l = (mrs, e') ∧ cell X g' mrs) as (mrs & E1 & Hc).
  { unfold shr_fexp. change (Zdigits2 (Z.pos m)) with d. fold e'. fold n. unfold shr. destruct n as [|p|p] eqn:En; [|..|lia].
    - eexists. split; [f_equal; lia|]. unfold g'. by rewrite Z.pow_0_r, Z.mul_1_r.
    - eexists. split; [f_equal; lia|]. by apply cell_shr. }
  destruct (cell_bounds _ _ _ Hg' Hc) as (Hm0 & Hm1 & Hm2).
  destruct (cell_round _ _ _ Hg' Hc) as [Hr Herr]. set (r := round_nearest_even _ _) in *.
  (* the size of the mantissa *)
  destruct (cell_bounds _ _ _ Hg0 Hcell) as (_ & Hx1 & Hx2).
  assert (shr_m (shr_record_of_loc (Z.pos m) l) = Z.pos m) as Em by (by destruct l as [|[]]). rewrite Em in *.
  pose proof (digits2_pos_bounds m) as [Hd1 Hd2]. cbv zeta in Hd1, Hd2. fold d in Hd1, Hd2.
  assert (Z.pos m * g + g ≤ 2 ^ d * g) as Hx3 by (replace (Z.pos m * g + g) with ((Z.pos m + 1) * g) by ring; apply Z.mul_le_mono_nonneg_r; lia).
  assert (2 ^ (d - 1) * g ≤ Z.pos m * g) as Hx4 by (apply Z.mul_le_mono_nonneg_r; lia).
  assert (shr_m mrs < 2 ^ 53 ∧ (2 ^ 52 * g' ≤ X ∧ 2 ^ 52 ≤ shr_m mrs ∨ e' = -1074)) as [Hs1 Hs2].
  { destruct (decide (-1074 ≤ d + e - 53)) as [Hn|Hn].
    - assert (2 ^ d * g = 2 ^ 53 * g') as Ed1.
      { unfold g'. replace d with (53 + n) by lia. rewrite Z.pow_add_r by lia. ring. }
      assert (2 ^ (d - 1) * g = 2 ^ 52 * g') as Ed2.
      { unfold g'. replace (d - 1) with (52 + n) by lia. rewrite Z.pow_add_r by lia. ring. }
      assert (2 ^ 52 * g' < (shr_m mrs + 1) * g') as H52 by (rewrite Z.mul_add_distr_r; lia).
      apply Z.mul_lt_mono_pos_r in H52; [|done]. split; [apply (Z.mul_lt_mono_pos_r g'); lia|left; lia].
    - assert (2 ^ d * g ≤ 2 ^ 53 * g').
      { unfold g'. rewrite (Z.mul_comm g), Z.mul_assoc, <-Z.pow_add_r by lia. apply Z.mul_le_mono_nonneg_r; [lia|].
        apply Z.pow_le_mono_r; lia. }
      split; [apply (Z.mul_lt_mono_pos_r g'); lia|right; lia]. }
  assert (e' ≤ 48) as He48.
  { destruct Hs2 as [[Hs2 _]|Hs2]; [|lia]. rewrite Eg' in Hs2.
    assert (C * 2 ^ (e' + 1126) ≤ C * 2 ^ 1174) as Hle.
    { replace (e' + 1126) with (52 + (e' + 1074)) by lia. rewrite Z.pow_add_r by lia. lia. }
    apply Z.mul_le_mono_pos_l in Hle; [|done]. apply Z.pow_le_mono_r_iff in Hle; lia. }
  assert (2 ^ 53 * Z.abs (r * g' - X) ≤ X + 2 ^ 53 * C) as Hfin.
  { destruct Hs2 as [[Hs2 _]|Hs2]; [lia|]. rewrite Hs2 in Eg'. change (2 ^ (-1074 + 1074)) with 1 in Eg'.
    assert (0 ≤ shr_m mrs * g') by (apply Z.mul_nonneg_nonneg; lia). lia. }
  clear Hx3 Hx4 Herr Hm1 Hm2 Hx1 Hx2 Hd1 Hd2 Hcell Hc.
  unfold binary_round_aux. rewrite E1. fold r. clearbody r. clear E1.
  assert (r = 0 ∨ 0 < r < 2 ^ 53 ∧ (2 ^ 52 ≤ r ∨ e' = -1074) ∨ r = 2 ^ 53) as [Er|[[Hrr Hcan]|Er]] by lia.
  - rewrite Er in *. assert (shr_fexp 53 1024 0 e' loc_Exact = (Build_shr_record 0 false false, e')) as ->.
    { unfold shr_fexp. change (Zdigits2 0 + e') with e'. rewrite fexp64_eq.
      destruct (Z.max (e' - 53) (-1074) - e') eqn:E; [done|lia|done]. }
    exists 0. split; [done|]. exact Hfin.
  - destruct r as [|q|q]; [lia| |lia].
    pose proof (bounded_intro q e' ltac:(lia) ltac:(lia) Hcan) as Hb.
    assert (shr_fexp 53 1024 (Z.pos q) e' loc_Exact = (Build_shr_record (Z.pos q) false false, e')) as ->.
    { unfold shr_fexp. unfold bounded, canonical_mantissa in Hb. apply andb_true_iff in Hb as [Hb%Z.eqb_eq _].
      change (Zdigits2 (Z.pos q)) with (Z.pos (digits2_pos q)). by rewrite Hb, Z.sub_diag. }
    cbn [shr_m]. rewrite (proj2 (Z.leb_le e' (1024 - 53))) by lia. exists (Z.pos q * 2 ^ (e' + 1074)). split; [by split|].
    rewrite Eg' in Hfin. replace (Z.pos q * 2 ^ (e' + 1074) * C) with (Z.pos q * (C * 2 ^ (e' + 1074))) by ring. exact Hfin.
  - rewrite Er in *. assert (shr_fexp 53 1024 (2 ^ 53) e' loc_Exact = (Build_shr_record (2 ^ 52) false false, e' + 1)) as ->.
    { unfold shr_fexp. change (Zdigits2 (2 ^ 53)) with 54. rewrite fexp64_eq.
      replace (Z.max (54 + e' - 53) (-1074) - e') with 1 by lia. done. }
    cbn [shr_m]. change (2 ^ 52) with (Z.pos 4503599627370496).
    rewrite (proj2 (Z.leb_le (e' + 1) (1024 - 53))) by lia.
    exists (Z.pos 4503599627370496 * 2 ^ (e' + 1 + 1074)). split; [split; [|done]; apply bounded_intro; lia|].
    replace (e' + 1 + 1074) with (1 + (e' + 1074)) by lia. rewrite Z.pow_add_r by lia.
    rewrite Eg' in Hfin. replace (4503599627370496 * (2 ^ 1 * 2 ^ (e' + 1074)) * C) with (2 ^ 53 * (C * 2 ^ (e' + 1074))) by ring.
    exact Hfin.
Qed.

(** ** Shifts to the left *)

Lemma iter_xO m k : Z.pos (Pos.iter xO m k) = Z.pos m * 2 ^ Z.pos k ∧
  Z.pos (digits2_pos (Pos.iter xO m k)) = Z.pos (digits2_pos m) + Z.pos k.
Proof.
  induction k as [|k [IH1 IH2]] using Pos.peano_ind; [cbn; lia|].
  rewrite Pos.iter_succ, (Pos2Z.inj_xO (Pos.iter xO m k)). cbn [digits2_pos].
  rewrite !Pos2Z.inj_succ, Z.pow_succ_r by lia. lia.
Qed.

Lemma shl_align_fst m e e' : e' ≤ e → Z.pos (shl_align m e e').1 = Z.pos m * 2 ^ (e - e').
Proof.
  intros He. unfold shl_align. destruct (e' - e) as [|p|p] eqn:E; [| lia|]; cbn [fst].
  - replace (e - e') with 0 by lia. lia.
  - rewrite (proj1 (iter_xO m p)). do 2 f_equal. lia.
Qed.

(** ** The operations *)

(** Rounding of the integer [m * 2 ^ e]. *)
Lemma normalize_correct m e : 0 ≤ m → -1074 ≤ e → m * 2 ^ (e + 1074) ≤ 2 ^ 1174 →
  ∃ V, fval (binary_normalize 53 1024 m e false) V ∧
    2 ^ 53 * Z.abs (V - m * 2 ^ (e + 1074)) ≤ m * 2 ^ (e + 1074) + 2 ^ 53.
Proof.
  intros Hm He HX. destruct m as [|m|m]; [by exists 0|cbn [binary_normalize]|lia].
  assert (∀ m' e', e' ≤ fexp64 (Z.pos (digits2_pos m') + e') → -1074 ≤ e' →
    Z.pos m' * 2 ^ (e' + 1074) = Z.pos m * 2 ^ (e + 1074) →
    ∃ V, fval (binary_round_aux 53 1024 false (Z.pos m') e' loc_Exact) V ∧
      2 ^ 53 * Z.abs (V - Z.pos m * 2 ^ (e + 1074)) ≤ Z.pos m * 2 ^ (e + 1074) + 2 ^ 53) as Hgen.
  { intros m' e' Hf He' Em.
    destruct (round_correct m' e' loc_Exact (Z.pos m * 2 ^ (e + 1074)) (2 ^ (e' + 1074)) 1 0) as (V & HV & Herr); try lia.
    - rewrite Z.add_0_r. lia.
    - by simpl.
    - exists V. rewrite Z.mul_1_r in Herr. split; [done|lia]. }
  unfold binary_round, shl_align. set (f := fexp64 _). pose proof (fexp64_eq (Z.pos (digits2_pos m) + e)) as Ef. fold f in Ef.
  destruct (f - e) as [|k|k] eqn:E; [apply Hgen; [fold f; lia|done..]|apply Hgen; [fold f; lia|done..]|].
  destruct (iter_xO m k) as [E1 E2]. apply Hgen; [|lia|].
  - rewrite E2, fexp64_eq. lia.
  - rewrite E1, <-Z.mul_assoc, <-Z.pow_add_r by lia. do 2 f_equal. lia.
Qed.

Lemma float_of_int_correct z : 0 ≤ z ≤ 2 ^ 100 →
  ∃ V, fval (float_of_int z) V ∧ 2 ^ 53 * Z.abs (V - z * 2 ^ 1074) ≤ z * 2 ^ 1074 + 2 ^ 53.
Proof.
  intros Hz. apply (normalize_correct z 0); [lia..|]. change (2 ^ 1174) with (2 ^ 100 * 2 ^ (0 + 1074)).
  apply Z.mul_le_mono_nonneg_r; lia.
Qed.

(** The common exponent of two floats. *)
Lemma fval_aligned m e V e' : bounded 53 1024 m e = true → V = Z.pos m * 2 ^ (e + 1074) → -1074 ≤ e' ≤ e →
  V = Z.pos (shl_align m e e').1 * 2 ^ (e' + 1074).
Proof.
  intros Hb -> He. rewrite shl_align_fst by lia. rewrite <-Z.mul_assoc, <-Z.pow_add_r by lia. do 2 f_equal. lia.
Qed.

Lemma fadd_correct x y a b : fval x a → fval y b → a + b ≤ 2 ^ 1174 →
  ∃ V, fval (fadd x y) V ∧ 2 ^ 53 * Z.abs (V - (a + b)) ≤ a + b + 2 ^ 53.
Proof.
  intros Hx Hy Hab. pose proof (fval_nonneg x a Hx). pose proof (fval_nonneg y b Hy).
  unfold fadd, SFadd. destruct x as [s|?| |[] m e], y as [s'|?| |[] m' e']; try done.
  - exists 0. simpl in *. subst. split; [by destruct s, s'|lia].
  - exists b. split; [done|]. simpl in Hx. lia.
  - exists a. split; [done|]. simpl in Hy. lia.
  - destruct Hx as [Hb Ha], Hy as [Hb' Ha']. pose proof (bounded_cases _ _ Hb) as (? & _). pose proof (bounded_cases _ _ Hb') as (? & _).
    rewrite (fval_aligned m e a (Z.min e e')), (fval_aligned m' e' b (Z.min e e')) in * by (done || lia).
    cbn [cond_Zopp]. rewrite <-Z.mul_add_distr_r in *. apply normalize_correct; lia.
Qed.

Lemma fsub_correct x y a b : fval x a → fval y b → b ≤ a ≤ 2 ^ 1174 →
  ∃ V, fval (fsub x y) V ∧ 2 ^ 53 * Z.abs (V - (a - b)) ≤ a - b + 2 ^ 53.
Proof.
  intros Hx Hy Hab. pose proof (fval_nonneg x a Hx). pose proof (fval_nonneg y b Hy).
  unfold fsub, SFsub. destruct x as [s|?| |[] m e], y as [s'|?| |[] m' e']; try done.
  - exists 0. simpl in *. subst. split; [by destruct s, s'|lia].
  - exfalso. simpl in *. destruct Hy as [Hb' ->]. pose proof (bounded_cases _ _ Hb') as (? & _).
    assert (0 < Z.pos m' * 2 ^ (e' + 1074)) by (apply Z.mul_pos_pos; lia). lia.
  - exists a. split; [done|]. simpl in Hy. lia.
  - destruct Hx as [Hb Ha], Hy as [Hb' Ha']. pose proof (bounded_cases _ _ Hb) as (? & _). pose proof (bounded_cases _ _ Hb') as (? & _).
    rewrite (fval_aligned m e a (Z.min e e')), (fval_aligned m' e' b (Z.min e e')) in * by (done || lia).
    cbn [cond_Zopp]. rewrite <-Z.mul_sub_distr_r in *. apply normalize_correct; [|lia..].
    apply (Z.mul_le_mono_pos_r _ _ (2 ^ (Z.min e e' + 1074))); lia.
Qed.

(** The product with 10. *)
Lemma fmul_10_correct x a : fval x a → 10 * a ≤ 2 ^ 1174 →
  ∃ V, fval (fmul x (float_of_int 10)) V ∧ 2 ^ 53 * Z.abs (V - 10 * a) ≤ 10 * a + 2 ^ 53.
Proof.
  intros Hx Ha. assert (float_of_int 10 = S754_finite false 5629499534213120 (-49)) as -> by (vm_compute; reflexivity).
  unfold fmul, SFmul. destruct x as [s|?| |[] m e]; try done.
  { exists 0. simpl in *. subst. done. }
  destruct Hx as [Hb Ea]. pose proof (bounded_cases _ _ Hb) as (He & Hm & Hc). cbn [xorb].
  destruct (round_correct (m * 5629499534213120) (e + -49) loc_Exact (10 * a * 2 ^ 49) (2 ^ (e + 1074)) (2 ^ 49) 49)
    as (V & HV & Herr); try lia.
  - rewrite <-!Z.pow_add_r by lia. f_equal. lia.
  - assert (2 ^ 52 * 2 ^ (Z.pos (digits2_pos m) - 1) ≤ Z.pos (m * 5629499534213120)) as Hd.
    { pose proof (digits2_pos_bounds m) as [Hd _]. cbv zeta in Hd. lia. }
    rewrite <-Z.pow_add_r in Hd by lia. pose proof (digits2_pos_bounds (m * 5629499534213120)) as [_ Hd2]. cbv zeta in Hd2.
    assert (52 + (Z.pos (digits2_pos m) - 1) < Z.pos (digits2_pos (m * 5629499534213120))) by (apply (Z.pow_lt_mono_r_iff 2); lia).
    rewrite fexp64_eq. lia.
  - simpl. lia.
  - exists V. split; [done|]. lia.
Qed.

(** Where the remainder puts the quotient in its cell. *)
Lemma cell_quotient q r m w : 0 < w → 0 ≤ q → 0 ≤ r < m → Z.even m = true →
  cell ((q * m + r) * w) (m * w) (shr_record_of_loc q (new_location m r)).
Proof.
  intros Hw Hq Hr Hm. unfold new_location, new_location_even. rewrite Hm.
  destruct (Z.eqb_spec r 0) as [->|Hr0]; [simpl; split; [done|ring]|].
  assert (0 < r * w) by (apply Z.mul_pos_pos; lia). assert (r * w < m * w) by (apply Z.mul_lt_mono_pos_r; lia).
  destruct (Z.compare_spec (2 * r) m) as [Hc|Hc|Hc]; simpl; (split; [done|]).
  - assert (2 * (r * w) = m * w) by (rewrite <-Hc; ring). lia.
  - assert (2 * r * w < m * w) by (apply Z.mul_lt_mono_pos_r; lia). lia.
  - assert (m * w < 2 * r * w) by (apply Z.mul_lt_mono_pos_r; lia). lia.
Qed.

(** The quotient by the number of nanoseconds of a second. *)
Lemma fdiv_e9_correct x a : fval x a → a = 0 ∨ 2 ^ 1073 ≤ a → a ≤ 2 ^ 1174 →
  ∃ V, fval (fdiv x (float_of_int 1000000000)) V ∧ 2 ^ 53 * Z.abs (V * 1000000000 - a) ≤ a + 2 ^ 53 * 1000000000.
Proof.
  intros Hx Ha Ha'. assert (float_of_int 1000000000 = S754_finite false 8388608000000000 (-23)) as -> by (vm_compute; reflexivity).
  unfold fdiv, SFdiv. destruct x as [s|?| |[] m e]; try done.
  { exists 0. simpl in *. subst. done. }
  destruct Hx as [Hb Ea]. pose proof (bounded_cases _ _ Hb) as (He & Hm & Hc).
  assert (0 < a) by (rewrite Ea; apply Z.mul_pos_pos; lia). destruct Ha as [?|Ha]; [lia|].
  assert (-54 < e) as He54.
  { assert (Z.pos m * 2 ^ (e + 1074) < 2 ^ 53 * 2 ^ (e + 1074)) by (apply Z.mul_lt_mono_pos_r; lia).
    rewrite <-Z.pow_add_r in * by lia. assert (1073 < 53 + (e + 1074)) by (apply (Z.pow_lt_mono_r_iff 2); lia). lia. }
  pose proof (digits2_pos_bounds m) as [Hd _]. cbv zeta in Hd. assert (Z.pos (digits2_pos m) = 53) as Ed by lia. rewrite Ed in Hd.
  unfold SFdiv_core_binary. change (Zdigits2 (Z.pos m)) with (Z.pos (digits2_pos m)). rewrite Ed.
  change (Zdigits2 8388608000000000) with 53. rewrite fexp64_eq.
  replace (Z.min (Z.max (53 + e - (53 + -23) - 53) (-1074)) (e - -23)) with (e - 30) by lia.
  replace (e - -23 - (e - 30)) with 53 by lia. rewrite Z.shiftl_mul_pow2 by lia.
  pose proof (Z_div_mod (Z.pos m * 2 ^ 53) 8388608000000000 ltac:(lia)) as Hdiv.
  destruct (Z.div_eucl _ _) as [q r]. destruct Hdiv as [Eq Hr].
  destruct q as [|q|q]; [lia| |lia].
  destruct (round_correct q (e - 30) (new_location 8388608000000000 r) (a * 2 ^ 23) (8388608000000000 * 2 ^ (e + 1044)) 8388608000000000 0)
    as (V & HV & Herr); try lia.
  - rewrite Z.pow_0_r, Z.mul_1_r. do 2 f_equal. lia.
  - assert (2 ^ 52 ≤ Z.pos q) as Hq by lia. pose proof (digits2_pos_bounds q) as [_ Hd2]. cbv zeta in Hd2.
    assert (52 < Z.pos (digits2_pos q)) by (apply (Z.pow_lt_mono_r_iff 2); lia). rewrite fexp64_eq. lia.
  - replace (a * 2 ^ 23) with ((Z.pos q * 8388608000000000 + r) * 2 ^ (e + 1044)); [apply cell_quotient; done || lia|].
    rewrite (Z.mul_comm (Z.pos q)), <-Eq, Ea, <-!Z.mul_assoc, <-!Z.pow_add_r by lia. do 2 f_equal. lia.
  - exists V. split; [done|]. lia.
Qed.

(** The comparison.  Of two floats with different exponents the one with the
    greater exponent is greater, since its mantissa has all its digits. *)
Lemma bounded_lt m e m' e' : bounded 53 1024 m e = true → bounded 53 1024 m' e' = true → e < e' →
  Z.pos m * 2 ^ (e + 1074) < Z.pos m' * 2 ^ (e' + 1074).
Proof.
  intros Hb Hb' Hlt. pose proof (bounded_cases _ _ Hb) as (He & Hm & _). pose proof (bounded_cases _ _ Hb') as (He' & _ & Hc).
  pose proof (digits2_pos_bounds m') as [Hd _]. cbv zeta in Hd. replace (Z.pos (digits2_pos m')) with 53 in Hd by lia.
  apply Z.lt_le_trans with (2 ^ 53 * 2 ^ (e + 1074)); [apply Z.mul_lt_mono_pos_r; lia|].
  apply Z.le_trans with (2 ^ 52 * 2 ^ (e' + 1074)); [|apply Z.mul_le_mono_nonneg_r; lia].
  rewrite <-!Z.pow_add_r by lia. apply Z.pow_le_mono_r; lia.
Qed.

Lemma flt_correct x y a b : fval x a → fval y b → flt x y = bool_decide (a < b).
Proof.
  intros Hx Hy. pose proof (fval_nonneg x a Hx). pose proof (fval_nonneg y b Hy). symmetry.
  unfold flt, SFltb, SFcompare. destruct x as [s|?| |[] m e], y as [s'|?| |[] m' e']; try done; simpl in Hx, Hy.
  - apply bool_decide_eq_false. lia.
  - destruct Hy as [Hb ->]. pose proof (bounded_cases _ _ Hb) as (? & _). apply bool_decide_eq_true. subst a.
    apply Z.mul_pos_pos; lia.
  - apply bool_decide_eq_false. lia.
  - destruct Hx as [Hb Ea], Hy as [Hb' Eb]. pose proof (bounded_cases _ _ Hb) as (He & _).
    destruct (Z.compare_spec e e') as [<-|Hlt|Hlt].
    + change (Pos.compare_cont Eq m m') with (Pos.compare m m'). subst a b.
      destruct (Pos.compare_spec m m') as [->|Hlt|Hlt]; [apply bool_decide_eq_false; lia|apply bool_decide_eq_true|apply bool_decide_eq_false].
      * apply Z.mul_lt_mono_pos_r; lia.
      * apply Z.le_ngt, Z.mul_le_mono_nonneg_r; lia.
    + apply bool_decide_eq_true. subst. by apply bounded_lt.
    + apply bool_decide_eq_false. subst. pose proof (bounded_lt _ _ _ _ Hb' Hb Hlt). lia.
Qed.
