(* ===== verification/ApiLimit.v ===== *)
(** * The rate limit of the API (internal/api/server.go, [rateLimit])

    The token buckets in the float arithmetic of the code, against an exact
    bucket.  The exact one counts in the tokens that a nanosecond adds, of which
    a request takes [10 ^ 8]; so it is an integer, at any times of requests.
    The float bucket drifts from it by less than [2 ^ -18] of this unit for each
    request. *)

From Corelib Require Import SpecFloat.
From S2P Require Import Prelude TimeVal Hna Heap Dijkstra Spf Molsr Config Daemon Monitor Api Floats.

(** ** The exact bucket *)

(** What a request takes, and how much a bucket holds. *)
Definition token : Z := 10 ^ 8.
Definition full : Z := 20 * token.

(** The bucket after some nanoseconds, and after the answer to a request. *)
Definition refill (E elapsed : Z) : Z := Z.min full (E + elapsed).
Definition charge (E : Z) (ok : bool) : Z := if ok then Z.max 0 (E - token) else E.

(** The bucket is full after three seconds, and the drift is gone. *)
Definition drift (k elapsed : Z) : Z := if 3 * Second <=? elapsed then 1 else k + 1.

(** The answers to a client that the exact bucket, charged for the requests that
    have passed, gives up to a drift of [2 ^ -18] a request: it holds a token
    when one passes and none when one is refused.  [E] is the bucket at the time
    [last], [k] the number of requests since it was full. *)
Fixpoint limited (E last k : Z) (l : list (Z * bool)) : Prop :=
  match l with
  | [] => True
  | (now, ok) :: l =>
      let E := refill E (now - last) in
      let k := drift k (now - last) in
      last ≤ now ∧ (if ok then 2 ^ 18 * token ≤ 2 ^ 18 * E + k else 2 ^ 18 * E < 2 ^ 18 * token + k) ∧
      limited (charge E ok) now k l
  end.

(** ** The drift of the float bucket *)

Notation S := (2 ^ 1074).

(** The float of seconds of a duration, and the tokens it adds. *)
Lemma Duration_Seconds_close el : 0 ≤ el < 2 ^ 63 →
  ∃ D, fval (Duration_Seconds el) D ∧ 0 ≤ D ≤ 2 ^ 1140 ∧ 2 ^ 53 * Z.abs (D * Second - el * S) ≤ 4 * (el * S) + S.
Proof.
  intros Hel. unfold Duration_Seconds.
  pose proof (Z.quot_rem' el Second) as Eq. pose proof (Z.rem_bound_pos el Second ltac:(lia) ltac:(done)) as Hr.
  pose proof (Z.quot_pos el Second ltac:(lia) ltac:(done)) as Hq.
  set (s := Z.quot el Second) in *. set (r := Z.rem el Second) in *. unfold Second in *.
  destruct (float_of_int_correct s ltac:(lia)) as (A & HA & EA).
  assert (∃ B, fval (fdiv (float_of_int r) (float_of_int 1000000000)) B ∧ 2 ^ 53 * Z.abs (B * 1000000000 - r * S) ≤ 3 * (r * S) + 2 ^ 100)
    as (B & HB & EB).
  { destruct (float_of_int_correct r ltac:(lia)) as (B0 & HB0 & EB0).
    destruct (decide (r = 0)) as [E0|Hr0]; [exists 0; rewrite E0; by vm_compute|].
    assert (S ≤ r * S) by lia. destruct (fdiv_e9_correct _ _ HB0) as (B & HB & EB); [right; lia|lia|].
    exists B. split; [done|]. lia. }
  pose proof (fval_nonneg _ _ HA). pose proof (fval_nonneg _ _ HB).
  destruct (fadd_correct _ _ _ _ HA HB) as (D & HD & ED); [lia|]. exists D. split; [done|].
  pose proof (fval_nonneg _ _ HD). replace (el * S) with (s * S * 1000000000 + r * S) by (rewrite Eq; ring). lia.
Qed.

Lemma fval_1 : fval (float_of_int 1) S.
Proof. vm_compute. by split. Qed.

Lemma fval_limitBurst : fval limitBurst (20 * S).
Proof. vm_compute. by split. Qed.

(** The float bucket [tk] holds [E], up to a drift of [k]. *)
Definition tracks (k : Z) (tk : float64) (E : Z) : Prop :=
  0 ≤ E ≤ full ∧ 0 ≤ k ∧ ∃ V, fval tk V ∧ 0 ≤ V ≤ 20 * S ∧ 2 ^ 18 * Z.abs (V * token - E * S) ≤ k * S.

(** The refilled bucket of the code. *)
Definition refilled (tk : float64) (elapsed : Z) : float64 :=
  let tk := fadd tk (fmul (Duration_Seconds elapsed) limitRate) in
  if flt limitBurst tk then limitBurst else tk.

Lemma tracks_full : tracks 0 limitBurst full.
Proof.
  split; [done|]. split; [done|]. exists (20 * S). split; [apply fval_limitBurst|]. unfold full, token. lia.
Qed.

(** The tokens after a time are those of the exact bucket, before the cap. *)
Lemma refill_close k tk E el : tracks k tk E → 0 ≤ el < 2 ^ 63 →
  ∃ T, fval (fadd tk (fmul (Duration_Seconds el) limitRate)) T ∧ 0 ≤ T ∧
    (el < 3 * Second → 2 ^ 20 * Z.abs (T * token - (E + el) * S) ≤ (4 * k + 3) * S) ∧ (3 * Second ≤ el → 20 * S < T).
Proof.
  intros (HE & Hk & V & HV & HV0 & Hd) Hel.
  destruct (Duration_Seconds_close el Hel) as (D & HD & HD0 & ED).
  destruct (fmul_10_correct _ _ HD) as (P & HP & EP); [lia|]. fold limitRate in HP.
  pose proof (fval_nonneg _ _ HP).
  destruct (fadd_correct _ _ _ _ HV HP) as (T & HT & ET); [lia|]. exists T. split; [done|]. split; [by eapply fval_nonneg|].
  unfold full, token, Second in *. split; intros H3.
  - rewrite Z.mul_add_distr_r. assert (0 ≤ el * S ≤ 3000000000 * S) by (split; [apply Z.mul_nonneg_nonneg|apply Z.mul_le_mono_nonneg_r]; lia).
    set (ES := E * S) in *. set (eS := el * S) in *. set (kS := k * S) in *. replace ((4 * k + 3) * S) with (4 * kS + 3 * S) by (unfold kS; ring).
    clearbody ES eS kS. lia.
  - assert (3000000000 * S ≤ el * S) by (apply Z.mul_le_mono_nonneg_r; lia). set (eS := el * S) in *. clearbody eS. lia.
Qed.

Lemma refill_tracks k tk E el : tracks k tk E → 0 ≤ el < 2 ^ 63 →
  0 ≤ refill E el ≤ full ∧ ∃ V, fval (refilled tk el) V ∧ 0 ≤ V ≤ 20 * S ∧
    2 ^ 20 * Z.abs (V * token - refill E el * S) ≤ (4 * drift k el - 1) * S.
Proof.
  intros Ht Hel. destruct (refill_close _ _ _ _ Ht Hel) as (T & HT & HT0 & Hlo & Hhi).
  destruct Ht as (HE & Hk & _). unfold refill, drift. split; [unfold full, token in *; lia|].
  unfold refilled. rewrite (flt_correct _ _ _ _ fval_limitBurst HT).
  destruct (Z.leb_spec (3 * Second) el) as [H3|H3].
  - rewrite bool_decide_true by auto. exists (20 * S). split; [apply fval_limitBurst|].
    rewrite Z.min_l by (unfold full, token, Second in *; lia). unfold full, token. lia.
  - specialize (Hlo H3). rewrite Z.mul_add_distr_r in Hlo.
    replace ((4 * (k + 1) - 1) * S) with ((4 * k + 3) * S) by ring. destruct (Z.le_gt_cases full (E + el)) as [Hf|Hf].
    + rewrite Z.min_l by done. assert (full * S ≤ (E + el) * S) by (apply Z.mul_le_mono_nonneg_r; lia).
      rewrite Z.mul_add_distr_r in *. unfold full, token in *. case_bool_decide; [exists (20 * S)|exists T];
        (split; [done || apply fval_limitBurst|]); lia.
    + rewrite Z.min_r by lia. assert ((E + el) * S < full * S) by (apply Z.mul_lt_mono_pos_r; lia).
      rewrite Z.mul_add_distr_r in *. unfold full, token in *. case_bool_decide; [exists (20 * S)|exists T];
        (split; [done || apply fval_limitBurst|]); lia.
Qed.

(** One request. *)
Lemma take_token_tracks k tk E last now : tracks k tk E → last ≤ now →
  let E' := refill E (now - last) in let k' := drift k (now - last) in
  let r := take_token (MkBucket tk last) now in
  lastUpdate r.1 = now ∧ tracks k' (tokens r.1) (charge E' r.2) ∧
  (if r.2 then 2 ^ 18 * token ≤ 2 ^ 18 * E' + k' else 2 ^ 18 * E' < 2 ^ 18 * token + k').
Proof.
  intros Ht Hle. cbv zeta. pose (el := Z.min (2 ^ 63 - 1) (now - last)).
  assert (time_Sub now last = el) as Eel by (unfold time_Sub, el; lia).
  assert (refill E (now - last) = refill E el ∧ drift k (now - last) = drift k el) as [-> ->].
  { destruct Ht as (HE & _). unfold refill, drift, el, full, token, Second in *.
    destruct (Z.leb_spec (3 * 1000000000) (now - last)), (Z.leb_spec (3 * 1000000000) (Z.min (2 ^ 63 - 1) (now - last))); lia. }
  destruct (refill_tracks k tk E el Ht ltac:(unfold el; lia)) as (HE & V & HV & HV0 & Hd).
  assert (1 ≤ drift k el) as Hk1 by (destruct Ht as (_ & ? & _); unfold drift; destruct (_ <=? _); lia).
  unfold take_token. cbn [tokens lastUpdate]. rewrite Eel. cbv zeta. change (if flt limitBurst _ then _ else _) with (refilled tk el).
  rewrite (flt_correct _ _ _ _ HV fval_1). generalize dependent (drift k el). generalize dependent (refill E el).
  intros E' HE' k' Hd Hk1. assert (0 ≤ E' * S ∧ 0 ≤ k' * S) as [? ?] by (split; apply Z.mul_nonneg_nonneg; lia).
  replace ((4 * k' - 1) * S) with (4 * (k' * S) - S) in Hd by ring.
  case_bool_decide as Hb; cbn [fst snd tokens lastUpdate charge]; (split; [done|]).
  - split.
    + split; [done|]. split; [lia|]. exists V. split; [done|]. split; [lia|]. lia.
    + apply (Z.mul_lt_mono_pos_r S); [lia|]. unfold full, token in *.
      replace ((2 ^ 18 * 10 ^ 8 + k') * S) with (2 ^ 18 * 10 ^ 8 * S + k' * S) by ring.
      replace (2 ^ 18 * E' * S) with (2 ^ 18 * (E' * S)) by ring. lia.
  - destruct (fsub_correct _ _ _ _ HV fval_1) as (W & HW & EW); [lia|]. pose proof (fval_nonneg _ _ HW).
    assert (W ≤ 20 * S) by lia. split.
    + split; [unfold full, token in *; lia|]. split; [lia|]. exists W. split; [done|]. split; [lia|].
      unfold full, token in *. destruct (Z.max_spec 0 (E' - 10 ^ 8)) as [[Hm ->]|[Hm ->]].
      * rewrite Z.mul_sub_distr_r. lia.
      * assert (E' * S ≤ 10 ^ 8 * S) by (apply Z.mul_le_mono_nonneg_r; lia). lia.
    + apply (Z.mul_le_mono_pos_r _ _ S); [lia|]. unfold full, token in *.
      replace ((2 ^ 18 * E' + k') * S) with (2 ^ 18 * (E' * S) + k' * S) by ring. lia.
Qed.

(** ** The requests of all clients *)

(** A request: its client, and the times read for a new bucket and for the refill. *)
Record Request := MkRequest { rq_client : string; rq_created : Z; rq_now : Z }.

Fixpoint limit_run (m : gmap string clientBucket) (rs : list Request) : list (string * (Z * bool)) :=
  match rs with
  | [] => []
  | r :: rs =>
      let '(m, ok) := limit_client m (rq_client r) (rq_created r) (rq_now r) in
      (rq_client r, (rq_now r, ok)) :: limit_run m rs
  end.

(** The times come from a clock that does not go back. *)
Fixpoint in_order (t : Z) (rs : list Request) : Prop :=
  match rs with
  | [] => True
  | r :: rs => t ≤ rq_created r ≤ rq_now r ∧ in_order (rq_now r) rs
  end.

(** The answers to one client. *)
Definition answers (ip : string) (l : list (string * (Z * bool))) : list (Z * bool) :=
  omap (λ x, if bool_decide (x.1 = ip) then Some x.2 else None) l.

Definition passed (l : list (Z * bool)) : Z := Z.of_nat (length (filter (λ x, x.2 = true) l)).

(** The exact bucket of a client whose first request has the first answer. *)
Definition limited_from_full (l : list (Z * bool)) : Prop :=
  match l with
  | [] => True
  | (t, _) :: _ => limited full t 0 l
  end.

Lemma limit_run_tracks ip rs : ∀ m t b E k, in_order t rs → m !! ip = Some b → lastUpdate b ≤ t → tracks k (tokens b) E →
  limited E (lastUpdate b) k (answers ip (limit_run m rs)).
Proof.
  induction rs as [|[ip' c now] rs IH]; intros m t b E k Hord Hm Ht Hb; [done|]. destruct Hord as [Hc Hord].
  cbn [rq_client rq_created rq_now limit_run] in *. unfold limit_client. destruct (decide (ip' = ip)) as [->|Hne].
  - rewrite Hm. cbn [default from_option id]. destruct b as [tk last]. cbn [tokens lastUpdate] in *.
    destruct (take_token_tracks k tk E last now Hb ltac:(lia)) as (H1 & H2 & H3).
    destruct (take_token (MkBucket tk last) now) as [b' ok]. cbn [fst snd] in *. unfold answers. cbn [omap list_omap fst snd].
    rewrite bool_decide_true by done. cbn [limited]. split; [lia|]. split; [done|]. subst now.
    apply (IH _ (lastUpdate b')); [done|by rewrite lookup_insert_eq|lia|done].
  - destruct (take_token _ _) as [b' ok]. unfold answers. cbn [omap list_omap fst snd]. rewrite bool_decide_false by done.
    apply (IH _ now); [done|by rewrite lookup_insert_ne|lia|done].
Qed.

(** When the bucket is full it does not matter since when. *)
Lemma limited_full last last' l : match l with [] => True | (t, _) :: _ => last ≤ t ∧ last' ≤ t end →
  limited full last 0 l → limited full last' 0 l.
Proof.
  destruct l as [|[t ok] l]; [done|]. intros [H1 H2] H. cbn [limited] in *. destruct H as (_ & H).
  assert (refill full (t - last') = refill full (t - last)) as -> by (unfold refill; lia).
  assert (drift 0 (t - last') = drift 0 (t - last)) as -> by (unfold drift; by destruct (_ <=? _), (_ <=? _)).
  by split.
Qed.

Lemma answers_later ip rs : ∀ m t, in_order t rs → match answers ip (limit_run m rs) with [] => True | (t', _) :: _ => t ≤ t' end.
Proof.
  induction rs as [|[ip' c now] rs IH]; intros m t Hord; [done|]. destruct Hord as [Hc Hord].
  cbn [rq_client rq_created rq_now limit_run] in *. destruct (limit_client m ip' c now) as [m' ok]. unfold answers. cbn [omap list_omap fst snd].
  case_bool_decide; [lia|]. specialize (IH m' now Hord). fold (answers ip (limit_run m' rs)) in *.
  destruct (answers ip _) as [|[t' ?]]; [done|lia].
Qed.

Lemma limit_run_new ip rs : ∀ m t, in_order t rs → m !! ip = None → limited_from_full (answers ip (limit_run m rs)).
Proof.
  induction rs as [|[ip' c now] rs IH]; intros m t Hord Hm; [done|]. destruct Hord as [Hc Hord].
  cbn [rq_client rq_created rq_now limit_run] in *. destruct (decide (ip' = ip)) as [->|Hne].
  - assert (limited full c 0 (answers ip (limit_run (<[ip := MkBucket limitBurst c]> m) (MkRequest ip c now :: rs)))) as H.
    { apply (limit_run_tracks ip (MkRequest ip c now :: rs) _ c (MkBucket limitBurst c)); [cbn; split; [lia|done]|by rewrite lookup_insert_eq|done|].
      apply tracks_full. }
    cbn [limit_run rq_client rq_created rq_now] in H. unfold limit_client in *. rewrite lookup_insert_eq in H. rewrite Hm.
    cbn [default from_option id] in *. destruct (take_token (MkBucket limitBurst c) now) as [b ok]. rewrite insert_insert_eq in H.
    unfold answers in *. cbn [omap list_omap fst snd] in *. rewrite bool_decide_true in * by done. cbn [limited_from_full].
    eapply limited_full; [|exact H]. lia.
  - unfold limit_client. destruct (take_token _ _) as [b ok]. unfold answers. cbn [omap list_omap fst snd].
    rewrite bool_decide_false by done. apply (IH _ now); [done|by rewrite lookup_insert_ne].
Qed.

(** The requests that pass, while the drift is less than one unit. *)
Lemma limited_passed l : ∀ E last k, 0 ≤ E → 0 ≤ k → limited E last k l → k + Z.of_nat (length l) < 2 ^ 18 →
  passed l * token ≤ E + (default last (list.last l.*1) - last).
Proof.
  induction l as [|[now ok] l IH]; intros E last k HE Hk Hl Hn; [change (passed []) with 0; simpl; lia|].
  cbn [limited] in Hl. destruct Hl as (Ht & Hd & Hl). cbn [length] in Hn.
  assert (1 ≤ drift k (now - last) ≤ k + 1) by (unfold drift; destruct (_ <=? _); lia).
  assert (0 ≤ refill E (now - last) ≤ E + (now - last)) by (unfold refill, full, token; lia).
  assert (default last (list.last ((now, ok) :: l).*1) = default now (list.last l.*1)) as ->.
  { cbn [fmap list_fmap fst]. rewrite last_cons. by destruct (list.last l.*1). }
  assert (0 ≤ charge (refill E (now - last)) ok) as Hc by (destruct ok; simpl; lia).
  specialize (IH _ now (drift k (now - last)) Hc ltac:(lia) Hl ltac:(lia)). unfold passed in *. rewrite filter_cons. cbn [snd].
  destruct ok; cbn [charge] in *; [rewrite decide_True by done; cbn [length]|rewrite decide_False by done]; unfold token in *; lia.
Qed.

(** C32. The rate limit.  Of a client that was not seen before, among the requests
    of any clients at any times: a request passes when, and is refused when not,
    an exact bucket of 20 tokens, which gains 10 tokens a second and is charged
    for the requests that have passed, holds a token, up to a drift of
    [2 ^ -18] of the [10 ^ -8] tokens of a nanosecond for each request since the
    bucket was last full.  So for the first [2 ^ 18] requests the two can only
    differ when the exact bucket holds exactly one token, and not more than the
    burst and ten a second pass. *)
Theorem rate_limit_tracks ip rs m t :
  m !! ip = None → in_order t rs →
  let l := answers ip (limit_run m rs) in
  limited_from_full l ∧
  (Z.of_nat (length l) < 2 ^ 18 → ∀ first final, head l.*1 = Some first → list.last l.*1 = Some final →
     passed l * token ≤ 20 * token + (final - first)).
Proof.
  intros Hm Hord l. pose proof (limit_run_new ip rs m t Hord Hm) as H. fold l in H. split; [done|].
  intros Hn first final Hf Hl. destruct l as [|[t0 ok] l']; [done|]. cbn [limited_from_full] in H. injection Hf as ->.
  pose proof (limited_passed _ full first 0 ltac:(done) ltac:(lia) H ltac:(lia)) as Hp. rewrite Hl in Hp. exact Hp.
Qed.

(** ** Witness *)

(** 25 requests at once, then 12 a second later, others in between. *)
Definition example_requests : list Request :=
  replicate 25 (MkRequest "10.0.0.9" 0 0) ++ [MkRequest "10.0.0.8" 7 9] ++ replicate 12 (MkRequest "10.0.0.9" Second Second).

Lemma rate_limit_tracks_witness :
  passed (answers "10.0.0.9" (limit_run ∅ example_requests)) = 30 ∧ 30 * token ≤ 20 * token + (Second - 0).
Proof.
  assert (in_order 0 example_requests) as Hord by (vm_compute; intuition discriminate).
  assert (passed (answers "10.0.0.9" (limit_run ∅ example_requests)) = 30) as E by (vm_compute; reflexivity).
  split; [exact E|]. rewrite <-E.
  refine (proj2 (rate_limit_tracks "10.0.0.9" example_requests ∅ 0 (lookup_empty _) Hord) _ 0 Second _ _);
    vm_compute; reflexivity.
Defined.

(** A client that has used up the burst and then asks every 10 milliseconds gets
    only 9 requests through in the next second: ten times a tenth of a token is
    just below one in float64, so the tenth request is refused, where the exact
    bucket holds exactly one token, and each token comes one request late. *)
Definition polling : list Request :=
  replicate 20 (MkRequest "10.0.0.9" 0 0) ++
  ((λ i, let t := Z.of_nat i * 10000000 in MkRequest "10.0.0.9" t t) <$> seq 1 100).

Lemma polling_passes_nine : passed (answers "10.0.0.9" (limit_run ∅ polling)) = 20 + 9.
Proof. vm_compute. reflexivity. Qed.
