(* ===== verification/ApiClaims.v ===== *)
(** * Claims through the API (internal/api/handlers.go)

    What the POST and DELETE requests on source claims do to the multicast
    manager's table, and the lifetime a request gets, overflow included. *)

From Stdlib Require Import Ascii.
From S2P Require Import Prelude GoNet GoStrings TimeVal Packet Events Neighbor Topology Hna Heap Dijkstra Spf Molsr MolsrFacts Config Daemon Monitor Api.

(** ** Lifetimes *)

(** The durations that [int64] nanoseconds hold, in seconds. *)
Definition max_seconds : Z := 9223372036.

Lemma i64_id z : is_int64 z → i64 z = z.
Proof. unfold is_int64, i64. intros Hz. rewrite Z.mod_small by lia. lia. Qed.

Lemma i64_wraps z : 2 ^ 63 ≤ z < 2 ^ 64 → i64 z = z - 2 ^ 64.
Proof.
  intros Hz. unfold i64. replace (z + 2 ^ 63) with (z - 2 ^ 63 + 1 * 2 ^ 64) by lia.
  rewrite Z_mod_plus_full, Z.mod_small; lia.
Qed.

Lemma claim_duration_exact n : 0 < n ≤ max_seconds → claim_duration n = n * Second.
Proof.
  unfold claim_duration, max_seconds, Second. intros Hn. rewrite (proj2 (Z.ltb_lt 0 n)) by lia.
  apply i64_id. unfold is_int64. lia.
Qed.

Lemma claim_duration_default n : n ≤ 0 → claim_duration n = 60 * Second.
Proof. intros Hn. unfold claim_duration. by rewrite (proj2 (Z.ltb_ge 0 n)). Qed.

(** Twice as many seconds, and the product is negative. *)
Lemma claim_duration_negative n : max_seconds < n ≤ 2 * max_seconds → claim_duration n < 0.
Proof.
  unfold claim_duration, max_seconds, Second. intros Hn. rewrite (proj2 (Z.ltb_lt 0 n)) by lia.
  rewrite i64_wraps; lia.
Qed.

(** ** The table *)

Lemma add_claim_at now m src grp d g s :
  claim_at (AddLocalSourceClaim now m src grp d).1 g s =
    if decide (g = grp ∧ s = src) then Some (MkSourceClaim src grp (molsr_routerID m) (now + d)) else claim_at m g s.
Proof. unfold claim_at, AddLocalSourceClaim. simpl. by rewrite nested_insert_lookup. Qed.

Lemma delete_claim_exact m src grp g s :
  claim_at (DeleteLocalSourceClaim m src grp).1 g s = if decide (g = grp ∧ s = src) then None else claim_at m g s.
Proof.
  unfold DeleteLocalSourceClaim, claim_at. simpl. destruct (sourceClaims m !! grp) as [grps|] eqn:E.
  - simpl. destruct (decide (grp = g)) as [<-|Hg].
    + rewrite lookup_insert_eq, E. simpl. destruct (decide (src = s)) as [<-|Hs].
      * rewrite decide_True by done. by rewrite lookup_delete_eq.
      * rewrite decide_False by naive_solver. by rewrite lookup_delete_ne.
    + rewrite decide_False by naive_solver. by rewrite lookup_insert_ne.
  - simpl. case_decide as Hd; [|done]. destruct Hd as [<- <-]. by rewrite E.
Qed.

Section claims.
Context {MO : MapOrder} {GF : GoFold} (clock : list positive → Z).

(** The claims of the daemon's manager. *)
Definition claims_of (s : APIServer) : string → string → option SourceClaim := claim_at (molsrMgr (api_daemon s)).

(** Source claims through the API, on every branch.  A body that does not
    decode is answered by 400, as is a POST with an address that does not
    parse, and nothing changes.  Otherwise a POST enters exactly the claim of
    the payload, in this router's name, and a DELETE removes exactly that
    claim; each publishes one topology event.  The claim lives for the given
    seconds, for a minute when none are given, and when the seconds exceed
    9223372036 it can be expired when it is entered. *)
Theorem source_claim_requests p r s :
  let '(s', resp) := handleSourceClaims clock p r s in
  if decide (rq_Method r = "GET")
  then s' = s ∧ resp = MkResponse 200 (RSourceClaims (GetSourceClaims p (molsrMgr (api_daemon s))))
  else match decode_source_claim (rq_Body r) with
  | Some (MkSourceClaimPayload src grp n) =>
      if decide (rq_Method r = "POST") then
        if is_ip_string src && is_ip_string grp then
          status resp = 201 ∧ published s' = published s ++ [molsr_event "local_source_claim_add"] ∧
          ∃ exp,
            (∀ g x, claims_of s' g x = if decide (g = grp ∧ x = src)
               then Some (MkSourceClaim src grp (molsr_routerID (molsrMgr (api_daemon s))) exp) else claims_of s g x) ∧
            (0 < n ≤ max_seconds → exp = clock p + n * Second) ∧ (n ≤ 0 → exp = clock p + 60 * Second) ∧
            (max_seconds < n ≤ 2 * max_seconds → exp < clock p)
        else s' = s ∧ status resp = 400
      else if decide (rq_Method r = "DELETE") then
        status resp = 200 ∧ published s' = published s ++ [molsr_event "local_source_claim_del"] ∧
        ∀ g x, claims_of s' g x = if decide (g = grp ∧ x = src) then None else claims_of s g x
      else s' = s ∧ status resp = 405
  | None => s' = s ∧ status resp = if decide (rq_Method r = "POST" ∨ rq_Method r = "DELETE") then 400 else 405
  end.
Proof.
  unfold handleSourceClaims. destruct (decide (rq_Method r = "GET")) as [Eg|Ng].
  { by rewrite bool_decide_true. }
  rewrite bool_decide_false by done. destruct (decide (rq_Method r = "POST")) as [Ep|Np].
  { rewrite bool_decide_true by done. destruct (decode_source_claim (rq_Body r)) as [[src grp n]|].
    2:{ split; [done|]. by rewrite decide_True by (by left). }
    cbn [sc_Source sc_Group sc_DurationSeconds]. rewrite <-negb_andb.
    destruct (is_ip_string src && is_ip_string grp); [|done]. cbn [negb].
    split; [done|]. split; [done|]. exists (clock p + claim_duration n). split; [intros g x; apply add_claim_at|].
    split; [intros Hn; by rewrite claim_duration_exact|]. split; [intros Hn; by rewrite claim_duration_default|].
    intros Hn. pose proof (claim_duration_negative n Hn). lia. }
  rewrite bool_decide_false by done. destruct (decide (rq_Method r = "DELETE")) as [Ed|Nd].
  { rewrite bool_decide_true by done. destruct (decode_source_claim (rq_Body r)) as [[src grp n]|].
    2:{ split; [done|]. by rewrite decide_True by (by right). }
    split; [done|]. split; [done|]. intros g x. apply delete_claim_exact. }
  rewrite bool_decide_false by done. destruct (decode_source_claim (rq_Body r)) as [[src grp n]|]; [done|].
  split; [done|]. by rewrite decide_False by tauto.
Qed.
End claims.
