(* ===== verification/DaemonOps.v ===== *)
(** * The daemon as a sequence of manager operations (cmd/olsrd/daemon.go)

    Every handler of the daemon is a sequence of operations of its managers:
    the goroutines interleave at these operations, each of which holds one
    manager's lock.  The invariant of the daemon follows from the managers'
    own; what a handler publishes is what the operations publish. *)

From S2P Require Import Prelude GoNet TimeVal Packet PacketCodec PacketRelay Events DiffSync Neighbor NeighborTables NeighborInvariant Topology Hna Heap Dijkstra Spf SpfRoutes SpfSync Molsr MolsrFacts Config Daemon DaemonFacts LinkSensing.

#[local] Opaque EncodeTimeVal DecodeTimeVal.

Section ops.
Context {MO : MapOrder}.

(** The operations, with the arguments and times they are called with. *)
Inductive manager_op :=
  | OpHello (p : list positive) (now now' : Z) (sender orig : IP) (hello : HelloMessage) (vtime : Z)
  | OpNeighborAge (p : list positive) (now now' : Z)
  | OpTopology (op : topo_op)
  | OpHNA (now : Z) (orig : IP) (hna : HNAMessage) (vtime : Z)
  | OpAddHNA (n : IPNet)
  | OpRemoveHNA (n : IPNet)
  | OpHNAAge (p : list positive) (now : Z)
  | OpSourceClaim (now : Z) (orig : IP) (sc : SourceClaimMessage) (vtime : Z)
  | OpConfirmParent (now : Z) (orig : IP) (cp : ConfirmParentMessage) (vtime : Z)
  | OpAddClaim (now : Z) (src grp : string) (duration : Z)
  | OpDeleteClaim (src grp : string)
  | OpAddConfirm (now : Z) (src grp parent child : string) (duration : Z)
  | OpDeleteConfirm (src grp child : string)
  | OpMolsrAge (p : list positive) (now : Z)
  | OpCalculateRoutes (p : list positive) (mon : Monitor) (now elapsed : Z)
  | OpRecalculateMroutes (p : list positive)
  | OpNextSeq
  | OpConfig (cfg : Config).

Definition with_neigh (d : Daemon) (r : NeighborManager * list Event) : Daemon * list Event := (set_neighMgr d r.1, r.2).
Definition with_hna (d : Daemon) (r : HNAManager * list Event) : Daemon * list Event := (set_hnaMgr d r.1, r.2).
Definition with_molsr (d : Daemon) (r : MOLSRManager * list Event) : Daemon * list Event := (set_molsrMgr d r.1, r.2).

(** The events of an operation of the topology manager. *)
Definition topo_events (tm : TopologyManager) (op : topo_op) : list Event :=
  match op with
  | OpIsDuplicate _ _ _ _ => []
  | OpProcessTC now orig tc vtime => (ProcessTC now tm orig tc vtime).2
  | OpProcessMID _ orig mid vtime => (ProcessMID tm orig mid vtime).2
  | OpAgeOut p now => (Topology.AgeOut p now tm).1.2
  end.

Definition run_manager_op (d : Daemon) (op : manager_op) : Daemon * list Event :=
  match op with
  | OpHello p now now' sender orig hello vtime =>
      with_neigh d (ProcessHello p now now' (neighMgr d) sender orig hello vtime)
  | OpNeighborAge p now now' => with_neigh d (Neighbor.AgeOut p now now' (neighMgr d)).1
  | OpTopology op => (set_topoMgr d (run_op (topoMgr d) op), topo_events (topoMgr d) op)
  | OpHNA now orig hna vtime => with_hna d (ProcessHNA now (hnaMgr d) orig hna vtime)
  | OpAddHNA n => with_hna d (AddLocalHNA (hnaMgr d) n)
  | OpRemoveHNA n => with_hna d (RemoveLocalHNA (hnaMgr d) n)
  | OpHNAAge p now => with_hna d (Hna.AgeOut p now (hnaMgr d)).1
  | OpSourceClaim now orig sc vtime => with_molsr d (ProcessSourceClaim now (molsrMgr d) orig sc vtime)
  | OpConfirmParent now orig cp vtime => with_molsr d (ProcessConfirmParent now (molsrMgr d) orig cp vtime)
  | OpAddClaim now src grp duration => with_molsr d (AddLocalSourceClaim now (molsrMgr d) src grp duration)
  | OpDeleteClaim src grp => with_molsr d (DeleteLocalSourceClaim (molsrMgr d) src grp)
  | OpAddConfirm now src grp parent child duration =>
      with_molsr d (AddLocalConfirmParent now (molsrMgr d) src grp parent child duration)
  | OpDeleteConfirm src grp child => with_molsr d (DeleteLocalConfirmParent (molsrMgr d) src grp child)
  | OpMolsrAge p now => with_molsr d (Molsr.AgeOut p now (molsrMgr d)).1
  | OpCalculateRoutes p mon now elapsed =>
      match CalculateRoutes p (daemon_lookup mon (spf_RouterID d) (d_cfg d)) now elapsed (activeRoutes d)
              (neighMgr d) (topoMgr d) (hnaMgr d) with
      | Ok (routes, evs) => (set_activeRoutes d routes, evs)
      | _ => (d, [])
      end
  | OpRecalculateMroutes p =>
      with_molsr d (RecalculateMroutes (λ q dest, GetNextHopForDest q (activeRoutes d) dest) p (molsrMgr d))
  | OpNextSeq => ((next_seq d).2, [])
  | OpConfig cfg => (set_cfg d cfg, [])
  end.

(** Operations one after the other, with all events. *)
Fixpoint run_manager_ops (d : Daemon) (ops : list manager_op) : Daemon * list Event :=
  match ops with
  | [] => (d, [])
  | op :: ops =>
      let '(d, evs) := run_manager_op d op in
      let '(d, evs') := run_manager_ops d ops in (d, evs ++ evs')
  end.

Lemma run_manager_ops_app d ops1 ops2 :
  run_manager_ops d (ops1 ++ ops2) =
    (let r1 := run_manager_ops d ops1 in let r2 := run_manager_ops r1.1 ops2 in (r2.1, r1.2 ++ r2.2)).
Proof.
  revert d. induction ops1 as [|op ops1 IH]; intros d; simpl; [by destruct (run_manager_ops d ops2)|].
  destruct (run_manager_op d op) as [d1 e1]. rewrite IH. cbv zeta.
  destruct (run_manager_ops d1 ops1) as [d2 e2]. cbn [fst snd].
  destruct (run_manager_ops d2 ops2) as [d3 e3]. cbn [fst snd]. by rewrite app_assoc.
Qed.

Lemma run_manager_ops_ind (P : Daemon → Prop) d ops :
  (∀ d op, op ∈ ops → P d → P (run_manager_op d op).1) → P d → P (run_manager_ops d ops).1.
Proof.
  revert d. induction ops as [|op ops IH]; intros d Hop Hd; [done|]. simpl.
  assert (P (run_manager_op d op).1) as H1 by (apply Hop; [by left|done]).
  destruct (run_manager_op d op) as [d1 e1]. assert (P (run_manager_ops d1 ops).1) as H2.
  { apply IH; [|done]. intros d' op' Hin. apply Hop. by right. }
  by destruct (run_manager_ops d1 ops).
Qed.

(** ** The handlers *)

Context {FC : FloatConv}.

Definition published_of (out : list Output) : list Event :=
  omap (λ o, match o with Published e => Some e | Sent _ => None end) out.

Lemma published_of_app o1 o2 : published_of (o1 ++ o2) = published_of o1 ++ published_of o2.
Proof. apply omap_app. Qed.
Lemma published_of_Published evs : published_of (Published <$> evs) = evs.
Proof.
  induction evs as [|e evs IH]; [done|].
  change (published_of (Published <$> e :: evs)) with (e :: published_of (Published <$> evs)). by rewrite IH.
Qed.
Lemma published_of_broadcast pkt : published_of (broadcastPacket pkt) = [].
Proof. unfold broadcastPacket. by destruct (SerializePacket pkt). Qed.

(** A handler does what a list of operations does.  The configuration changes on
    a signal only, and the routes in the loop that calculates them; messages come
    off the wire, with IPv4 addresses. *)
Definition handler_op (op : manager_op) : Prop :=
  match op with
  | OpConfig _ | OpCalculateRoutes _ _ _ _ => False
  | OpHello _ _ _ _ orig hello _ => is_ip4 orig ∧ body_addresses (BodyHello hello)
  | OpTopology (OpProcessTC _ orig tc _) => is_ip4 orig ∧ body_addresses (BodyTC tc)
  | _ => True
  end.

Definition does (d : Daemon) (r : Daemon * list Output) : Prop :=
  ∃ ops, run_manager_ops d ops = (r.1, published_of r.2) ∧ Forall handler_op ops.

Lemma does_nothing d : does d (d, []).
Proof. by exists []. Qed.

Lemma does_bind d d1 o1 d2 o2 : does d (d1, o1) → does d1 (d2, o2) → does d (d2, o1 ++ o2).
Proof.
  intros (ops1 & E1 & H1) (ops2 & E2 & H2). exists (ops1 ++ ops2). simpl in *. split; [|by apply Forall_app].
  rewrite run_manager_ops_app, E1. simpl. by rewrite E2, published_of_app.
Qed.

Lemma does_op d op : handler_op op →
  does d ((run_manager_op d op).1, Published <$> (run_manager_op d op).2).
Proof.
  intros Hop. exists [op]. simpl. rewrite published_of_Published.
  destruct (run_manager_op d op) as [d1 e1]. simpl. split; [by rewrite app_nil_r|]. by apply Forall_singleton.
Qed.

(** The same with what is sent left out. *)
Lemma does_out d d' o1 o2 : published_of o1 = published_of o2 → does d (d', o1) → does d (d', o2).
Proof. intros E (ops & H & Hc). exists ops. simpl in *. by rewrite <-E. Qed.

Lemma dispatch_does clock p raddr d msg : is_ip4 (OriginatorAddress (msg_Header msg)) → body_addresses (msg_Body msg) →
  does d ((dispatch clock p raddr d msg).1, Published <$> (dispatch clock p raddr d msg).2).
Proof.
  destruct msg as [h body]. unfold dispatch. cbn [msg_Header msg_Body]. intros Ho Hb.
  set (now := clock (1%positive :: p)). set (now2 := clock (2%positive :: p)). set (orig := OriginatorAddress h). set (v := Vtime h).
  repeat match goal with |- context [if ?b then _ else _] => destruct b end; try apply does_nothing;
    destruct body as [b|b|b|b|b|b|b]; try apply does_nothing.
  - pose proof (does_op d (OpHello p now now2 raddr orig b v) (conj Ho Hb)) as H. unfold run_manager_op, with_neigh in H.
    by destruct (ProcessHello _ _ _ _ _ _ _ _).
  - pose proof (does_op d (OpTopology (OpProcessTC now orig b v)) (conj Ho Hb)) as H. simpl in H.
    by destruct (ProcessTC _ _ _ _ _).
  - pose proof (does_op d (OpTopology (OpProcessMID 0 orig b v)) I) as H. simpl in H. exact H.
  - pose proof (does_op d (OpHNA now orig b v) I) as H. simpl in H. unfold with_hna in H.
    by destruct (ProcessHNA _ _ _ _ _).
  - pose proof (does_op d (OpSourceClaim now orig b v) I) as H. simpl in H. exact H.
  - pose proof (does_op d (OpConfirmParent now orig b v) I) as H. simpl in H. unfold with_molsr in H.
    by destruct (ProcessConfirmParent _ _ _ _ _).
Qed.

Lemma process_message_does clock p raddr hdr d msg : is_ip4 (OriginatorAddress (msg_Header msg)) → body_addresses (msg_Body msg) →
  does d (process_message clock p raddr hdr d msg).
Proof.
  intros Ho Hb.
  destruct (process_message_cases clock p raddr hdr d msg) as [[_ ->]|[_ ->]]; [apply does_nothing|].
  set (h := msg_Header msg). set (now := clock (1%positive :: p)).
  set (tm := (IsDuplicate now (topoMgr d) (OriginatorAddress h) (SeqNum h) (Vtime h)).1).
  pose proof (does_op d (OpTopology (OpIsDuplicate now (OriginatorAddress h) (SeqNum h) (Vtime h))) I) as H1.
  pose proof (dispatch_does clock (2%positive :: p) raddr (set_topoMgr d tm) msg Ho Hb) as H2.
  apply (does_out _ _ ([] ++ (Published <$> (dispatch clock (2%positive :: p) raddr (set_topoMgr d tm) msg).2))).
  { rewrite !published_of_app. destruct (shouldForwardMessage _ _ _ _ _); [|by rewrite app_nil_r].
    by rewrite published_of_broadcast, app_nil_r. }
  by eapply does_bind.
Qed.

Lemma process_messages_does clock raddr hdr msgs :
  Forall (λ msg, is_ip4 (OriginatorAddress (msg_Header msg)) ∧ body_addresses (msg_Body msg)) msgs →
  ∀ p d, does d (process_messages clock p raddr hdr d msgs).
Proof.
  induction 1 as [|msg msgs [Ho Hb] _ IH]; intros p d; [apply does_nothing|]. cbn [process_messages].
  pose proof (process_message_does clock (Pos.of_succ_nat (length msgs) :: p) raddr hdr d msg Ho Hb) as H1.
  destruct (process_message _ _ _ _ _ _) as [d1 o1]. specialize (IH p d1).
  destruct (process_messages _ _ _ _ _ _) as [d2 o2]. by eapply does_bind.
Qed.

Lemma processReceivedData_does clock p d data raddr r : Forall is_u8 data →
  processReceivedData clock p d data raddr = Ok r → does d r.
Proof.
  unfold processReceivedData. destruct (DeserializePacket data) as [pkt|e| |] eqn:E; intros Hu8 [= <-].
  - apply process_messages_does. destruct (deserialize_parsed _ _ Hu8 E) as [_ Hm].
    eapply Forall_impl; [exact Hm|]. intros m [Ho _ _ _ (bs & Hbs & _ & Hb)].
    split; [done|]. by eapply deserializeBody_addresses.
  - apply does_nothing.
Qed.

Lemma performAging_does clock p d : does d (performAging clock p d).
Proof.
  unfold performAging.
  pose proof (does_op d (OpNeighborAge (1%positive :: p) (clock (1%positive :: p)) (clock (2%positive :: p))) I) as H1.
  simpl in H1. destruct (Neighbor.AgeOut _ _ _ _) as [[nm e1] c1]. cbn [fst snd with_neigh] in H1.
  pose proof (does_op (set_neighMgr d nm) (OpTopology (OpAgeOut (2%positive :: p) (clock (3%positive :: p)))) I) as H2.
  simpl in H2. destruct (Topology.AgeOut _ _ _) as [[tm e2] c2]. cbn [fst snd] in H2.
  pose proof (does_op (set_topoMgr (set_neighMgr d nm) tm) (OpHNAAge (3%positive :: p) (clock (4%positive :: p))) I) as H3.
  simpl in H3. destruct (Hna.AgeOut _ _ _) as [[hm e3] c3]. cbn [fst snd with_hna] in H3.
  pose proof (does_op (set_hnaMgr (set_topoMgr (set_neighMgr d nm) tm) hm)
    (OpMolsrAge (4%positive :: p) (clock (5%positive :: p))) I) as H4.
  simpl in H4. destruct (Molsr.AgeOut _ _ _) as [[mm e4] c4]. cbn [fst snd with_molsr] in H4.
  rewrite !fmap_app. eapply does_bind; [exact H1|]. eapply does_bind; [exact H2|]. by eapply does_bind.
Qed.

Lemma runSpf_ops clock p mon elapsed d :
  run_manager_ops d [OpCalculateRoutes (1%positive :: p) mon (clock p) elapsed; OpRecalculateMroutes (2%positive :: p)] =
    ((runSpf clock p mon elapsed d).1, published_of (runSpf clock p mon elapsed d).2).
Proof.
  unfold runSpf. cbn [run_manager_ops run_manager_op].
  destruct (match CalculateRoutes _ _ _ _ _ _ _ _ with Ok _ => _ | _ => _ end) as [d1 e1].
  unfold with_molsr. destruct (RecalculateMroutes _ _ _) as [m e2]. cbn [fst snd].
  by rewrite app_nil_r, published_of_Published.
Qed.

Lemma next_seq_does d pkt : does d ((next_seq d).2, broadcastPacket pkt).
Proof. apply (does_out _ _ [] _ (eq_sym (published_of_broadcast pkt))), (does_op d OpNextSeq I). Qed.

Lemma sendHello_does p d : does d (sendHello p d).
Proof. apply next_seq_does. Qed.

Lemma sendTC_does p now d : does d (sendTC p now d).
Proof. unfold sendTC. destruct (length _ =? 0)%nat; [apply does_nothing|]. apply next_seq_does. Qed.

Lemma sendHNA_does p d : does d (sendHNA p d).
Proof. unfold sendHNA. destruct (length _ =? 0)%nat; [apply does_nothing|]. apply next_seq_does. Qed.
End ops.
