(* ===== verification/DaemonInvariant.v ===== *)
(** * The invariant of the daemon (cmd/olsrd/daemon.go)

    The managers' invariants and the relations between their states hold
    whatever operations run, in whatever order: each operation preserves them,
    and so does every handler. *)

From S2P Require Import Prelude GoNet TimeVal Packet Events DiffSync Neighbor NeighborTables NeighborInvariant Topology Hna Heap Dijkstra Spf SpfRoutes SpfSync Molsr MolsrFacts Config Daemon DaemonFacts LinkSensing DaemonOps.

#[local] Opaque EncodeTimeVal DecodeTimeVal.

(** Each tuple is stored under its destination and last hop, and an alias
    resolves to a node that declares it. *)
Record topo_wf (tm : TopologyManager) : Prop := {
  tw_keys d l t : topo_at (topology tm) d l = Some t → DestIP t = d ∧ LastIP t = l;
  tw_mid : mid_ok tm;
}.

Notation mfc_keyed := (keyed (λ e, mfc_key (mfe_SourceIP e) (mfe_GroupID e))).

(** All state of a daemon that was started with the router ID [id]. *)
Record daemon_wf (id : string) (d : Daemon) : Prop := {
  dw_spf : spf_RouterID d = id;
  dw_neigh : nm_inv id (neighMgr d);
  dw_topo : topo_wf (topoMgr d);
  dw_hna : hna_wf (hnaMgr d);
  dw_molsr : molsr_wf false id (molsrMgr d);
  dw_lookup : is_Some (MOLSR_IfaceIndexLookup (molsrMgr d));
  dw_routes : keyed Prefix (activeRoutes d);
  dw_mfc : mfc_keyed (activeMfc (molsrMgr d));
  dw_seq : seq_ok d;
}.

Section invariant.
Context {MO : MapOrder}.

Lemma daemon_wf_start cfg mon : daemon_wf (cfg_RouterID cfg) (initializeComponents cfg mon).
Proof. by split. Qed.

Lemma topo_op_wf tm op : topo_wf tm → topo_wf (run_op tm op).
Proof.
  intros [Hk Hm]. destruct op as [now o s v|now o tc v|now o mid v|p now]; cbn [run_op].
  - by split.
  - unfold ProcessTC.
    destruct (tc_fold_spec (IP_String o) (ANSN tc) (now + v) (tc_NeighborAddresses tc) (topology tm) false) as [H1 _].
    destruct (foldl _ _ _) as [topo u]. cbn [fst snd] in *. split; [|exact Hm].
    intros d l t. cbn [topology]. rewrite H1. case_decide as Hd; [|apply Hk]. destruct Hd as [-> _]. intros [= <-].
    destruct (topo_at (topology tm) d (IP_String o)) as [t|] eqn:E; simpl; [|done].
    apply Hk in E. by destruct (ansn_accepted _ _).
  - split; [exact Hk|]. by apply ProcessMID_spec.
  - pose proof (topology_AgeOut_spec p now tm) as H. destruct (Topology.AgeOut p now tm) as [[tm' evs] c].
    destruct H as (H1 & _ & _ & [= H2 H3] & _). cbn [fst]. split.
    + intros d l t [Ht _]%H1. by apply Hk.
    + intros a pr. rewrite H2, H3. apply Hm.
Qed.

Lemma molsr_step_lookup remote m m' : molsr_step remote m m' → MOLSR_IfaceIndexLookup m' = MOLSR_IfaceIndexLookup m.
Proof.
  intros [now orig sc vtime|now orig cp vtime|p now|f p|g|g|now src grp d _|src grp _|
          now src grp parent child d Hr|src grp child _]; try done.
  - unfold ProcessConfirmParent. by case_bool_decide.
  - unfold Molsr.AgeOut. by repeat case_match.
  - unfold RecalculateMroutes. by destruct (MOLSR_IfaceIndexLookup m) eqn:E.
  - unfold DeleteLocalSourceClaim. by destruct (sourceClaims m !! grp).
  - unfold DeleteLocalConfirmParent. simpl. by repeat case_match.
Qed.

Lemma recalculated_keyed f p m : mfc_keyed (activeMfc m) → mfc_keyed (activeMfc (RecalculateMroutes f p m).1).
Proof.
  intros Hm. unfold RecalculateMroutes. destruct (MOLSR_IfaceIndexLookup m); simpl; [|done].
  intros k e He. destruct (mt_sound _ _ _ (buildNewMFC_table f (1%positive :: p) (confirmParents m)) _ _ He)
    as (g & s & c & _ & -> & Hme). by rewrite (me_src _ _ _ _ _ Hme), (me_grp _ _ _ _ _ Hme).
Qed.

Lemma molsr_step_keyed remote m m' : mfc_keyed (activeMfc m) → molsr_step remote m m' → mfc_keyed (activeMfc m').
Proof.
  intros Hm. intros [now orig sc vtime|now orig cp vtime|p now|f p|g|g|now src grp d _|src grp _|
          now src grp parent child d Hr|src grp child _]; try done.
  - unfold ProcessConfirmParent. by case_bool_decide.
  - unfold Molsr.AgeOut. by repeat case_match.
  - by apply recalculated_keyed.
  - unfold DeleteLocalSourceClaim. by destruct (sourceClaims m !! grp).
  - unfold DeleteLocalConfirmParent. simpl. by repeat case_match.
Qed.

Lemma with_neigh_wf id d nm : daemon_wf id d → nm_step false (neighMgr d) nm → daemon_wf id (set_neighMgr d nm).
Proof. intros [] Hs. split; try done. simpl. by eapply nm_step_inv. Qed.

Lemma with_hna_wf id d h : daemon_wf id d → hna_op_step (hnaMgr d) h → daemon_wf id (set_hnaMgr d h).
Proof. intros [] Hs. split; try done. simpl. by eapply hna_step_wf. Qed.

Lemma with_molsr_wf id d m : daemon_wf id d → molsr_step false (molsrMgr d) m → daemon_wf id (set_molsrMgr d m).
Proof.
  intros [] Hs. split; try done; simpl.
  - by eapply molsr_step_wf.
  - by rewrite (molsr_step_lookup _ _ _ Hs).
  - by eapply molsr_step_keyed.
Qed.

Lemma calculated_keyed p lk now elapsed active nm tm hm routes evs :
  CalculateRoutes p lk now elapsed active nm tm hm = Ok (routes, evs) → keyed Prefix routes.
Proof. intros H. by destruct (spf_step_events _ _ _ _ (spf_run _ _ _ _ _ _ _ _ _ _ H)). Qed.

(** Every operation preserves the invariant. *)
Lemma run_manager_op_wf id d op : daemon_wf id d → daemon_wf id (run_manager_op d op).1.
Proof.
  intros Hd. destruct op; cbn [run_manager_op with_neigh with_hna with_molsr fst];
    try (apply with_hna_wf; [done|constructor]); try (apply with_molsr_wf; [done|by constructor]).
  - apply with_neigh_wf; [done|]. by apply step_hello.
  - apply with_neigh_wf; [done|]. apply step_age.
  - destruct Hd. split; try done. by apply topo_op_wf.
  - destruct (CalculateRoutes _ _ _ _ _ _ _ _) as [[routes evs]| | |] eqn:E; try done.
    destruct Hd. split; try done. by eapply calculated_keyed.
  - destruct Hd. split; try done. split; apply u16_range.
  - by destruct Hd.
Qed.

Lemma run_manager_ops_wf id d ops : daemon_wf id d → daemon_wf id (run_manager_ops d ops).1.
Proof. intros Hd. apply run_manager_ops_ind; [|done]. intros d' op _. apply run_manager_op_wf. Qed.

Lemma does_wf `{FloatConv} id d r : does d r → daemon_wf id d → daemon_wf id r.1.
Proof.
  intros (ops & E & _) Hd. change r.1 with ((r.1, published_of r.2).1). rewrite <-E.
  by apply run_manager_ops_wf.
Qed.
End invariant.
