(* ===== verification/RouteInputs.v ===== *)
(** * What the route calculation is told (cmd/olsrd/daemon.go, internal/olsr)

    The managers' operations announce their changes by events, on which the
    daemon calculates the routes anew.  An operation that publishes no such
    event leaves the inputs of the calculation alone, up to 2-hop neighbors and
    new asymmetric links. *)

From S2P Require Import Prelude GoNet TimeVal Packet Events Neighbor NeighborTables NeighborInvariant Topology Hna Heap Dijkstra Spf Molsr Config Daemon DaemonFacts DaemonOps.

(** The events on which [topologyUpdateLoop] calculates. *)
Definition triggers_spf (e : Event) : bool :=
  bool_decide (ev_Type e = EventNeighborUpdate) || bool_decide (ev_Type e = EventTopologyUpdate).

(** The state of the link to an address; no link counts as an asymmetric one. *)
Definition link_state (nm : NeighborManager) (a : string) : LinkState :=
  match links nm !! a with Some l => State l | None => LinkStateAsymmetric end.

(** The same links, topology tuples and gateways, whatever their times. *)
Record same_inputs (d d' : Daemon) : Prop := {
  si_links a : link_state (neighMgr d) a = link_state (neighMgr d') a;
  si_topology dst last : is_Some (topo_at (topology (topoMgr d)) dst last) ↔ is_Some (topo_at (topology (topoMgr d')) dst last);
  si_gateways cidr gw : is_Some (hna_at (hnaSet (hnaMgr d)) cidr gw) ↔ is_Some (hna_at (hnaSet (hnaMgr d')) cidr gw);
}.

#[export] Instance same_inputs_equivalence : Equivalence same_inputs.
Proof.
  split.
  - by intros d.
  - intros d d' [H1 H2 H3]. split; intros; [by rewrite H1|by rewrite H2|by rewrite H3].
  - intros d d' d'' [H1 H2 H3] [H1' H2' H3']. split; intros; [by rewrite H1|by rewrite H2|by rewrite H3].
Qed.

Section inputs.
Context {MO : MapOrder}.

(** Only these three parts of the state count. *)
Lemma same_inputs_parts d d' :
  (∀ a, link_state (neighMgr d) a = link_state (neighMgr d') a) → topology (topoMgr d) = topology (topoMgr d') →
  hnaSet (hnaMgr d) = hnaSet (hnaMgr d') → same_inputs d d'.
Proof. intros H1 H2 H3. split; [done|..]; intros; by rewrite ?H2, ?H3. Qed.

Lemma hello_quiet_links nm nm1 s o hello exp heard a :
  hello_effect nm nm1 s o hello exp heard → link_flips nm s heard = false → link_state nm a = link_state nm1 a.
Proof.
  intros Heff Hf. unfold link_state. rewrite (he_links _ _ _ _ _ _ _ Heff).
  destruct (decide (s = a)) as [<-|Hne]; [|by rewrite lookup_insert_ne].
  rewrite lookup_insert_eq. unfold hello_link, link_flips in *. destruct (links nm !! s) as [l|]; simpl.
  - apply bool_decide_eq_false, dec_stable in Hf. rewrite Hf. by destruct heard.
  - by rewrite Hf.
Qed.

Lemma aged_quiet_links now nm nm1 a : aged now nm nm1 → ¬ something_expires now nm → link_state nm a = link_state nm1 a.
Proof.
  intros Hag Hq. unfold link_state. rewrite (aged_links _ _ _ Hag), lookup_fmap.
  destruct (links nm !! a) as [l|] eqn:E; simpl; [|done]. unfold aged_link.
  destruct (After now (link_ExpirationTime l)) eqn:Ea; [|done].
  destruct (decide (State l = LinkStateLost)) as [El|Hl]; [done|].
  destruct Hq. left. exists a. unfold lost_in. rewrite E, Ea. by rewrite bool_decide_true.
Qed.

Lemma tc_quiet_topology now tm orig tc vtime dst last : (ProcessTC now tm orig tc vtime).2 = [] →
  is_Some (topo_at (topology tm) dst last) ↔ is_Some (topo_at (topology (ProcessTC now tm orig tc vtime).1) dst last).
Proof.
  unfold ProcessTC.
  destruct (tc_fold_spec (IP_String orig) (ANSN tc) (now + vtime) (tc_NeighborAddresses tc) (topology tm) false) as [H1 H2].
  destruct (foldl _ _ _) as [topo u]. cbn [fst snd] in *. intros Hno. destruct u; [done|]. cbn [topology]. rewrite H1.
  case_decide as Hd; [|done]. destruct Hd as [-> (a & -> & Ha)%list_elem_of_fmap].
  rewrite orb_false_l in H2. symmetry in H2.
  assert (tc_updates (ANSN tc) (topo_at (topology tm) (IP_String a) (IP_String orig)) = false) as Hu.
  { destruct (tc_updates _ _) eqn:E; [|done]. rewrite <-H2. symmetry. apply existsb_exists. exists a.
    split; [by apply list_elem_of_In|done]. }
  destruct (topo_at _ _ _) as [t|]; simpl in *; [|done]. split; intros _; by eexists.
Qed.

(** An operation announces a change of the inputs, or makes none. *)
Definition announces (d : Daemon) (r : Daemon * list Event) : Prop := existsb triggers_spf r.2 = true ∨ same_inputs d r.1.

Lemma hello_announces d p now now' sender orig hello vtime :
  announces d (with_neigh d (ProcessHello p now now' (neighMgr d) sender orig hello vtime)).
Proof.
  destruct (ProcessHello_effect p now now' (neighMgr d) sender orig hello vtime) as (nm1 & heard & _ & Heff & _ & ->).
  destruct (link_flips _ _ _) eqn:Ef; [by left|]. right. apply same_inputs_parts; try done.
  intros a. by eapply hello_quiet_links.
Qed.

Lemma neighbor_age_announces d p now now' : announces d (with_neigh d (Neighbor.AgeOut p now now' (neighMgr d)).1).
Proof.
  destruct (AgeOut_aged p now now' (neighMgr d)) as (nm1 & c & Hag & _ & Hc & ->).
  destruct c; [by left|]. right. apply same_inputs_parts; try done.
  intros a. eapply aged_quiet_links; [done|]. intros H%Hc. done.
Qed.

Lemma topology_announces d op :
  announces d (set_topoMgr d (run_op (topoMgr d) op), topo_events (topoMgr d) op).
Proof.
  destruct op as [now o s v|now o tc v|now o mid v|p now]; cbn [run_op topo_events].
  - right. by apply same_inputs_parts.
  - unfold announces. cbn [fst snd]. destruct (ProcessTC now (topoMgr d) o tc v).2 as [|e evs] eqn:E.
    + right. split; [done| |done]. intros dst last. by apply tc_quiet_topology.
    + left. unfold ProcessTC in E. destruct (foldl _ _ _) as [topo u]. cbn [fst snd] in E. by destruct u; simplify_eq.
  - by left.
  - pose proof (topology_AgeOut_spec p now (topoMgr d)) as H. unfold announces. cbn [fst snd].
    destruct (Topology.AgeOut p now (topoMgr d)) as [[tm' evs] c]. cbn [fst snd].
    destruct H as (H1 & _ & _ & _ & Hc & ->). destruct c; [by left|]. right. split; [done| |done].
    intros dst last. cbn [topoMgr set_topoMgr]. split.
    + intros [t Ht]. exists t. apply H1. split; [done|].
      destruct (Z.le_gt_cases now (topo_ExpirationTime t)); [done|].
      assert (false = true) by (apply Hc; by exists dst, last, t). done.
    + intros [t [Ht _]%H1]. by exists t.
Qed.

Lemma hna_announces d now orig hna vtime : announces d (with_hna d (ProcessHNA now (hnaMgr d) orig hna vtime)).
Proof.
  unfold ProcessHNA.
  destruct (hna_fold_spec (IP_String orig) (now + vtime) (Associations hna) (hnaSet (hnaMgr d)) false) as [H1 H2].
  destruct (foldl _ _ _) as [set u]. cbn [fst snd] in *. unfold announces, with_hna. cbn [fst snd].
  destruct u; [by left|]. right. split; [done|done|]. intros c g. cbn [hnaMgr set_hnaMgr hnaSet]. rewrite H1.
  unfold hna_result. destruct (find _ _) as [a|] eqn:Ef; [|done]. case_decide as Hg; [|done]. subst g.
  pose proof (find_some _ _ Ef) as [Hin Hc]. apply bool_decide_eq_true in Hc. subst c.
  assert (bool_decide (hna_at (hnaSet (hnaMgr d)) (IPNet_String (assoc_Netmask a)) (IP_String orig) = None) = false) as Hn.
  { destruct (bool_decide _) eqn:E; [|done]. rewrite orb_false_l in H2. symmetry in H2. rewrite <-H2. symmetry.
    apply existsb_exists. by exists a. }
  apply bool_decide_eq_false in Hn. split; [intros _; by eexists|intros _]. by apply not_eq_None_Some.
Qed.

Lemma hna_age_announces d p now : announces d (with_hna d (Hna.AgeOut p now (hnaMgr d)).1).
Proof.
  pose proof (hna_AgeOut_spec p now (hnaMgr d)) as H. unfold announces, with_hna.
  destruct (Hna.AgeOut p now (hnaMgr d)) as [[h' evs] c]. cbn [fst snd]. destruct H as (H1 & _ & Hc & ->).
  destruct c; [by left|]. right. split; [done|done|]. intros cidr gw. cbn [hnaMgr set_hnaMgr]. split.
  - intros [e He]. exists e. apply H1. split; [done|].
    destruct (Z.le_gt_cases now (hna_ExpirationTime e)); [done|].
    assert (false = true) by (apply Hc; by exists cidr, gw, e). done.
  - intros [e [He _]%H1]. by exists e.
Qed.

Lemma op_announces d op : handler_op op → announces d (run_manager_op d op).
Proof.
  destruct op; intros Hop; try done; cbn [run_manager_op];
    auto using hello_announces, neighbor_age_announces, topology_announces, hna_announces, hna_age_announces;
    right; by apply same_inputs_parts.
Qed.

Lemma ops_announce ops : ∀ d, Forall handler_op ops → announces d (run_manager_ops d ops).
Proof.
  induction ops as [|op ops IH]; intros d Hops; [by right|]. apply Forall_cons in Hops as [Hop Hops].
  pose proof (op_announces d op Hop) as H1. cbn [run_manager_ops]. destruct (run_manager_op d op) as [d1 e1].
  specialize (IH d1 Hops). destruct (run_manager_ops d1 ops) as [d2 e2]. unfold announces in *. cbn [fst snd] in *.
  rewrite existsb_app, orb_true_iff. destruct H1 as [H1|H1]; [tauto|]. destruct IH as [H2|H2]; [tauto|].
  right. by etrans.
Qed.
End inputs.
