(* ===== verification/Process.v ===== *)
(** * The daemon process (cmd/olsrd/main.go, daemon.go)

    The process around the handlers: its start, the loops of [run] with the
    events they take from the bus, signals and configuration reloads, requests
    of the API, the interface monitor, the datagrams a broadcast sends, the
    snapshots and the gauges.  A loop's turn is one step; which loop turns next
    is open. *)

From S2P Require Import Prelude GoNet GoStrings TimeVal Packet Events Neighbor Topology Hna Heap Dijkstra Spf Molsr Config Daemon DaemonFacts DaemonOps Monitor Api.

(** ** Broadcast *)

(** What the system answers about an interface's addresses ([None]: no such
    interface, or a failed query; an address that is no [*net.IPNet] is
    [None]), and whether a socket from an address can be opened. *)
Record Host := MkHost {
  InterfaceAddrs : string → option (list (option IPNet));
  dials : IP → bool;
}.

(** The first IPv4 address. *)
Fixpoint first_ipv4 (addrs : list (option IPNet)) : option IP :=
  match addrs with
  | [] => None
  | Some ipNet :: addrs => match To4 (net_IP ipNet) with Some _ => Some (net_IP ipNet) | None => first_ipv4 addrs end
  | None :: addrs => first_ipv4 addrs
  end.

(** The addresses the loop over the interfaces sends from. *)
Definition broadcast_addrs (h : Host) (cfg : Config) : list IP :=
  omap (λ name, addrs ← InterfaceAddrs h name; ip ← first_ipv4 addrs; if dials h ip then Some ip else None)
    (cfg_Interfaces cfg).

Definition datagrams (h : Host) (cfg : Config) (out : list Output) : list (IP * list Z) :=
  data ← sends out; (λ ip, (ip, data)) <$> broadcast_addrs h cfg.

(** ** Snapshots *)

Record TopologySnapshot := MkTopologySnapshot {
  ts_Timestamp : Z;
  ts_Topology : list TopologyTuple;
  ts_MIDMap : gmap string (list string);
}.

Record RouteSnapshot := MkRouteSnapshot {
  rs_Timestamp : Z;
  rs_Unicast : list Route;
  rs_Multicast : list MulticastForwardingEntry;
}.

Inductive Snapshot := SnapTopology (s : TopologySnapshot) | SnapRoutes (s : RouteSnapshot).

(** ** Gauges *)

Record Gauges := MkGauges {
  NeighborTotal : Z;
  NeighborSymmetricTotal : Z;
  SPFRunsTotal : Z;
  SPFDurationSeconds : float64;
  RouteCount : Z;
  ZapiConnected : Z;
}.

(** The loop body of [spfExecutionMetricsLoop]: a payload that is a map must
    hold the duration and the count. *)
Definition spf_metrics (g : Gauges) (e : Event) : res Gauges :=
  match ev_Data e with
  | DataString _ => Ok g
  | DataSPF duration route_count =>
      Ok (MkGauges (NeighborTotal g) (NeighborSymmetricTotal g) (SPFRunsTotal g + 1) duration route_count (ZapiConnected g))
  | _ => Panic
  end.

(** The status branch of [routeInstallationLoop]. *)
Definition zapi_metrics (g : Gauges) (e : Event) : Gauges :=
  match ev_Data e with
  | DataStatus status =>
      let set x := MkGauges (NeighborTotal g) (NeighborSymmetricTotal g) (SPFRunsTotal g) (SPFDurationSeconds g) (RouteCount g) x in
      if bool_decide (status = "connected") then set 1
      else if bool_decide (status = "disconnected") then set 0 else g
  | _ => g
  end.

(** ** The process *)

(** The subscriptions of [run]. *)
Definition subscribed : list EventType :=
  [EventRouteInstall; EventNeighborUpdate; EventTopologyUpdate; EventSPFTrigger].

Record Process := MkProcess {
  pr_mgr : Config.Manager;                    (* cfgMgr *)
  pr_run_cfg : Config;                        (* the configuration [run] reads *)
  pr_api : APIServer;                         (* with the managers and the monitor *)
  pr_queues : gmap EventType (list Event);    (* the buffers of the subscriptions *)
  pr_lost : bool;                             (* an event found no room in its buffer *)
  pr_done : bool;                             (* d.ctx is cancelled *)
  pr_gauges : Gauges;
}.

Definition pr_daemon (pr : Process) : Daemon := api_daemon (pr_api pr).

Definition set_api (pr : Process) (s : APIServer) : Process :=
  MkProcess (pr_mgr pr) (pr_run_cfg pr) s (pr_queues pr) (pr_lost pr) (pr_done pr) (pr_gauges pr).
Definition set_pr_daemon (pr : Process) (d : Daemon) : Process := set_api pr (set_daemon (pr_api pr) d []).
Definition set_queues (pr : Process) (q : gmap EventType (list Event)) : Process :=
  MkProcess (pr_mgr pr) (pr_run_cfg pr) (pr_api pr) q (pr_lost pr) (pr_done pr) (pr_gauges pr).
Definition set_gauges (pr : Process) (g : Gauges) : Process :=
  MkProcess (pr_mgr pr) (pr_run_cfg pr) (pr_api pr) (pr_queues pr) (pr_lost pr) (pr_done pr) g.
Definition set_mgr (pr : Process) (m : Config.Manager) : Process :=
  MkProcess m (pr_run_cfg pr) (pr_api pr) (pr_queues pr) (pr_lost pr) (pr_done pr) (pr_gauges pr).
Definition set_lost (pr : Process) (b : bool) : Process :=
  MkProcess (pr_mgr pr) (pr_run_cfg pr) (pr_api pr) (pr_queues pr) b (pr_done pr) (pr_gauges pr).
Definition set_done (pr : Process) (b : bool) : Process :=
  MkProcess (pr_mgr pr) (pr_run_cfg pr) (pr_api pr) (pr_queues pr) (pr_lost pr) b (pr_gauges pr).

(** An event goes to the subscription of its type, if there is one; [full] tells
    whether the buffer stays full until the send gives up. *)
Definition publish1 (full : Event → bool) (pr : Process) (e : Event) : Process :=
  match pr_queues pr !! ev_Type e with
  | None => pr
  | Some l => if full e then set_lost pr true else set_queues pr (<[ev_Type e := l ++ [e]]> (pr_queues pr))
  end.

Definition publish (full : Event → bool) (evs : list Event) (pr : Process) : Process := foldl (publish1 full) pr evs.

(** What a handler of the daemon leaves, with its events delivered. *)
Definition handled (full : Event → bool) (r : Daemon * list Output) (pr : Process) : Process :=
  publish full (published_of r.2) (set_pr_daemon pr r.1).

(** What the process does to the outside. *)
Inductive ProcOut :=
  | Datagram (from : IP) (data : list Z)
  | WroteFile (path : string) (s : Snapshot)
  | Called (c : RouterCall)
  | Answered (resp : option Response).

Section process.
Context {MO : MapOrder} {FC : FloatConv} {GF : GoFold} {U : GoUnicode} {J : Jwt}.

Definition datagram_outs (h : Host) (pr : Process) (out : list Output) : list ProcOut :=
  (λ d, Datagram d.1 d.2) <$> datagrams h (d_cfg (pr_daemon pr)) out.

Definition saveSnapshots (clock : list positive → Z) (p : list positive) (d : Daemon) : list ProcOut :=
  [WroteFile "/var/lib/olsrd/topology_snapshot.json"
     (SnapTopology (MkTopologySnapshot (clock (1%positive :: p)) (GetTopology (2%positive :: p) (topoMgr d))
        (GetMIDMap (3%positive :: p) (topoMgr d))));
   WroteFile "/var/lib/olsrd/route_snapshot.json"
     (SnapRoutes (MkRouteSnapshot (clock (4%positive :: p)) (GetRoutes (5%positive :: p) (activeRoutes d))
        (GetActiveMFC (6%positive :: p) (molsrMgr d))))].

(** The two gauges of [performAging]. *)
Definition aging_metrics (p : list positive) (d : Daemon) (g : Gauges) : Gauges :=
  let neighs := GetNeighbors p (neighMgr d) in
  MkGauges (Z.of_nat (length neighs)) (Z.of_nat (length (filter (λ n, Symmetric n = true) neighs)))
    (SPFRunsTotal g) (SPFDurationSeconds g) (RouteCount g) (ZapiConnected g).

(** ** The loops *)

Inductive Ticker := HelloTicker | TCTicker | HNATicker | AgingTicker | SnapshotTicker.

(** The periods of the tickers, from the configuration [run] reads. *)
Definition ticker_period (cfg : Config) (t : Ticker) : Z :=
  match t with
  | HelloTicker => HelloInterval cfg
  | TCTicker | HNATicker => TCInterval cfg
  | AgingTicker => 500 * Millisecond
  | SnapshotTicker => 10 * Second
  end.

(** What a tick runs. *)
Definition tick_handler (clock : list positive → Z) (p : list positive) (t : Ticker) (d : Daemon) : Daemon * list Output :=
  match t with
  | HelloTicker => sendHello p d
  | TCTicker => sendTC p (clock p) d
  | HNATicker => sendHNA p d
  | AgingTicker => performAging clock p d
  | SnapshotTicker => (d, [])
  end.

Definition tick_gauges (p : list positive) (t : Ticker) (pr : Process) : Process :=
  match t with AgingTicker => set_gauges pr (aging_metrics p (pr_daemon pr) (pr_gauges pr)) | _ => pr end.

Definition tick_files (clock : list positive → Z) (p : list positive) (t : Ticker) (d : Daemon) : list ProcOut :=
  match t with SnapshotTicker => saveSnapshots clock p d | _ => [] end.

Definition on_tick (h : Host) (full : Event → bool) (clock : list positive → Z) (p : list positive) (t : Ticker)
    (pr : Process) : Process * list ProcOut :=
  let r := tick_handler clock p t (pr_daemon pr) in
  (tick_gauges (6%positive :: p) t (handled full r pr),
   datagram_outs h pr r.2 ++ tick_files clock p t (pr_daemon pr)).

(** The monitor as the daemon's lookups see it. *)
Definition monitor_view (p : list positive) (m : InterfaceMonitor) : Daemon.Monitor :=
  MkMonitor ((λ i, (ii_Name i, ii_IPs i)) <$> mon_GetInterfaces p m) (mon_GetIfaceIndex m).

Definition on_topology_event (full : Event → bool) (clock : list positive → Z) (p : list positive) (elapsed : Z)
    (pr : Process) : Process :=
  handled full (runSpf clock p (monitor_view (3%positive :: p) (api_monitor (pr_api pr))) elapsed (pr_daemon pr)) pr.

Definition on_route_event (p : list positive) (e : Event) (pr : Process) : Process * list ProcOut :=
  (set_gauges pr (zapi_metrics (pr_gauges pr) e), Called <$> routeInstallation p (activeRoutes (pr_daemon pr)) e).

(** A request; what it published is delivered. *)
Definition on_request (full : Event → bool) (clock : list positive → Z) (p : list positive) (r : Request) (pr : Process)
    : Process * list ProcOut :=
  let s := pr_api pr in
  let '(s', resp) := serve clock p r (MkAPIServer (api_daemon s) (api_monitor s) (api_zapi s) (rateLimits s) (audit s) []) in
  (publish full (published s') (set_api pr s'), [Answered resp]).

(** SIGHUP; [read] and [unmarshal] are the file and the decoder at that time. *)
Definition on_hup {Data} (read : string → res Data) (unmarshal : Data → Config → res Config) (pr : Process) : Process :=
  let '(m, _) := Reload read unmarshal (pr_mgr pr) in set_pr_daemon (set_mgr pr m) (set_cfg (pr_daemon pr) (Get m)).

(** An update of the interfaces, on Linux. *)
Definition on_link_update (full : Event → bool) (u : NetlinkUpdate) (links : option (list NetLink)) (pr : Process) : Process :=
  let s := pr_api pr in
  let '(m, evs) := linux_update u links (api_monitor s) in
  publish full evs (set_api pr (MkAPIServer (api_daemon s) m (api_zapi s) (rateLimits s) (audit s) (published s))).

(** The Zebra client connects or disconnects. *)
Definition on_zapi (full : Event → bool) (up : bool) (pr : Process) : Process :=
  let s := pr_api pr in
  match api_zapi s with
  | None => pr
  | Some _ =>
      publish full [MkEvent EventRouteInstall (DataStatus (if up then "connected" else "disconnected"))]
        (set_api pr (MkAPIServer (api_daemon s) (api_monitor s) (Some up) (rateLimits s) (audit s) (published s)))
  end.

(** One turn of a loop other than [topologyUpdateLoop], a signal, a request, or a
    change outside. *)
Inductive loop_step (pr : Process) : Process → list ProcOut → Prop :=
  | st_tick h full clock p t : loop_step pr (on_tick h full clock p t pr).1 (on_tick h full clock p t pr).2
  | st_frame h full clock p data raddr r : Forall is_u8 data →
      processReceivedData clock p (pr_daemon pr) data raddr = Ok r →
      loop_step pr (handled full r pr) (datagram_outs h pr r.2)
  | st_route p e l : pr_queues pr !! EventRouteInstall = Some (e :: l) →
      loop_step pr (on_route_event p e (set_queues pr (<[EventRouteInstall := l]> (pr_queues pr)))).1
        (on_route_event p e (set_queues pr (<[EventRouteInstall := l]> (pr_queues pr)))).2
  | st_metrics e l g : pr_queues pr !! EventSPFTrigger = Some (e :: l) → spf_metrics (pr_gauges pr) e = Ok g →
      loop_step pr (set_gauges (set_queues pr (<[EventSPFTrigger := l]> (pr_queues pr))) g) []
  | st_request full clock p r : loop_step pr (on_request full clock p r pr).1 (on_request full clock p r pr).2
  | st_hup {Data} (read : string → res Data) unmarshal :
      pr_done pr = false → loop_step pr (on_hup read unmarshal pr) []
  | st_term : pr_done pr = false → loop_step pr (set_done pr true) []
  | st_link full u links : loop_step pr (on_link_update full u links pr) []
  | st_zapi full up : loop_step pr (on_zapi full up pr) [].

(** Any of these, or a turn of [topologyUpdateLoop] taken in one go. *)
Inductive process_step (pr : Process) : Process → list ProcOut → Prop :=
  | st_loop pr' out : loop_step pr pr' out → process_step pr pr' out
  | st_topology full clock p elapsed ty e l :
      ty = EventNeighborUpdate ∨ ty = EventTopologyUpdate → pr_queues pr !! ty = Some (e :: l) →
      process_step pr (on_topology_event full clock p elapsed (set_queues pr (<[ty := l]> (pr_queues pr)))) [].

(** ** The start *)

Definition NewAPIServer (d : Daemon) (zapi : option bool) : APIServer := MkAPIServer d NewMonitor zapi ∅ [] [].

(** [main] after the flags: an exit code, or the process when [run] has
    subscribed.  The first HELLO is a tick. *)
Definition main {Data} (read : string → res Data) (unmarshal : Data → Config → res Config) (path : string)
    (checkConfig standalone : bool) : Z + Process :=
  if checkConfig then inl (match ValidateFile read unmarshal path with Ok _ => 0 | _ => 1 end)
  else
    match Load read unmarshal (NewManager path) with
    | (m, Ok _) =>
        let cfg := Get m in
        let zapi := if standalone || cfg_Standalone cfg then None else Some false in
        inr (MkProcess m cfg (NewAPIServer (initializeComponents cfg (monitor_view [] NewMonitor)) zapi)
               (gset_to_gmap [] (list_to_set subscribed)) false false (MkGauges 0 0 0 (float_of_int 0) 0 0))
    | _ => inl 1
    end.

(** The states of the processes that start. *)
Definition process_reachable (pr : Process) : Prop :=
  ∃ Data (read : string → res Data) unmarshal path standalone init,
    main read unmarshal path false standalone = inr init ∧ rtc (λ s s', ∃ out, process_step s s' out) init pr.
End process.
