(* ===== verification/ProcessFacts.v ===== *)
(** * What the process publishes and changes (cmd/olsrd, internal/api)

    Every event has the payload its subscribers expect; a request changes the
    daemon by operations of its managers; events are delivered to the buffer of
    their type, or lost. *)

From S2P Require Import Prelude GoNet GoStrings TimeVal Packet Events DiffSync Neighbor NeighborTables NeighborInvariant Topology Hna Heap Dijkstra Spf SpfRoutes SpfSync Molsr MolsrFacts Config Daemon DaemonFacts LinkSensing DaemonOps DaemonInvariant RouteInputs Monitor Api ApiFacts Process.

#[local] Opaque EncodeTimeVal DecodeTimeVal.

(** ** The types of events *)

(** The payload that the subscribers of an event's type expect. *)
Definition event_typed (e : Event) : Prop :=
  (ev_Type e = EventRouteInstall ∧
     match ev_Data e with
     | DataRoute act _ => act = "add" ∨ act = "delete"
     | DataMulticast act _ => act = "add_multicast" ∨ act = "delete_multicast"
     | DataStatus st => st = "connected" ∨ st = "disconnected"
     | _ => False
     end) ∨
  ((ev_Type e = EventNeighborUpdate ∨ ev_Type e = EventTopologyUpdate ∨ ev_Type e = EventInterfaceUpdate) ∧
     ∃ s, ev_Data e = DataString s) ∨
  (ev_Type e = EventSPFTrigger ∧ ∃ dur n, ev_Data e = DataSPF dur n).

Lemma typed_string ty s : ty = EventNeighborUpdate ∨ ty = EventTopologyUpdate ∨ ty = EventInterfaceUpdate →
  event_typed (MkEvent ty (DataString s)).
Proof. intros Hty. right. left. split; [done|]. by eexists. Qed.

Lemma typed_route act r : act = "add" ∨ act = "delete" → event_typed (MkEvent EventRouteInstall (DataRoute act r)).
Proof. intros H. by left. Qed.
Lemma typed_multicast act m : act = "add_multicast" ∨ act = "delete_multicast" →
  event_typed (MkEvent EventRouteInstall (DataMulticast act m)).
Proof. intros H. by left. Qed.

Lemma typed_hna s : event_typed (topology_event s).
Proof. apply typed_string. tauto. Qed.
Lemma typed_molsr s : event_typed (molsr_event s).
Proof. apply typed_string. tauto. Qed.

Create HintDb typed.
#[export] Hint Resolve typed_hna typed_molsr typed_string typed_route typed_multicast : typed.
#[export] Hint Constructors or : typed.

Section events.
Context {MO : MapOrder}.

Lemma Forall_singleton_typed e : event_typed e → Forall event_typed [e].
Proof. intros He. apply Forall_cons_2; [done|apply Forall_nil_2]. Qed.

Lemma Forall_omap {A} (f : A → option Event) l : (∀ x e, f x = Some e → event_typed e) → Forall event_typed (omap f l).
Proof.
  intros Hf. apply Forall_forall. intros e (x & _ & Hx)%list_elem_of_omap. by eapply Hf.
Qed.

Lemma diff_typed p active new : Forall event_typed (diffAndPublishRoutes p active new).
Proof.
  unfold diffAndPublishRoutes. apply Forall_app. split; apply Forall_omap; intros [k r] e; cbn [fst snd].
  - destruct (new !! k); [|intros [= <-]; auto with typed]. destruct (_ || _); [|done]. intros [= <-]; auto with typed.
  - destruct (active !! k); [done|]. intros [= <-]; auto with typed.
Qed.

Lemma sync_typed p active new : Forall event_typed (syncMFCRoutes p active new).
Proof.
  unfold syncMFCRoutes. apply Forall_app. split; apply Forall_omap; intros [k m] e; cbn [fst snd].
  - destruct (new !! k); [|intros [= <-]; auto with typed]. destruct (mfc_changed _ _); [|done]. intros [= <-]; auto with typed.
  - destruct (active !! k); [done|]. intros [= <-]; auto with typed.
Qed.

Lemma op_events_typed d op : Forall event_typed (run_manager_op d op).2.
Proof.
  destruct op as [p now now' sender orig hello vtime|p now now'|op|now orig hna vtime|n|n|p now|now orig sc vtime
    |now orig cp vtime|now src grp dur|src grp|now src grp parent child dur|src grp child|p now|p mon now elapsed|p| |cfg];
    cbn [run_manager_op with_neigh with_hna with_molsr snd];
    try (apply Forall_singleton_typed; auto with typed; fail); try apply Forall_nil_2.
  - destruct (ProcessHello_effect p now now' (neighMgr d) sender orig hello vtime) as (nm1 & heard & _ & _ & _ & ->).
    destruct (link_flips _ _ _); cbn [snd]; [apply Forall_singleton_typed; auto with typed|apply Forall_nil_2].
  - destruct (AgeOut_aged p now now' (neighMgr d)) as (nm1 & c & _ & _ & _ & ->).
    destruct c; cbn [fst snd]; [apply Forall_singleton_typed; auto with typed|apply Forall_nil_2].
  - destruct op as [? ? ? ?|now o tc v|? o mid v|p now]; cbn [topo_events]; [apply Forall_nil_2| | |].
    + unfold ProcessTC. destruct (foldl _ _ _) as [topo u]. cbn [snd].
      destruct u; [apply Forall_singleton_typed; auto with typed|apply Forall_nil_2].
    + apply Forall_singleton_typed; auto with typed.
    + unfold Topology.AgeOut. destruct (range_update _ _ (topology _)) as [topo c]. destruct (range_update _ _ (duplicates _)).
      cbn [fst snd]. destruct c; [apply Forall_singleton_typed; auto with typed|apply Forall_nil_2].
  - unfold ProcessHNA. destruct (foldl _ _ _) as [set u]. cbn [snd].
    destruct u; [apply Forall_singleton_typed; auto with typed|apply Forall_nil_2].
  - unfold Hna.AgeOut. destruct (range_update _ _ _) as [set c]. cbn [fst snd].
    destruct c; [apply Forall_singleton_typed; auto with typed|apply Forall_nil_2].
  - unfold ProcessConfirmParent. case_bool_decide; cbn [snd];
      [apply Forall_nil_2|apply Forall_singleton_typed; auto with typed].
  - unfold Molsr.AgeOut. destruct (range_update _ _ (sourceClaims _)) as [? c1]. destruct (range_update _ _ (confirmParents _)) as [? c2].
    cbn [fst snd]. destruct (c1 || c2); [apply Forall_singleton_typed; auto with typed|apply Forall_nil_2].
  - destruct (CalculateRoutes _ _ _ _ _ _ _ _) as [[routes evs]| | |] eqn:E; cbn [snd]; try apply Forall_nil_2.
    unfold CalculateRoutes in E. destruct (check _ _); simplify_eq/=.
    destruct (computeRoutes _ _ _ _ _ _); simplify_eq/=. apply Forall_app. split; [apply diff_typed|].
    apply Forall_singleton_typed. right. right. split; [done|]. by eexists _, _.
  - unfold RecalculateMroutes. destruct (MOLSR_IfaceIndexLookup _); cbn [snd]; [apply sync_typed|apply Forall_nil_2].
Qed.

Lemma ops_events_typed ops : ∀ d, Forall event_typed (run_manager_ops d ops).2.
Proof.
  induction ops as [|op ops IH]; intros d; cbn [run_manager_ops]; [apply Forall_nil_2|].
  pose proof (op_events_typed d op) as H1. destruct (run_manager_op d op) as [d1 e1]. specialize (IH d1).
  destruct (run_manager_ops d1 ops) as [d2 e2]. by apply Forall_app.
Qed.
End events.

(** ** Requests *)

Section requests.
Context {MO : MapOrder} {GF : GoFold} {U : GoUnicode} {J : Jwt} (clock : list positive → Z).

(** The server's state changes by operations of the managers. *)
Definition api_ops (s s' : APIServer) : Prop :=
  ∃ ops, Forall handler_op ops ∧
    run_manager_ops (api_daemon s) ops = (api_daemon s', drop (length (published s)) (published s')) ∧
    published s' = published s ++ drop (length (published s)) (published s') ∧ api_monitor s' = api_monitor s.

Lemma api_ops_untouched s s' : untouched s s' → api_ops s s'.
Proof. intros (E1 & E2 & E3 & _). exists []. rewrite E1, E2, E3, drop_all, app_nil_r. by split_and!. Qed.

Lemma api_ops_step s op d evs : handler_op op → run_manager_op (api_daemon s) op = (d, evs) →
  api_ops s (set_daemon s d evs).
Proof.
  intros Hop E. exists [op]. split; [by apply Forall_cons_2; [|apply Forall_nil_2]|]. cbn [run_manager_ops]. rewrite E. cbn.
  by rewrite drop_app_length, app_nil_r.
Qed.

Lemma api_ops_compat s s1 s2 s' : untouched s s1 → api_ops s1 s2 → untouched s2 s' → api_ops s s'.
Proof.
  intros (E1 & E2 & E3 & _) (ops & Ho & Er & Ep & Em) (F1 & F2 & F3 & _). exists ops.
  rewrite F1, F2, F3, <-E1, <-E2, <-E3. by split_and!.
Qed.

Definition runs_ops (h : Request → APIServer → APIServer * Response) : Prop := ∀ r s, api_ops s (h r s).1.

Lemma handleHNA_ops p : runs_ops (handleHNA p).
Proof.
  intros r s. unfold handleHNA. case_bool_decide; [by apply api_ops_untouched|].
  assert (∀ f mk code msg, (∀ d n, handler_op (mk n) ∧ run_manager_op d (mk n) = with_hna d (f (hnaMgr d) n)) →
    api_ops s (on_hna f code msg r s).1) as Hh.
  { intros f mk code msg Hmk. unfold on_hna. destruct (hnaPayload _) as [prefix|]; [|by apply api_ops_untouched].
    destruct (ParseCIDR prefix) as [[ip net]|]; [|by apply api_ops_untouched].
    destruct (Hmk (api_daemon s) net) as [Hop E]. unfold with_hna in E.
    destruct (f _ net) as [hm evs]. by eapply api_ops_step. }
  case_bool_decide; [by apply (Hh AddLocalHNA OpAddHNA)|].
  case_bool_decide; [by apply (Hh RemoveLocalHNA OpRemoveHNA)|by apply api_ops_untouched].
Qed.

Lemma handleSourceClaims_ops p : runs_ops (handleSourceClaims clock p).
Proof.
  intros r s. unfold handleSourceClaims. case_bool_decide; [by apply api_ops_untouched|].
  case_bool_decide.
  { destruct (decode_source_claim _) as [pl|]; [|by apply api_ops_untouched]. destruct (_ || _); [by apply api_ops_untouched|].
    by apply (api_ops_step _ (OpAddClaim (clock p) (sc_Source pl) (sc_Group pl) (claim_duration (sc_DurationSeconds pl)))). }
  case_bool_decide; [|by apply api_ops_untouched].
  destruct (decode_source_claim _) as [pl|]; [|by apply api_ops_untouched].
  by apply (api_ops_step _ (OpDeleteClaim (sc_Source pl) (sc_Group pl))).
Qed.

Lemma handleConfirmParents_ops p : runs_ops (handleConfirmParents clock p).
Proof.
  intros r s. unfold handleConfirmParents. case_bool_decide; [by apply api_ops_untouched|].
  case_bool_decide.
  { destruct (decode_confirm_parent _) as [pl|]; [|by apply api_ops_untouched]. destruct (_ || _); [by apply api_ops_untouched|].
    by apply (api_ops_step _ (OpAddConfirm (clock p) (cp_Source pl) (cp_Group pl) (cp_Parent pl) (cp_Child pl)
      (claim_duration (cp_DurationSeconds pl)))). }
  case_bool_decide; [|by apply api_ops_untouched].
  destruct (decode_confirm_parent _) as [pl|]; [|by apply api_ops_untouched].
  by apply (api_ops_step _ (OpDeleteConfirm (cp_Source pl) (cp_Group pl) (cp_Child pl))).
Qed.

Lemma secured_handlers_ops i path h p : list_find (λ ph, ph.1 = path) (secured_handlers clock) = Some (i, (path, h)) →
  runs_ops (h p).
Proof.
  intros (Hin%list_elem_of_lookup_2 & _ & _)%list_find_Some. unfold secured_handlers in Hin.
  repeat (apply elem_of_cons in Hin as [[= -> ->]|Hin]; [first
    [ apply handleHNA_ops | apply handleSourceClaims_ops | apply handleConfirmParents_ops
    | intros r s; apply api_ops_untouched, get_only_untouched ]|]).
  by apply not_elem_of_nil in Hin.
Qed.

Lemma serve_ops p r s : api_ops s (serve clock p r s).1.
Proof.
  unfold serve. case_bool_decide; [by apply api_ops_untouched|].
  case_bool_decide; [unfold handleReadyz; destruct (_ || _); by apply api_ops_untouched|].
  destruct (list_find _ (secured_handlers clock)) as [[i [path h]]|] eqn:E; [|by apply api_ops_untouched].
  pose proof E as (_ & Epath & _)%list_find_Some. simpl in Epath. subst path.
  pose proof (secured_cases clock p h r s) as Hc. destruct (secured clock p h r s) as [s' resp]. cbn [fst prod_map].
  destruct Hc as [(Hu & _)|(_ & s1 & u & Hu1 & Hu2 & _)]; [by apply api_ops_untouched|].
  eapply api_ops_compat; [exact Hu1| |exact Hu2]. by eapply secured_handlers_ops.
Qed.
End requests.

(** ** Delivery *)

(** The buffers of the subscriptions hold typed events of their own type. *)
Record queues_ok (q : gmap EventType (list Event)) : Prop := {
  qo_subscribed ty : is_Some (q !! ty) ↔ ty ∈ subscribed;
  qo_typed ty l : q !! ty = Some l → Forall (λ e, ev_Type e = ty ∧ event_typed e) l;
}.

(** A trigger waits in a buffer, or one was lost. *)
Definition pending (pr : Process) : Prop :=
  pr_lost pr = true ∨
  ∃ ty e l, (ty = EventNeighborUpdate ∨ ty = EventTopologyUpdate) ∧ pr_queues pr !! ty = Some (e :: l).

Lemma publish1_frame full pr e : let pr' := publish1 full pr e in
  pr_mgr pr' = pr_mgr pr ∧ pr_run_cfg pr' = pr_run_cfg pr ∧ pr_api pr' = pr_api pr ∧ pr_done pr' = pr_done pr.
Proof. unfold publish1. destruct (pr_queues pr !! _); [|done]. by destruct (full e). Qed.

Lemma publish_frame full evs : ∀ pr, let pr' := publish full evs pr in
  pr_mgr pr' = pr_mgr pr ∧ pr_run_cfg pr' = pr_run_cfg pr ∧ pr_api pr' = pr_api pr ∧ pr_done pr' = pr_done pr.
Proof.
  induction evs as [|e evs IH]; intros pr; [done|]. cbn [publish foldl]. cbv zeta.
  destruct (publish1_frame full pr e) as (E1 & E2 & E3 & E4).
  destruct (IH (publish1 full pr e)) as (F1 & F2 & F3 & F4). unfold publish in *. by rewrite F1, F2, F3, F4, E1, E2, E3, E4.
Qed.

Lemma queues_ok_insert q ty l l' : queues_ok q → q !! ty = Some l →
  Forall (λ e, ev_Type e = ty ∧ event_typed e) l' → queues_ok (<[ty := l']> q).
Proof.
  intros [Hs Ht] Hq Hl. split.
  - intros ty'. rewrite <-Hs, lookup_insert_is_Some'. split; [|tauto]. intros [<-|H]; [by eexists|done].
  - intros ty' k [[<- <-]|[_ H]]%lookup_insert_Some; [done|by apply Ht].
Qed.

Lemma publish1_queues full pr e : queues_ok (pr_queues pr) → event_typed e → queues_ok (pr_queues (publish1 full pr e)).
Proof.
  intros Hq He. unfold publish1. destruct (pr_queues pr !! _) as [l|] eqn:E; [|done]. destruct (full e); [done|].
  eapply queues_ok_insert; [done|done|]. apply Forall_app. split; [by apply (qo_typed _ Hq)|].
  by apply Forall_cons_2; [|apply Forall_nil_2].
Qed.

Lemma publish_queues full evs : ∀ pr, queues_ok (pr_queues pr) → Forall event_typed evs →
  queues_ok (pr_queues (publish full evs pr)).
Proof.
  induction evs as [|e evs IH]; intros pr Hq He; [done|]. apply Forall_cons in He as [He Hes].
  apply IH; [|done]. by apply publish1_queues.
Qed.

Lemma publish1_pending full pr e : pending pr → pending (publish1 full pr e).
Proof.
  intros Hp. unfold publish1. destruct (pr_queues pr !! ev_Type e) as [q|] eqn:E; [|done].
  destruct (full e); [by left|]. destruct Hp as [Hl|(ty & e0 & l & Hty & Hq)]; [by left|]. right. cbn [pr_queues set_queues].
  destruct (decide (ev_Type e = ty)) as [<-|Hne].
  - rewrite Hq in E. injection E as <-. exists (ev_Type e), e0, (l ++ [e]). by rewrite lookup_insert_eq.
  - exists ty, e0, l. by rewrite lookup_insert_ne.
Qed.

Lemma publish_pending full evs : ∀ pr, pending pr → pending (publish full evs pr).
Proof. induction evs as [|e evs IH]; intros pr Hp; [done|]. apply IH. by apply publish1_pending. Qed.

Lemma publish1_trigger full pr e : queues_ok (pr_queues pr) → triggers_spf e = true → pending (publish1 full pr e).
Proof.
  intros Hq [He|He]%orb_true_iff; apply bool_decide_eq_true in He;
    (destruct (proj2 (qo_subscribed _ Hq (ev_Type e))) as [q Hl]; [rewrite He; unfold subscribed; set_solver|]);
    unfold publish1; rewrite Hl; (destruct (full e); [by left|]); right; cbn [pr_queues set_queues].
  all: assert (∃ e0 l, q ++ [e] = e0 :: l) as (e0 & l & Ee) by (destruct q; simpl; by eexists _, _).
  all: exists (ev_Type e), e0, l; rewrite lookup_insert_eq, Ee; split; [by rewrite He; tauto|done].
Qed.

Lemma publish_trigger full evs : ∀ pr, queues_ok (pr_queues pr) → Forall event_typed evs →
  existsb triggers_spf evs = true → pending (publish full evs pr).
Proof.
  induction evs as [|e evs IH]; intros pr Hq Ht He; [done|]. apply Forall_cons in Ht as [Hte Ht].
  change (publish full (e :: evs) pr) with (publish full evs (publish1 full pr e)).
  apply orb_true_iff in He as [He|He]; [by apply publish_pending, publish1_trigger|].
  apply IH; [by apply publish1_queues|done|done].
Qed.
