(* ===== verification/ProcessInvariant.v ===== *)
(** * The process: invariant, routes, reloads (cmd/olsrd)

    What holds in every reachable state of the process, whatever its loops,
    signals and requests do in whatever order; that the routes follow the
    announced changes; and what a reload changes and what it does not. *)

From S2P Require Import Prelude GoNet GoStrings TimeVal Packet Events DiffSync Neighbor NeighborTables NeighborInvariant Topology Hna Heap Dijkstra Spf SpfRoutes SpfSync Molsr MolsrFacts Config Daemon DaemonFacts LinkSensing DaemonOps DaemonInvariant RouteInputs Monitor Api ApiFacts Process ProcessFacts.

#[local] Opaque EncodeTimeVal DecodeTimeVal.

(** The state of a process whose daemon was started with the router ID [id]. *)
Record process_ok (id : string) (pr : Process) : Prop := {
  po_daemon : daemon_wf id (pr_daemon pr);
  po_id : id ≠ "";
  po_config : config (pr_mgr pr) = Some (d_cfg (pr_daemon pr));
  po_valid : valid_config (d_cfg (pr_daemon pr));
  po_run : valid_config (pr_run_cfg pr);
  po_queues : queues_ok (pr_queues pr);
}.

Section process.
Context {MO : MapOrder} {FC : FloatConv} {GF : GoFold} {U : GoUnicode} {J : Jwt}.

(** Operations of the managers keep the configuration. *)
Lemma ops_config d ops : Forall handler_op ops → d_cfg (run_manager_ops d ops).1 = d_cfg d.
Proof.
  intros Hops. apply (run_manager_ops_ind (λ d', d_cfg d' = d_cfg d)); [|done]. rewrite Forall_forall in Hops.
  intros d' op Hop%Hops E. rewrite <-E. destruct op; try done.
Qed.

Lemma ops_routes d ops : Forall handler_op ops → activeRoutes (run_manager_ops d ops).1 = activeRoutes d.
Proof.
  intros Hops. apply (run_manager_ops_ind (λ d', activeRoutes d' = activeRoutes d)); [|done]. rewrite Forall_forall in Hops.
  intros d' op Hop%Hops E. rewrite <-E. destruct op; try done.
Qed.

(** ** Steps that run operations *)

(** The process after operations [ops] of the managers, with their events
    delivered; the configurations and the gauges' loop aside, nothing else. *)
Lemma process_ok_ops id pr pr1 full ops :
  process_ok id pr → api_daemon (pr_api pr1) = (run_manager_ops (pr_daemon pr) ops).1 →
  (pr_mgr pr1, pr_run_cfg pr1, pr_queues pr1) = (pr_mgr pr, pr_run_cfg pr, pr_queues pr) →
  d_cfg (run_manager_ops (pr_daemon pr) ops).1 = d_cfg (pr_daemon pr) →
  process_ok id (publish full (run_manager_ops (pr_daemon pr) ops).2 pr1).
Proof.
  intros [Hd Hid Hc Hv Hr Hq] Ed [= Em Er Eq] Ec.
  destruct (publish_frame full (run_manager_ops (pr_daemon pr) ops).2 pr1) as (F1 & F2 & F3 & _).
  assert (pr_daemon (publish full (run_manager_ops (pr_daemon pr) ops).2 pr1) = (run_manager_ops (pr_daemon pr) ops).1) as Ed'
    by (unfold pr_daemon at 1; by rewrite F3).
  split; rewrite ?F1, ?F2, ?Ed', ?Em, ?Er, ?Ec; try done.
  - by apply run_manager_ops_wf.
  - apply publish_queues; [by rewrite Eq|apply ops_events_typed].
Qed.

Lemma process_ok_gauges id pr g : process_ok id pr → process_ok id (set_gauges pr g).
Proof. intros []. by split. Qed.

Lemma process_ok_done id pr b : process_ok id pr → process_ok id (set_done pr b).
Proof. intros []. by split. Qed.

Lemma process_ok_pop id pr ty e l : process_ok id pr → pr_queues pr !! ty = Some (e :: l) →
  process_ok id (set_queues pr (<[ty := l]> (pr_queues pr))).
Proof.
  intros [Hd Hid Hc Hv Hr Hq] E. split; try done. simpl. eapply queues_ok_insert; [done|done|].
  by apply (qo_typed _ Hq), Forall_cons in E as [_ E].
Qed.

(** A handler, with what it publishes delivered. *)
Lemma process_ok_handled id pr full r : process_ok id pr → does (pr_daemon pr) r → process_ok id (handled full r pr).
Proof.
  intros Hok (ops & E & Ho). unfold handled.
  pose proof (process_ok_ops id pr (set_pr_daemon pr r.1) full ops Hok) as H. rewrite E in H. apply H; try done.
  pose proof (ops_config (pr_daemon pr) ops Ho) as Hc. by rewrite E in Hc.
Qed.

Lemma tick_handler_does clock p t d : does d (tick_handler clock p t d).
Proof.
  destruct t; cbn [tick_handler];
    auto using sendHello_does, sendTC_does, sendHNA_does, performAging_does, does_nothing.
Qed.

Lemma runSpf_config clock p mon elapsed d : d_cfg (runSpf clock p mon elapsed d).1 = d_cfg d.
Proof.
  unfold runSpf. destruct (CalculateRoutes _ _ _ _ _ _ _ _) as [[routes evs]| | |];
    by destruct (RecalculateMroutes _ _ _) as [m evs'].
Qed.

Lemma process_ok_spf id pr full clock p elapsed : process_ok id pr → process_ok id (on_topology_event full clock p elapsed pr).
Proof.
  intros Hok. unfold on_topology_event, handled. set (mon := monitor_view _ _).
  pose proof (runSpf_ops clock p mon elapsed (pr_daemon pr)) as E.
  pose proof (λ ops, process_ok_ops id pr (set_pr_daemon pr (runSpf clock p mon elapsed (pr_daemon pr)).1) full ops Hok) as H.
  match type of E with run_manager_ops _ ?ops = _ => specialize (H ops) end. rewrite E in H. apply H; try done.
  apply runSpf_config.
Qed.

(** The server with an empty list of published events. *)
Definition fresh_api (s : APIServer) : APIServer :=
  MkAPIServer (api_daemon s) (api_monitor s) (api_zapi s) (rateLimits s) (audit s) [].

Lemma on_request_ops full clock p r pr :
  ∃ s' ops, Forall handler_op ops ∧
    api_daemon s' = (run_manager_ops (pr_daemon pr) ops).1 ∧
    (on_request full clock p r pr).1 = publish full (run_manager_ops (pr_daemon pr) ops).2 (set_api pr s').
Proof.
  unfold on_request. fold (fresh_api (pr_api pr)).
  destruct (serve_ops clock p r (fresh_api (pr_api pr))) as (ops & Ho & E & _).
  destruct (serve clock p r (fresh_api (pr_api pr))) as [s' resp]. cbn [fst] in *.
  exists s', ops. split; [done|]. change (api_daemon (fresh_api (pr_api pr))) with (pr_daemon pr) in E. by rewrite E.
Qed.

Lemma process_ok_request id pr full clock p r : process_ok id pr → process_ok id (on_request full clock p r pr).1.
Proof.
  intros Hok. destruct (on_request_ops full clock p r pr) as (s' & ops & Ho & Ed & ->).
  apply process_ok_ops; [done|done|done|]. by apply ops_config.
Qed.

Lemma process_ok_hup {Data} id pr (read : string → res Data) unmarshal :
  process_ok id pr → process_ok id (on_hup read unmarshal pr).
Proof.
  intros [Hd Hid Hc Hv Hr Hq]. unfold on_hup, Reload.
  destruct (loadAndValidate read unmarshal (configPath (pr_mgr pr))) as [cfg| | |] eqn:E.
  1: apply loadAndValidate_valid in E; (split; try done); by destruct Hd.
  all: assert (Get (pr_mgr pr) = d_cfg (pr_daemon pr)) as -> by (unfold Get; by rewrite Hc).
  all: split; try done; by destruct Hd.
Qed.

(** Events outside the handlers. *)
Lemma process_ok_publish id pr full evs : process_ok id pr → Forall event_typed evs → process_ok id (publish full evs pr).
Proof.
  intros [Hd Hid Hc Hv Hr Hq] Ht. destruct (publish_frame full evs pr) as (F1 & F2 & F3 & _).
  assert (pr_daemon (publish full evs pr) = pr_daemon pr) as Ed by (unfold pr_daemon; by rewrite F3).
  split; rewrite ?F1, ?F2, ?Ed; try done. by apply publish_queues.
Qed.

Lemma process_ok_link id pr full u links : process_ok id pr → process_ok id (on_link_update full u links pr).
Proof.
  intros Hok. unfold on_link_update, linux_update. apply process_ok_publish; [by destruct Hok|].
  apply Forall_singleton_typed, typed_string. tauto.
Qed.

Lemma process_ok_zapi id pr full up : process_ok id pr → process_ok id (on_zapi full up pr).
Proof.
  intros Hok. unfold on_zapi. destruct (api_zapi (pr_api pr)); [|done].
  apply process_ok_publish; [by destruct Hok|]. apply Forall_singleton_typed. left. split; [done|]. cbn [ev_Data].
  destruct up; tauto.
Qed.

Lemma loop_step_ok id pr pr' out : process_ok id pr → loop_step pr pr' out → process_ok id pr'.
Proof.
  intros Hok Hs. destruct Hs as [h full clock p t|h full clock p data raddr r Hu8 Hr|p e l Hq|e l g Hq Hm
    |full clock p r|Data read unmarshal Hd|Hd|full u links|full up].
  - unfold on_tick. cbn [fst]. unfold tick_gauges.
    pose proof (process_ok_handled id pr full _ Hok (tick_handler_does clock p t (pr_daemon pr))) as H.
    destruct t; try done. by apply process_ok_gauges.
  - apply process_ok_handled; [done|]. by eapply processReceivedData_does.
  - apply process_ok_gauges. by eapply process_ok_pop.
  - apply process_ok_gauges. by eapply process_ok_pop.
  - by apply process_ok_request.
  - by apply process_ok_hup.
  - by apply process_ok_done.
  - by apply process_ok_link.
  - by apply process_ok_zapi.
Qed.

Lemma process_step_ok id pr pr' out : process_ok id pr → process_step pr pr' out → process_ok id pr'.
Proof.
  intros Hok [pr1 out1 Hs|full clock p elapsed ty e l Hty Hq]; [by eapply loop_step_ok|].
  apply process_ok_spf. by eapply process_ok_pop.
Qed.

(** ** The start *)

Notation steps := (rtc (λ s s', ∃ out, process_step s s' out)).

Lemma ParseIP_empty : ParseIP "" = None.
Proof. vm_compute. reflexivity. Qed.

Lemma valid_router_id cfg : valid_config cfg → cfg_RouterID cfg ≠ "".
Proof. intros [(ip & q & H & _)] E. by rewrite E, ParseIP_empty in H. Qed.

Lemma main_starts {Data} (read : string → res Data) unmarshal path standalone init :
  main read unmarshal path false standalone = inr init →
  valid_config (pr_run_cfg init) ∧ config (pr_mgr init) = Some (pr_run_cfg init) ∧
  pr_daemon init = initializeComponents (pr_run_cfg init) (monitor_view [] NewMonitor) ∧
  pr_queues init = gset_to_gmap [] (list_to_set subscribed) ∧ pr_lost init = false.
Proof.
  unfold main, Load. destruct (loadAndValidate read unmarshal (configPath (NewManager path))) as [cfg| | |] eqn:E; try done.
  apply loadAndValidate_valid in E. by intros [= <-].
Qed.

Lemma queues_ok_start : queues_ok (gset_to_gmap [] (list_to_set subscribed)).
Proof.
  split.
  - intros ty. rewrite <-elem_of_dom, dom_gset_to_gmap. apply elem_of_list_to_set.
  - intros ty l [_ <-]%lookup_gset_to_gmap_Some. apply Forall_nil_2.
Qed.

Lemma process_ok_start {Data} (read : string → res Data) unmarshal path standalone init :
  main read unmarshal path false standalone = inr init → process_ok (cfg_RouterID (pr_run_cfg init)) init.
Proof.
  intros (Hv & Hc & Hd & Hq & _)%main_starts. split; rewrite ?Hd, ?Hq; [apply daemon_wf_start|..]; try done.
  - by apply valid_router_id.
  - apply queues_ok_start.
Qed.

Lemma process_reachable_ok {Data} (read : string → res Data) unmarshal path standalone init pr :
  main read unmarshal path false standalone = inr init → steps init pr → process_ok (cfg_RouterID (pr_run_cfg init)) pr.
Proof.
  intros Hm. revert pr. apply (rtc_ind_r (process_ok (cfg_RouterID (pr_run_cfg init))) init).
  - by eapply process_ok_start.
  - intros pr pr' _ [out Hs] Hok. by eapply process_step_ok.
Qed.

(** C13. The invariant of the process.  In every state a started process can
    reach, by periodic tasks, frames, route calculations, requests, reloads and
    interface changes in any order: the configuration is valid and is the one
    the daemon uses; every manager's tables are well formed, for the router ID
    of the start; the sequence numbers are 16-bit; each subscription holds
    events of its type only, with the payload its loop expects, so that no type
    assertion of the loops fails. *)
Theorem process_invariant {Data} (read : string → res Data) unmarshal path standalone init pr :
  main read unmarshal path false standalone = inr init → steps init pr →
  process_ok (cfg_RouterID (pr_run_cfg init)) pr ∧
  ∀ e l g, pr_queues pr !! EventSPFTrigger = Some (e :: l) → ∃ g', spf_metrics g e = Ok g'.
Proof.
  intros Hm Hs. pose proof (process_reachable_ok read unmarshal path standalone init pr Hm Hs) as Hok.
  split; [done|]. intros e l g Hq.
  apply (qo_typed _ (po_queues _ _ Hok)), Forall_cons in Hq as [[Ht He] _]. unfold spf_metrics.
  destruct He as [[E _]|[[E _]|[_ (dur & n & ->)]]]; [by rewrite E in Ht| |by eexists].
  rewrite Ht in E. by destruct E as [E|[E|E]].
Qed.
End process.
