(* ===== verification/ProcessRoutes.v ===== *)
(** * The process: routes that follow, and reloads (cmd/olsrd)

    When no event was lost and none waits, the active routes are those of a
    state with the present links, topology and gateways; a reload changes the
    configuration and nothing that was set up with the old one. *)

From S2P Require Import Prelude GoNet GoStrings TimeVal Packet Events DiffSync Neighbor NeighborTables NeighborInvariant Topology Hna Heap Dijkstra Spf SpfRoutes SpfSync Molsr MolsrFacts Config Daemon DaemonFacts LinkSensing DaemonOps DaemonInvariant RouteInputs Monitor Api ApiFacts Process ProcessFacts ProcessInvariant.

#[local] Opaque EncodeTimeVal DecodeTimeVal.

Section routes.
Context {MO : MapOrder} {FC : FloatConv} {GF : GoFold} {U : GoUnicode} {J : Jwt}.

Notation steps := (rtc (λ s s', ∃ out, process_step s s' out)).

(** The routes are the best ones for the links and gateways of [d]. *)
Definition routes_best_for (id : string) (d : Daemon) (routes : gmap string Route) : Prop :=
  ∃ mon cfg now adj q,
    unit_graph (known_link now (neighMgr d) (topoMgr d) id) adj ∧
    best_routes (daemon_lookup mon id cfg) adj (GetHNAEntries q (hnaMgr d)) routes.

(** There was a state with the present inputs for which the routes are best. *)
Definition up_to_date (id : string) (init pr : Process) : Prop :=
  ∃ pr0, steps init pr0 ∧ steps pr0 pr ∧ same_inputs (pr_daemon pr0) (pr_daemon pr) ∧
    routes_best_for id (pr_daemon pr0) (activeRoutes (pr_daemon pr)).

(** ** The start *)

Lemma no_links_no_routes lk adj q :
  (∀ u v, ¬ ∃ c, edge adj u v c) → best_routes lk adj (GetHNAEntries q NewHNAManager) ∅.
Proof.
  intros He prefix. rewrite lookup_empty.
  assert (∀ v d, shortest adj (GetRouterID lk) v d → v = GetRouterID lk) as Hs.
  { intros v d [Hw _]. destruct Hw as [|u v w c _ H]; [done|]. exfalso. apply (He u v). by exists c. }
  intros r [(v & d & h & Hv & Hd & _)|(e & d & h & _ & _ & Hg & Hd & _)]; by apply Hs in Hd.
Qed.

Lemma start_routes_best cfg mon : routes_best_for (cfg_RouterID cfg) (initializeComponents cfg mon) ∅.
Proof.
  set (id := cfg_RouterID cfg).
  exists (MkMonitor [] (λ _, 0)), zero_config, 0,
    (buildAdjacencyList [] 0 (NewNeighborManager id) NewTopologyManager id), [].
  pose proof (adjacency_unit [] 0 (NewNeighborManager id) NewTopologyManager id) as Hadj.
  split; [exact Hadj|]. apply no_links_no_routes. intros u v [c Hc]. apply Hadj in Hc as [_ Hk].
  destruct Hk as [[_ (k & n & l & Hn & _)]|[[_ (k & n & l & Hn & _)]|[(ths & e & Ht & _)|(t & d & l & Ht & _)]]].
  - simpl in Hn. by rewrite lookup_empty in Hn.
  - simpl in Hn. by rewrite lookup_empty in Hn.
  - simpl in Ht. by rewrite lookup_empty in Ht.
  - unfold topo_at in Ht. simpl in Ht. by rewrite lookup_empty in Ht.
Qed.

Lemma start_up_to_date {Data} (read : string → res Data) unmarshal path standalone init :
  main read unmarshal path false standalone = inr init → up_to_date (cfg_RouterID (pr_run_cfg init)) init init.
Proof.
  intros Hm. exists init. split_and!; try done. apply main_starts in Hm as (_ & _ & -> & _). apply start_routes_best.
Qed.

(** ** The steps *)

Definition fresh (id : string) (init pr : Process) : Prop := pending pr ∨ up_to_date id init pr.

(** A step that changes neither the inputs nor the routes. *)
Lemma up_to_date_step id init pr pr' out : up_to_date id init pr → process_step pr pr' out →
  same_inputs (pr_daemon pr) (pr_daemon pr') → activeRoutes (pr_daemon pr') = activeRoutes (pr_daemon pr) →
  up_to_date id init pr'.
Proof.
  intros (pr0 & H1 & H2 & H3 & H4) Hs Hi Er. exists pr0. split; [done|]. split; [|split; [by etrans|by rewrite Er]].
  eapply rtc_r; [exact H2|]. by exists out.
Qed.

(** A step announces a change of the inputs, or makes none and leaves the routes
    alone; what waits goes on waiting. *)
Definition informs (pr pr' : Process) : Prop :=
  (pending pr → pending pr') ∧
  (pending pr' ∨ same_inputs (pr_daemon pr) (pr_daemon pr') ∧ activeRoutes (pr_daemon pr') = activeRoutes (pr_daemon pr)).

(** A step that runs operations of the managers and delivers their events; it
    may set gauges. *)
Lemma informs_ops pr pr1 pr' full ops : queues_ok (pr_queues pr) →
  Forall handler_op ops → api_daemon (pr_api pr1) = (run_manager_ops (pr_daemon pr) ops).1 →
  (pr_queues pr1, pr_lost pr1) = (pr_queues pr, pr_lost pr) →
  (let pr2 := publish full (run_manager_ops (pr_daemon pr) ops).2 pr1 in
   (pr_api pr', pr_queues pr', pr_lost pr') = (pr_api pr2, pr_queues pr2, pr_lost pr2)) →
  informs pr pr'.
Proof.
  intros Hq Ho Ed [= Eq El]. cbv zeta. set (pr2 := publish _ _ _). intros [= Ea' Eq' El'].
  assert (pending pr2 → pending pr') as Hpp by (unfold pending; by rewrite Eq', El').
  assert (pr_daemon pr' = (run_manager_ops (pr_daemon pr) ops).1) as E.
  { unfold pr_daemon at 1. rewrite Ea', <-Ed. f_equal. apply publish_frame. }
  split; [intros Hp; apply Hpp, publish_pending; unfold pending in *; by rewrite Eq, El|].
  destruct (ops_announce ops (pr_daemon pr) Ho) as [Ht|Hi].
  - left. apply Hpp, publish_trigger; [by rewrite Eq|apply ops_events_typed|done].
  - right. rewrite E. split; [done|by apply ops_routes].
Qed.

Lemma informs_handled pr full r pr' : queues_ok (pr_queues pr) → does (pr_daemon pr) r →
  (let pr2 := handled full r pr in (pr_api pr', pr_queues pr', pr_lost pr') = (pr_api pr2, pr_queues pr2, pr_lost pr2)) →
  informs pr pr'.
Proof.
  intros Hq (ops & E & Ho) He.
  pose proof (informs_ops pr (set_pr_daemon pr r.1) pr' full ops Hq Ho) as H. rewrite E in H. by apply H.
Qed.

(** The same daemon but for its configuration. *)
Lemma informs_same pr pr' : (pending pr → pending pr') → same_inputs (pr_daemon pr) (pr_daemon pr') →
  activeRoutes (pr_daemon pr') = activeRoutes (pr_daemon pr) → informs pr pr'.
Proof. intros Hp Hi Er. split; [done|]. by right. Qed.

(** The events of no buffer but the two triggers matter. *)
Lemma pending_other pr pr' ty l : (ty ≠ EventNeighborUpdate ∧ ty ≠ EventTopologyUpdate) →
  pr_queues pr' = <[ty := l]> (pr_queues pr) → pr_lost pr' = pr_lost pr → pending pr → pending pr'.
Proof.
  intros [N1 N2] Eq El [Hl|(ty' & e & q & Hty & Hq)]; [left; congruence|]. right. exists ty', e, q. split; [done|].
  rewrite Eq, lookup_insert_ne; [done|]. by destruct Hty; subst.
Qed.

Lemma publish_pending_from full evs pr pr1 : (pr_queues pr1, pr_lost pr1) = (pr_queues pr, pr_lost pr) →
  pending pr → pending (publish full evs pr1).
Proof. intros [= Eq El] Hp. apply publish_pending. unfold pending in *. by rewrite Eq, El. Qed.

Lemma pr_daemon_publish full evs pr : pr_daemon (publish full evs pr) = pr_daemon pr.
Proof. destruct (publish_frame full evs pr) as (_ & _ & F & _). unfold pr_daemon. by rewrite F. Qed.

(** Whatever does not calculate routes informs the goroutine that does. *)
Lemma loop_step_informs id pr pr' out : process_ok id pr → loop_step pr pr' out → informs pr pr'.
Proof.
  intros Hok Hs. pose proof (po_queues _ _ Hok) as Hq0.
  destruct Hs as [h full clock p t|h full clock p data raddr r Hu8 Hd|p e l Hq|e l g Hq Hm
    |full clock p r|Data read unmarshal Hd|Hd|full u links|full up].
  - apply (informs_handled pr full (tick_handler clock p t (pr_daemon pr)) _ Hq0 (tick_handler_does clock p t _)).
    by destruct t.
  - exact (informs_handled pr full r _ Hq0 (processReceivedData_does _ _ _ _ _ _ Hu8 Hd) eq_refl).
  - apply informs_same; [|done|done]. by apply (pending_other pr _ EventRouteInstall l).
  - apply informs_same; [|done|done]. by apply (pending_other pr _ EventSPFTrigger l).
  - destruct (on_request_ops full clock p r pr) as (s' & ops & Ho & Ed & E). rewrite E in *.
    by apply (informs_ops pr (set_api pr s') _ full ops Hq0 Ho Ed eq_refl).
  - apply informs_same; unfold on_hup; destruct (Reload _ _ _) as [m rr]; try done.
  - by apply informs_same.
  - apply informs_same; unfold on_link_update, linux_update; rewrite ?pr_daemon_publish; try done.
    by apply publish_pending_from.
  - apply informs_same; unfold on_zapi; destruct (api_zapi (pr_api pr)); rewrite ?pr_daemon_publish; try done.
    by apply publish_pending_from.
Qed.

(** The calculation itself. *)
Lemma fresh_spf id init pr full clock p elapsed ty l out :
  process_ok id pr → steps init pr →
  let pr1 := set_queues pr (<[ty := l]> (pr_queues pr)) in
  process_step pr (on_topology_event full clock p elapsed pr1) out →
  up_to_date id init (on_topology_event full clock p elapsed pr1).
Proof.
  intros Hok Hr pr1 Hs. unfold on_topology_event, handled in *. change (pr_daemon pr1) with (pr_daemon pr) in *.
  change (pr_api pr1) with (pr_api pr) in *. set (mon := monitor_view _ _) in *.
  set (r := runSpf clock p mon elapsed (pr_daemon pr)) in *.
  destruct (publish_frame full (published_of r.2) (set_pr_daemon pr1 r.1)) as (_ & _ & F & _).
  assert (pr_daemon (publish full (published_of r.2) (set_pr_daemon pr1 r.1)) = r.1) as E
    by (unfold pr_daemon at 1; by rewrite F).
  exists pr. split; [done|]. split; [eapply rtc_once; by exists out|]. rewrite E.
  assert (∃ routes, r.1 = set_molsrMgr (set_activeRoutes (pr_daemon pr) routes) (molsrMgr r.1) ∧
    routes_best_for id (pr_daemon pr) routes) as (routes & -> & Hb); [|split; [by apply same_inputs_parts|exact Hb]].
  subst r. unfold runSpf. set (lk := daemon_lookup mon (spf_RouterID (pr_daemon pr)) (d_cfg (pr_daemon pr))).
  set (q := 1%positive :: p).
  destruct (computeRoutes_best (1%positive :: q) lk (clock p) (neighMgr (pr_daemon pr)) (topoMgr (pr_daemon pr)) (hnaMgr (pr_daemon pr)))
    as (routes & Ec & Hb).
  pose proof (dw_spf _ _ (po_daemon _ _ Hok)) as Eid. pose proof (po_id _ _ Hok) as Hid.
  unfold CalculateRoutes. rewrite Ec. change (GetRouterID lk) with (spf_RouterID (pr_daemon pr)) in *. rewrite Eid in *.
  rewrite bool_decide_false by done. cbn [negb check mbind res_bind].
  destruct (RecalculateMroutes _ _ _) as [m evs]. exists routes. split; [done|].
  subst lk. rewrite Eid in Hb. eexists mon, _, (clock p), _, _. split; [|exact Hb]. apply adjacency_unit.
Qed.

Lemma fresh_step id init pr pr' out : process_ok id pr → steps init pr → fresh id init pr →
  process_step pr pr' out → fresh id init pr'.
Proof.
  intros Hok Hr Hf Hs. pose proof Hs as Hs'.
  destruct Hs' as [pr' out Hl|full clock p elapsed ty e l Hty Hq]; [|right; by eapply fresh_spf].
  apply (loop_step_informs id) in Hl as [H1 H2]; [|done].
  destruct Hf as [Hp|Hu]; [left; by apply H1|]. destruct H2 as [H2|[Hi Er]]; [by left|]. right. by eapply up_to_date_step.
Qed.

(** The routes follow the links.  In every state a started process can reach
    in which no event was lost and none is waiting for the route calculation,
    the active routes are the best ones for an earlier state of the process
    with the same link states (up to new asymmetric links), the same topology
    tuples and the same gateways as now.  (2-hop neighbors and new asymmetric
    links can differ: their changes are not announced.) *)
Theorem routes_follow_changes {Data} (read : string → res Data) unmarshal path standalone init pr :
  main read unmarshal path false standalone = inr init → steps init pr → pr_lost pr = false →
  pr_queues pr !! EventNeighborUpdate = Some [] → pr_queues pr !! EventTopologyUpdate = Some [] →
  ∃ pr0, steps init pr0 ∧ steps pr0 pr ∧ same_inputs (pr_daemon pr0) (pr_daemon pr) ∧
    routes_best_for (cfg_RouterID (pr_run_cfg init)) (pr_daemon pr0) (activeRoutes (pr_daemon pr)).
Proof.
  intros Hm Hs Hl Hn Ht. set (id := cfg_RouterID (pr_run_cfg init)).
  assert (process_ok id pr ∧ steps init pr ∧ fresh id init pr) as (_ & _ & Hf).
  { clear Hl Hn Ht. revert pr Hs. apply (rtc_ind_r (λ pr, process_ok id pr ∧ steps init pr ∧ fresh id init pr)).
    - split; [by eapply process_ok_start|]. split; [done|]. right. by eapply start_up_to_date.
    - intros pr pr' _ [out Hs] (Hok & Hr & Hf). split; [by eapply process_step_ok|].
      split; [eapply rtc_r; [done|by exists out]|by eapply fresh_step]. }
  destruct Hf as [[E|(ty & e & l & [->| ->] & E)]|Hu]; [congruence..|exact Hu].
Qed.

(** ** Reloads *)

(** A reload does not reach what was set up with the old configuration.
    After the reload of a valid file the daemon's HELLOs carry the new router ID
    and Htime, but the tickers keep their periods, and the neighbor manager and
    the route calculation keep the router ID of the start: a HELLO that shows
    the new ID as heard, and not the old one, leaves the link asymmetric. *)
Theorem reload_keeps_identity {Data Data'} (read : string → res Data) unmarshal path standalone init pr
    (read' : string → res Data') unmarshal' cfg :
  main read unmarshal path false standalone = inr init → steps init pr →
  loadAndValidate read' unmarshal' (configPath (pr_mgr pr)) = Ok cfg →
  let pr' := on_hup read' unmarshal' pr in
  let d := pr_daemon pr' in
  let id := cfg_RouterID (pr_run_cfg init) in
  d_cfg d = cfg ∧ pr_run_cfg pr' = pr_run_cfg pr ∧
  (∀ p, OriginatorAddress (msg_Header (hello_message p d)) = default [] (ParseIP (cfg_RouterID cfg))) ∧
  nm_routerID (neighMgr d) = id ∧ spf_RouterID d = id ∧
  ∀ p now now' sender orig hello vtime, ¬ hello_hears hello id →
    link_state (ProcessHello p now now' (neighMgr d) sender orig hello vtime).1 (IP_String sender) = LinkStateAsymmetric.
Proof.
  intros Hm Hs E. cbv zeta. pose proof (process_reachable_ok read unmarshal path standalone init pr Hm Hs) as Hok.
  pose proof (process_ok_hup _ _ read' unmarshal' Hok) as [Hd' _ _ _ _ _].
  assert (d_cfg (pr_daemon (on_hup read' unmarshal' pr)) = cfg) as Ec by (unfold on_hup, Reload; by rewrite E).
  pose proof (inv_id _ _ (dw_neigh _ _ Hd')) as Eid.
  split; [done|]. split; [unfold on_hup; by destruct (Reload _ _ _)|]. split; [intros p; simpl; unfold router_ip; by rewrite Ec|].
  split; [done|]. split; [apply Hd'|]. intros p now now' sender orig hello vtime Hn.
  destruct (ProcessHello_effect p now now' (neighMgr (pr_daemon (on_hup read' unmarshal' pr))) sender orig hello vtime)
    as (nm1 & heard & Hh & Heff & _ & ->).
  rewrite Eid in Hh. assert (heard = false) as -> by (destruct heard; [by destruct Hn; apply Hh|done]).
  assert (link_state nm1 (IP_String sender) = LinkStateAsymmetric) as Hl.
  { unfold link_state. rewrite (he_links _ _ _ _ _ _ _ Heff), lookup_insert_eq. done. }
  destruct (link_flips _ _ _); [|exact Hl]. cbn [fst].
  destruct (recalculateMPRs_tables p now' nm1) as [s Er]. rewrite Er. exact Hl.
Qed.
End routes.

(** ** Witnesses *)

Definition read_any (_ : string) : res unit := Ok tt.
Definition decode_to (cfg : Config) (_ : unit) (_ : Config) : res Config := Ok cfg.
Definition config_1 (id : string) : Config := MkConfig id ["eth0"] (2 * Second) (5 * Second) "" 8080 "secret" "" true "none".

(** The standalone daemon 10.0.0.1, just started. *)
Definition process_1 : Process :=
  MkProcess (MkManager (Some (config_1 "10.0.0.1")) "olsrd.yaml") (config_1 "10.0.0.1")
    (NewAPIServer (initializeComponents (config_1 "10.0.0.1") (@monitor_view canonical_order [] NewMonitor)) None)
    (gset_to_gmap [] (list_to_set subscribed)) false false (MkGauges 0 0 0 (float_of_int 0) 0 0).

Lemma process_1_starts :
  @main canonical_order unit read_any (decode_to (config_1 "10.0.0.1")) "olsrd.yaml" false true = inr process_1.
Proof.
  assert (validate (config_1 "10.0.0.1") = Ok tt) as E by (vm_compute; reflexivity).
  unfold main, Load, loadAndValidate, read_any, decode_to. by rewrite E.
Qed.

(** A gateway prefix is registered through the API, and the routes are calculated. *)
Definition hna_request : Request :=
  MkRequest "POST" "/api/v1/hna" "10.0.0.9:4000" "Bearer t0k" "" (Some (JObject [("prefix", JString "192.168.7.0/24")])).

Definition process_2 : Process :=
  (@on_request canonical_order ascii_fold ascii_only one_token (λ _, false) (λ _, 0) [] hna_request process_1).1.
Definition process_3 : Process :=
  @on_topology_event canonical_order (λ _, false) (λ _, Second) [] 1000
    (set_queues process_2 (<[EventTopologyUpdate := []]> (pr_queues process_2))).

Notation steps_1 := (rtc (λ s s', ∃ out, @process_step canonical_order amd64_conv ascii_fold ascii_only one_token s s' out)).

Lemma process_3_steps : steps_1 process_1 process_3.
Proof.
  eapply rtc_l; [|apply rtc_once].
  - eexists. apply st_loop. exact (@st_request canonical_order amd64_conv ascii_fold ascii_only one_token process_1
      (λ _, false) (λ _, 0) [] hna_request).
  - assert (pr_queues process_2 !! EventTopologyUpdate = Some [topology_event "local_hna_add"]) as E
      by (vm_compute; reflexivity).
    eexists. exact (@st_topology canonical_order amd64_conv ascii_fold ascii_only one_token process_2
      (λ _, false) (λ _, Second) [] 1000 EventTopologyUpdate _ [] (or_intror eq_refl) E).
Qed.

Lemma process_invariant_witness :
  process_ok "10.0.0.1" process_3 ∧
  ∃ g', spf_metrics (pr_gauges process_3) (MkEvent EventSPFTrigger (DataSPF (Duration_Seconds 1000) 0)) = Ok g'.
Proof.
  destruct (@process_invariant canonical_order amd64_conv ascii_fold ascii_only one_token unit read_any
    (decode_to (config_1 "10.0.0.1")) "olsrd.yaml" true process_1 process_3 process_1_starts process_3_steps) as [H1 H2].
  split; [exact H1|]. apply (H2 _ []). vm_compute. reflexivity.
Defined.

Lemma routes_follow_changes_witness :
  ∃ pr0, steps_1 process_1 pr0 ∧ same_inputs (pr_daemon pr0) (pr_daemon process_3).
Proof.
  destruct (@routes_follow_changes canonical_order amd64_conv ascii_fold ascii_only one_token unit read_any
    (decode_to (config_1 "10.0.0.1")) "olsrd.yaml" true process_1 process_3 process_1_starts process_3_steps
    ltac:(vm_compute; reflexivity) ltac:(vm_compute; reflexivity) ltac:(vm_compute; reflexivity)) as (pr0 & H1 & _ & H2 & _).
  exists pr0. exact (conj H1 H2).
Defined.

(** The daemon becomes 10.0.0.7; a neighbor that hears it says so. *)
Lemma reload_keeps_identity_witness :
  let d := pr_daemon (@on_hup unit read_any (decode_to (config_1 "10.0.0.7")) process_3) in
  cfg_RouterID (d_cfg d) = "10.0.0.7" ∧ nm_routerID (neighMgr d) = "10.0.0.1" ∧
  link_state (@ProcessHello canonical_order [] 0 0 (neighMgr d) [10; 0; 0; 2] [10; 0; 0; 2] (hello_listing [7]) (6 * Second)).1
    "10.0.0.2" = LinkStateAsymmetric.
Proof.
  destruct (@reload_keeps_identity canonical_order amd64_conv ascii_fold ascii_only one_token unit unit read_any
    (decode_to (config_1 "10.0.0.1")) "olsrd.yaml" true process_1 process_3 read_any (decode_to (config_1 "10.0.0.7"))
    (config_1 "10.0.0.7") process_1_starts process_3_steps ltac:(vm_compute; reflexivity)) as (H1 & _ & _ & H4 & _ & H6).
  cbv zeta in *. split; [by rewrite H1|]. split; [exact H4|]. apply (H6 [] 0 0 [10; 0; 0; 2] [10; 0; 0; 2]).
  intros H%checkLocalSymmetricLink_spec. vm_compute in H. discriminate.
Defined.
