(* ===== verification/Uroute.v ===== *)
(** * Unicast routes of the standalone daemon (internal/uroute)

    The two calls that hand a route to the kernel.  The netlink library and the
    kernel's table behind it are the class [Netlink]; its laws are what the
    library and the kernel document: RouteAdd asks for a new entry
    (NLM_F_CREATE and NLM_F_EXCL) and fails when the table has a route with
    the same destination and priority; RouteDel removes a route that agrees
    with the given fields, where a field left out agrees with any. *)

From S2P Require Import Prelude GoNet Effects.

(** The fields of [netlink.Route] that the code sets; a missing gateway is nil,
    priority 0 is none. *)
Record NlRoute := MkNlRoute {
  LinkIndex : Z;
  Dst : IPNet;
  Gw : option IP;
  Priority : Z;
}.

#[export] Instance IPNet_eq_dec : EqDecision IPNet.
Proof. solve_decision. Defined.
#[export] Instance NlRoute_eq_dec : EqDecision NlRoute.
Proof. solve_decision. Defined.

(** Two routes that the kernel does not keep side by side, and a route that a
    deletion may take. *)
Definition same_slot (r r' : NlRoute) : Prop := Dst r = Dst r' ∧ Priority r = Priority r'.
Definition deletes (r r' : NlRoute) : Prop :=
  Dst r = Dst r' ∧ (LinkIndex r = 0 ∨ LinkIndex r = LinkIndex r') ∧ (Gw r = None ∨ Gw r = Gw r') ∧
  (Priority r = 0 ∨ Priority r = Priority r').

#[export] Instance same_slot_dec r r' : Decision (same_slot r r').
Proof. unfold same_slot. apply _. Defined.
#[export] Instance deletes_dec r r' : Decision (deletes r r').
Proof. unfold deletes. apply _. Defined.

Class Netlink := {
  KTable : Type;
  ktable : KTable → list NlRoute;
  RouteAdd : KTable → NlRoute → KTable * bool;
  RouteDel : KTable → NlRoute → KTable * bool;
  RouteAdd_exists t r : Exists (same_slot r) (ktable t) → (RouteAdd t r).2 = false;
  RouteAdd_ok t r : (RouteAdd t r).2 = true → ktable (RouteAdd t r).1 = ktable t ++ [r];
  RouteAdd_failed t r : (RouteAdd t r).2 = false → ktable (RouteAdd t r).1 = ktable t;
  RouteDel_ok t r : (RouteDel t r).2 = true →
    ∃ r' l1 l2, deletes r r' ∧ ktable t = l1 ++ r' :: l2 ∧ ktable (RouteDel t r).1 = l1 ++ l2;
  RouteDel_failed t r : (RouteDel t r).2 = false → ktable (RouteDel t r).1 = ktable t;
}.

Section uroute.
Context {N : Netlink}.

Definition netlink (f : KTable → NlRoute → KTable * bool) (r : NlRoute) (msg : string) : eff KTable unit := λ t,
  let '(t, ok) := f t r in (t, if ok : bool then Ok tt else Err msg).

Definition uroute_AddRoute (prefix nextHop : string) (ifIndex metric : Z) : eff KTable unit :=
  match ParseCIDR prefix with
  | None => eff_res (Err "invalid prefix")
  | Some (_, ipNet) => netlink RouteAdd (MkNlRoute ifIndex ipNet (ParseIP nextHop) metric) "failed to add kernel route"
  end.

Definition uroute_DeleteRoute (prefix nextHop : string) (ifIndex : Z) : eff KTable unit :=
  match ParseCIDR prefix with
  | None => eff_res (Err "invalid prefix")
  | Some (_, ipNet) => netlink RouteDel (MkNlRoute ifIndex ipNet (ParseIP nextHop) 0) "failed to delete kernel route"
  end.
End uroute.

(** A kernel that refuses only what the laws say. *)
Fixpoint remove_first_route (r : NlRoute) (l : list NlRoute) : option (list NlRoute) :=
  match l with
  | [] => None
  | r' :: l => if decide (deletes r r') then Some l else (cons r') <$> remove_first_route r l
  end.

Lemma remove_first_route_Some r l l' : remove_first_route r l = Some l' →
  ∃ r' l1 l2, deletes r r' ∧ l = l1 ++ r' :: l2 ∧ l' = l1 ++ l2.
Proof.
  revert l'. induction l as [|r0 l IH]; intros l'; simpl; [done|]. case_decide as Hd.
  - intros [= ->]. by exists r0, [], l'.
  - intros (k & Hk & ->)%fmap_Some. destruct (IH k Hk) as (r' & l1 & l2 & H & -> & ->). by exists r', (r0 :: l1), l2.
Qed.

Definition plain_kernel : Netlink.
Proof.
  refine {| KTable := list NlRoute; ktable := id;
    RouteAdd := λ t r, if decide (Exists (same_slot r) t) then (t, false) else (t ++ [r], true);
    RouteDel := λ t r, match remove_first_route r t with Some t' => (t', true) | None => (t, false) end |}; intros t r.
  - intros H. by rewrite decide_True.
  - by case_decide.
  - by case_decide.
  - destruct (remove_first_route r t) as [t'|] eqn:E; [|done]. intros _. by apply remove_first_route_Some.
  - by destruct (remove_first_route r t).
Defined.
