(* ===== verification/Standalone.v ===== *)
(** * The standalone daemon and the kernel's unicast routes (cmd/olsrd/daemon.go, internal/uroute)

    The route events of the engine, the installer, and the kernel's table: while
    no prefix changes its next hop the kernel follows the engine; the event
    published for a changed next hop is refused by the kernel. *)

From S2P Require Import Prelude GoNet TimeVal Packet Events DiffSync Neighbor Topology Hna Heap Dijkstra Spf SpfRoutes SpfSync Molsr Config Daemon Effects Uroute.

(** [handleUnicastAdd] and [handleUnicastDelete] of a standalone daemon. *)
Definition unicast_call `{Netlink} (rc : RouterCall) : eff KTable unit :=
  match rc with
  | AddRoute prefix nextHop ifIndex metric => uroute_AddRoute prefix nextHop ifIndex metric
  | DeleteRoute prefix nextHop ifIndex => uroute_DeleteRoute prefix nextHop ifIndex
  | _ => eff_ret tt
  end.

(** One event of the installer. *)
Definition unicast_event `{MapOrder} `{Netlink} (_ : unit) (x : (list positive * gmap string Route) * Event) : eff KTable unit :=
  eff_fold (λ _ rc, unicast_call rc) tt (routeInstallation x.1.1 x.1.2 x.2).

Section unicast.
Context {MO : MapOrder} {N : Netlink}.

(** The prefixes in play name distinct networks, and the kernel's other routes
    go to none of them. *)
Context (prefixes : string → Prop) (others : list NlRoute).

Record prefixes_ok : Prop := {
  po_distinct k k' ip ip' net : prefixes k → prefixes k' →
    ParseCIDR k = Some (ip, net) → ParseCIDR k' = Some (ip', net) → k = k';
  po_others k ip net r : prefixes k → ParseCIDR k = Some (ip, net) → r ∈ others → Dst r ≠ net;
}.

(** The kernel's route for a route of the engine. *)
Definition nl_route (net : IPNet) (r : Route) : NlRoute := MkNlRoute (IfaceIndex r) net (ParseIP (NextHop r)) (Metric r).

Definition is_nl_route (k : string) (r : Route) (nr : NlRoute) : Prop :=
  ∃ ip net, ParseCIDR k = Some (ip, net) ∧ nr = nl_route net r.

(** Besides the other routes, [t] holds one kernel route for each route of [fib],
    and nothing else. *)
Record installed_table (fib : gmap string Route) (t : KTable) : Prop := {
  it_keys k : is_Some (fib !! k) → prefixes k;
  it_split : ∃ own, ktable t ≡ₚ others ++ own ∧ NoDup (Dst <$> own) ∧
    (∀ nr, nr ∈ own → ∃ k r, fib !! k = Some r ∧ is_nl_route k r nr) ∧
    (∀ k r, fib !! k = Some r → ∃ nr, nr ∈ own ∧ is_nl_route k r nr);
}.

Lemma add_installed fib t r t' : prefixes_ok → installed_table fib t → prefixes (Prefix r) → fib !! Prefix r = None →
  uroute_AddRoute (Prefix r) (NextHop r) (IfaceIndex r) (Metric r) t = (t', Ok tt) →
  installed_table (<[Prefix r := r]> fib) t'.
Proof.
  intros Hok [Hkeys (own & Hp & Hd & Hs & Hc)] HK Hnone. unfold uroute_AddRoute.
  destruct (ParseCIDR (Prefix r)) as [[ip net]|] eqn:Ep; [|done]. unfold netlink.
  pose proof (RouteAdd_ok t (nl_route net r)) as Ha. fold (nl_route net r).
  destruct (RouteAdd t _) as [t1 []]; [|done]. intros [= <-]. specialize (Ha eq_refl). cbn [fst] in Ha.
  split; [intros k [<-|[_ Hk]]%lookup_insert_is_Some; [done|by apply Hkeys]|].
  exists (own ++ [nl_route net r]). rewrite Ha, Hp, app_assoc. split; [done|]. split_and!.
  - rewrite fmap_app. apply NoDup_app. split; [done|]. split; [|apply NoDup_singleton].
    intros x (nr & -> & (k & r0 & Hk & ip0 & net0 & Hp0 & ->)%Hs)%list_elem_of_fmap Hx%list_elem_of_singleton.
    simpl in Hx. subst net0. assert (k = Prefix r) as ->; [|congruence].
    apply (po_distinct Hok k (Prefix r) ip0 ip net); [apply Hkeys; by eexists|done..].
  - intros nr [(k & r0 & Hk & Hnr)%Hs| ->%list_elem_of_singleton]%elem_of_app.
    + exists k, r0. by rewrite lookup_insert_ne by congruence.
    + exists (Prefix r), r. rewrite lookup_insert_eq. split; [done|]. by exists ip, net.
  - intros k r0 [[<- <-]|[_ Hk]]%lookup_insert_Some.
    + exists (nl_route net r). split; [apply elem_of_app; right; by left|by exists ip, net].
    + destruct (Hc k r0 Hk) as (nr & Hin & Hnr). exists nr. split; [apply elem_of_app; by left|done].
Qed.

Lemma delete_installed fib t r t' : prefixes_ok → installed_table fib t → (forwarding <$> fib !! Prefix r) = Some (forwarding r) →
  uroute_DeleteRoute (Prefix r) (NextHop r) (IfaceIndex r) t = (t', Ok tt) →
  installed_table (delete (Prefix r) fib) t'.
Proof.
  intros Hok [Hkeys (own & Hp & Hd & Hs & Hc)] Hf. unfold uroute_DeleteRoute.
  destruct (ParseCIDR (Prefix r)) as [[ip net]|] eqn:Ep; [|done]. unfold netlink.
  pose proof (RouteDel_ok t (MkNlRoute (IfaceIndex r) net (ParseIP (NextHop r)) 0)) as Ha.
  destruct (RouteDel t _) as [t1 []]; [|done]. intros [= <-]. cbn [fst snd] in Ha.
  destruct (Ha eq_refl) as (nr & l1 & l2 & (Hdst & _) & E1 & E2). simpl in Hdst.
  assert (prefixes (Prefix r)) as HK by (apply Hkeys; destruct (fib !! Prefix r); [by eexists|done]).
  assert (ktable t ≡ₚ nr :: ktable t1) as Hp1 by (rewrite E1, E2; symmetry; apply Permutation_middle).
  assert (nr ∈ own) as Hin.
  { assert (nr ∈ others ++ own) as [Ho|?]%elem_of_app; [rewrite <-Hp, Hp1; by left| |done].
    by destruct (po_others Hok _ _ _ _ HK Ep Ho). }
  apply elem_of_Permutation in Hin as [own' Hown].
  assert (ktable t1 ≡ₚ others ++ own') as Ht1.
  { apply (Permutation_cons_inv (a := nr)). rewrite <-Hp1, Hp, Hown. symmetry. apply Permutation_middle. }
  rewrite Hown in Hd. simpl in Hd. apply NoDup_cons in Hd as [Hnin Hd].
  split; [intros k [_ Hk]%lookup_delete_is_Some; by apply Hkeys|]. exists own'. split_and!; [done|done|..].
  - intros x Hx. destruct (Hs x) as (k & rk & Hk & ipk & netk & Hpk & ->); [rewrite Hown; by right|].
    exists k, rk. split; [|by exists ipk, netk]. rewrite lookup_delete_ne; [done|]. intros <-.
    apply Hnin. rewrite <-Hdst. assert (netk = net) as -> by congruence.
    exact (list_elem_of_fmap_2 Dst _ _ Hx).
  - intros k rk [Hne Hk]%lookup_delete_Some. destruct (Hc k rk Hk) as (x & Hx & ipk & netk & Hpk & ->).
    rewrite Hown in Hx. apply elem_of_cons in Hx as [<-|Hx]; [|eexists; split; [done|by exists ipk, netk]].
    destruct Hne. simpl in Hdst. subst netk. apply (po_distinct Hok (Prefix r) k ip ipk net); try done. apply Hkeys. by eexists.
Qed.

(** ** Events that withdraw before they add *)

Notation route_add r := (MkEvent EventRouteInstall (DataRoute "add" r)).
Notation route_delete r := (MkEvent EventRouteInstall (DataRoute "delete" r)).

Inductive event_step (fib : gmap string Route) : Event → Prop :=
  | step_add r : prefixes (Prefix r) → fib !! Prefix r = None → event_step fib (route_add r)
  | step_delete r : (forwarding <$> fib !! Prefix r) = Some (forwarding r) → event_step fib (route_delete r).

Fixpoint event_steps (fib : gmap string Route) (evs : list Event) : Prop :=
  match evs with
  | [] => True
  | e :: evs => event_step fib e ∧ event_steps (fib_apply fib e) evs
  end.

Lemma event_steps_app fib l1 l2 : event_steps fib (l1 ++ l2) ↔ event_steps fib l1 ∧ event_steps (foldl fib_apply fib l1) l2.
Proof. revert fib. induction l1 as [|e l1 IH]; intros fib; simpl; [tauto|]. rewrite IH. tauto. Qed.

Lemma event_installed fib t t' x : prefixes_ok → installed_table fib t → event_step fib x.2 →
  unicast_event tt x t = (t', Ok tt) → installed_table (fib_apply fib x.2) t'.
Proof.
  intros Hok Hin. destruct x as [[q routes] e]. unfold unicast_event. simpl. intros [r HK Hn|r Hf]; simpl;
    intros (t1 & [] & E & [= <-])%eff_bind_Ok.
  - by apply (add_installed fib t r).
  - by apply (delete_installed fib t r).
Qed.

Lemma events_installed xs : ∀ fib t t', prefixes_ok → installed_table fib t → event_steps fib xs.*2 →
  eff_fold unicast_event tt xs t = (t', Ok tt) → installed_table (foldl fib_apply fib xs.*2) t'.
Proof.
  induction xs as [|x xs IH]; intros fib t t' Hok Hin Hst E; [by injection E as <-|].
  destruct Hst as [Hx Hst]. apply eff_bind_Ok in E as (t1 & [] & E1 & E2).
  apply (IH _ t1); [done| |done|done]. by apply (event_installed fib t).
Qed.
(** ** The events of a calculation *)

Lemma steps_withdraw (active new fib : gmap string Route) l : routes_keyed new →
  (∀ k r r', active !! k = Some r → new !! k = Some r' → forwarding r = forwarding r') →
  NoDup l.*1 → (∀ kr, kr ∈ l → active !! kr.1 = Some kr.2 ∧ Prefix kr.2 = kr.1 ∧ (forwarding <$> fib !! kr.1) = Some (forwarding kr.2)) →
  event_steps fib (omap (λ kr,
    match new !! kr.1 with
    | None => Some (route_delete kr.2)
    | Some r' => if route_changed kr.2 r' then Some (route_add r') else None
    end) l).
Proof.
  intros Hn Hsame. revert fib. induction l as [|[k r] l IH]; intros fib Hnd Hl; [done|].
  apply NoDup_cons in Hnd as [Hk Hnd]. destruct (Hl (k, r)) as (Ha & Hkey & Hf); [by left|]. simpl in *. subst k.
  destruct (new !! Prefix r) as [r'|] eqn:E.
  - specialize (Hsame _ _ _ Ha E). apply route_changed_spec in Hsame. rewrite Hsame. apply IH; [done|]. intros kr Hkr. apply Hl. by right.
  - simpl. split; [by constructor|]. apply IH; [done|]. intros kr Hkr. destruct (Hl kr) as (H1 & H2 & H3); [by right|].
    split_and!; [done|done|]. unfold fib_apply; simpl. rewrite lookup_delete_ne; [done|]. intros E1.
    apply Hk. rewrite E1. by apply (list_elem_of_fmap_2 fst).
Qed.

Lemma steps_install (active fib : gmap string Route) l :
  NoDup l.*1 → (∀ kr, kr ∈ l → prefixes kr.1 ∧ Prefix kr.2 = kr.1 ∧ (active !! kr.1 = None → fib !! kr.1 = None)) →
  event_steps fib (omap (λ kr, match active !! kr.1 with None => Some (route_add kr.2) | Some _ => None end) l).
Proof.
  revert fib. induction l as [|[k r] l IH]; intros fib Hnd Hl; [done|].
  apply NoDup_cons in Hnd as [Hk Hnd]. destruct (Hl (k, r)) as (HK & Hkey & Hf); [by left|]. simpl in *. subst k.
  destruct (active !! Prefix r) as [r'|] eqn:E.
  - apply IH; [done|]. intros kr Hkr. apply Hl. by right.
  - simpl. split; [constructor; [done|by apply Hf]|]. apply IH; [done|]. intros kr Hkr. destruct (Hl kr) as (H1 & H2 & H3); [by right|].
    split_and!; [done|done|]. unfold fib_apply; simpl. rewrite lookup_insert_ne; [done|]. intros E1.
    apply Hk. rewrite E1. by apply (list_elem_of_fmap_2 fst).
Qed.

Lemma diff_event_steps p active new fib : routes_keyed active → routes_keyed new → fib_agrees fib active →
  (∀ k, is_Some (new !! k) → prefixes k) →
  (∀ k r r', active !! k = Some r → new !! k = Some r' → forwarding r = forwarding r') →
  event_steps fib (diffAndPublishRoutes p active new).
Proof.
  intros Ha Hn Hag Hpre Hsame. rewrite diffAndPublishRoutes_events. unfold diff_events. apply event_steps_app.
  assert (∀ k, (forwarding <$> fib !! k) = (forwarding <$> active !! k)) as Hk.
  { intros k. apply (f_equal (.!! k)) in Hag. by rewrite !lookup_fmap in Hag. }
  split.
  - apply (steps_withdraw active); [done|done|apply NoDup_range_keys|]. intros [k r] Hkr%elem_of_range. simpl in *.
    split_and!; [done|by apply Ha|]. by rewrite Hk, Hkr.
  - apply steps_install; [apply NoDup_range_keys|]. intros [k r] Hkr%elem_of_range. simpl in *.
    split_and!; [apply Hpre; by eexists|by apply Hn|]. intros E.
    rewrite (withdraw_lookup Prefix route_changed (λ r, route_add r) (λ r, route_delete r) fib_apply) by done.
    rewrite E. specialize (Hk k). rewrite E in Hk. by destruct (fib !! k).
Qed.

(** C30. The kernel of a standalone daemon.  If no prefix changes its next hop or
    interface in a calculation, and the installer's calls succeed, then the
    kernel's table, which held one route per forwarding entry, holds one per
    entry of the new forwarding table, each to the engine's next hop and
    interface, and the other routes are untouched. *)
Theorem standalone_follows p active new fib xs t t' :
  prefixes_ok → installed_table fib t → routes_keyed active → routes_keyed new → fib_agrees fib active →
  (∀ k, is_Some (new !! k) → prefixes k) →
  (∀ k r r', active !! k = Some r → new !! k = Some r' → forwarding r = forwarding r') →
  xs.*2 = diffAndPublishRoutes p active new → eff_fold unicast_event tt xs t = (t', Ok tt) →
  ∃ fib', installed_table fib' t' ∧ fib_agrees fib' new.
Proof.
  intros Hok Hin Ha Hn Hag Hpre Hsame Hxs E. exists (foldl fib_apply fib xs.*2). split.
  - apply (events_installed xs fib t); [done|done| |done]. rewrite Hxs. by apply diff_event_steps.
  - rewrite Hxs. by apply diff_agrees.
Qed.

(** A changed next hop in the kernel of a standalone daemon.  When the next
    hop or interface of one prefix changes and the metric does not, the engine
    publishes an "add" alone; the kernel has a route with that destination and
    priority, so the call fails, and packets keep going to the old next hop. *)
Theorem standalone_keeps_old_next_hop p q routes old new ip net t :
  Prefix old = Prefix new → Metric old = Metric new → forwarding old ≠ forwarding new →
  ParseCIDR (Prefix old) = Some (ip, net) → nl_route net old ∈ ktable t →
  diffAndPublishRoutes p {[Prefix old := old]} {[Prefix new := new]} = [route_add new] ∧
  ∃ t', unicast_event tt (q, routes, route_add new) t = (t', Err "failed to add kernel route") ∧
    ktable t' = ktable t.
Proof.
  intros Hkey Hm Hf Hp Hin. split.
  - assert (∀ q' (r : Route), range q' {[Prefix r := r]} = [(Prefix r, r)]) as Hr.
    { intros q' r. apply Permutation_singleton_r. by rewrite range_perm, map_to_list_singleton. }
    rewrite diffAndPublishRoutes_events. unfold diff_events. rewrite !Hr. simpl. rewrite Hkey, !lookup_singleton_eq.
    destruct (route_changed old new) eqn:E; [done|]. by apply route_changed_spec in E.
  - assert ((RouteAdd t (nl_route net new)).2 = false) as Hno.
    { apply RouteAdd_exists, Exists_exists. by exists (nl_route net old). }
    exists (RouteAdd t (nl_route net new)).1. split; [|by apply RouteAdd_failed].
    unfold unicast_event. simpl. unfold eff_bind, uroute_AddRoute. rewrite <-Hkey, Hp. unfold netlink.
    fold (nl_route net new). destruct (RouteAdd t (nl_route net new)) as [t1 b]. simpl in Hno. by subst b.
Qed.
End unicast.

(** ** Witnesses *)

Definition route_2 : Route := MkRoute "10.0.0.2/32" "10.0.0.2" 1 1.
Definition route_3 : Route := MkRoute "10.0.0.3/32" "10.0.0.2" 2 1.
Definition route_3_moved : Route := MkRoute "10.0.0.3/32" "10.0.0.9" 2 1.
Definition net_3 : IPNet := MkIPNet [10; 0; 0; 3] [255; 255; 255; 255].

(** The two prefixes of the example, and the route to the connected network. *)
Definition prefixes_23 (k : string) : Prop := k = "10.0.0.2/32" ∨ k = "10.0.0.3/32".
Definition connected : NlRoute := MkNlRoute 1 (MkIPNet [10; 0; 0; 0] [255; 255; 255; 0]) None 0.

Lemma prefixes_23_ok : prefixes_ok prefixes_23 [connected].
Proof.
  split.
  - intros k k' ip ip' net [-> | ->] [-> | ->] E E'; vm_compute in E, E'; congruence.
  - intros k ip net r [-> | ->] E ->%list_elem_of_singleton; vm_compute in E; simplify_eq; done.
Qed.

(** 10.0.0.3 leaves and 10.0.0.2 appears. *)
Lemma standalone_follows_witness : ∃ t fib', @installed_table plain_kernel prefixes_23 [connected] fib' t ∧
  fib_agrees fib' {["10.0.0.2/32" := route_2]}.
Proof.
  set (active := {["10.0.0.3/32" := route_3]} : gmap string Route).
  set (new := {["10.0.0.2/32" := route_2]} : gmap string Route).
  set (xs := (λ e, (([] : list positive), active, e)) <$> @diffAndPublishRoutes canonical_order [] active new).
  set (t := [connected; nl_route net_3 route_3]).
  set (t' := (eff_fold (@unicast_event canonical_order plain_kernel) tt xs t).1).
  exists t'. apply (@standalone_follows canonical_order plain_kernel prefixes_23 [connected] [] active new active xs t t').
  - exact prefixes_23_ok.
  - split; [intros k [r [<- _]%lookup_singleton_Some]; by right|]. exists [nl_route net_3 route_3]. split_and!.
    + done.
    + apply NoDup_singleton.
    + intros nr ->%list_elem_of_singleton. exists "10.0.0.3/32", route_3. split; [done|]. by eexists _, _.
    + intros k r [<- <-]%lookup_singleton_Some. exists (nl_route net_3 route_3). split; [by left|]. by eexists _, _.
  - by intros k r [<- <-]%lookup_singleton_Some.
  - by intros k r [<- <-]%lookup_singleton_Some.
  - done.
  - intros k [r [<- _]%lookup_singleton_Some]. by left.
  - by intros k r r' [<- <-]%lookup_singleton_Some [? ?]%lookup_singleton_Some.
  - vm_compute. reflexivity.
  - vm_compute. reflexivity.
Defined.

Lemma standalone_keeps_old_next_hop_witness : ∃ t' : @KTable plain_kernel,
  @unicast_event canonical_order plain_kernel tt ([], ∅, MkEvent EventRouteInstall (DataRoute "add" route_3_moved))
    [nl_route net_3 route_3] = (t', Err "failed to add kernel route") ∧ ktable t' = [nl_route net_3 route_3].
Proof.
  destruct (@standalone_keeps_old_next_hop canonical_order plain_kernel [] [] ∅ route_3 route_3_moved
    (v4InV6Prefix ++ [10; 0; 0; 3]) net_3 [nl_route net_3 route_3]) as [_ H];
    [reflexivity|reflexivity|by intros [=]|vm_compute; reflexivity|by left|exact H].
Defined.
