(* ===== verification/Interleaved.v ===== *)
(** * The route calculation among the other goroutines (internal/olsr/spf.go, cmd/olsrd/daemon.go)

    [topologyUpdateLoop] runs next to the loops that receive, send and age.  A
    manager's operation holds the manager's lock, events included, so it is one
    step; a calculation takes the locks of the managers one after the other,
    and any steps of the others may come between two of its reads. *)

From S2P Require Import Prelude GoNet GoStrings TimeVal Packet Events Neighbor Topology Hna Heap Dijkstra Spf Molsr Config Daemon DaemonOps Monitor Api Process.

(** Where the goroutine of the calculation is, with what it has read. *)
Inductive Calculation :=
  | Waiting                                             (* in the select *)
  | Begun                                               (* [runSpf] called *)
  | HasNeighbors (neighbors : list NeighborTuple)
  | HasTwoHops (neighbors : list NeighborTuple) (twoHops : list (string * list string))
  | HasAdjacency (adj : graph)                          (* the topology tuples, too *)
  | HasEntries (adj : graph) (hnaEntries : list HNAEntry)
  | Calculated.                                         (* [CalculateRoutes] returned *)

Record Concurrent := MkConcurrent {
  c_process : Process;
  c_calculation : Calculation;
}.

Section interleaved.
Context {MO : MapOrder} {FC : FloatConv} {GF : GoFold} {U : GoUnicode} {J : Jwt}.

(** One operation of a manager, by any goroutine, with its events. *)
Definition do_op (full : Event → bool) (op : manager_op) (pr : Process) : Process :=
  let '(d, evs) := run_manager_op (pr_daemon pr) op in publish full evs (set_pr_daemon pr d).

(** The identifier the calculation works with, and the interfaces it looks up. *)
Definition spf_lookup (p : list positive) (pr : Process) : nmLookup :=
  daemon_lookup (monitor_view p (api_monitor (pr_api pr))) (spf_RouterID (pr_daemon pr)) (d_cfg (pr_daemon pr)).

(** The new routes are published and become the active ones. *)
Definition install_routes (full : Event → bool) (p : list positive) (elapsed : Z) (routes : gmap string Route) (pr : Process)
    : Process :=
  publish full
    (diffAndPublishRoutes p (activeRoutes (pr_daemon pr)) routes ++
     [MkEvent EventSPFTrigger (DataSPF (Duration_Seconds elapsed) (Z.of_nat (size routes)))])
    (set_pr_daemon pr (set_activeRoutes (pr_daemon pr) routes)).

(** One step of the goroutine that calculates. *)
Inductive calculation_step (pr : Process) : Calculation → Process → Calculation → Prop :=
  | cs_begin ty e l :
      ty = EventNeighborUpdate ∨ ty = EventTopologyUpdate → pr_queues pr !! ty = Some (e :: l) →
      calculation_step pr Waiting (set_queues pr (<[ty := l]> (pr_queues pr))) Begun
  | cs_no_identifier : spf_RouterID (pr_daemon pr) = "" → calculation_step pr Begun pr Calculated
  | cs_neighbors p : spf_RouterID (pr_daemon pr) ≠ "" →
      calculation_step pr Begun pr (HasNeighbors (GetNeighbors p (neighMgr (pr_daemon pr))))
  | cs_two_hops p q now ns :
      calculation_step pr (HasNeighbors ns) pr
        (HasTwoHops ns (range p (GetTwoHopNeighbors q now (neighMgr (pr_daemon pr)))))
  | cs_topology p ns ths :
      calculation_step pr (HasTwoHops ns ths) pr
        (HasAdjacency (adjacency (spf_RouterID (pr_daemon pr)) ns ths (GetTopology p (topoMgr (pr_daemon pr)))))
  | cs_entries p adj :
      calculation_step pr (HasAdjacency adj) pr (HasEntries adj (GetHNAEntries p (hnaMgr (pr_daemon pr))))
  | cs_install full p q r elapsed adj entries routes :
      route_table p (spf_lookup q pr) adj entries = Ok routes →
      calculation_step pr (HasEntries adj entries) (install_routes full r elapsed routes pr) Calculated
  | cs_mroutes full p :
      calculation_step pr Calculated (do_op full (OpRecalculateMroutes p) pr) Waiting.

(** One step of any goroutine; a handler may also take its operations in one go. *)
Inductive concurrent_step : Concurrent → Concurrent → Prop :=
  | co_op pr c full op : handler_op op →
      concurrent_step (MkConcurrent pr c) (MkConcurrent (do_op full op pr) c)
  | co_loop pr pr' c out : loop_step pr pr' out →
      concurrent_step (MkConcurrent pr c) (MkConcurrent pr' c)
  | co_calculation pr pr' c c' : calculation_step pr c pr' c' →
      concurrent_step (MkConcurrent pr c) (MkConcurrent pr' c').

End interleaved.
