(* ===== verification/InterleavedRoutes.v ===== *)
(** * Routes of interleaved calculations (internal/olsr/spf.go, cmd/olsrd/daemon.go)

    The process that takes a calculation in one go is a special case of the
    interleaved one; and the interleaved calculation, which reads the managers at
    four different moments, still ends with the routes for what the daemon
    knows, once nothing waits. *)

From S2P Require Import Prelude GoNet GoStrings TimeVal Packet Events DiffSync Neighbor NeighborTables NeighborInvariant Topology Hna Heap Dijkstra Spf SpfRoutes SpfSync Molsr MolsrFacts Config Daemon DaemonFacts LinkSensing DaemonOps DaemonInvariant RouteInputs Monitor Api ApiFacts Process ProcessFacts ProcessInvariant ProcessRoutes Interleaved.

#[local] Opaque EncodeTimeVal DecodeTimeVal.

Section interleaved.
Context {MO : MapOrder} {FC : FloatConv} {GF : GoFold} {U : GoUnicode} {J : Jwt}.

Notation steps := (rtc (λ s s', ∃ out, process_step s s' out)).
Notation csteps := (rtc concurrent_step).

Definition c_daemon (s : Concurrent) : Daemon := pr_daemon (c_process s).

(** ** The invariant of the process *)

Lemma do_op_ok id pr full op : process_ok id pr → d_cfg (run_manager_op (pr_daemon pr) op).1 = d_cfg (pr_daemon pr) →
  process_ok id (do_op full op pr).
Proof.
  intros Hok Hc. unfold do_op. pose proof (process_ok_ops id pr) as H.
  specialize (H (set_pr_daemon pr (run_manager_op (pr_daemon pr) op).1) full [op] Hok). cbn [run_manager_ops] in H.
  destruct (run_manager_op (pr_daemon pr) op) as [d evs]. cbn [fst snd] in *. rewrite app_nil_r in H. by apply H.
Qed.

Lemma install_routes_ok id pr full p elapsed routes : process_ok id pr → routes_keyed routes →
  process_ok id (install_routes full p elapsed routes pr).
Proof.
  intros [Hd Hid Hc Hv Hr Hq] Hk. apply process_ok_publish.
  - destruct Hd. by split.
  - apply Forall_app. split; [apply diff_typed|]. apply Forall_singleton_typed. right. right. split; [done|]. by eexists _, _.
Qed.

(** The table is keyed by the prefixes, on any graph. *)
Definition keyed_res (r : res (gmap string Route)) : Prop := ∀ t, r = Ok t → routes_keyed t.

Lemma keyed_insert t k r : routes_keyed t → Prefix r = k → routes_keyed (<[k := r]> t).
Proof. intros Ht Hk k' r' [[<- <-]|[_ H]]%lookup_insert_Some; [done|by apply Ht]. Qed.

Lemma host_step_keyed lk prev acc vd : keyed_res acc → keyed_res (host_step lk prev acc vd).
Proof.
  intros Ha t. unfold host_step. destruct acc as [t0| | |]; try done. rewrite res_bind_Ok.
  specialize (Ha t0 eq_refl). case_bool_decide; [by intros [= <-]|].
  destruct (resolveNextHop _ _ _ _) as [[[nh i]|]| | |]; try done; rewrite res_bind_Ok; intros [= <-]; [|done].
  by apply keyed_insert.
Qed.

Lemma gateway_step_keyed lk dist prev acc e : keyed_res acc → keyed_res (gateway_step lk dist prev acc e).
Proof.
  intros Ha t. unfold gateway_step. destruct acc as [t0| | |]; try done. rewrite res_bind_Ok.
  specialize (Ha t0 eq_refl). destruct (IsLocal e); [by intros [= <-]|].
  destruct (dist !! GatewayIP e) as [d|]; [|by intros [= <-]].
  destruct (resolveNextHop _ _ _ _) as [[[nh i]|]| | |]; try done; rewrite res_bind_Ok; intros [= <-]; [|done].
  destruct (match _ with Some _ => _ | None => _ end); [|done]. by apply keyed_insert.
Qed.

Lemma route_table_keyed p lk adj entries routes : route_table p lk adj entries = Ok routes → routes_keyed routes.
Proof.
  unfold route_table. destruct (runDijkstra _ _ _) as [[dist prev]| | |]; try done. rewrite res_bind_Ok. cbn [fst snd].
  assert (∀ {B} (f : res (gmap string Route) → B → res (gmap string Route)) l acc,
    (∀ acc x, keyed_res acc → keyed_res (f acc x)) → keyed_res acc → keyed_res (foldl f acc l)) as Hfold.
  { intros B f l. induction l as [|x l IH]; intros acc Hf Hacc; [done|]. apply IH; [done|by apply Hf]. }
  intros E. revert routes E. change (keyed_res (foldl (gateway_step lk dist prev)
    (foldl (host_step lk prev) (Ok ∅) (range (3%positive :: p) dist)) entries)).
  apply Hfold; [intros; by apply gateway_step_keyed|]. apply Hfold; [intros; by apply host_step_keyed|].
  intros t [= <-] k r. by rewrite lookup_empty.
Qed.

Lemma calculation_step_ok id pr c pr' c' : process_ok id pr → calculation_step pr c pr' c' → process_ok id pr'.
Proof.
  intros Hok Hs. destruct Hs as [ty e l Hty Hq|E|p E|p q now ns|p ns ths|p adj|full p q r elapsed adj entries routes Er|full p]; try done.
  - by eapply process_ok_pop.
  - apply install_routes_ok; [done|]. by eapply route_table_keyed.
  - by apply do_op_ok.
Qed.

Lemma handler_op_config d op : handler_op op → d_cfg (run_manager_op d op).1 = d_cfg d.
Proof. intros Ho. pose proof (ops_config d [op]) as H. cbn [run_manager_ops] in H. destruct (run_manager_op d op). by apply H, Forall_singleton. Qed.

Lemma concurrent_step_ok id s s' : process_ok id (c_process s) → concurrent_step s s' → process_ok id (c_process s').
Proof.
  intros Hok Hs. destruct Hs as [pr c full op Ho|pr pr' c out Hs|pr pr' c c' Hs].
  - apply do_op_ok; [exact Hok|by apply handler_op_config].
  - by eapply loop_step_ok.
  - by eapply calculation_step_ok.
Qed.

(** ** What was read *)

(** Steps through given states, in order. *)
Fixpoint passes (s : Concurrent) (l : list Concurrent) (s' : Concurrent) : Prop :=
  match l with
  | [] => csteps s s'
  | x :: l => csteps s x ∧ passes x l s'
  end.

Lemma passes_step s l s' s'' : passes s l s' → concurrent_step s' s'' → passes s l s''.
Proof.
  revert s. induction l as [|x l IH]; intros s; simpl; [intros; by eapply rtc_r|].
  intros [H1 H2] Hs. split; [done|]. by eapply IH.
Qed.

Lemma passes_here s l s' : passes s l s' → passes s (l ++ [s']) s'.
Proof. revert s. induction l as [|x l IH]; intros s; simpl; [done|]. intros [H1 H2]. split; [done|by apply IH]. Qed.

(** The daemon that four reads show: links and neighbors, 2-hop neighbors,
    topology tuples, associations. *)
Definition seen (d1 d2 d3 d4 : Daemon) : Daemon :=
  set_hnaMgr (set_topoMgr (set_neighMgr d1 (set_twoHopLinks (neighMgr d1) (twoHopLinks (neighMgr d2)))) (topoMgr d3)) (hnaMgr d4).

Definition same_links (d d' : Daemon) : Prop := ∀ a, link_state (neighMgr d) a = link_state (neighMgr d') a.
Definition same_topology (d d' : Daemon) : Prop :=
  ∀ dst last, is_Some (topo_at (topology (topoMgr d)) dst last) ↔ is_Some (topo_at (topology (topoMgr d')) dst last).
Definition same_gateways (d d' : Daemon) : Prop :=
  ∀ cidr gw, is_Some (hna_at (hnaSet (hnaMgr d)) cidr gw) ↔ is_Some (hna_at (hnaSet (hnaMgr d')) cidr gw).

Lemma same_links_trans d d' d'' : same_links d d' → same_inputs d' d'' → same_links d d''.
Proof. intros H [H1 _ _] a. by rewrite H. Qed.
Lemma same_topology_trans d d' d'' : same_topology d d' → same_inputs d' d'' → same_topology d d''.
Proof. intros H [_ H1 _] dst last. rewrite <-H1. apply H. Qed.
Lemma same_gateways_trans d d' d'' : same_gateways d d' → same_inputs d' d'' → same_gateways d d''.
Proof. intros H [_ _ H1] cidr gw. rewrite <-H1. apply H. Qed.

(** The active routes are the best for what was seen in four earlier states, in
    this order, each in agreement with the present one. *)
Definition routes_seen (id : string) (init s : Concurrent) : Prop :=
  ∃ s1 s2 s3 s4, passes init [s1; s2; s3; s4] s ∧
    same_inputs (seen (c_daemon s1) (c_daemon s2) (c_daemon s3) (c_daemon s4)) (c_daemon s) ∧
    routes_best_for id (seen (c_daemon s1) (c_daemon s2) (c_daemon s3) (c_daemon s4)) (activeRoutes (c_daemon s)).

Definition read_ok (id : string) (init s : Concurrent) : Prop :=
  match c_calculation s with
  | Waiting | Calculated => routes_seen id init s
  | Begun => True
  | HasNeighbors ns => ∃ s1 p, passes init [s1] s ∧ same_links (c_daemon s1) (c_daemon s) ∧
      ns = GetNeighbors p (neighMgr (c_daemon s1))
  | HasTwoHops ns ths => ∃ s1 s2 p q r now, passes init [s1; s2] s ∧ same_links (c_daemon s1) (c_daemon s) ∧
      ns = GetNeighbors p (neighMgr (c_daemon s1)) ∧ ths = range q (GetTwoHopNeighbors r now (neighMgr (c_daemon s2)))
  | HasAdjacency adj => ∃ s1 s2 s3 now, passes init [s1; s2; s3] s ∧
      same_links (c_daemon s1) (c_daemon s) ∧ same_topology (c_daemon s3) (c_daemon s) ∧
      unit_graph (known_link now (neighMgr (seen (c_daemon s1) (c_daemon s2) (c_daemon s3) (c_daemon s3)))
        (topoMgr (c_daemon s3)) id) adj
  | HasEntries adj entries => ∃ s1 s2 s3 s4 now q, passes init [s1; s2; s3; s4] s ∧
      same_inputs (seen (c_daemon s1) (c_daemon s2) (c_daemon s3) (c_daemon s4)) (c_daemon s) ∧
      unit_graph (known_link now (neighMgr (seen (c_daemon s1) (c_daemon s2) (c_daemon s3) (c_daemon s4)))
        (topoMgr (c_daemon s3)) id) adj ∧ entries = GetHNAEntries q (hnaMgr (c_daemon s4))
  end.

Lemma routes_seen_quiet id init s s' : routes_seen id init s → concurrent_step s s' →
  same_inputs (c_daemon s) (c_daemon s') → activeRoutes (c_daemon s') = activeRoutes (c_daemon s) → routes_seen id init s'.
Proof.
  intros (s1 & s2 & s3 & s4 & Hp & H1 & H2) Hs Hi Er. exists s1, s2, s3, s4. split; [by eapply passes_step|].
  split; [by etrans|by rewrite Er].
Qed.

Lemma read_ok_quiet id init s s' : read_ok id init s → concurrent_step s s' → c_calculation s' = c_calculation s →
  same_inputs (c_daemon s) (c_daemon s') → activeRoutes (c_daemon s') = activeRoutes (c_daemon s) → read_ok id init s'.
Proof.
  unfold read_ok. intros Hr Hs -> Hi Er.
  destruct (c_calculation s) as [| |ns|ns ths|adj|adj entries|]; [|done| | | | |].
  1, 6: by eapply routes_seen_quiet.
  - destruct Hr as (s1 & p & Hp & Hl & ->). exists s1, p. split; [by eapply passes_step|].
    split; [by eapply same_links_trans|done].
  - destruct Hr as (s1 & s2 & p & q & r & now & Hp & Hl & -> & ->). exists s1, s2, p, q, r, now.
    split; [by eapply passes_step|]. split; [by eapply same_links_trans|done].
  - destruct Hr as (s1 & s2 & s3 & now & Hp & Hl & Ht & Hu). exists s1, s2, s3, now. split; [by eapply passes_step|].
    split; [by eapply same_links_trans|]. split; [by eapply same_topology_trans|done].
  - destruct Hr as (s1 & s2 & s3 & s4 & now & q & Hp & Hi' & H). exists s1, s2, s3, s4, now, q.
    split; [by eapply passes_step|]. split; [by etrans|done].
Qed.

(** Right after a read. *)
Lemma same_links_refl d : same_links d d.
Proof. done. Qed.

Lemma seen_inputs d1 d2 d3 d4 d : same_links d1 d → same_topology d3 d → same_gateways d4 d → same_inputs (seen d1 d2 d3 d4) d.
Proof. by split. Qed.

Definition fresh_calculation (id : string) (init s : Concurrent) : Prop := pending (c_process s) ∨ read_ok id init s.

Lemma do_op_informs full op pr : queues_ok (pr_queues pr) → handler_op op → informs pr (do_op full op pr).
Proof.
  intros Hq Ho. unfold do_op.
  pose proof (informs_ops pr (set_pr_daemon pr (run_manager_op (pr_daemon pr) op).1)
    (publish full (run_manager_op (pr_daemon pr) op).2 (set_pr_daemon pr (run_manager_op (pr_daemon pr) op).1)) full [op] Hq) as H.
  cbn [run_manager_ops] in H. destruct (run_manager_op (pr_daemon pr) op) as [d evs]. cbn [fst snd] in *.
  rewrite app_nil_r in H. apply H; [by apply Forall_singleton|done..].
Qed.

Lemma fresh_informs id init s s' : fresh_calculation id init s → concurrent_step s s' →
  c_calculation s' = c_calculation s → informs (c_process s) (c_process s') → fresh_calculation id init s'.
Proof.
  intros Hf Hs Ec [H1 H2]. destruct Hf as [Hp|Hr]; [left; by apply H1|].
  destruct H2 as [H2|[Hi Er]]; [by left|]. right. by eapply read_ok_quiet.
Qed.

Lemma c_daemon_publish full evs pr c : c_daemon (MkConcurrent (publish full evs pr) c) = pr_daemon pr.
Proof. apply pr_daemon_publish. Qed.

Lemma fresh_calculation_step id init pr c pr' c' : process_ok id pr → csteps init (MkConcurrent pr c) →
  fresh_calculation id init (MkConcurrent pr c) → calculation_step pr c pr' c' →
  fresh_calculation id init (MkConcurrent pr' c').
Proof.
  intros Hok Hr Hf Hs. pose proof (co_calculation _ _ _ _ Hs) as Hc. set (s := MkConcurrent pr c) in *.
  assert (∀ l, passes init l s → passes init (l ++ [s]) (MkConcurrent pr' c')) as Hhere.
  { intros l Hp. eapply passes_step; [by apply passes_here|exact Hc]. }
  pose proof (dw_spf _ _ (po_daemon _ _ Hok)) as Eid. pose proof (po_id _ _ Hok) as Hid.
  destruct Hs as [ty e l Hty Hq|E|p E|p q now ns|p ns ths|p adj|full p q r elapsed adj entries routes Er|full p].
  - by right.
  - by rewrite Eid in E.
  - destruct Hf as [Hp|_]; [by left|]. right. exists s, p. split; [|done]. by apply (Hhere []).
  - destruct Hf as [Hp|(s1 & p1 & Hp & Hl & ->)]; [by left|]. right. exists s1, s, p1, p, q, now.
    split; [by apply (Hhere [s1])|done].
  - destruct Hf as [Hp|(s1 & s2 & p1 & p2 & p3 & now & Hp & Hl & -> & ->)]; [by left|]. right.
    exists s1, s2, s, now. split; [by apply (Hhere [s1; s2])|]. split; [done|]. split; [done|].
    rewrite Eid. apply adjacency_read.
  - destruct Hf as [Hp|(s1 & s2 & s3 & now & Hp & Hl & Ht & Hu)]; [by left|]. right.
    exists s1, s2, s3, s, now, p. split; [by apply (Hhere [s1; s2; s3])|]. split; [by apply seen_inputs|done].
  - destruct Hf as [Hp|(s1 & s2 & s3 & s4 & now & q4 & Hp & Hi & Hu & ->)]; [left; by apply publish_pending|]. right.
    exists s1, s2, s3, s4. split; [by eapply passes_step|]. unfold install_routes. rewrite c_daemon_publish.
    split; [etrans; [exact Hi|by apply same_inputs_parts]|].
    destruct (route_table_best p (spf_lookup q pr) adj (GetHNAEntries q4 (hnaMgr (c_daemon s4)))) as (routes' & Er' & Hb).
    { by eapply unit_graph_positive. }
    rewrite Er in Er'. injection Er' as <-. unfold spf_lookup in Hb. rewrite Eid in Hb.
    eexists _, _, now, adj, q4. by split.
  - destruct (do_op_informs full (OpRecalculateMroutes p) pr (po_queues _ _ Hok) I) as [H1 H2].
    destruct Hf as [Hp|Hu]; [left; by apply H1|]. destruct H2 as [H2|[Hi Er]]; [by left|]. right.
    by apply (routes_seen_quiet id init s).
Qed.

Lemma fresh_concurrent_step id init s s' : process_ok id (c_process s) → csteps init s →
  fresh_calculation id init s → concurrent_step s s' → fresh_calculation id init s'.
Proof.
  intros Hok Hr Hf Hs. pose proof Hs as Hs'. destruct Hs' as [pr c full op Ho|pr pr' c out Hl|pr pr' c c' Hl].
  - eapply fresh_informs; [done|exact Hs|done|]. apply do_op_informs; [apply Hok|done].
  - eapply fresh_informs; [done|exact Hs|done|]. by eapply loop_step_informs.
  - by eapply fresh_calculation_step.
Qed.

(** ** The start *)

Lemma start_routes_seen {Data} (read : string → res Data) unmarshal path standalone init :
  main read unmarshal path false standalone = inr init →
  routes_seen (cfg_RouterID (pr_run_cfg init)) (MkConcurrent init Waiting) (MkConcurrent init Waiting).
Proof.
  intros Hm. set (s := MkConcurrent init Waiting). assert (csteps s s) as Hr by apply rtc_refl. exists s, s, s, s.
  split; [exact (conj Hr (conj Hr (conj Hr (conj Hr Hr))))|].
  apply main_starts in Hm as (_ & _ & Ed & _). unfold c_daemon. cbn [c_process s]. rewrite Ed.
  set (d := initializeComponents _ _).
  assert (seen d d d d = d) as -> by done. split; [done|]. exact (start_routes_best _ _).
Qed.

(** C14. The routes follow the links, whatever the goroutines interleave.  When in
    a state that a started daemon can reach no event was lost, none waits for the
    calculation and none is in progress, the active routes are the best ones for
    what was read in four earlier states, one after the other: the links in the
    first, the 2-hop neighbors in the second, the topology tuples in the third,
    the gateways in the fourth; and the links, the tuples and the gateways
    that were read are those of now.  (2-hop neighbors and new asymmetric links
    can differ: their changes are not announced.) *)
Theorem interleaved_routes_follow {Data} (read : string → res Data) unmarshal path standalone init s :
  main read unmarshal path false standalone = inr init → csteps (MkConcurrent init Waiting) s →
  pr_lost (c_process s) = false → c_calculation s = Waiting →
  pr_queues (c_process s) !! EventNeighborUpdate = Some [] → pr_queues (c_process s) !! EventTopologyUpdate = Some [] →
  routes_seen (cfg_RouterID (pr_run_cfg init)) (MkConcurrent init Waiting) s.
Proof.
  intros Hm Hs Hl Hc Hn Ht. set (id := cfg_RouterID (pr_run_cfg init)). set (s0 := MkConcurrent init Waiting) in *.
  assert (process_ok id (c_process s) ∧ csteps s0 s ∧ fresh_calculation id s0 s) as (_ & _ & Hf).
  { clear Hl Hc Hn Ht. revert s Hs. apply (rtc_ind_r (λ s, process_ok id (c_process s) ∧ csteps s0 s ∧ fresh_calculation id s0 s)).
    - split; [by eapply process_ok_start|]. split; [done|]. right. by eapply start_routes_seen.
    - intros s s' _ Hs (Hok & Hr & Hf). split; [by eapply concurrent_step_ok|].
      split; [by eapply rtc_r|by eapply fresh_concurrent_step]. }
  destruct Hf as [[E|(ty & e & l & [->| ->] & E)]|Hu]; [congruence..|]. unfold read_ok in Hu. by rewrite Hc in Hu.
Qed.

(** ** The calculation in one go *)

Lemma set_pr_daemon_publish full evs d : ∀ pr, set_pr_daemon (publish full evs pr) d = publish full evs (set_pr_daemon pr d).
Proof.
  induction evs as [|e evs IH]; intros pr; [done|].
  change (set_pr_daemon (publish full evs (publish1 full pr e)) d = publish full evs (publish1 full (set_pr_daemon pr d) e)).
  rewrite IH. f_equal.
  unfold publish1. cbn [pr_queues set_pr_daemon set_api]. destruct (pr_queues pr !! ev_Type e); [|done]. by destruct (full e).
Qed.

Lemma set_pr_daemon_twice pr d d' : set_pr_daemon (set_pr_daemon pr d) d' = set_pr_daemon pr d'.
Proof.
  unfold set_pr_daemon, set_api, set_daemon. cbn [pr_mgr pr_run_cfg pr_api pr_queues pr_lost pr_done pr_gauges api_daemon
    api_monitor api_zapi rateLimits audit published]. by rewrite app_nil_r.
Qed.

Lemma publish_app full evs evs' pr : publish full (evs ++ evs') pr = publish full evs' (publish full evs pr).
Proof. apply foldl_app. Qed.

(** The two operations of [runSpf], one after the other. *)
Lemma on_topology_event_ops full clock p elapsed pr :
  let mon := monitor_view (3%positive :: p) (api_monitor (pr_api pr)) in
  on_topology_event full clock p elapsed pr =
    do_op full (OpRecalculateMroutes (2%positive :: p))
      (do_op full (OpCalculateRoutes (1%positive :: p) mon (clock p) elapsed) pr).
Proof.
  cbv zeta. unfold on_topology_event, handled. set (mon := monitor_view _ _).
  pose proof (runSpf_ops clock p mon elapsed (pr_daemon pr)) as E. cbn [run_manager_ops] in E.
  unfold do_op. destruct (run_manager_op (pr_daemon pr) _) as [d1 e1] eqn:E1. rewrite pr_daemon_publish.
  change (pr_daemon (set_pr_daemon pr d1)) with d1. destruct (run_manager_op d1 _) as [d2 e2] eqn:E2.
  apply pair_equal_spec in E as [<- <-]. by rewrite app_nil_r, publish_app, !set_pr_daemon_publish, set_pr_daemon_twice.
Qed.

Lemma calculation_in_one_go full clock p elapsed ty e l pr : spf_RouterID (pr_daemon pr) ≠ "" →
  ty = EventNeighborUpdate ∨ ty = EventTopologyUpdate → pr_queues pr !! ty = Some (e :: l) →
  csteps (MkConcurrent pr Waiting)
    (MkConcurrent (on_topology_event full clock p elapsed (set_queues pr (<[ty := l]> (pr_queues pr)))) Waiting).
Proof.
  intros Hid Hty Hq. rewrite on_topology_event_ops. set (pr1 := set_queues _ _). cbv zeta.
  set (mon := monitor_view _ _). set (d := pr_daemon pr). set (q := 1%positive :: p). set (q1 := 1%positive :: q).
  set (lk := daemon_lookup mon (spf_RouterID d) (d_cfg d)).
  destruct (computeRoutes_best q1 lk (clock p) (neighMgr d) (topoMgr d) (hnaMgr d)) as (routes & Er & _).
  assert (do_op full (OpCalculateRoutes q mon (clock p) elapsed) pr1 =
    install_routes full (2%positive :: q) elapsed routes pr1) as ->.
  { unfold do_op. cbn [run_manager_op]. change (pr_daemon pr1) with d. unfold CalculateRoutes. fold lk. fold q1.
    rewrite Er, bool_decide_false by done. done. }
  eapply rtc_l; [apply co_calculation; by eapply cs_begin|].
  eapply rtc_l; [apply co_calculation, (cs_neighbors _ (1%positive :: 1%positive :: q1)), Hid|].
  eapply rtc_l; [apply co_calculation, (cs_two_hops _ (2%positive :: 1%positive :: q1) (3%positive :: 1%positive :: q1) (clock p))|].
  eapply rtc_l; [apply co_calculation, (cs_topology _ (4%positive :: 1%positive :: q1))|].
  eapply rtc_l; [apply co_calculation, (cs_entries _ (4%positive :: q1))|].
  eapply rtc_l; [apply co_calculation, (cs_install _ full q1 (3%positive :: p) (2%positive :: q) elapsed); exact Er|].
  apply rtc_once, co_calculation, cs_mroutes.
Qed.

(** The process as one interleaving.  Every run of the process that calculates
    in one go is a run of the interleaved one, from the same start. *)
Theorem process_interleaves {Data} (read : string → res Data) unmarshal path standalone init pr :
  main read unmarshal path false standalone = inr init → steps init pr →
  csteps (MkConcurrent init Waiting) (MkConcurrent pr Waiting).
Proof.
  intros Hm. revert pr. apply (rtc_ind_r (λ pr, csteps (MkConcurrent init Waiting) (MkConcurrent pr Waiting))); [done|].
  intros pr pr' Hr [out Hs] IH. etrans; [exact IH|].
  pose proof (process_reachable_ok read unmarshal path standalone init pr Hm Hr) as Hok.
  destruct Hs as [pr' out Hl|full clock p elapsed ty e l Hty Hq]; [by eapply rtc_once, co_loop|].
  eapply calculation_in_one_go; [|done|exact Hq]. rewrite (dw_spf _ _ (po_daemon _ _ Hok)). by apply (po_id _ _ Hok).
Qed.
End interleaved.

(** ** Witnesses *)

#[local] Existing Instance canonical_order.

Notation csteps_1 := (rtc (@concurrent_step canonical_order amd64_conv ascii_fold ascii_only one_token)).

Lemma process_interleaves_witness : csteps_1 (MkConcurrent process_1 Waiting) (MkConcurrent process_3 Waiting).
Proof.
  exact (@process_interleaves canonical_order amd64_conv ascii_fold ascii_only one_token unit read_any
    (decode_to (config_1 "10.0.0.1")) "olsrd.yaml" true process_1 process_3 process_1_starts process_3_steps).
Defined.

(** The calculation that the request started; after its first read the daemon
    sends a message. *)
Definition process_4 : Process := set_queues process_2 (<[EventTopologyUpdate := []]> (pr_queues process_2)).
Definition process_5 : Process := @do_op canonical_order (λ _, false) OpNextSeq process_4.
Definition process_6 : Process := @install_routes canonical_order (λ _, false) [] 1000 ∅ process_5.
Definition process_7 : Process := @do_op canonical_order (λ _, false) (OpRecalculateMroutes []) process_6.

Lemma process_7_csteps : csteps_1 (MkConcurrent process_1 Waiting) (MkConcurrent process_7 Waiting).
Proof.
  pose proof (λ pr c pr' c', @co_calculation canonical_order amd64_conv ascii_fold ascii_only one_token pr pr' c c') as calc.
  assert (pr_queues process_2 !! EventTopologyUpdate = Some [topology_event "local_hna_add"]) as E by (vm_compute; reflexivity).
  eapply rtc_l; [eapply co_loop; exact (@st_request canonical_order amd64_conv ascii_fold ascii_only one_token process_1
    (λ _, false) (λ _, 0) [] hna_request)|].
  eapply rtc_l; [apply (calc process_2 Waiting process_4 Begun), (cs_begin process_2 EventTopologyUpdate (topology_event "local_hna_add") []); [tauto|exact E]|].
  eapply rtc_l; [apply (calc process_4 Begun process_4 (HasNeighbors [])); exact (cs_neighbors process_4 [] ltac:(intros H; vm_compute in H; discriminate H))|].
  eapply rtc_l; [exact (@co_op canonical_order amd64_conv ascii_fold ascii_only one_token process_4 (HasNeighbors [])
    (λ _, false) OpNextSeq I)|].
  eapply rtc_l; [apply (calc process_5 (HasNeighbors []) process_5 (HasTwoHops [] [])); exact (cs_two_hops process_5 [] [] 0 [])|].
  eapply rtc_l; [apply (calc process_5 (HasTwoHops [] []) process_5 (HasAdjacency ∅)); exact (cs_topology process_5 [] [] [])|].
  eapply rtc_l; [apply (calc _ _ _ _ (cs_entries process_5 [] ∅))|].
  eapply rtc_l; [apply (calc _ _ process_6 Calculated)|].
  { apply (cs_install process_5 (λ _, false) [] [] [] 1000 ∅ _ ∅). vm_compute. reflexivity. }
  apply rtc_once, (calc process_6 Calculated process_7 Waiting), cs_mroutes.
Qed.

Lemma interleaved_routes_follow_witness :
  ∃ s1, csteps_1 (MkConcurrent process_1 Waiting) s1 ∧ same_links (c_daemon s1) (pr_daemon process_7).
Proof.
  destruct (@interleaved_routes_follow canonical_order amd64_conv ascii_fold ascii_only one_token unit read_any
    (decode_to (config_1 "10.0.0.1")) "olsrd.yaml" true process_1 (MkConcurrent process_7 Waiting) process_1_starts process_7_csteps
    ltac:(vm_compute; reflexivity) eq_refl ltac:(vm_compute; reflexivity) ltac:(vm_compute; reflexivity))
    as (s1 & s2 & s3 & s4 & (H1 & _) & [H2 _ _] & _).
  exists s1. exact (conj H1 H2).
Defined.
