(* ===== verification/AddressSafety.v ===== *)
(** * Addresses in the tables (internal/olsr, cmd/olsrd/daemon.go)

    [findOutgoingInterface] indexes the four bytes of a next hop without a check.
    What the daemon learns comes from frames, whose addresses are IPv4 addresses;
    so the neighbors, 2-hop neighbors and destinations in the tables are printed
    IPv4 addresses, and the lookups of a route calculation do not panic. *)

From S2P Require Import Prelude GoNet GoStrings TimeVal Packet PacketCodec PacketRelay Events DiffSync Neighbor NeighborTables NeighborInvariant Topology Hna Heap Dijkstra Spf SpfRoutes SpfSync Molsr MolsrFacts Config Daemon DaemonFacts LinkSensing DaemonOps DaemonInvariant RouteInputs Monitor Api ApiFacts Process ProcessFacts ProcessInvariant ProcessRoutes Interleaved InterleavedRoutes.

#[local] Opaque EncodeTimeVal DecodeTimeVal.

(** The text of an IPv4 address. *)
Definition printed (a : string) : Prop := ∃ ip, is_ip4 ip ∧ a = IP_String ip.

Record addresses_ok (d : Daemon) : Prop := {
  ao_neighbors k n : neighbors (neighMgr d) !! k = Some n → printed (neigh_NeighborIP n);
  ao_two_hop u ths v e : twoHopLinks (neighMgr d) !! u = Some ths → ths !! v = Some e → printed v;
  ao_topology dst last t : topo_at (topology (topoMgr d)) dst last = Some t → printed (DestIP t);
  ao_routes k r : activeRoutes d !! k = Some r → printed (NextHop r);
}.

Section addresses.
Context {MO : MapOrder} {FC : FloatConv} {GF : GoFold} {U : GoUnicode} {J : Jwt}.

Notation csteps := (rtc concurrent_step).

(** ** Operations *)

(** Only the two managers and the routes count. *)
Lemma addresses_ok_parts d d' : neighbors (neighMgr d') = neighbors (neighMgr d) →
  twoHopLinks (neighMgr d') = twoHopLinks (neighMgr d) → topology (topoMgr d') = topology (topoMgr d) →
  activeRoutes d' = activeRoutes d → addresses_ok d → addresses_ok d'.
Proof. intros E1 E2 E3 E4 [H1 H2 H3 H4]. split; rewrite ?E1, ?E2, ?E3, ?E4; done. Qed.

(** A manager of neighbors in good order. *)
Definition nm_addresses (nm : NeighborManager) : Prop :=
  (∀ k n, neighbors nm !! k = Some n → printed (neigh_NeighborIP n)) ∧
  (∀ u ths v e, twoHopLinks nm !! u = Some ths → ths !! v = Some e → printed v).

Lemma set_neigh_addresses d nm : addresses_ok d → nm_addresses nm → addresses_ok (set_neighMgr d nm).
Proof. intros [_ _ H H'] [H1 H2]. by split. Qed.

Lemma recalculate_addresses p now nm : nm_addresses nm → nm_addresses (recalculateMPRs p now nm).
Proof. intros H. destruct (recalculateMPRs_tables p now nm) as [s ->]. exact H. Qed.

Lemma hello_addresses p now now' nm sender orig hello vtime : is_ip4 orig → body_addresses (BodyHello hello) →
  nm_addresses nm → nm_addresses (ProcessHello p now now' nm sender orig hello vtime).1.
Proof.
  intros Ho Hb [H1 H2]. simpl in Hb. rewrite Forall_forall in Hb.
  destruct (ProcessHello_effect p now now' nm sender orig hello vtime) as (nm1 & heard & _ & Heff & _ & ->).
  assert (nm_addresses nm1) as Hnm.
  { split.
    - intros k n. rewrite (he_neighbors _ _ _ _ _ _ _ Heff).
      intros [[<- <-]|[_ Hk]]%lookup_insert_Some; [|by eapply H1]. simpl.
      destruct (neighbors nm !! IP_String orig) as [n|] eqn:E; simpl; [by eapply H1|by exists orig].
    - intros u ths v e. pose proof (he_twoHop _ _ _ _ _ _ _ Heff) as Ht. destruct heard.
      + destruct Ht as (m & -> & Hm). intros [[<- <-]|[_ Hu]]%lookup_insert_Some; [|by eapply H2].
        intros [(_ & _ & (lm & a & Hlm & Ha & <- & _)) _]%Hm. exists a. split; [|done].
        specialize (Hb lm Hlm). rewrite Forall_forall in Hb. by apply Hb.
      + rewrite Ht. intros [_ Hu]%lookup_delete_Some. by eapply H2. }
  destruct (link_flips _ _ _); [by apply recalculate_addresses|done].
Qed.

Lemma neighbor_age_addresses p now now' nm : nm_addresses nm → nm_addresses (Neighbor.AgeOut p now now' nm).1.1.
Proof.
  intros [H1 H2]. destruct (AgeOut_aged p now now' nm) as (nm1 & c & Hag & _ & _ & ->).
  assert (nm_addresses nm1) as Hnm.
  { split.
    - intros k n. rewrite (aged_neighbors _ _ _ Hag). intros (n0 & Hn & ->)%fmap_Some. specialize (H1 _ _ Hn).
      by destruct (lost_in _ _ _).
    - intros u ths v e. rewrite (aged_twoHop _ _ _ Hag).
      intros (i & Hi & -> & _)%live_nested_lookup [He _]%live_lookup.
      unfold twoHop_kept in Hi. apply map_lookup_filter_Some in Hi as [Hi _]. by eapply H2. }
  destruct c; [by apply recalculate_addresses|done].
Qed.

Lemma op_addresses d op : handler_op op → addresses_ok d → addresses_ok (run_manager_op d op).1.
Proof.
  intros Hop Hd. assert (nm_addresses (neighMgr d)) as Hnm by (destruct Hd; by split).
  destruct op as [p now now' sender orig hello vtime|p now now'|op|now orig hna vtime|n|n|p now|now orig sc vtime
    |now orig cp vtime|now src grp dur|src grp|now src grp parent child dur|src grp child|p now|p mon now elapsed|p| |cfg];
    cbn [run_manager_op with_neigh with_hna with_molsr fst]; try (by eapply addresses_ok_parts; [..|exact Hd]); try done.
  - apply set_neigh_addresses; [done|]. apply hello_addresses; [apply Hop|apply Hop|done].
  - apply set_neigh_addresses; [done|]. by apply neighbor_age_addresses.
  - destruct Hd as [H1 H2 H3 H4]. split; [exact H1|exact H2| |exact H4]. cbn [topoMgr set_topoMgr]. intros dst last t.
    destruct op as [now o s v|now o tc v|now o mid v|p now]; cbn [run_op].
    + apply H3.
    + destruct Hop as [Ho Hb]. simpl in Hb. rewrite Forall_forall in Hb. unfold ProcessTC.
      destruct (tc_fold_spec (IP_String o) (ANSN tc) (now + v) (tc_NeighborAddresses tc) (topology (topoMgr d)) false) as [Hf _].
      destruct (foldl _ _ _) as [topo u]. cbn [fst snd topology] in *. rewrite Hf.
      case_decide as Hdl; [|apply H3]. destruct Hdl as [-> (a & -> & Ha)%list_elem_of_fmap]. intros [= <-].
      assert (printed (IP_String a)) as Hp by (exists a; split; [by apply Hb|done]).
      destruct (topo_at _ _ _) as [t|] eqn:E; simpl; [|exact Hp].
      specialize (H3 _ _ _ E). by destruct (ansn_accepted _ _).
    + apply H3.
    + pose proof (topology_AgeOut_spec p now (topoMgr d)) as H. destruct (Topology.AgeOut p now (topoMgr d)) as [[tm' evs] c].
      destruct H as (H & _). cbn [fst]. intros [Ht _]%H. by eapply H3.
Qed.

Lemma ops_addresses d ops : Forall handler_op ops → addresses_ok d → addresses_ok (run_manager_ops d ops).1.
Proof. intros Ho Hd. rewrite Forall_forall in Ho. apply run_manager_ops_ind; [|done]. intros. apply op_addresses; auto. Qed.

Lemma does_addresses d r : does d r → addresses_ok d → addresses_ok r.1.
Proof.
  intros (ops & E & Ho) Hd. change r.1 with ((r.1, published_of r.2).1). rewrite <-E. by apply ops_addresses.
Qed.

Lemma addresses_ok_start cfg mon : addresses_ok (initializeComponents cfg mon).
Proof.
  split; simpl.
  - intros k n. by rewrite lookup_empty.
  - intros u ths v e. by rewrite lookup_empty.
  - intros dst last t. unfold topo_at. by rewrite lookup_empty.
  - intros k r. by rewrite lookup_empty.
Qed.

(** ** Steps *)

Lemma loop_step_addresses pr pr' out : loop_step pr pr' out → addresses_ok (pr_daemon pr) → addresses_ok (pr_daemon pr').
Proof.
  intros Hs Hd. destruct Hs as [h full clock p t|h full clock p data raddr r Hu8 Hr|p e l Hq|e l g Hq Hm
    |full clock p r|Data read unmarshal Hdone|Hdone|full u links|full up]; try done.
  - unfold on_tick, handled. cbn [fst].
    assert (pr_daemon (tick_gauges (6%positive :: p) t (publish full (published_of (tick_handler clock p t (pr_daemon pr)).2)
      (set_pr_daemon pr (tick_handler clock p t (pr_daemon pr)).1))) = (tick_handler clock p t (pr_daemon pr)).1) as ->.
    { by destruct t; cbn [tick_gauges]; try apply pr_daemon_publish. }
    eapply does_addresses; [apply tick_handler_does|done].
  - unfold handled. rewrite pr_daemon_publish. by eapply does_addresses; [eapply processReceivedData_does|].
  - destruct (on_request_ops full clock p r pr) as (s' & ops & Ho & Ed & ->). rewrite pr_daemon_publish.
    change (pr_daemon (set_api pr s')) with (api_daemon s'). rewrite Ed. by apply ops_addresses.
  - unfold on_hup. destruct (Reload _ _ _) as [m rr]. by eapply addresses_ok_parts; [..|exact Hd].
  - unfold on_link_update, linux_update. by rewrite pr_daemon_publish.
  - unfold on_zapi. destruct (api_zapi (pr_api pr)); [|done]. by rewrite pr_daemon_publish.
Qed.

(** ** The calculation *)

(** The edges that leave the router, in what a calculation has read. *)
Definition hops_printed (id : string) (adj : graph) : Prop :=
  positive_costs adj ∧ ∀ u v c, edge adj u v c → v = id ∨ printed v.

Definition read_printed (id : string) (c : Calculation) : Prop :=
  match c with
  | HasNeighbors ns => ∀ n, n ∈ ns → printed (neigh_NeighborIP n)
  | HasTwoHops ns ths =>
      (∀ n, n ∈ ns → printed (neigh_NeighborIP n)) ∧ ∀ kv v, kv ∈ ths → v ∈ kv.2 → printed v
  | HasAdjacency adj | HasEntries adj _ => hops_printed id adj
  | _ => True
  end.

(** The next hop that is found is linked to the router and is not the router. *)
Lemma resolve_hop fuel getIface prev id v h i :
  resolveNextHop_loop fuel getIface prev id v = Ok (Some (h, i)) → prev !! h = Some id ∧ i = getIface h.
Proof.
  revert v. induction fuel as [|fuel IH]; intros v; [done|]. cbn [resolveNextHop_loop].
  destruct (prev !! v) as [u|] eqn:E; [|done]. case_bool_decide; [intros [= <- <-]; by subst|apply IH].
Qed.

Lemma resolved_printed p id adj dist prev getIface v h i : hops_printed id adj →
  runDijkstra p id adj = Ok (dist, prev) → resolveNextHop getIface v prev id = Ok (Some (h, i)) → printed h.
Proof.
  intros [Hpos Hp] Hd [Hh _]%resolve_hop.
  destruct (dijkstra_result (Q := priorityQueue) adj id Hpos p) as (dist' & prev' & Heq & Hr).
  unfold runDijkstra in Hd. rewrite Heq in Hd. simplify_eq.
  destruct (sr_prev _ _ _ _ Hr _ _ Hh) as (c & d & He & _).
  destruct (Hp _ _ _ He) as [->|?]; [|done].
  assert (id ≠ id) as []; [|done]. eapply sr_has_prev; [exact Hr|eauto].
Qed.

(** Each route of a table has a next hop that the resolution found. *)
Definition table_printed (r : res (gmap string Route)) : Prop :=
  ∀ t, r = Ok t → ∀ k x, t !! k = Some x → printed (NextHop x).

Lemma printed_insert (t : gmap string Route) k r : (∀ k x, t !! k = Some x → printed (NextHop x)) → printed (NextHop r) →
  ∀ k' x, <[k := r]> t !! k' = Some x → printed (NextHop x).
Proof. intros Ht Hr k' x [[_ <-]|[_ H]]%lookup_insert_Some; [done|by eapply Ht]. Qed.

Lemma route_table_printed p lk adj entries : hops_printed (GetRouterID lk) adj →
  table_printed (route_table p lk adj entries).
Proof.
  intros Ha. unfold route_table. destruct (runDijkstra _ _ _) as [[dist prev]| | |] eqn:Hd; try done.
  rewrite res_bind_Ok. cbn [fst snd].
  assert (∀ v h i, resolveNextHop (GetIfaceIndex lk) v prev (GetRouterID lk) = Ok (Some (h, i)) → printed h) as Hh
    by (intros v h i; by eapply resolved_printed).
  assert (∀ {B} (f : res (gmap string Route) → B → res (gmap string Route)) l acc,
    (∀ acc x, table_printed acc → table_printed (f acc x)) → table_printed acc → table_printed (foldl f acc l)) as Hfold.
  { intros B f l. induction l as [|x l IH]; intros acc Hf Hacc; [done|]. apply IH; [done|by apply Hf]. }
  apply Hfold; [intros acc e Hacc|apply Hfold; [intros acc vd Hacc|]].
  - intros t. unfold gateway_step. destruct acc as [t0| | |]; try done. rewrite res_bind_Ok. specialize (Hacc t0 eq_refl).
    destruct (IsLocal e); [by intros [= <-]|]. destruct (dist !! GatewayIP e) as [d|]; [|by intros [= <-]].
    destruct (resolveNextHop _ _ _ _) as [[[nh i]|]| | |] eqn:E; try done; rewrite res_bind_Ok; intros [= <-]; [|done].
    destruct (match _ with Some _ => _ | None => _ end); [|done]. apply printed_insert; [done|by eapply Hh].
  - intros t. unfold host_step. destruct acc as [t0| | |]; try done. rewrite res_bind_Ok. specialize (Hacc t0 eq_refl).
    case_bool_decide; [by intros [= <-]|].
    destruct (resolveNextHop _ _ _ _) as [[[nh i]|]| | |] eqn:E; try done; rewrite res_bind_Ok; intros [= <-]; [|done].
    apply printed_insert; [done|by eapply Hh].
  - intros t [= <-] k x. by rewrite lookup_empty.
Qed.

(** ** The invariant *)

Definition concurrent_addresses (id : string) (s : Concurrent) : Prop :=
  addresses_ok (c_daemon s) ∧ read_printed id (c_calculation s).

Lemma do_op_addresses full op pr : handler_op op → addresses_ok (pr_daemon pr) → addresses_ok (pr_daemon (do_op full op pr)).
Proof.
  intros Ho Hd. pose proof (op_addresses _ op Ho Hd) as H. unfold do_op. destruct (run_manager_op _ _) as [d evs].
  by rewrite pr_daemon_publish.
Qed.

Lemma calculation_step_addresses id pr c pr' c' : process_ok id pr → concurrent_addresses id (MkConcurrent pr c) →
  calculation_step pr c pr' c' → concurrent_addresses id (MkConcurrent pr' c').
Proof.
  intros Hok [Hd Hc] Hs. unfold c_daemon in *. cbn [c_process c_calculation] in *.
  pose proof (dw_spf _ _ (po_daemon _ _ Hok)) as Eid.
  destruct Hs as [ty e l Hty Hq|E|p E|p q now ns|p ns ths|p adj|full p q r elapsed adj entries routes Er|full p];
    try (split; [exact Hd|]; cbn [c_calculation read_printed] in *; try done).
  - intros n Hn. assert (listed_neighbor (neighMgr (pr_daemon pr)) (neigh_NeighborIP n)) as (k & n' & _ & Hk & <- & _)
      by (apply (GetNeighbors_listed p); eauto). by eapply ao_neighbors.
  - split; [done|]. intros kv v Hkv Hv. assert (∃ kv', kv' ∈ range p (GetTwoHopNeighbors q now (neighMgr (pr_daemon pr))) ∧
      kv.1 = kv'.1 ∧ v ∈ kv'.2) as (ths & exp & Ht & Hv' & _)%GetTwoHopNeighbors_listed by eauto. by eapply ao_two_hop.
  - destruct Hc as [Hn Ht]. pose proof (adjacency_listed (spf_RouterID (pr_daemon pr)) ns ths (GetTopology p (topoMgr (pr_daemon pr)))) as Hu.
    split; [by eapply unit_graph_positive|]. intros u v c [_ Hl]%Hu. rewrite Eid in Hl.
    destruct Hl as [(n & Hin & [[_ ->]|[_ ->]])|[(kv & Hkv & _ & Hv)|(t & Htt & _ & ->)]]; [right|by left|right..].
    + by apply Hn.
    + by eapply Ht.
    + apply GetTopology_listed in Htt as (d & la & Ht'). by eapply ao_topology.
  - split; [|done]. unfold c_daemon, install_routes. cbn [c_process]. rewrite pr_daemon_publish. destruct Hd as [H1 H2 H3 H4]. split; try done.
    revert routes Er. apply (route_table_printed p).
    change (GetRouterID (spf_lookup q pr)) with (spf_RouterID (pr_daemon pr)). by rewrite Eid.
  - split; [by apply do_op_addresses|done].
Qed.

Lemma concurrent_step_addresses id s s' : process_ok id (c_process s) → concurrent_addresses id s → concurrent_step s s' →
  concurrent_addresses id s'.
Proof.
  intros Hok Ha Hs. destruct Hs as [pr c full op Ho|pr pr' c out Hs|pr pr' c c' Hs].
  - destruct Ha as [Hd Hc]. split; [by apply do_op_addresses|done].
  - destruct Ha as [Hd Hc]. split; [by eapply loop_step_addresses|done].
  - by eapply calculation_step_addresses.
Qed.

Lemma findOutgoingInterface_printed mon cfg h : printed h → ∃ name, findOutgoingInterface mon cfg h = Ok name.
Proof.
  intros (ip & Hip & ->). pose proof (findOutgoingInterface_spec mon cfg (IP_String ip)) as H.
  rewrite ParseIP_String, To4_v4InV6 in H by (done || apply Hip). destruct H as (name & E & _). by exists name.
Qed.

(** C19. The interface lookups of a calculation.  In every state that a started
    daemon can reach, whatever its goroutines interleave: for each next hop that
    the running calculation resolves, [findOutgoingInterface] returns a name,
    whatever interfaces there are (its unchecked access to the four bytes never
    panics); and the next hop of each active route is the text of an IPv4
    address. *)
Theorem route_lookups_safe {Data} (read : string → res Data) unmarshal path standalone init s :
  main read unmarshal path false standalone = inr init → csteps (MkConcurrent init Waiting) s →
  let id := cfg_RouterID (pr_run_cfg init) in
  (∀ adj entries p dist prev getIface v h i,
    c_calculation s = HasEntries adj entries → runDijkstra p id adj = Ok (dist, prev) →
    resolveNextHop getIface v prev id = Ok (Some (h, i)) →
    ∀ mon cfg, ∃ name, findOutgoingInterface mon cfg h = Ok name) ∧
  ∀ k r, activeRoutes (c_daemon s) !! k = Some r → printed (NextHop r).
Proof.
  intros Hm Hs id.
  assert (process_ok id (c_process s) ∧ concurrent_addresses id s) as [_ [Hd Hc]].
  { revert s Hs. apply (rtc_ind_r (λ s, process_ok id (c_process s) ∧ concurrent_addresses id s)).
    - split; [by eapply process_ok_start|]. split; [|done]. apply main_starts in Hm as (_ & _ & E & _).
      unfold c_daemon. cbn [c_process]. rewrite E. apply addresses_ok_start.
    - intros s s' _ Hs (Hok & Ha). split; [by eapply concurrent_step_ok|by eapply concurrent_step_addresses]. }
  split; [|apply Hd]. intros adj entries p dist prev getIface v h i E Hdi Hr mon cfg.
  rewrite E in Hc. apply findOutgoingInterface_printed. by eapply resolved_printed.
Qed.
End addresses.

(** ** A witness *)

#[local] Existing Instance canonical_order.

(** 10.0.0.2 sends a HELLO that lists the daemon; a calculation follows. *)
Definition hello_ab : HelloMessage := MkHelloMessage 2 3 [MkHelloLinkMessage 2 [[10; 0; 0; 1]]].
Definition process_8 : Process :=
  @do_op canonical_order (λ _, false) (OpHello [] 0 0 [10; 0; 0; 2] [10; 0; 0; 2] hello_ab (6 * Second)) process_1.
Definition process_9 : Process := set_queues process_8 (<[EventNeighborUpdate := []]> (pr_queues process_8)).
Definition adj_ab : graph := {["10.0.0.1" := {["10.0.0.2" := 1]}; "10.0.0.2" := {["10.0.0.1" := 1]}]}.

Lemma process_9_csteps : csteps_1 (MkConcurrent process_1 Waiting) (MkConcurrent process_9 (HasEntries adj_ab [])).
Proof.
  pose proof (λ pr c pr' c', @co_calculation canonical_order amd64_conv ascii_fold ascii_only one_token pr pr' c c') as calc.
  assert (pr_queues process_8 !! EventNeighborUpdate = Some [MkEvent EventNeighborUpdate (DataString "10.0.0.2")]) as E
    by (vm_compute; reflexivity).
  eapply rtc_l; [eapply (@co_op canonical_order amd64_conv ascii_fold ascii_only one_token process_1 Waiting (λ _, false)
    (OpHello [] 0 0 [10; 0; 0; 2] [10; 0; 0; 2] hello_ab (6 * Second))); vm_compute; repeat constructor; discriminate|].
  eapply rtc_l; [apply (calc process_8 Waiting process_9 Begun), (cs_begin process_8 EventNeighborUpdate (MkEvent EventNeighborUpdate (DataString "10.0.0.2")) []); [tauto|exact E]|].
  eapply rtc_l; [apply (calc process_9 Begun process_9 (HasNeighbors [MkNeighborTuple "10.0.0.2" true 3]));
    exact (cs_neighbors process_9 [] ltac:(intros H; vm_compute in H; discriminate H))|].
  eapply rtc_l; [apply (calc _ _ process_9 (HasTwoHops [MkNeighborTuple "10.0.0.2" true 3] [])); exact (cs_two_hops process_9 [] [] 0 _)|].
  eapply rtc_l; [apply (calc _ _ process_9 (HasAdjacency adj_ab)); exact (cs_topology process_9 [] _ [])|].
  apply rtc_once, (calc _ _ _ _ (cs_entries process_9 [] adj_ab)).
Qed.

Lemma route_lookups_safe_witness :
  ∃ name, findOutgoingInterface (MkMonitor [("eth0", ["fe80::1"; "10.0.0.1"])] (λ _, 1)) (config_1 "10.0.0.1") "10.0.0.2" = Ok name.
Proof.
  destruct (@route_lookups_safe canonical_order amd64_conv ascii_fold ascii_only one_token unit read_any
    (decode_to (config_1 "10.0.0.1")) "olsrd.yaml" true process_1 _ process_1_starts process_9_csteps) as [H _].
  eapply (H adj_ab [] [] _ _ (λ _, 0) "10.0.0.2"); [reflexivity|vm_compute; reflexivity|vm_compute; reflexivity].
Defined.
