(* ===== verification/Installer.v ===== *)
(** * The route installer (cmd/olsrd/daemon.go)

    [routeInstallationLoop] with the handlers it calls, and what they act on:
    the kernel's unicast routes or the Zebra client, the multicast router, the
    loop-prevention manager, and the counters of successes and failures.  An
    error is logged and counted and the loop goes on; a panic would end the
    daemon.  With it the part of [run] that starts these components and
    [Daemon.Stop]. *)

From S2P Require Import Prelude GoNet GoStrings TimeVal Packet Events Neighbor Topology Hna Heap Dijkstra Spf Molsr Config Daemon Effects Uroute Zebra ZebraSync Mroute LoopPrevention.

(** What an error leaves behind, and whether the call succeeded. *)
Definition logged {S} (r : S * res unit) : res (S * bool) :=
  match r.2 with
  | Ok _ => Ok (r.1, true)
  | Err _ => Ok (r.1, false)
  | Panic => Panic
  | Diverge => Diverge
  end.

Section installer.
Context {MO : MapOrder} {U : GoUnicode} {N : Netlink} {K : Kernel} {Sh : Shell}.

(** The fields of [Daemon] the installer acts on, and the two counters. *)
Record Outlets := MkOutlets {
  Standalone : bool;
  urouteRouter : KTable;
  zapiClient : option ZebraState;                       (* [None] is nil *)
  mrouteRouter : VTYSHMulticastRouter + LinuxMulticastRouter;
  loopPrevMgr : NFTablesManager + NFQueueManager + unit;
  ZapiTxTotal : Z;
  ZapiFailureTotal : Z;
}.

Definition set_urouteRouter (o : Outlets) (t : KTable) : Outlets :=
  MkOutlets (Standalone o) t (zapiClient o) (mrouteRouter o) (loopPrevMgr o) (ZapiTxTotal o) (ZapiFailureTotal o).
Definition set_zapiClient (o : Outlets) (z : option ZebraState) : Outlets :=
  MkOutlets (Standalone o) (urouteRouter o) z (mrouteRouter o) (loopPrevMgr o) (ZapiTxTotal o) (ZapiFailureTotal o).
Definition set_mrouteRouter (o : Outlets) (m : VTYSHMulticastRouter + LinuxMulticastRouter) : Outlets :=
  MkOutlets (Standalone o) (urouteRouter o) (zapiClient o) m (loopPrevMgr o) (ZapiTxTotal o) (ZapiFailureTotal o).
Definition set_loopPrevMgr (o : Outlets) (l : NFTablesManager + NFQueueManager + unit) : Outlets :=
  MkOutlets (Standalone o) (urouteRouter o) (zapiClient o) (mrouteRouter o) l (ZapiTxTotal o) (ZapiFailureTotal o).

(** [metrics.ZapiTxTotal.Inc()] or [metrics.ZapiFailureTotal.Inc()] *)
Definition count_call (o : Outlets) (sent : bool) : Outlets :=
  MkOutlets (Standalone o) (urouteRouter o) (zapiClient o) (mrouteRouter o) (loopPrevMgr o)
    (ZapiTxTotal o + (if sent then 1 else 0)) (ZapiFailureTotal o + (if sent then 0 else 1)).

(** ** The handlers *)

(** A call of the kernel's unicast router. *)
Definition on_uroute (f : eff KTable unit) (o : Outlets) : res Outlets :=
  r ← logged (f (urouteRouter o));
  Ok (set_urouteRouter o r.1).

(** A call of the Zebra client. *)
Definition on_zapiClient (f : ZAPIClient → ZAPIClient * res unit) (o : Outlets) : res Outlets :=
  match zapiClient o with
  | None => Ok o
  | Some z =>
      r ← logged (f (client z));
      Ok (count_call (set_zapiClient o (Some (set_client z r.1))) r.2)
  end.

Definition handleUnicastAdd (ok : bool) (route : Route) (o : Outlets) : res Outlets :=
  if Standalone o
  then on_uroute (uroute_AddRoute (Prefix route) (NextHop route) (IfaceIndex route) (Metric route)) o
  else on_zapiClient (λ c, AddUnicastRoute ok c (Prefix route) (NextHop route) (IfaceIndex route) (Metric route)) o.

Definition handleUnicastDelete (ok : bool) (route : Route) (o : Outlets) : res Outlets :=
  if Standalone o
  then on_uroute (uroute_DeleteRoute (Prefix route) (NextHop route) (IfaceIndex route)) o
  else on_zapiClient (λ c, DeleteUnicastRoute ok c (Prefix route) (NextHop route) (IfaceIndex route)) o.

(** A call of the multicast router, by the router's kind. *)
Definition on_mroute (fv : eff VTYSHMulticastRouter unit) (fl : eff LinuxMulticastRouter unit) (o : Outlets) : res Outlets :=
  match mrouteRouter o with
  | inl v => r ← logged (fv v); Ok (count_call (set_mrouteRouter o (inl r.1)) r.2)
  | inr l => r ← logged (fl l); Ok (count_call (set_mrouteRouter o (inr r.1)) r.2)
  end.

(** A call of the loop-prevention manager, by the manager's kind. *)
Definition on_loopPrev (ft : eff NFTablesManager unit) (fq : eff NFQueueManager unit) (o : Outlets) : res Outlets :=
  match loopPrevMgr o with
  | inl (inl t) => r ← logged (ft t); Ok (set_loopPrevMgr o (inl (inl r.1)))
  | inl (inr q) => r ← logged (fq q); Ok (set_loopPrevMgr o (inl (inr r.1)))
  | inr u => Ok o
  end.

(** [routes] are the engine's active routes when the next hop is looked up. *)
Definition handleMulticastAdd (p : list positive) (arp : ArpTable) (routes : gmap string Route)
    (entry : MulticastForwardingEntry) (o : Outlets) : res Outlets :=
  let s := mfe_SourceIP entry in
  let g := mfe_GroupID entry in
  o ← on_mroute (vtysh_AddMulticastRoute s g (IIF entry) (OIFs entry)) (linux_AddMulticastRoute s g (IIF entry) (OIFs entry)) o;
  match GetNextHopForDest (1%positive :: p) routes s with
  | Ok (nextHopIP, _) =>
      on_loopPrev (nft_OnMulticastRouteAdd (2%positive :: p) arp s g nextHopIP) (nfq_OnMulticastRouteAdd arp s g nextHopIP) o
  | Err _ => Ok o
  | Panic => Panic
  | Diverge => Diverge
  end.

Definition handleMulticastDelete (p : list positive) (entry : MulticastForwardingEntry) (o : Outlets) : res Outlets :=
  let s := mfe_SourceIP entry in
  let g := mfe_GroupID entry in
  o ← on_mroute (vtysh_DeleteMulticastRoute s g (IIF entry) (OIFs entry))
        (linux_DeleteMulticastRoute s g (IIF entry) (OIFs entry)) o;
  on_loopPrev (nft_OnMulticastRouteDelete (2%positive :: p) s g) (nfq_OnMulticastRouteDelete s g) o.

(** What the environment decides while an event is handled: the paths of the
    map iterations, whether a write to Zebra succeeds, the ARP table. *)
Record Moment := MkMoment {
  mo_path : list positive;
  mo_write : bool;
  mo_arp : ArpTable;
}.

(** The loop body of [routeInstallationLoop].  Only the map payloads have an
    action; other payloads and other actions are passed over. *)
Definition install_event (x : Moment * gmap string Route * Event) (o : Outlets) : res Outlets :=
  let '(mo, routes, e) := x in
  match ev_Data e with
  | DataRoute action route =>
      if bool_decide (action = "add") then handleUnicastAdd (mo_write mo) route o
      else if bool_decide (action = "delete") then handleUnicastDelete (mo_write mo) route o
      else Ok o
  | DataMulticast action entry =>
      if bool_decide (action = "add_multicast") then handleMulticastAdd (mo_path mo) (mo_arp mo) routes entry o
      else if bool_decide (action = "delete_multicast") then handleMulticastDelete (mo_path mo) entry o
      else Ok o
  | _ => Ok o
  end.

(** The loop. *)
Fixpoint install_events (xs : list (Moment * gmap string Route * Event)) (o : Outlets) : res Outlets :=
  match xs with
  | [] => Ok o
  | x :: xs => o ← install_event x o; install_events xs o
  end.

(** ** Start and shutdown *)

(** The components [initializeComponents] makes; [t] is the kernel's table. *)
Definition new_outlets (cfg : Config) (standalone : bool) (t : KTable) : Outlets :=
  let standalone := standalone || cfg_Standalone cfg in
  MkOutlets standalone t
    (if standalone then None else Some (MkZebraState NewZAPIClient LoopIdle Second 0 0 false))
    (NewMulticastRouter standalone (cfg_Interfaces cfg))
    (NewLoopPreventionManager (MulticastLoopPrevention cfg)) 0 0.

(** [ZAPIClient.Start] puts the first token. *)
Definition zebra_Start (z : ZebraState) : ZebraState := set_client z (set_token (client z) true).

(** [ZAPIClient.Stop] *)
Definition zebra_Stop (z : ZebraState) : ZebraState :=
  MkZebraState (set_connected (close_conn (client z)) false) (loop z) (backoff z) (reading z) (lost z) true.

(** Errors at the start are logged; [opens] tells whether the packet queue opens. *)
Definition start_outlets (cfg : Config) (opens : bool) (o : Outlets) : Outlets :=
  let o := set_zapiClient o (zebra_Start <$> zapiClient o) in
  let o := set_mrouteRouter o
    (match mrouteRouter o with inl v => inl (vtysh_Start v).1 | inr l => inr (mroute_Start l).1 end) in
  set_loopPrevMgr o
    (match loopPrevMgr o with
     | inl (inl t) => inl (inl (nft_Start (cfg_Interfaces cfg) t).1)
     | inl (inr q) => inl (inr (nfq_Start (cfg_Interfaces cfg) opens q).1)
     | inr u => inr u
     end).

(** [Daemon.Stop]: the vtysh router has nothing to do. *)
Definition stop_outlets (o : Outlets) : Outlets :=
  let o := set_zapiClient o (zebra_Stop <$> zapiClient o) in
  let o := set_mrouteRouter o
    (match mrouteRouter o with inl v => inl v | inr l => inr (mroute_Stop l).1 end) in
  set_loopPrevMgr o
    (match loopPrevMgr o with
     | inl (inl t) => inl (inl (nft_Stop t).1)
     | inl (inr q) => inl (inr (nfq_Stop q).1)
     | inr u => inr u
     end).

(** The installer's loop, the Zebra client's goroutines and the signal handler,
    which runs [Stop] while the other two go on. *)
Inductive outlet_step (o : Outlets) : Outlets → Prop :=
  | os_event x o' : install_event x o = Ok o' → outlet_step o o'
  | os_zebra z l z' : zapiClient o = Some z → zebra_step z l z' → outlet_step o (set_zapiClient o (Some z'))
  | os_stop : outlet_step o (stop_outlets o).

Definition outlets_reachable (o : Outlets) : Prop :=
  ∃ cfg standalone opens t, rtc outlet_step (start_outlets cfg opens (new_outlets cfg standalone t)) o.
End installer.
