(* ===== verification/InstallerFacts.v ===== *)
(** * Correctness of the route installer (cmd/olsrd/daemon.go)

    No event makes the installer panic, and a call that fails disturbs neither
    the other components nor later events: the installer is the product of its
    outlets.  A standalone daemon whose failure counter reads zero has the
    manager's entries in the kernel's multicast cache.  What [Stop] clears, and
    what it leaves. *)

From S2P Require Import Prelude GoNet GoStrings TimeVal Packet Events DiffSync Neighbor Topology Hna Heap Dijkstra Spf SpfRoutes SpfSync Molsr MolsrFacts Config Daemon Effects Uroute Standalone Zebra ZebraFacts ZebraSync Mroute MrouteFacts MrouteSync LoopPrevention LoopPreventionFacts Installer.

Section installer.
Context {MO : MapOrder} {U : GoUnicode} {N : Netlink} {K : Kernel} {Sh : Shell}.

(** ** Calls return *)

Definition succeeded (r : res unit) : bool := match r with Ok _ => true | _ => false end.

Lemma logged_returned {S} (r : S * res unit) : returned r.2 →
  logged r = Ok (r.1, succeeded r.2).
Proof. destruct r as [s [[]|e| |]]; done. Qed.

Lemma uroute_add_returns prefix nh i m : returns (uroute_AddRoute prefix nh i m).
Proof. intros t. unfold uroute_AddRoute, netlink. destruct (ParseCIDR prefix) as [[]|]; [|done]. by destruct (RouteAdd _ _) as [? []]. Qed.

Lemma uroute_delete_returns prefix nh i : returns (uroute_DeleteRoute prefix nh i).
Proof. intros t. unfold uroute_DeleteRoute, netlink. destruct (ParseCIDR prefix) as [[]|]; [|done]. by destruct (RouteDel _ _) as [? []]. Qed.

Lemma check_bind_returned {A} b msg (k : unit → res A) : (b = true → returned (k tt)) → returned (check b msg ≫= k).
Proof. destruct b; simpl; [|done]. auto. Qed.

Lemma unicast_message_returned cmd prefix nh i m : returned (buildUnicastRouteMessage cmd prefix nh i m).
Proof.
  unfold buildUnicastRouteMessage. destruct (ParseCIDR prefix) as [[ip net]|]; [|done]. cbv zeta.
  destruct (To4 ip) as [ip4|] eqn:E4, (To4 (default [] (ParseIP nh))) as [nh4|]; try done.
  set (ones := Mask_Size _). apply check_bind_returned. rewrite negb_true_iff, orb_false_iff, !Z.ltb_ge. intros [H0 H32].
  assert (length ip4 = 4%nat) as Hl by by eapply To4_length.
  assert (0 ≤ Z.quot (ones + 7) 8 < 5) as Hq by (split; [apply Z.quot_pos; lia|apply Z.quot_lt_upper_bound; lia]).
  set (q := Z.to_nat _). assert (go_slice ip4 0 q = Ok (take (q - 0) (drop 0 ip4))) as ->.
  { unfold go_slice. rewrite (proj2 (Nat.leb_le 0 q)), (proj2 (Nat.leb_le q (length ip4))) by lia. done. }
  rewrite res_bind_Ok. do 2 (apply check_bind_returned; intros _). unfold fill_size. by apply check_bind_returned.
Qed.

Lemma send_returned ok c data : returned data → returned (send_built ok c data).2.
Proof.
  destruct data as [d|e| |]; simpl; try done. intros _. unfold send.
  destruct (connected c), (conn c); try done. by destruct (_ && _).
Qed.

(** Closed under the sequences and loops of the code. *)
Ltac solve_returns :=
  repeat match goal with
  | |- returns (eff_bind _ _) => apply returns_bind; [|intros ?]
  | |- returns (eff_fold _ _ _) => apply returns_fold; intros ? ?
  | |- returns (match ?x with _ => _ end) => destruct x
  | |- returns (eff_ret _) => apply returns_ret
  | |- returns (eff_mod _) => apply returns_mod
  | |- returns (eff_get _) => apply returns_get
  | |- returns (eff_res _) => apply returns_res
  end; try done.

Lemma arp_returned arp a : returned (ResolveMACFromARP arp a).
Proof. unfold ResolveMACFromARP. destruct arp as [[l f]|]; [|done]. destruct (find_mac _ _); [done|]. by destruct f. Qed.

Lemma applyRules_returns p : returns (applyRules p).
Proof. unfold applyRules, nft_route_rules, nft_rules, nft_exec. solve_returns. Qed.

Lemma nft_add_returns p arp s g nh : returns (nft_OnMulticastRouteAdd p arp s g nh).
Proof. unfold nft_OnMulticastRouteAdd. solve_returns; [apply arp_returned|apply applyRules_returns]. Qed.

Lemma nft_delete_returns p s g : returns (nft_OnMulticastRouteDelete p s g).
Proof. unfold nft_OnMulticastRouteDelete. solve_returns. apply applyRules_returns. Qed.

Lemma nfq_add_returns arp s g nh : returns (nfq_OnMulticastRouteAdd arp s g nh).
Proof. unfold nfq_OnMulticastRouteAdd. solve_returns. apply arp_returned. Qed.

Lemma vtysh_returns rc : returns (vtysh_call rc).
Proof.
  intros r. destruct rc as [| |s g iif oifs|s g iif oifs| |]; try done; cbn [vtysh_call];
    destruct (vtysh_routes_spec s g iif oifs r) as [H1 H2];
    [destruct (vtysh_AddMulticastRoute s g iif oifs r) as [? []]|destruct (vtysh_DeleteMulticastRoute s g iif oifs r) as [? []]]; done.
Qed.

Lemma linux_call_inv rc r : router_inv r → router_inv (linux_call rc r).1 ∧ returned (linux_call rc r).2.
Proof.
  intros Hr. destruct rc as [| |s g iif oifs|s g iif oifs| |]; try done; cbn [linux_call].
  - destruct (run_mr_inv (OpAdd s g iif oifs) r Hr) as [H [E|[e E]]]; cbn [run_mr] in *; by rewrite E.
  - destruct (run_mr_inv (OpDelete s g iif oifs) r Hr) as [H [E|[e E]]]; cbn [run_mr] in *; by rewrite E.
Qed.

Lemma GetNextHopForDest_returned p routes d : returned (GetNextHopForDest p routes d).
Proof.
  unfold GetNextHopForDest. destruct (routes !! _) as [r|]; [done|]. destruct (ParseIP d) as [ip|]; [|done].
  cbv zeta. by destruct (negb _).
Qed.

(** ** The outlets one by one *)

Notation moment_event := (Moment * gmap string Route * Event)%type.

(** The event as the models of the single outlets take it. *)
Definition at_moment (x : moment_event) : (list positive * gmap string Route) * Event :=
  ((1%positive :: mo_path x.1.1, x.1.2), x.2).

Definition calls (x : moment_event) : list RouterCall := routeInstallation (1%positive :: mo_path x.1.1) x.1.2 x.2.

Definition nft_call (mo : Moment) (rc : RouterCall) : eff NFTablesManager unit :=
  match rc with
  | OnMulticastRouteAdd s g nh => nft_OnMulticastRouteAdd (2%positive :: mo_path mo) (mo_arp mo) s g nh
  | OnMulticastRouteDelete s g => nft_OnMulticastRouteDelete (2%positive :: mo_path mo) s g
  | _ => eff_ret tt
  end.

Definition nfq_call (mo : Moment) (rc : RouterCall) : eff NFQueueManager unit :=
  match rc with
  | OnMulticastRouteAdd s g nh => nfq_OnMulticastRouteAdd (mo_arp mo) s g nh
  | OnMulticastRouteDelete s g => nfq_OnMulticastRouteDelete s g
  | _ => eff_ret tt
  end.

(** Each outlet by itself, on one event: it sees its own calls only. *)
Definition uroute_alone (x : moment_event) (t : KTable) : KTable := (unicast_event tt (at_moment x) t).1.
Definition zapi_alone (x : moment_event) (z : ZebraState) : ZebraState :=
  set_client z (foldl (zapi_call (mo_write x.1.1)) (client z) (calls x)).
Definition mroute_alone (x : moment_event) (m : VTYSHMulticastRouter + LinuxMulticastRouter)
    : (VTYSHMulticastRouter + LinuxMulticastRouter) * res unit :=
  match m with
  | inl v => let r := vtysh_event tt (at_moment x) v in (inl r.1, r.2)
  | inr l => let r := linux_event tt (at_moment x) l in (inr r.1, r.2)
  end.
Definition loop_alone (x : moment_event) (l : NFTablesManager + NFQueueManager + unit) : NFTablesManager + NFQueueManager + unit :=
  match l with
  | inl (inl t) => inl (inl (eff_fold (λ _ rc, nft_call x.1.1 rc) tt (calls x) t).1)
  | inl (inr q) => inl (inr (eff_fold (λ _ rc, nfq_call x.1.1 rc) tt (calls x) q).1)
  | inr u => inr u
  end.

(** The call of an event that the counters see: of the multicast router always,
    of the Zebra client where there is one. *)
Definition counted (x : moment_event) (o : Outlets) : option bool :=
  match calls x with
  | Daemon.AddMulticastRoute _ _ _ _ :: _ | Daemon.DeleteMulticastRoute _ _ _ _ :: _ => Some (succeeded (mroute_alone x (mrouteRouter o)).2)
  | AddRoute prefix nh i m :: _ =>
      if Standalone o then None else (λ z, succeeded (AddUnicastRoute (mo_write x.1.1) (client z) prefix nh i m).2) <$> zapiClient o
  | DeleteRoute prefix nh i :: _ =>
      if Standalone o then None else (λ z, succeeded (DeleteUnicastRoute (mo_write x.1.1) (client z) prefix nh i).2) <$> zapiClient o
  | _ => None
  end.

Definition count_opt (o : Outlets) (c : option bool) : Outlets := match c with Some b => count_call o b | None => o end.

(** All outlets after one event. *)
Definition product (x : moment_event) (o : Outlets) : Outlets :=
  count_opt
    (MkOutlets (Standalone o)
      (if Standalone o then uroute_alone x (urouteRouter o) else urouteRouter o)
      (if Standalone o then zapiClient o else zapi_alone x <$> zapiClient o)
      (mroute_alone x (mrouteRouter o)).1 (loop_alone x (loopPrevMgr o)) (ZapiTxTotal o) (ZapiFailureTotal o))
    (counted x o).

(** The kernel router is in good order. *)
Definition router_ok (m : VTYSHMulticastRouter + LinuxMulticastRouter) : Prop :=
  match m with inl _ => True | inr l => router_inv l end.

Lemma fold_one {S A} (f : unit → A → eff S unit) c s : eff_fold f tt [c] s = f tt c s.
Proof. simpl. unfold eff_bind. by destruct (f tt c s) as [s' [[]|e| |]]. Qed.

(** A second call that does nothing. *)
Lemma fold_idle {S A} (f : unit → A → eff S unit) c c' s : f tt c' = eff_ret tt → eff_fold f tt [c; c'] s = f tt c s.
Proof. intros E. simpl. unfold eff_bind. destruct (f tt c s) as [s' [[]|e| |]]; [|done..]. by rewrite E. Qed.

(** A first call that does nothing. *)
Lemma fold_after {S A} (f : unit → A → eff S unit) c c' s : f tt c = eff_ret tt → eff_fold f tt [c; c'] s = f tt c' s.
Proof. intros E. simpl. rewrite E. unfold eff_bind, eff_ret. by destruct (f tt c' s) as [s' [[]|e| |]]. Qed.

Lemma on_mroute_ok rc o : router_ok (mrouteRouter o) →
  on_mroute (vtysh_call rc) (linux_call rc) o =
  Ok (count_call (set_mrouteRouter o (match mrouteRouter o with inl v => inl (vtysh_call rc v).1 | inr l => inr (linux_call rc l).1 end))
        (succeeded (match mrouteRouter o with inl v => (vtysh_call rc v).2 | inr l => (linux_call rc l).2 end))).
Proof.
  intros Hr. unfold on_mroute. destruct (mrouteRouter o) as [v|l].
  - by rewrite logged_returned by apply vtysh_returns.
  - by rewrite logged_returned by by apply linux_call_inv.
Qed.

Lemma on_loopPrev_ok mo rc o :
  on_loopPrev (nft_call mo rc) (nfq_call mo rc) o =
  Ok (set_loopPrevMgr o (match loopPrevMgr o with
    | inl (inl t) => inl (inl (nft_call mo rc t).1)
    | inl (inr q) => inl (inr (nfq_call mo rc q).1)
    | inr u => inr u
    end)).
Proof.
  unfold on_loopPrev. destruct (loopPrevMgr o) as [[t|q]|u] eqn:E.
  - assert (returns (nft_call mo rc)) as Hr by (destruct rc; solve_returns; [apply nft_add_returns|apply nft_delete_returns]).
    by rewrite logged_returned by apply Hr.
  - assert (returns (nfq_call mo rc)) as Hr by (destruct rc; unfold nfq_call, nfq_OnMulticastRouteDelete; solve_returns; apply nfq_add_returns).
    by rewrite logged_returned by apply Hr.
  - unfold set_loopPrevMgr. rewrite <-E. by destruct o.
Qed.

(** An event without a call changes nothing. *)
Lemma product_idle x o : calls x = [] → product x o = o.
Proof.
  intros E. unfold product, counted, uroute_alone, zapi_alone, mroute_alone, loop_alone, unicast_event, vtysh_event, linux_event.
  unfold calls in E. unfold at_moment. cbn [fst snd]. unfold calls. rewrite E. cbn [count_opt eff_fold foldl].
  destruct o as [sa t z m l tx fl]. cbn [Standalone urouteRouter zapiClient mrouteRouter loopPrevMgr ZapiTxTotal ZapiFailureTotal].
  f_equal; [by destruct sa|destruct sa; [done|]; destruct z as [z|]; [|done]; by destruct z|by destruct m|by destruct l as [[]|]].
Qed.

(** The two handlers of unicast routes. *)
Lemma unicast_product x rc ft fz o : calls x = [rc] →
  (∀ t, unicast_call rc t = ft t) → returns ft → (∀ z, returned (fz z).2) →
  (∀ z, zapi_call (mo_write x.1.1) z rc = (fz z).1) →
  (counted x o = if Standalone o then None else (λ z, succeeded (fz (client z)).2) <$> zapiClient o) →
  (∀ v, vtysh_call rc v = eff_ret tt v) → (∀ l, linux_call rc l = eff_ret tt l) →
  (∀ t, nft_call x.1.1 rc t = eff_ret tt t) → (∀ q, nfq_call x.1.1 rc q = eff_ret tt q) →
  (if Standalone o then on_uroute ft o else on_zapiClient fz o) = Ok (product x o).
Proof.
  intros E Et Hft Hfz Ez Ec Ev El En Eq. unfold product, uroute_alone, zapi_alone, mroute_alone, loop_alone,
    unicast_event, vtysh_event, linux_event, at_moment. rewrite Ec. fold (calls x). cbn [fst snd].
  assert ((match mrouteRouter o with
    | inl v => let r := eff_fold (λ _ rc0, vtysh_call rc0) tt (calls x) v in (inl r.1, r.2)
    | inr l => let r := eff_fold (λ _ rc0, linux_call rc0) tt (calls x) l in (inr r.1, r.2)
    end).1 = mrouteRouter o) as Em by (rewrite E; destruct (mrouteRouter o); cbv zeta; rewrite fold_one, ?Ev, ?El; done).
  assert (match loopPrevMgr o with
    | inl (inl t) => inl (inl (eff_fold (λ _ rc0, nft_call x.1.1 rc0) tt (calls x) t).1)
    | inl (inr q) => inl (inr (eff_fold (λ _ rc0, nfq_call x.1.1 rc0) tt (calls x) q).1)
    | inr u => inr u
    end = loopPrevMgr o) as Eo by (rewrite E; destruct (loopPrevMgr o) as [[]|]; rewrite ?fold_one, ?En, ?Eq; done).
  unfold calls in Em, Eo |- *. rewrite Em, Eo. unfold calls in E. rewrite E. rewrite fold_one, Et.
  unfold on_uroute, on_zapiClient. destruct o as [[] t z m l tx fl]; cbn [Standalone urouteRouter zapiClient] in *.
  - rewrite logged_returned by apply Hft. done.
  - destruct z as [z|]; [|done]. rewrite logged_returned by apply Hfz. cbn [fmap option_fmap option_map foldl count_opt]. by rewrite Ez.
Qed.

(** The multicast handlers: the router's call, then the manager's, if any. *)
Lemma multicast_product x rc lps o : router_ok (mrouteRouter o) → calls x = rc :: lps →
  (lps = [] ∨ ∃ lp, lps = [lp] ∧ vtysh_call lp = eff_ret tt ∧ linux_call lp = eff_ret tt ∧ unicast_call lp = eff_ret tt ∧
     ∀ w c, zapi_call w c lp = c) →
  unicast_call rc = eff_ret tt → (∀ w c, zapi_call w c rc = c) →
  nft_call x.1.1 rc = eff_ret tt → nfq_call x.1.1 rc = eff_ret tt →
  counted x o = Some (succeeded (mroute_alone x (mrouteRouter o)).2) →
  (o ← on_mroute (vtysh_call rc) (linux_call rc) o;
   match lps with [] => Ok o | lp :: _ => on_loopPrev (nft_call x.1.1 lp) (nfq_call x.1.1 lp) o end) = Ok (product x o).
Proof.
  intros Hr E Hlps Eu Ez En Eq Ec. rewrite on_mroute_ok by done. rewrite res_bind_Ok.
  unfold product. rewrite Ec. unfold uroute_alone, zapi_alone, mroute_alone, loop_alone,
    unicast_event, vtysh_event, linux_event, at_moment. fold (calls x). cbn [fst snd]. fold (calls x). rewrite !E.
  assert ((if Standalone o then (eff_fold (λ _ rc0, unicast_call rc0) tt (rc :: lps) (urouteRouter o)).1 else urouteRouter o) =
    urouteRouter o) as ->.
  { destruct (Standalone o); [|done]. destruct Hlps as [->|(lp & -> & _ & _ & El & _)];
      [by rewrite fold_one, Eu|by rewrite fold_idle, Eu]. }
  assert ((if Standalone o then zapiClient o else
    (λ z, set_client z (foldl (zapi_call (mo_write x.1.1)) (client z) (rc :: lps))) <$> zapiClient o) = zapiClient o) as ->.
  { destruct (Standalone o); [done|]. destruct (zapiClient o) as [z|]; [|done]. simpl. rewrite Ez.
    destruct Hlps as [->|(lp & -> & _ & _ & _ & El)]; simpl; [|rewrite El]; by destruct z. }
  destruct Hlps as [->|(lp & -> & Ev & El & _)].
  - assert (match loopPrevMgr o with
      | inl (inl t) => inl (inl (eff_fold (λ _ rc0, nft_call x.1.1 rc0) tt [rc] t).1)
      | inl (inr q) => inl (inr (eff_fold (λ _ rc0, nfq_call x.1.1 rc0) tt [rc] q).1)
      | inr u => inr u
      end = loopPrevMgr o) as -> by (destruct (loopPrevMgr o) as [[]|]; rewrite ?fold_one, ?En, ?Eq; done).
    destruct (mrouteRouter o); cbv zeta; by rewrite fold_one.
  - rewrite on_loopPrev_ok. destruct o as [sa t z m l tx fl]. cbn [mrouteRouter loopPrevMgr] in *.
    destruct m as [v|r]; cbv zeta; rewrite fold_idle by done; (destruct l as [[t1|q]|u]; [..|done]; rewrite fold_after by done; done).
Qed.

Lemma install_event_ok x o : router_ok (mrouteRouter o) → install_event x o = Ok (product x o).
Proof.
  intros Hr. destruct x as [[mo routes] e]. unfold install_event.
  pose proof (product_idle (mo, routes, e) o) as Hidle. unfold calls, routeInstallation in Hidle. cbn [fst snd] in Hidle.
  destruct (ev_Data e) as [?|act r|act m|?|? ?] eqn:Ed; try (by rewrite Hidle).
  - case_bool_decide as Ea; [|case_bool_decide as Ed'; [|by rewrite Hidle]].
    + apply (unicast_product _ (Daemon.AddRoute (Prefix r) (NextHop r) (IfaceIndex r) (Metric r))); try done.
      * unfold calls, routeInstallation. cbn [fst snd]. by rewrite Ed, bool_decide_true.
      * apply uroute_add_returns.
      * intros z. apply send_returned, unicast_message_returned.
      * unfold counted, calls, routeInstallation. cbn [fst snd]. by rewrite Ed, bool_decide_true.
    + apply (unicast_product _ (Daemon.DeleteRoute (Prefix r) (NextHop r) (IfaceIndex r))); try done.
      * unfold calls, routeInstallation. cbn [fst snd]. by rewrite Ed, bool_decide_false, bool_decide_true.
      * apply uroute_delete_returns.
      * intros z. apply send_returned, unicast_message_returned.
      * unfold counted, calls, routeInstallation. cbn [fst snd]. by rewrite Ed, bool_decide_false, bool_decide_true.
  - case_bool_decide as Ea; [|case_bool_decide as Ed'; [|by rewrite Hidle]].
    + assert (calls (mo, routes, e) = Daemon.AddMulticastRoute (mfe_SourceIP m) (mfe_GroupID m) (IIF m) (OIFs m) ::
        match GetNextHopForDest (1%positive :: mo_path mo) routes (mfe_SourceIP m) with
        | Ok (nextHopIP, _) => [OnMulticastRouteAdd (mfe_SourceIP m) (mfe_GroupID m) nextHopIP]
        | _ => []
        end) as Ec by (unfold calls, routeInstallation; cbn [fst snd]; by rewrite Ed, bool_decide_true).
      erewrite <-multicast_product; [|exact Hr|exact Ec|..]; try done.
      * unfold handleMulticastAdd. cbv zeta. f_equal.
        pose proof (GetNextHopForDest_returned (1%positive :: mo_path mo) routes (mfe_SourceIP m)) as Hg.
        by destruct (GetNextHopForDest _ _ _) as [[nh i]|?| |].
      * destruct (GetNextHopForDest _ _ _) as [[nh i]|?| |]; [right|by left..]. by eexists.
      * unfold counted. by rewrite Ec.
    + assert (calls (mo, routes, e) = [Daemon.DeleteMulticastRoute (mfe_SourceIP m) (mfe_GroupID m) (IIF m) (OIFs m);
        OnMulticastRouteDelete (mfe_SourceIP m) (mfe_GroupID m)]) as Ec
        by (unfold calls, routeInstallation; cbn [fst snd]; by rewrite Ed, bool_decide_false, bool_decide_true).
      erewrite <-multicast_product; [|exact Hr|exact Ec|..]; try done.
      * right. by eexists.
      * unfold counted. by rewrite Ec.
Qed.

(** ** The invariant *)

Record outlets_ok (o : Outlets) : Prop := {
  oo_router : router_ok (mrouteRouter o);
  oo_zapi : Standalone o = true ↔ zapiClient o = None;
  oo_kind : Standalone o = true ↔ ∃ l, mrouteRouter o = inr l;
  oo_zebra z : zapiClient o = Some z → zebra_inv z;
}.

Lemma mroute_alone_ok x m : router_ok m → router_ok (mroute_alone x m).1 ∧ ((∃ l, (mroute_alone x m).1 = inr l) ↔ ∃ l, m = inr l).
Proof.
  intros Hr. destruct m as [v|l]; simpl; [split; [done|split; intros [? ?]; done]|].
  split; [|split; intros _; by eexists].
  apply (keeps_fold router_inv (λ _ rc, linux_call rc)); [|exact Hr]. intros [] rc r. apply linux_call_inv.
Qed.

Lemma zapi_alone_inv x z : zebra_inv z → zebra_inv (zapi_alone x z).
Proof.
  unfold zapi_alone. generalize (calls x). intros l. revert z. induction l as [|rc l IH]; intros z Hz; simpl; [by destruct z|].
  apply (zapi_call_inv (mo_write x.1.1) rc) in Hz. specialize (IH _ Hz). simpl in IH. exact IH.
Qed.

Lemma product_parts x o :
  Standalone (product x o) = Standalone o ∧
  urouteRouter (product x o) = (if Standalone o then uroute_alone x (urouteRouter o) else urouteRouter o) ∧
  zapiClient (product x o) = (if Standalone o then zapiClient o else zapi_alone x <$> zapiClient o) ∧
  mrouteRouter (product x o) = (mroute_alone x (mrouteRouter o)).1 ∧
  loopPrevMgr (product x o) = loop_alone x (loopPrevMgr o).
Proof. unfold product. by destruct (counted x o) as [[]|]. Qed.

Lemma product_ok x o : outlets_ok o → outlets_ok (product x o).
Proof.
  intros [H1 H2 H3 H4]. destruct (product_parts x o) as (E1 & _ & E3 & E4 & _).
  destruct (mroute_alone_ok x _ H1) as [Hr Hk].
  split; rewrite ?E1, ?E3, ?E4; [done| |by rewrite Hk|].
  - rewrite H2. destruct (Standalone o), (zapiClient o); simpl; naive_solver.
  - intros z. destruct (Standalone o); [apply H4|]. intros (z0 & Hz & ->)%fmap_Some. apply zapi_alone_inv. by apply H4.
Qed.

Lemma start_ok cfg standalone opens t : outlets_ok (start_outlets cfg opens (new_outlets cfg standalone t)).
Proof.
  assert (router_inv NewLinuxMulticastRouter) as Hnew by apply (router_after_inv []).
  split; simpl.
  - destruct (standalone || cfg_Standalone cfg); simpl; [|done]. by apply Start_inv.
  - destruct (standalone || cfg_Standalone cfg); simpl; done.
  - destruct (standalone || cfg_Standalone cfg); simpl; naive_solver.
  - intros z. destruct (standalone || cfg_Standalone cfg); simpl; [done|]. intros [= <-]. apply zebra_inv_start.
Qed.

Lemma stop_ok o : outlets_ok o → outlets_ok (stop_outlets o).
Proof.
  intros [H1 H2 H3 H4]. split; simpl.
  - destruct (mrouteRouter o); simpl; [done|]. by apply Stop_inv.
  - rewrite H2. destruct (zapiClient o); simpl; naive_solver.
  - rewrite H3. destruct (mrouteRouter o); naive_solver.
  - intros z (z0 & Hz & ->)%fmap_Some. eapply zebra_step_inv; [by apply H4|apply zs_stop].
Qed.

Lemma outlet_step_ok o o' : outlets_ok o → outlet_step o o' → outlets_ok o'.
Proof.
  intros Hok Hs. destruct Hs as [x o' E|z l z' Ez Hz|].
  - rewrite install_event_ok in E by apply Hok. injection E as <-. by apply product_ok.
  - destruct Hok as [H1 H2 H3 H4]. split; simpl; [done| |done|].
    + rewrite H2, Ez. naive_solver.
    + intros z0 [= <-]. eapply zebra_step_inv; [by apply H4|done].
  - by apply stop_ok.
Qed.

Lemma outlets_reachable_ok o : outlets_reachable o → outlets_ok o.
Proof.
  intros (cfg & standalone & opens & t & Hr). revert o Hr. apply rtc_ind_r; [apply start_ok|].
  intros o o' _ Hs IH. by eapply outlet_step_ok.
Qed.

(** ** Errors stay where they are *)

(** The events that the counters count, one each. *)
Definition counts (alone : bool) (x : moment_event) : bool :=
  match calls x with
  | Daemon.AddMulticastRoute _ _ _ _ :: _ | Daemon.DeleteMulticastRoute _ _ _ _ :: _ => true
  | AddRoute _ _ _ _ :: _ | DeleteRoute _ _ _ :: _ => negb alone
  | _ => false
  end.

Lemma product_counts x o : outlets_ok o →
  ZapiTxTotal (product x o) + ZapiFailureTotal (product x o) =
    ZapiTxTotal o + ZapiFailureTotal o + (if counts (Standalone o) x then 1 else 0) ∧
  ZapiFailureTotal o ≤ ZapiFailureTotal (product x o).
Proof.
  intros Hok. assert (is_Some (counted x o) ↔ counts (Standalone o) x = true) as Hc.
  { pose proof (oo_zapi _ Hok) as Hz. unfold counted, counts. destruct (calls x) as [|[] ?]; try (split; [by intros []|done]).
    - destruct (Standalone o); simpl; [by split; [intros []|]|]. destruct (zapiClient o); simpl; [by split; eauto|naive_solver].
    - destruct (Standalone o); simpl; [by split; [intros []|]|]. destruct (zapiClient o); simpl; [by split; eauto|naive_solver].
    all: split; eauto. }
  unfold product. destruct (counted x o) as [b|], (counts (Standalone o) x); destruct Hc as [H1 H2].
  - destruct b; simpl; lia.
  - discriminate H1. eauto.
  - destruct H2 as [? E]; done.
  - simpl. lia.
Qed.

Definition products (xs : list moment_event) (o : Outlets) : Outlets := foldl (λ o x, product x o) o xs.

Lemma products_ok xs o : outlets_ok o → outlets_ok (products xs o).
Proof. revert o. induction xs as [|x xs IH]; intros o Ho; [done|]. by apply IH, product_ok. Qed.

Lemma install_events_ok xs : ∀ o, outlets_ok o → install_events xs o = Ok (products xs o).
Proof.
  induction xs as [|x xs IH]; intros o Ho; [done|]. simpl. rewrite install_event_ok by apply Ho.
  rewrite res_bind_Ok. by apply IH, product_ok.
Qed.

(** C16. Errors of the installer.  From every state that a started daemon reaches,
    the installation loop handles any list of events without a panic, whatever
    the kernel, the commands, the ARP table and Zebra answer; and each outlet
    ends as if it had been alone with these events: an error in one neither
    keeps another from an event nor stops a later event.  Each multicast event,
    and each unicast event that goes to Zebra, is counted exactly once, as a
    success or as a failure. *)
Theorem installer_contains_errors o xs : outlets_reachable o →
  ∃ o', install_events xs o = Ok o' ∧ Standalone o' = Standalone o ∧
    urouteRouter o' = (if Standalone o then foldl (λ t x, uroute_alone x t) (urouteRouter o) xs else urouteRouter o) ∧
    zapiClient o' = (if Standalone o then zapiClient o else (λ z, foldl (λ z x, zapi_alone x z) z xs) <$> zapiClient o) ∧
    mrouteRouter o' = foldl (λ m x, (mroute_alone x m).1) (mrouteRouter o) xs ∧
    loopPrevMgr o' = foldl (λ l x, loop_alone x l) (loopPrevMgr o) xs ∧
    ZapiTxTotal o' + ZapiFailureTotal o' =
      ZapiTxTotal o + ZapiFailureTotal o + Z.of_nat (length (filter (λ x, counts (Standalone o) x = true) xs)).
Proof.
  intros Hok%outlets_reachable_ok. exists (products xs o). split; [by apply install_events_ok|].
  revert o Hok. induction xs as [|x xs IH]; intros o Ho.
  - simpl. split_and!; try done; [by destruct (Standalone o)| |lia]. destruct (Standalone o); [done|]. by destruct (zapiClient o).
  - destruct (IH (product x o) (product_ok _ _ Ho)) as (E1 & E2 & E3 & E4 & E5 & E6).
    destruct (product_parts x o) as (P1 & P2 & P3 & P4 & P5). destruct (product_counts x o Ho) as [P6 _].
    rewrite P1, P2 in E2. rewrite P1, P3 in E3. rewrite P4 in E4. rewrite P5 in E5. rewrite P1 in E1, E6.
    change (products (x :: xs) o) with (products xs (product x o)). cbn [foldl]. split_and!; try done.
    + rewrite E2. by destruct (Standalone o).
    + rewrite E3. destruct (Standalone o); [done|]. by destruct (zapiClient o).
    + rewrite E6, P6, filter_cons. destruct (counts (Standalone o) x); cbn [decide decide_rel bool_eq_dec];
        [rewrite decide_True by done; simpl length; lia|rewrite decide_False by done; lia].
Qed.

(** ** A standalone daemon's multicast routes *)

(** The route events of both producers, in the order of their publication:
    calculations of unicast routes and of multicast entries, between which the
    managers may change in any way. *)
Inductive route_runs : list Event → gmap string Route → gmap string MulticastForwardingEntry → Prop :=
  | rr_start : route_runs [] ∅ ∅
  | rr_spf lk evs active mfc evs' routes :
      route_runs evs active mfc → spf_step lk active evs' routes →
      route_runs (evs ++ filter (λ e, ev_Type e = EventRouteInstall) evs') routes mfc
  | rr_mfc evs active f p m :
      route_runs evs active (activeMfc m) →
      route_runs (evs ++ (RecalculateMroutes f p m).2) active (activeMfc (RecalculateMroutes f p m).1).

(** Unicast events do not touch the multicast entries. *)
Definition not_multicast (e : Event) : Prop := ∀ a m, ev_Data e ≠ DataMulticast a m.

Lemma mfc_apply_unicast evs : Forall not_multicast evs → ∀ t, foldl mfc_apply t evs = t ∧ mfc_tracked t evs.
Proof.
  induction 1 as [|e evs He _ IH]; intros t; [done|]. simpl.
  assert (mfc_apply t e = t) as ->. { unfold mfc_apply. destruct (ev_Data e) eqn:E; try done. by destruct (He _ _ E). }
  destruct (IH t) as [-> Ht]. split; [done|]. split; [|done]. intros v ->. by destruct (He _ _ eq_refl).
Qed.

Lemma diff_unicast p active new : Forall not_multicast (diffAndPublishRoutes p active new).
Proof.
  apply Forall_app. split; apply Forall_forall; intros e (kr & _ & He)%list_elem_of_omap a m E;
    repeat case_match; simplify_eq; done.
Qed.

Lemma mfc_facts_unicast evs evs' mfc : mfc_facts evs mfc → Forall not_multicast evs' → mfc_facts (evs ++ evs') mfc.
Proof.
  intros (H1 & H2 & H3) Hn. destruct (mfc_apply_unicast evs' Hn (foldl mfc_apply ∅ evs)) as [E Ht].
  split; [done|]. rewrite foldl_app, E. split; [done|]. apply tracked_app. by split.
Qed.

Lemma route_runs_facts evs routes mfc : route_runs evs routes mfc → mfc_facts evs mfc.
Proof.
  induction 1 as [|lk evs active mfc evs' routes _ IH Hs|evs active f p m _ IH]; [apply mfc_facts_start| |by apply mfc_facts_next].
  apply mfc_facts_unicast; [done|]. apply spf_step_events in Hs as (_ & q & e & -> & He & _).
  apply Forall_forall. intros x [Hty Hx]%list_elem_of_filter. apply elem_of_app in Hx as [Hx|Hx].
  - pose proof (diff_unicast q active routes) as Hd. rewrite Forall_forall in Hd. by apply Hd.
  - apply list_elem_of_singleton in Hx as ->. rewrite He in Hty. done.
Qed.

(** In a standalone daemon a failed multicast call shows in the counter. *)
Lemma counted_failure x o l : outlets_ok o → Standalone o = true → mrouteRouter o = inr l →
  ZapiFailureTotal (product x o) = ZapiFailureTotal o →
  ∃ l', mrouteRouter (product x o) = inr l' ∧ linux_event tt (at_moment x) l = (l', Ok tt).
Proof.
  intros Hok Ha Hl Hf. exists (linux_event tt (at_moment x) l).1. destruct (product_parts x o) as (_ & _ & _ & -> & _).
  rewrite Hl. split; [done|]. destruct (linux_event tt (at_moment x) l) as [l' r] eqn:E. cbn [fst]. f_equal.
  assert (succeeded r = true) as Hr; [|by destruct r as [[]|?| |]].
  unfold product, counted in Hf. rewrite Ha, Hl in Hf. cbn [mroute_alone snd] in Hf. rewrite E in Hf. cbn [snd] in Hf.
  unfold linux_event, at_moment in E. cbn [fst snd] in E. fold (calls x) in E.
  assert (∀ rc l, calls x = rc :: l → match rc with AddRoute _ _ _ _ | DeleteRoute _ _ _ => l = []
    | OnMulticastRouteAdd _ _ _ | OnMulticastRouteDelete _ _ => False | _ => True end) as Hshape.
  { intros rc tl. unfold calls, routeInstallation. destruct (ev_Data x.2); try done; repeat case_bool_decide; by intros [= <- <-]. }
  destruct (calls x) as [|rc tl] eqn:Ec; [by injection E as _ <-|]. specialize (Hshape rc tl eq_refl).
  destruct rc; try done.
  - subst tl. by injection E as _ <-.
  - subst tl. by injection E as _ <-.
  - destruct (succeeded r); [done|]. simpl in Hf. lia.
  - destruct (succeeded r); [done|]. simpl in Hf. lia.
Qed.

Lemma products_failures xs : ∀ o, outlets_ok o → ZapiFailureTotal o ≤ ZapiFailureTotal (products xs o).
Proof.
  induction xs as [|x xs IH]; intros o Ho; [done|]. etrans; [by apply (product_counts x)|]. by apply IH, product_ok.
Qed.

Lemma no_failures xs : ∀ o l, outlets_ok o → Standalone o = true → mrouteRouter o = inr l →
  ZapiFailureTotal (products xs o) = ZapiFailureTotal o →
  ∃ l', mrouteRouter (products xs o) = inr l' ∧ eff_fold linux_event tt (at_moment <$> xs) l = (l', Ok tt).
Proof.
  induction xs as [|x xs IH]; intros o l Ho Ha Hl Hf; [by exists l|].
  change (products (x :: xs) o) with (products xs (product x o)) in *. pose proof (product_ok x o Ho) as Ho'.
  destruct (product_counts x o Ho) as [_ H1]. pose proof (products_failures xs _ Ho') as H2.
  destruct (counted_failure x o l Ho Ha Hl) as (l1 & Hl1 & E1); [lia|].
  destruct (IH (product x o) l1 Ho') as (l' & Hl' & E'); [by rewrite (proj1 (product_parts x o))|done|lia|].
  exists l'. split; [done|]. cbn [fmap list_fmap eff_fold]. by rewrite (eff_bind_ok _ _ _ _ _ E1).
Qed.

(** The cache of a router that was just started. *)
Lemma start_cache : kmfc (mrt (mroute_Start NewLinuxMulticastRouter).1) = ∅.
Proof.
  unfold mroute_Start, eff_bind, eff_get, eff_mod, eff_ret, eff_res, syscall. simpl.
  destruct (succeeds [] Socket); [|done]. simpl. by destruct (succeeds _ (SetsockoptInt MRT_INIT 1)).
Qed.

(** C15. The standalone daemon's multicast routes.  A standalone daemon starts
    with any kernel and installs the route events of any calculations, unicast
    and multicast, in their order.  If its failure counter still reads zero,
    then the kernel's multicast cache is the MOLSR manager's table: each active
    entry is forwarded from its incoming to exactly its outgoing interfaces, and
    nothing else between IPv4 addresses. *)
Theorem installer_follows cfg opens t xs routes mfc o' :
  route_runs xs.*2 routes mfc → Forall event_printed xs.*2 →
  install_events xs (start_outlets cfg opens (new_outlets cfg true t)) = Ok o' → ZapiFailureTotal o' = 0 →
  ∃ l, mrouteRouter o' = inr l ∧ ∀ s g, is_ip4 s → is_ip4 g →
    match mfc !! mfc_key (IP_String s) (IP_String g) with
    | Some m => forwards l (s, g) (IIF m) (list_to_set (OIFs m))
    | None => kmfc (mrt l) !! (s, g) = None
    end.
Proof.
  set (o := start_outlets _ _ _). intros (_ & Hag & Ht)%route_runs_facts Hp Hi Hf.
  assert (outlets_ok o) as Ho by apply start_ok. rewrite install_events_ok in Hi by done. injection Hi as <-.
  destruct (no_failures xs o (mroute_Start NewLinuxMulticastRouter).1 Ho) as (l & Hl & E); [done..|].
  exists l. split; [done|]. intros s g Hs Hg.
  assert ((at_moment <$> xs).*2 = xs.*2) as Exs by by rewrite <-list_fmap_compose.
  assert (installed ∅ (mroute_Start NewLinuxMulticastRouter).1) as Hin.
  { intros s' g' _ _. by rewrite lookup_empty, start_cache. }
  assert (router_inv (mroute_Start NewLinuxMulticastRouter).1) as Hinv by apply Start_inv, (router_after_inv []).
  pose proof (linux_events_installed (at_moment <$> xs) ∅ _ l Hinv Hin) as H. rewrite Exs in H.
  specialize (H Hp Ht E s g Hs Hg).
  apply (f_equal (.!! mfc_key (IP_String s) (IP_String g))) in Hag. rewrite !lookup_fmap in Hag.
  destruct (foldl mfc_apply ∅ xs.*2 !! _) as [m|], (mfc !! _) as [m'|]; try done.
  simpl in Hag. injection Hag as E1 E2. by rewrite <-E1, <-E2.
Qed.

(** ** Shutdown *)


















(** A restart after a shutdown.  The kernel still has a route that the stopped
    daemon installed.  The next standalone daemon finds another next hop for the
    same prefix at the same distance; its call is refused, which no counter
    shows, and the kernel goes on sending to the old next hop. *)
Theorem restart_keeps_old_route o cfg opens mo routes old new ip net :
  Prefix old = Prefix new → Metric old = Metric new → ParseCIDR (Prefix old) = Some (ip, net) →
  nl_route net old ∈ ktable (urouteRouter o) →
  ∃ o', install_event (mo, routes, MkEvent EventRouteInstall (DataRoute "add" new))
          (start_outlets cfg opens (new_outlets cfg true (urouteRouter (stop_outlets o)))) = Ok o' ∧
    nl_route net old ∈ ktable (urouteRouter o') ∧ ktable (urouteRouter o') = ktable (urouteRouter o) ∧
    ZapiFailureTotal o' = 0.
Proof.
  intros Hp Hm Hc Hin. eexists. split; [apply install_event_ok, start_ok|].
  assert ((RouteAdd (urouteRouter o) (nl_route net new)).2 = false) as Hno.
  { apply RouteAdd_exists, Exists_exists. by exists (nl_route net old). }
  assert (ktable (uroute_alone (mo, routes, MkEvent EventRouteInstall (DataRoute "add" new)) (urouteRouter o)) =
    ktable (urouteRouter o)) as E.
  { unfold uroute_alone, unicast_event. simpl. unfold eff_bind, uroute_AddRoute. rewrite <-Hp, Hc. unfold netlink.
    fold (nl_route net new). pose proof (RouteAdd_failed _ _ Hno) as Hf. destruct (RouteAdd _ _) as [t b]. simpl in *. by subst b. }
  match goal with |- context [product ?x ?o1] =>
    assert (urouteRouter (product x o1) = uroute_alone x (urouteRouter o)) as -> by exact (proj1 (proj2 (product_parts x o1))) end.
  by rewrite E.
Qed.
End installer.

(** ** Witnesses *)

#[local] Existing Instances canonical_order plain_unicode plain_kernel accept_all three_names.

Definition config_alone : Config := MkConfig "10.0.0.1" ["eth1"; "eth2"] (2 * Second) (5 * Second) "" 8080 "secret" "" true "nftables".

Definition outlets_1 : Outlets := start_outlets config_alone true (new_outlets config_alone true ([] : list NlRoute)).
Definition moment_1 : Moment := MkMoment [] true None.
Definition add_event (r : Route) : Event := MkEvent EventRouteInstall (DataRoute "add" r).
Definition add_mfe (m : MulticastForwardingEntry) : Event := MkEvent EventRouteInstall (DataMulticast "add_multicast" m).

Lemma outlets_1_reachable : outlets_reachable outlets_1.
Proof. exists config_alone, true, true, ([] : list NlRoute). apply rtc_refl. Qed.

(** A route that is refused the second time, then a multicast route. *)
Lemma installer_contains_errors_witness :
  ∃ o', install_events [(moment_1, ∅, add_event route_2); (moment_1, ∅, add_event route_2); (moment_1, ∅, add_mfe mfe_2)] outlets_1 = Ok o' ∧
    ZapiTxTotal o' + ZapiFailureTotal o' = 1.
Proof.
  destruct (installer_contains_errors outlets_1
    [(moment_1, ∅, add_event route_2); (moment_1, ∅, add_event route_2); (moment_1, ∅, add_mfe mfe_2)] outlets_1_reachable)
    as (o' & E & _ & _ & _ & _ & _ & Hn).
  exists o'. split; [exact E|]. rewrite Hn. vm_compute. reflexivity.
Defined.

Lemma installer_follows_witness :
  ∃ o' l, mrouteRouter o' = inr l ∧ forwards l ([10; 0; 0; 2], [224; 0; 1; 1]) 1 {[2]} ∧
    kmfc (mrt l) !! ([10; 0; 0; 3], [224; 0; 1; 1]) = None.
Proof.
  set (xs := [(moment_1, (∅ : gmap string Route), add_mfe mfe_2)]).
  set (active := {["10.0.0.2:224.0.1.1" := mfe_2]} : gmap string MulticastForwardingEntry).
  assert (route_runs xs.*2 ∅ active) as Hruns.
  { assert (xs.*2 = [] ++ (RecalculateMroutes example_next_hop [] example_molsr_ready).2) as -> by (vm_compute; reflexivity).
    assert (active = activeMfc (RecalculateMroutes example_next_hop [] example_molsr_ready).1) as -> by (vm_compute; reflexivity).
    apply (rr_mfc [] ∅ example_next_hop [] example_molsr_ready), rr_start. }
  assert (Forall event_printed xs.*2) as Hp by (apply Forall_cons_2; [exact printed_2|apply Forall_nil_2]).
  set (o' := products xs outlets_1).
  destruct (installer_follows (N := plain_kernel) config_alone true ([] : list NlRoute) xs ∅ active o' Hruns Hp
    (install_events_ok (N := plain_kernel) xs outlets_1 (start_ok (N := plain_kernel) config_alone true true ([] : list NlRoute))) ltac:(vm_compute; reflexivity)) as (l & Hl & H).
  assert (is_ip4 [10; 0; 0; 2] ∧ is_ip4 [10; 0; 0; 3] ∧ is_ip4 [224; 0; 1; 1]) as (H2 & H3 & Hg)
    by (split_and!; (split; [done|]; by repeat apply Forall_cons_2; try apply Forall_nil_2)).
  exists o', l. split; [exact Hl|]. split; [|exact (H [10; 0; 0; 3] [224; 0; 1; 1] H3 Hg)].
  replace ({[2]} : gset Z) with (list_to_set [2] : gset Z) by (vm_compute; reflexivity).
  exact (H [10; 0; 0; 2] [224; 0; 1; 1] H2 Hg).
Defined.

(** The daemon stops after a route was installed, which is then still there. *)
Definition outlets_2 : Outlets := product (moment_1, ∅, add_event route_2) outlets_1.



(** 10.0.0.2 is reached through 10.0.0.9 after the restart. *)
Definition net_2 : IPNet := MkIPNet [10; 0; 0; 2] [255; 255; 255; 255].
Definition route_2_moved : Route := MkRoute "10.0.0.2/32" "10.0.0.9" 1 1.

Lemma restart_keeps_old_route_witness :
  ∃ o' nr, install_event (moment_1, ∅, add_event route_2_moved)
      (start_outlets config_alone true (new_outlets config_alone true (urouteRouter (stop_outlets outlets_2)))) = Ok o' ∧
    ktable (urouteRouter o') = [nr] ∧ Gw nr = ParseIP "10.0.0.2".
Proof.
  destruct (restart_keeps_old_route (N := plain_kernel) outlets_2 config_alone true moment_1 ∅ route_2 route_2_moved (v4InV6Prefix ++ [10; 0; 0; 2])
    net_2 eq_refl eq_refl ltac:(vm_compute; reflexivity)
    ltac:(vm_compute; left; reflexivity)) as (o' & E & _ & Ek & _).
  exists o', (nl_route net_2 route_2). split; [exact E|]. rewrite Ek. split; [vm_compute; reflexivity|reflexivity].
Defined.
