(* ===== verification/TwoHops.v ===== *)
(** * How far the routes of a network reach (cmd/olsrd/daemon.go, internal/olsr)

    In a network of these daemons nobody is a relay, so no topology is ever
    flooded; what a daemon knows is its neighbors and theirs.  The consequence
    for the routes: each leads to somebody whom the daemon has heard itself or
    who is listed in a HELLO that it has heard; and none is longer than two hops,
    or three to the network of a gateway, when frames come from the address that
    the messages in them name as originator. *)

From S2P Require Import Prelude GoNet TimeVal Packet PacketCodec Events Neighbor NeighborTables NeighborInvariant Topology Hna Heap Dijkstra Spf SpfRoutes Molsr Config Daemon DaemonFacts LinkSensing Network.

#[local] Opaque EncodeTimeVal DecodeTimeVal.

(** ** Short walks *)

Section reach.
Context {MO : MapOrder}.

(** A manager whose links and neighbors correspond. *)
Definition tidy (nm : NeighborManager) : Prop := (∃ id, nm_inv id nm) ∧ nm_inv_single nm.

(** A symmetric neighbor is listed. *)
Lemma tidy_listed nm k n : tidy nm → neighbors nm !! k = Some n → Symmetric n = true → listed_neighbor nm k.
Proof.
  intros [[id Hi] Hs] Hn Hsym. pose proof (inv_match _ Hs k) as Hm. rewrite Hn in Hm. simpl in Hm.
  destruct (links nm !! k) as [l|] eqn:El; [|done]. injection Hm as Hm. rewrite Hsym in Hm.
  apply bool_decide_eq_true in Hm. destruct (inv_neighbors _ _ Hi _ _ Hn) as [_ E].
  exists k, n, l. split_and!; try done. by rewrite Hm.
Qed.

(** Without topology tuples each node that can be reached is two hops away. *)
Lemma short_walk now nm tm localID adj v w : tidy nm → topology tm = ∅ →
  unit_graph (known_link now nm tm localID) adj → walk adj localID v w → ∃ d, d ≤ 2 ∧ walk adj localID v d.
Proof.
  intros Ht Hn Hu Hw. destruct Hw as [|u v w c _ He]; [exists 0; split; [lia|constructor]|].
  assert (∀ x, listed_neighbor nm x → walk adj localID x 1) as Hone.
  { intros x Hx. apply (walk_snoc adj localID localID x 0 1); [constructor|]. apply Hu. split; [done|]. left. by split. }
  apply Hu in He as He'. destruct He' as [-> [[-> Hl]|[[-> _]|[(ths & e & Hths & Hv & _)|(t & d & l & Hl & _)]]]].
  - exists 1. split; [lia|by apply Hone].
  - exists 0. split; [lia|constructor].
  - destruct (proj1 Ht) as [id Hi]. destruct (inv_twoHop _ _ Hi _ _ Hths) as [(n & Hnn & Hsym) _].
    exists (1 + 1). split; [lia|]. eapply walk_snoc; [|exact He]. apply Hone. by eapply tidy_listed.
  - unfold topo_at in Hl. by rewrite Hn, lookup_empty in Hl.
Qed.

(** What the table of neighbors and the table of their neighbors name. *)
Definition known_node (nm : NeighborManager) (v : string) : Prop :=
  listed_neighbor nm v ∨ ∃ u ths e, twoHopLinks nm !! u = Some ths ∧ ths !! v = Some e.

(** A route of the daemon with these HNA entries: to the host [v], or to a
    network that the gateway [v] announces.  [short] is a case in which there are
    at most two hops to [v]. *)
Definition leads_to (entry : HNAEntry → Prop) (short : Prop) (k : string) (r : Route) (v : string) : Prop :=
  (k = v +:+ "/32" ∧ (short → Metric r ≤ 2)) ∨
  (∃ e, entry e ∧ IsLocal e = false ∧ GatewayIP e = v ∧ k = IPNet_String (Hna.Network e) ∧ (short → Metric r ≤ 3)).

Lemma leads_to_mono (entry entry' : HNAEntry → Prop) (short short' : Prop) k r v :
  (∀ e, entry e → entry' e) → (short' → short) → leads_to entry short k r v → leads_to entry' short' k r v.
Proof. intros He Hs [[-> H]|(e & H1 & H2 & H3 & H4 & H5)]; [left; auto|right; exists e; auto 10]. Qed.

Lemma walk_end now nm tm localID adj v w : topology tm = ∅ →
  unit_graph (known_link now nm tm localID) adj → walk adj localID v w → v ≠ localID → known_node nm v.
Proof.
  intros Hn Hu Hw Hv. destruct Hw as [|u v w c _ He]; [done|].
  apply Hu in He as [-> [[-> Hl]|[[-> _]|[(ths & e & Hths & He & _)|(t & d & l & Hl & _)]]]]; [by left|done|right; eauto|].
  unfold topo_at in Hl. by rewrite Hn, lookup_empty in Hl.
Qed.

Lemma computeRoutes_known p lk now nm tm hm routes : topology tm = ∅ → computeRoutes p lk now nm tm hm = Ok routes →
  map_Forall (λ k r, ∃ v, known_node nm v ∧ leads_to (.∈ GetHNAEntries (4%positive :: p) hm) (tidy nm) k r v) routes.
Proof.
  intros Hn E. destruct (computeRoutes_best p lk now nm tm hm) as (r & E' & Hb). rewrite E in E'. injection E' as <-.
  pose proof (adjacency_unit (1%positive :: p) now nm tm (GetRouterID lk)) as Hu.
  assert (∀ v d, shortest (buildAdjacencyList (1%positive :: p) now nm tm (GetRouterID lk)) (GetRouterID lk) v d → tidy nm → d ≤ 2) as Hd.
  { intros v d [Hw Hmin] Ht. destruct (short_walk now nm tm (GetRouterID lk) _ v d Ht Hn Hu Hw) as (d' & Hd' & Hw').
    etrans; [by apply Hmin|done]. }
  intros k x Hk. specialize (Hb k). rewrite Hk in Hb. destruct Hb as [[Hc|Hc] _].
  - destruct Hc as (v & d & h & Hv & Hs & _ & -> & ->). exists v. split; [exact (walk_end _ _ _ _ _ _ _ Hn Hu (proj1 Hs) Hv)|].
    left. split; [done|]. exact (Hd v d Hs).
  - destruct Hc as (e & d & h & He & Hloc & Hv & Hs & _ & -> & ->). exists (GatewayIP e).
    split; [exact (walk_end _ _ _ _ _ _ _ Hn Hu (proj1 Hs) Hv)|]. right. exists e. split_and!; try done.
    intros Ht. specialize (Hd _ _ Hs Ht). simpl. lia.
Qed.
End reach.

(** ** The network *)

Section network.
Context {MO : MapOrder} {FC : FloatConv}.

Lemma tidy_step nm nm' : tidy nm → nm_step true nm nm' → tidy nm'.
Proof. intros [[id Hi] Hs] Hst. split; [exists id; by eapply nm_step_inv|by eapply nm_step_single]. Qed.

(** A frame that daemon [rc_node] has received, and the address it came from. *)
Record Received := MkReceived { rc_node : nat; rc_frame : list Z; rc_addr : IP }.

(** A run of the network, with what the daemons have received in it. *)
Inductive net_run (init : Network.Network) : list Received → Network.Network → Prop :=
  | run_init : net_run init [] init
  | run_local h net i d d' out : net_run init h net → nodes net !! i = Some d → local_step d d' out →
      net_run init h (MkNetwork (<[i := d']> (nodes net)) (air net ++ sends out))
  | run_receive h net i d clock p frame raddr d' out : net_run init h net → nodes net !! i = Some d → frame ∈ air net →
      processReceivedData clock p d frame raddr = Ok (d', out) →
      net_run init (MkReceived i frame raddr :: h) (MkNetwork (<[i := d']> (nodes net)) (air net ++ sends out)).

(** The runs are those of the network. *)
Lemma net_run_reachable init net : (∃ h, net_run init h net) ↔ rtc net_step init net.
Proof.
  split.
  - intros [h Hr]. induction Hr; [done|..]; (eapply rtc_r; [done|]); [by eapply net_local|by eapply net_receive].
  - apply (rtc_ind_r (λ net, ∃ h, net_run init h net)); [exists []; constructor|].
    intros n1 n2 _ [] [h IH]; eexists; [by eapply run_local|by eapply run_receive].
Qed.

(** Daemon [i] has heard the message. *)
Definition heard (h : list Received) (i : nat) (m : Message) : Prop :=
  ∃ r pkt, r ∈ h ∧ rc_node r = i ∧ DeserializePacket (rc_frame r) = Ok pkt ∧ m ∈ Messages pkt.

(** Each frame came from the address of the daemon whose messages it carries. *)
Definition from_originators (h : list Received) : Prop :=
  ∀ r pkt m, r ∈ h → DeserializePacket (rc_frame r) = Ok pkt → m ∈ Messages pkt →
    IP_String (rc_addr r) = IP_String (OriginatorAddress (msg_Header m)).

(** One of the HELLOs in [P] is from [v], or lists [v] as a neighbor. *)
Definition within_two_hops (P : Message → Prop) (v : string) : Prop :=
  ∃ m hello, P m ∧ msg_Body m = BodyHello hello ∧ (v = IP_String (OriginatorAddress (msg_Header m)) ∨ hello_lists hello v).

(** What a daemon can have in its tables that has heard the messages [P] and
    has had the HNA entries [E]; [Q] when all came from their originators. *)
Record informed (P : Message → Prop) (E : HNAEntry → Prop) (Q : Prop) (d : Daemon) : Prop := {
  inf_neighbors k n : neighbors (neighMgr d) !! k = Some n → neigh_NeighborIP n = k ∧ within_two_hops P k;
  inf_twoHop u ths v e : twoHopLinks (neighMgr d) !! u = Some ths → ths !! v = Some e → within_two_hops P v;
  inf_tidy : Q → tidy (neighMgr d);
  inf_routes k r : activeRoutes d !! k = Some r → ∃ v, within_two_hops P v ∧ leads_to E Q k r v;
}.

Lemma informed_mono (P P' : Message → Prop) (E E' : HNAEntry → Prop) (Q Q' : Prop) d :
  (∀ m, P m → P' m) → (∀ e, E e → E' e) → (Q' → Q) → informed P E Q d → informed P' E' Q' d.
Proof.
  intros HP HE HQ [H1 H2 H3 H4]. assert (∀ v, within_two_hops P v → within_two_hops P' v) as Hv.
  { intros v (m & hello & Hm & H). exists m, hello. split; [by apply HP|done]. }
  split; [intros k n Hk; destruct (H1 k n Hk); auto|eauto|auto|]. intros k r Hk. destruct (H4 k r Hk) as (v & Hw & Hl).
  exists v. split; [auto|]. by eapply leads_to_mono.
Qed.

Section informed.
Context (P : Message → Prop) (E : HNAEntry → Prop) (Q : Prop).
Notation informed := (informed P E Q).

Lemma informed_known d v : informed d → known_node (neighMgr d) v → within_two_hops P v.
Proof.
  intros [H1 H2 _ _] [(k & n & l & Hn & <- & _)|(u & ths & e & Hu & He)]; [|by eapply H2].
  destruct (H1 k n Hn) as [-> ?]. done.
Qed.

(** The daemon's neighbor manager and routes are what the record speaks of. *)
Lemma informed_same d d' : informed d → neighMgr d' = neighMgr d → activeRoutes d' = activeRoutes d → informed d'.
Proof. intros [H1 H2 H3 H4] E1 E2. split; rewrite ?E1, ?E2; done. Qed.

Lemma informed_init cfg mon : informed (initializeComponents cfg mon).
Proof.
  split; simpl; intros *; try by rewrite lookup_empty. intros _.
  destruct (nm_inv_start (cfg_RouterID cfg)) as [H1 H2]. split; [by exists (cfg_RouterID cfg)|done].
Qed.

Lemma performAging_informed clock p d : informed d → informed (performAging clock p d).1.
Proof.
  intros Hi. assert (informed (set_neighMgr d
    (Neighbor.AgeOut (1%positive :: p) (clock (1%positive :: p)) (clock (2%positive :: p)) (neighMgr d)).1.1)) as H.
  { destruct Hi as [H1 H2 H3 H4]. split; [| | |exact H4]; cbn.
    3:{ intros HQ. eapply tidy_step; [by apply H3|apply step_age]. }
    all: destruct (AgeOut_aged (1%positive :: p) (clock (1%positive :: p)) (clock (2%positive :: p)) (neighMgr d))
      as (nm1 & c & Ha & _ & _ & ->).
    all: destruct (recalculateMPRs_tables (4%positive :: 1%positive :: p) (clock (2%positive :: p)) nm1) as [s Es].
    - assert (neighbors (if c then (recalculateMPRs (4%positive :: 1%positive :: p) (clock (2%positive :: p)) nm1,
        [MkEvent EventNeighborUpdate (DataString "aging")], true) else (nm1, [], false)).1.1 = neighbors nm1) as ->
        by (destruct c; simpl; by rewrite ?Es).
      intros k n. rewrite (aged_neighbors _ _ _ Ha), fmap_Some. intros (n0 & Hn & ->). destruct (H1 k n0 Hn) as [? ?].
      split; [|done]. by destruct (lost_in _ _ _).
    - assert (twoHopLinks (if c then (recalculateMPRs (4%positive :: 1%positive :: p) (clock (2%positive :: p)) nm1,
        [MkEvent EventNeighborUpdate (DataString "aging")], true) else (nm1, [], false)).1.1 = twoHopLinks nm1) as ->
        by (destruct c; simpl; by rewrite ?Es).
      intros u ths v e. rewrite (aged_twoHop _ _ _ Ha). intros (m & Hm & -> & _)%live_nested_lookup [Hv _]%live_lookup.
      unfold twoHop_kept in Hm. apply map_lookup_filter_Some in Hm as [Hm _]. by eapply H2. }
  unfold performAging. destruct (Neighbor.AgeOut _ _ _ _) as [[nm e1] c1]. cbn [fst] in H.
  destruct (Topology.AgeOut _ _ _) as [[tm e2] c2]. destruct (Hna.AgeOut _ _ _) as [[hm e3] c3].
  destruct (Molsr.AgeOut _ _ _) as [[mm e4] c4]. by apply (informed_same _ _ H).
Qed.

Lemma runSpf_informed clock p mon elapsed d : quiet d → (∀ q e, e ∈ GetHNAEntries q (hnaMgr d) → E e) →
  informed d → informed (runSpf clock p mon elapsed d).1.
Proof.
  intros Hq HE Hi. unfold runSpf. destruct (CalculateRoutes _ _ _ _ _ _ _ _) as [[routes evs]| | |] eqn:Ec;
    destruct (RecalculateMroutes _ _ _) as [m evs']; try by eapply informed_same.
  pose proof Hi as [H1 H2 H3 _]. split; [done..|]. intros k r Hk. simpl in Hk.
  unfold CalculateRoutes in Ec. destruct (negb _); [|done]. cbn [check] in Ec. rewrite res_bind_Ok in Ec.
  destruct (computeRoutes _ _ _ _ _ _) as [r'| | |] eqn:Er; try done. rewrite res_bind_Ok in Ec. apply Ok_inj in Ec.
  injection Ec as <- _. apply (computeRoutes_known _ _ _ _ _ _ _ (quiet_topology _ Hq)) in Er.
  destruct (Er k r Hk) as (v & Hv & Hl). exists v. split; [by eapply informed_known|].
  eapply leads_to_mono; [|exact H3|exact Hl]. apply HE.
Qed.

Lemma local_step_informed d d' out : quiet d → (∀ q e, e ∈ GetHNAEntries q (hnaMgr d) → E e) →
  informed d → local_step d d' out → informed d'.
Proof.
  intros Hq HE Hi Hs. destruct Hs as [p|p now|p|clock p|clock p mon elapsed|hm|mm|cfg]; try by eapply informed_same.
  - by rewrite quiet_no_tc.
  - unfold sendHNA. destruct (length _ =? 0)%nat; [done|]. by eapply informed_same.
  - by apply performAging_informed.
  - by apply runSpf_informed.
Qed.

Lemma dispatch_informed clock p raddr d msg : informed d → quiet_message msg → P msg →
  (Q → IP_String raddr = IP_String (OriginatorAddress (msg_Header msg))) → informed (dispatch clock p raddr d msg).1.
Proof.
  intros Hi Hm HP HQ. destruct msg as [[t v o ttl hc sq] body]. unfold quiet_message in Hm.
  cbn [msg_Header msg_Body msg_Type OriginatorAddress] in Hm, HQ. destruct Hm as [[-> (b & -> & _)]|[-> (b & ->)]].
  2:{ unfold dispatch. simpl. destruct (ProcessHNA _ _ _ _ _). by eapply informed_same. }
  rewrite dispatch_hello. cbv zeta. cbn [fst].
  pose proof (step_hello true (neighMgr d) p (clock (1%positive :: p)) (clock (2%positive :: p)) raddr o b v) as Hstep.
  destruct (ProcessHello_effect p (clock (1%positive :: p)) (clock (2%positive :: p)) (neighMgr d) raddr o b v)
    as (nm1 & hrd & _ & Heff & _ & Ehello).
  assert (within_two_hops P (IP_String o)) as Ho by (eexists _, b; split_and!; [exact HP|done|by left]).
  destruct (recalculateMPRs_tables p (clock (2%positive :: p)) nm1) as [s Es].
  assert (∀ nm2 : NeighborManager * list Event, nm2 = (if link_flips (neighMgr d) (IP_String raddr) hrd
    then (recalculateMPRs p (clock (2%positive :: p)) nm1, [MkEvent EventNeighborUpdate (DataString (IP_String o))])
    else (nm1, [])) → neighbors nm2.1 = neighbors nm1 ∧ twoHopLinks nm2.1 = twoHopLinks nm1) as Htables
    by (intros nm2 ->; destruct (link_flips _ _ _); simpl; by rewrite ?Es).
  destruct (Htables _ Ehello) as [E1 E2]. clear Htables Ehello.
  destruct Hi as [H1 H2 H3 H4]. split; [| | |exact H4]; cbn; rewrite ?E1, ?E2.
  - intros k n. rewrite (he_neighbors _ _ _ _ _ _ _ Heff), lookup_insert_Some.
    intros [[<- <-]|[_ Hn]]; [|by apply H1]. split; [|done]. simpl.
    destruct (neighbors (neighMgr d) !! IP_String o) as [n|] eqn:En; [|done]. by destruct (H1 _ _ En).
  - intros u ths w e Hu Hw. pose proof (he_twoHop _ _ _ _ _ _ _ Heff) as Ht. destruct hrd.
    + destruct Ht as (m & Et & Hf). rewrite Et, lookup_insert_Some in Hu. destruct Hu as [[<- <-]|[_ Hu]]; [|by eapply H2].
      apply Hf in Hw as [(_ & _ & Hl) _]. eexists _, b. split_and!; [exact HP|done|by right].
    + rewrite Ht in Hu. apply lookup_delete_Some in Hu as [_ Hu]. by eapply H2.
  - intros HQ'. eapply tidy_step; [by apply H3|]. apply Hstep. intros _. by apply HQ.
Qed.

Lemma process_messages_informed clock raddr hdr msgs : Forall quiet_message msgs → Forall P msgs →
  (Q → Forall (λ m, IP_String raddr = IP_String (OriginatorAddress (msg_Header m))) msgs) →
  ∀ p d, quiet d → informed d → informed (process_messages clock p raddr hdr d msgs).1.
Proof.
  induction msgs as [|msg msgs IH]; intros Hq HP HQ p d Hd Hi; [done|].
  apply Forall_cons in Hq as [Hm Hq]. apply Forall_cons in HP as [Hmsg HP]. cbn [process_messages].
  assert (informed (process_message clock (Pos.of_succ_nat (length msgs) :: p) raddr hdr d msg).1) as H1.
  { destruct (process_message_cases clock (Pos.of_succ_nat (length msgs) :: p) raddr hdr d msg) as [[_ ->]|[_ ->]]; [done|].
    apply dispatch_informed; [|done..|]; [by eapply informed_same|]. intros H%HQ. by apply Forall_cons in H as [? _]. }
  destruct (process_message_quiet clock (Pos.of_succ_nat (length msgs) :: p) raddr hdr d msg Hd Hm) as [H2 _].
  destruct (process_message _ _ _ _ _ _) as [d1 o1].
  specialize (IH Hq HP ltac:(intros H%HQ; by apply Forall_cons in H as [_ ?]) p d1 H2 H1).
  by destruct (process_messages _ _ _ _ _ _) as [d2 o2].
Qed.
End informed.

(** Daemon [i] has had the HNA entry in some state on the way to this one. *)
Definition has_had (init net : Network.Network) (i : nat) (e : HNAEntry) : Prop :=
  ∃ net0 d q, rtc net_step init net0 ∧ rtc net_step net0 net ∧ nodes net0 !! i = Some d ∧ e ∈ GetHNAEntries q (hnaMgr d).

(** What holds of each daemon after a run. *)
Definition node_ok (init : Network.Network) (h : list Received) (net : Network.Network) (i : nat) (d : Daemon) : Prop :=
  quiet d ∧ informed (heard h i) (has_had init net i) (from_originators h) d.

Lemma node_ok_more init h h' net net' i d : h ⊆ h' → net_step net net' →
  node_ok init h net i d → node_ok init h' net' i d.
Proof.
  intros Hh Hs [H1 H2]. split; [done|]. eapply informed_mono; [..|exact H2].
  - intros m (r & pkt & Hr & H). exists r, pkt. split; [by apply Hh|done].
  - intros e (net0 & d0 & q & Hr1 & Hr2 & H). exists net0, d0, q. split; [done|]. split; [by eapply rtc_r|done].
  - intros Hf r pkt m Hr. by apply Hf, Hh.
Qed.

Lemma net_run_ok init h net : net_init init → net_run init h net →
  (∀ i d, nodes net !! i = Some d → node_ok init h net i d) ∧ Forall quiet_frame (air net).
Proof.
  intros [Hair Hinit] Hr. induction Hr as [|h net i d d' out Hr [Hn Hf] Hi Hs|h net i d clock p frame raddr d' out Hr [Hn Hf] Hi Hfr Hp].
  - rewrite Hair. split; [|done]. intros i d (cfg & mon & ->)%Hinit. split; [apply quiet_init|apply informed_init].
  - assert (net_step net (MkNetwork (<[i:=d']> (nodes net)) (air net ++ sends out))) as Hstep by by eapply net_local.
    pose proof (node_ok_more _ _ _ _ _ _ _ (reflexivity h) Hstep (Hn i d Hi)) as [H1 H2].
    destruct (local_step_quiet _ _ _ H1 Hs) as [Hq Ho]. split; [|by apply Forall_app].
    intros j e. cbn [nodes]. rewrite lookup_insert_Some. intros [[<- <-]|[_ ?]];
      [|by eapply (node_ok_more _ h); [done|..|apply Hn]].
    split; [done|]. eapply (local_step_informed _ _ _ d); [done| |done..]. intros q e He.
    exists net, d, q. split; [by apply net_run_reachable; eauto|]. split; [by apply rtc_once|done].
  - assert (net_step net (MkNetwork (<[i:=d']> (nodes net)) (air net ++ sends out))) as Hstep by by eapply net_receive.
    assert (h ⊆ MkReceived i frame raddr :: h) as Hsub by (intros ??; by right).
    pose proof (node_ok_more _ _ _ _ _ _ _ Hsub Hstep (Hn i d Hi)) as [H1 H2].
    rewrite Forall_forall in Hf. destruct (Hf _ Hfr) as (pkt & Hd & Hq).
    unfold processReceivedData in Hp. rewrite Hd in Hp. apply Ok_inj in Hp.
    destruct (process_messages_quiet clock raddr (pkt_Header pkt) (Messages pkt) Hq p d H1) as [Hq' Ho].
    assert (informed (heard (MkReceived i frame raddr :: h) i) (has_had init (MkNetwork (<[i:=d']> (nodes net)) (air net ++ sends out)) i)
      (from_originators (MkReceived i frame raddr :: h)) (process_messages clock p raddr (pkt_Header pkt) d (Messages pkt)).1) as Hi'.
    { apply process_messages_informed; [done| | |done..]; [|intros Hfrom]; apply Forall_forall; intros m Hm.
      - exists (MkReceived i frame raddr), pkt. split; [by left|done].
      - apply (Hfrom (MkReceived i frame raddr) pkt m); [by left|done..]. }
    rewrite Hp in *. cbn [fst snd] in *. split; [|cbn [air]; rewrite Ho, app_nil_r; by apply Forall_forall].
    intros j e. cbn [nodes]. rewrite lookup_insert_Some. intros [[<- <-]|[_ ?]]; [by split|].
    eapply (node_ok_more _ h); [done..|by apply Hn].
Qed.

(** C21. The reach of the routes.  In every run of a network of freshly started
    daemons that hear only each other, each route of a daemon leads to a host
    from which the daemon itself has heard a HELLO or which is listed in a HELLO
    that it has heard, or to a network which such a host announces as gateway:
    whoever is farther away cannot be reached, in a network of any size and for
    any time that it runs.  And when each frame that was received came from the
    address of the originator of its messages, no route has more than two hops
    to a host, nor more than three to a network. *)
Theorem network_routes_two_hops init h net :
  net_init init → net_run init h net →
  ∀ i d k r, nodes net !! i = Some d → activeRoutes d !! k = Some r →
    ∃ v, within_two_hops (heard h i) v ∧
      ((k = v +:+ "/32" ∧ (from_originators h → Metric r ≤ 2)) ∨
       (∃ e, has_had init net i e ∧ IsLocal e = false ∧ GatewayIP e = v ∧ k = IPNet_String (Hna.Network e) ∧
          (from_originators h → Metric r ≤ 3))).
Proof.
  intros Hinit Hr i d k r Hi Hk. destruct (proj1 (net_run_ok _ _ _ Hinit Hr) i d Hi) as [_ Hin].
  exact (inf_routes _ _ _ _ Hin k r Hk).
Qed.
End network.

(** * A concrete network *)

#[local] Existing Instances canonical_order amd64_conv.

(** 10.0.0.2 receives the HELLO of 10.0.0.1 and calculates its routes. *)
Definition received_2 : Daemon * list Output :=
  match processReceivedData (λ _, Second) [] daemon_at_2 first_hello (addr 1) with Ok r => r | _ => (daemon_at_2, []) end.
Definition net_2 : Network.Network := MkNetwork (<[1%nat := received_2.1]> (nodes net_1)) (air net_1 ++ sends received_2.2).
Definition calculated_2 : Daemon * list Output := runSpf (λ _, Second) [] no_monitor 0 received_2.1.
Definition net_3 : Network.Network := MkNetwork (<[1%nat := calculated_2.1]> (nodes net_2)) (air net_2 ++ sends calculated_2.2).

Definition history_3 : list Received := [MkReceived 1 first_hello (addr 1)].

Lemma net_3_run : net_run net_0 history_3 net_3.
Proof.
  assert (air net_1 = [first_hello]) as E by (vm_compute; reflexivity).
  assert (nodes net_1 !! 1%nat = Some daemon_at_2) as E1 by reflexivity.
  apply (run_local net_0 history_3 net_2 1 received_2.1 calculated_2.1 calculated_2.2); [|apply lookup_insert_eq|apply local_spf].
  apply (run_receive net_0 [] net_1 1 daemon_at_2 (λ _, Second) [] first_hello (addr 1) received_2.1 received_2.2);
    [|exact E1|rewrite E; by left|].
  - apply (run_local net_0 [] net_0 0 daemon_at_1 (sendHello [] daemon_at_1).1 (sendHello [] daemon_at_1).2);
      [apply run_init|reflexivity|apply local_hello].
  - assert (∃ r, processReceivedData (λ _, Second) [] daemon_at_2 first_hello (addr 1) = Ok r) as [r Er].
    { unfold processReceivedData. destruct (DeserializePacket first_hello) as [pkt| | |] eqn:Ed; [eauto|vm_compute in Ed; discriminate Ed..]. }
    unfold received_2. rewrite Er. by destruct r.
Qed.

Lemma history_3_from_originators : from_originators history_3.
Proof.
  intros rc pkt m ->%list_elem_of_singleton Hd Hm. cbn [rc_frame rc_addr] in *. destruct pkt as [h ms].
  assert ((λ m, IP_String (OriginatorAddress (msg_Header m))) <$> ms = ["10.0.0.1"]) as Ho.
  { assert ((λ pkt, (λ m, IP_String (OriginatorAddress (msg_Header m))) <$> Messages pkt) <$> DeserializePacket first_hello = Ok ["10.0.0.1"])
      as E2 by (vm_compute; reflexivity). rewrite Hd in E2. by injection E2. }
  assert (Forall (λ s, s = "10.0.0.1") ((λ m, IP_String (OriginatorAddress (msg_Header m))) <$> ms)) as HF
    by (rewrite Ho; apply Forall_singleton; reflexivity).
  rewrite Forall_fmap, Forall_forall in HF. specialize (HF m Hm). cbv beta in HF. unfold compose in HF. rewrite HF.
  vm_compute. reflexivity.
Qed.

Lemma network_routes_two_hops_witness :
  ∃ r v, activeRoutes calculated_2.1 !! "10.0.0.1/32" = Some r ∧ NextHop r = "10.0.0.1" ∧
    within_two_hops (heard history_3 1) v ∧ ("10.0.0.1/32" = v +:+ "/32" ∨ Metric r ≤ 3).
Proof.
  assert (activeRoutes calculated_2.1 !! "10.0.0.1/32" = Some (MkRoute "10.0.0.1/32" "10.0.0.1" 1 0)) as E
    by (vm_compute; reflexivity).
  assert (net_init net_0) as Hinit.
  { split; [reflexivity|]. intros i d Hi. exists (d_cfg d), no_monitor.
    unfold net_0, nodes in Hi. rewrite lookup_insert_Some, lookup_singleton_Some in Hi.
    destruct Hi as [[_ <-]|[_ [_ <-]]]; reflexivity. }
  destruct (network_routes_two_hops net_0 history_3 net_3 Hinit net_3_run 1 calculated_2.1 "10.0.0.1/32" _
    (lookup_insert_eq _ _ _) E) as (v & Hv & H).
  eexists _, v. split; [exact E|]. split; [reflexivity|]. split; [exact Hv|].
  destruct H as [[H _]|(_ & _ & _ & _ & _ & H)]; [left; exact H|right; exact (H history_3_from_originators)].
Defined.
