(* ===== verification/Forwarding.v ===== *)
(** * Forwarding in a converged neighborhood (internal/olsr)

    The tables of several daemons together.  When each daemon knows its own
    neighbors and, from their HELLOs, the neighbors of these, the next hops that
    the daemons look up one after the other bring a packet to every destination
    within two hops, on a shortest way. *)

From S2P Require Import Prelude GoNet TimeVal Packet PacketCodec Events Neighbor NeighborTables NeighborInvariant Topology Hna Heap Dijkstra Spf SpfRoutes Molsr Config Daemon DaemonFacts LinkSensing.

#[local] Opaque EncodeTimeVal DecodeTimeVal.

Section forwarding.
Context {MO : MapOrder}.

(** The links between the daemons, by their identifiers. *)
Context (link : string → string → Prop).

(** A daemon has sensed its links and has heard of those of its neighbors. *)
Record knows (now : Z) (id : string) (nm : NeighborManager) : Prop := {
  kn_neighbors v : listed_neighbor nm v ↔ link id v;
  kn_twoHop u v : (∃ ths e, twoHopLinks nm !! u = Some ths ∧ ths !! v = Some e ∧ now < e) ↔ link id u ∧ link u v ∧ v ≠ id;
}.

(** The topology tuples are links, which another daemon has flooded. *)
Definition topology_true (tm : TopologyManager) : Prop :=
  ∀ t d l, topo_at (topology tm) d l = Some t → link (LastIP t) (DestIP t).

(** Of the gateways only [v] itself announces the host prefix of [v]. *)
Definition unshadowed (id v : string) (entries : list HNAEntry) : Prop :=
  ∀ e, e ∈ entries → IsLocal e = false → GatewayIP e ≠ id → IPNet_String (Network e) = v +:+ "/32" → GatewayIP e = v.

(** A table that the daemon [id] calculates from what it knows; no gateway in
    the way of the destination [v]. *)
Inductive calculated (v id : string) (routes : gmap string Route) : Prop :=
  | calculated_by p lk now nm tm hm :
      GetRouterID lk = id → knows now id nm → topology_true tm → unshadowed id v (GetHNAEntries (4%positive :: p) hm) →
      computeRoutes p lk now nm tm hm = Ok routes → calculated v id routes.

(** The known links are links, and those of the daemon and its neighbors are known. *)
Lemma known_is_link now id nm tm : knows now id nm → topology_true tm → (∀ u v, link u v → link v u) →
  ∀ u v, known_link now nm tm id u v → link u v.
Proof.
  intros [Hn Ht] He Hsym u v. unfold known_link. rewrite Hn, Hn, Ht.
  intros [[-> H]|[[-> H]|[(H1 & H2 & _)|(t & d & l & H & <- & <-)]]]; [done|by apply Hsym|done|by eapply He].
Qed.

Lemma link_is_known now id nm tm : knows now id nm → (∀ u v, link u v → link v u) →
  ∀ u v, u = id ∨ link id u → link u v → known_link now nm tm id u v.
Proof.
  intros [Hn Ht] Hsym u v Hu Hl. unfold known_link. rewrite Hn, Hn, Ht.
  destruct Hu as [->|Hu]; [tauto|]. destruct (decide (v = id)) as [->|Hv]; [right; left; split; [done|by apply Hsym]|tauto].
Qed.

Lemma walk_one E adj a v w : unit_graph E adj → walk adj a v w → w ≤ 0 → v = a ∧ w = 0.
Proof.
  intros Hu Hw. induction Hw as [|u v w c Hw IH He]; [done|]. intros Hle.
  apply Hu in He as [-> _]. pose proof (walk_nonneg adj a u w (unit_graph_positive _ _ Hu) Hw). lia.
Qed.

Lemma walk_two E adj a v : unit_graph E adj → walk adj a v 1 → E a v.
Proof.
  intros Hu Hw. inversion Hw as [|u v' w c Hw' He Ev Ec]; subst. apply Hu in He as [-> He].
  assert (w = 0) as -> by lia. by destruct (walk_one _ _ _ _ _ Hu Hw') as [-> _].
Qed.

(** The destination's distance, when it is within two hops. *)
Lemma near_distance E adj id v : unit_graph E adj → (∀ u w, E u w → link u w) →
  (∀ u w, u = id ∨ link id u → link u w → E u w) → v ≠ id → link id v ∨ (∃ u, link id u ∧ link u v) →
  ∀ d, shortest adj id v d → d = 1 ∧ link id v ∨ d = 2 ∧ ¬ link id v.
Proof.
  intros Hu Hlink Hknown Hv Hreach d [Hwd Hmin].
  assert (∀ x, link id x → walk adj id x 1) as Hone.
  { intros x Hx. apply (walk_snoc adj id id x 0 1); [constructor|]. apply Hu. split; [done|]. apply Hknown; [by left|done]. }
  assert (d ≤ 2).
  { destruct Hreach as [Hl|(u & Hl1 & Hl2)]; [pose proof (Hmin 1 (Hone v Hl)); lia|]. apply (Hmin (1 + 1)).
    eapply walk_snoc; [by apply Hone|]. apply Hu. split; [done|]. apply Hknown; [by right|done]. }
  pose proof (walk_nonneg adj id v d (unit_graph_positive _ _ Hu) Hwd).
  destruct (decide (d ≤ 0)) as [Hd|Hd]; [by destruct (walk_one _ _ _ _ _ Hu Hwd Hd)|].
  destruct (decide (d = 1)) as [->|Hd1]; [left; split; [done|]; by apply Hlink, (walk_two _ _ _ _ Hu)|].
  right. split; [lia|]. intros Hl. specialize (Hmin 1 (Hone v Hl)). lia.
Qed.

(** A destination within two hops is reached. *)
Lemma near_reached E adj id v : unit_graph E adj → (∀ u w, u = id ∨ link id u → link u w → E u w) →
  link id v ∨ (∃ u, link id u ∧ link u v) → ∃ w, walk adj id v w.
Proof.
  intros Hu Hknown [Hl|(u & Hl1 & Hl2)].
  - exists (0 + 1). eapply walk_snoc; [constructor|]. apply Hu. split; [done|]. apply Hknown; [by left|done].
  - exists (0 + 1 + 1). eapply walk_snoc; [eapply walk_snoc; [constructor|]|]; apply Hu; (split; [done|]);
      apply Hknown; [by left|done|by right|done].
Qed.

(** The host route of a calculated table. *)
Lemma host_route id routes v : (∀ u v, link u v → link v u) → calculated v id routes → v ≠ id →
  (link id v ∨ ∃ u, link id u ∧ link u v) →
  ∃ r, routes !! (v +:+ "/32") = Some r ∧
    ((link id v ∧ NextHop r = v) ∨ (¬ link id v ∧ link id (NextHop r) ∧ link (NextHop r) v)).
Proof.
  intros Hsym [p lk now nm tm hm <- Hk Ht Hh Hc] Hv Hreach. set (id := GetRouterID lk) in *.
  set (adj := buildAdjacencyList (1%positive :: p) now nm tm id).
  pose proof (adjacency_unit (1%positive :: p) now nm tm id) as Hu. fold adj in Hu.
  pose proof (known_is_link now id nm tm Hk Ht Hsym) as Hlink. pose proof (link_is_known now id nm tm Hk Hsym) as Hknown.
  destruct (computeRoutes_best p lk now nm tm hm) as (r' & E & Hb). rewrite Hc in E. injection E as <-. fold id adj in Hb.
  pose proof (near_distance _ _ _ _ Hu Hlink Hknown Hv Hreach) as Hdist.
  destruct (near_reached _ _ _ _ Hu Hknown Hreach) as (w & Hw).
  destruct (dijkstra_result (Q := priorityQueue) adj id (unit_graph_positive _ _ Hu) p) as (dist & prev & _ & Hr).
  pose proof (search_resolve (λ _, 0) adj id dist prev v (unit_graph_positive _ _ Hu) Hr Hv) as Hres.
  assert (∃ d h, shortest adj id v d ∧ next_hop adj id h v d) as (d & h0 & Hs & Hh0).
  { destruct (dist !! v) as [d|] eqn:Ed; [|by destruct (proj1 (sr_unreached _ _ _ _ Hr v) Ed w)].
    destruct Hres as (h & _ & Hhop). exists d, h. split; [by apply (sr_reached _ _ _ _ Hr)|done]. }
  specialize (Hb (v +:+ "/32")). destruct (routes !! (v +:+ "/32")) as [r|].
  2:{ exfalso. apply (Hb (route_via lk (v +:+ "/32") h0 d)). left. by exists v, d, h0. }
  exists r. split; [done|]. destruct Hb as [[Hc'|(e & d' & h & He & Hloc & Hgw & Hs' & _ & Hp & ->)] Hbest].
  2:{ exfalso. pose proof (Hh e He Hloc Hgw (eq_sym Hp)) as Egw. rewrite Egw in Hs'.
      pose proof (shortest_unique _ _ _ _ _ Hs' Hs) as ->.
      assert (candidate lk adj (GetHNAEntries (4%positive :: p) hm) (v +:+ "/32") (route_via lk (v +:+ "/32") h0 d)) as Hc'
        by (left; by exists v, d, h0).
      specialize (Hbest _ Hc'). simpl in Hbest. lia. }
  destruct Hc' as (v' & d' & h & _ & Hs' & (c & Hc1 & Hc2) & Ev & ->). apply str_app_inj_r in Ev as <-. cbn [NextHop route_via].
  rewrite (shortest_unique _ _ _ _ _ Hs' Hs) in Hc2. apply Hu in Hc1 as [-> Hl%Hlink].
  destruct (Hdist d Hs) as [[-> Hd]|[-> Hd]].
  - left. split; [done|]. by destruct (walk_one _ _ _ _ _ Hu Hc2).
  - right. split; [done|]. split; [done|]. by apply (walk_two _ _ _ _ Hu), Hlink in Hc2.
Qed.

(** Where a packet to [dest] is after at most [n] hops, each by the next hop that
    the daemon it is at looks up. *)
Fixpoint forward (tables : string → gmap string Route) (n : nat) (at_ dest : string) : option string :=
  if bool_decide (at_ = dest) then Some at_
  else match n with
  | O => Some at_
  | S n => match GetNextHopForDest [Pos.of_succ_nat n] (tables at_) dest with
           | Ok (h, _) => forward tables n h dest
           | _ => None
           end
  end.

Lemma host_next_hop p routes v r : routes !! (v +:+ "/32") = Some r →
  GetNextHopForDest p routes v = Ok (NextHop r, IfaceIndex r).
Proof. intros E. unfold GetNextHopForDest. by rewrite E. Qed.

(** C5. Forwarding.  The links are symmetric; a daemon and its neighbors know their
    links and those of their neighbors, and have calculated their routes, each
    at its own time and with its own interfaces.  The topology tuples they hold
    are links, and of the gateways they know none but the destination announces
    the destination's host prefix.  Then a packet to any destination within two
    hops arrives, in one hop if the destination is a neighbor and in two
    otherwise. *)
Theorem forwarding_delivers (tables : string → gmap string Route) a v :
  (∀ u w, link u w → link w u) →
  (∀ id, id = a ∨ link a id → calculated v id (tables id)) → v ≠ a →
  link a v ∨ (∃ u, link a u ∧ link u v) →
  forward tables 2 a v = Some v ∧ (link a v → forward tables 1 a v = Some v) ∧
  (¬ link a v → ∃ h, link a h ∧ link h v ∧ forward tables 1 a v = Some h).
Proof.
  intros Hsym Hcalc Hv Hreach.
  destruct (host_route a (tables a) v Hsym (Hcalc a (or_introl eq_refl)) Hv Hreach) as (r & Er & Hr).
  assert (∀ n, forward tables (S n) a v = forward tables n (NextHop r) v) as Hstep.
  { intros n. cbn [forward]. rewrite bool_decide_false by done. by rewrite (host_next_hop _ _ _ r). }
  assert (∀ n, forward tables n v v = Some v) as Hend by (intros []; simpl; by rewrite bool_decide_true).
  rewrite !Hstep. destruct Hr as [[Hl Hn]|(Hl & Hl1 & Hl2)].
  - rewrite Hn, !Hend. done.
  - split; [|split; [done|]].
    + set (h := NextHop r) in *. cbn [forward]. case_bool_decide as Ehv; [by rewrite Ehv|].
      destruct (host_route h (tables h) v Hsym (Hcalc h (or_intror Hl1)) (not_eq_sym Ehv) (or_introl Hl2)) as (r' & Er' & Hr').
      rewrite (host_next_hop _ _ _ r') by done. destruct Hr' as [[_ ->]|[Hno _]]; [apply (Hend 0%nat)|done].
    + intros _. exists (NextHop r). split; [done|]. split; [done|]. simpl. by case_bool_decide.
Qed.
End forwarding.

(** * Three daemons in a row *)

#[local] Existing Instances canonical_order amd64_conv.

Definition daemon_at_3 : Daemon := initializeComponents (config_at "10.0.0.3") no_monitor.

(** A daemon hears frames, each from its sender. *)
Definition hear (d : Daemon) (frames : list (list Z * IP)) : Daemon :=
  foldl (λ d f, match processReceivedData (λ _, Second) [] d f.1 f.2 with Ok r => r.1 | _ => d end) d frames.

(** Each daemon sends a HELLO; 10.0.0.1 and 10.0.0.3 hear only 10.0.0.2. *)
Definition round (ds : Daemon * Daemon * Daemon) : Daemon * Daemon * Daemon :=
  let '(d1, d2, d3) := ds in
  let r1 := sendHello [] d1 in let r2 := sendHello [] d2 in let r3 := sendHello [] d3 in
  let from n out := (λ f, (f, addr n)) <$> sends out in
  (hear r1.1 (from 2 r2.2), hear r2.1 (from 1 r1.2 ++ from 3 r3.2), hear r3.1 (from 2 r2.2)).

Definition three_daemons : Daemon * Daemon * Daemon := Nat.iter 3 round (daemon_at_1, daemon_at_2, daemon_at_3).

Definition nm_in_row (id : string) : NeighborManager :=
  let '(d1, d2, d3) := three_daemons in
  neighMgr (if bool_decide (id = "10.0.0.1") then d1 else if bool_decide (id = "10.0.0.2") then d2 else d3).

(** 10.0.0.2 has flooded its neighbors, and 10.0.0.3 a network. *)
Definition tm_in_row : TopologyManager :=
  (ProcessTC Second NewTopologyManager (addr 2) (MkTCMessage 7 [addr 1; addr 3]) (15 * Second)).1.
Definition hm_in_row : HNAManager :=
  (ProcessHNA Second NewHNAManager (addr 3)
     (MkHNAMessage [MkHNAAssociation [10; 1; 0; 0] (MkIPNet [10; 1; 0; 0] [255; 255; 0; 0])]) (15 * Second)).1.

Definition table_in_row (id : string) : gmap string Route :=
  match computeRoutes [] (MkLookup id (λ _, 0)) Second (nm_in_row id) tm_in_row hm_in_row with
  | Ok routes => routes
  | _ => ∅
  end.

Definition link_in_row (u v : string) : Prop :=
  (v = "10.0.0.2" ∧ (u = "10.0.0.1" ∨ u = "10.0.0.3")) ∨ (u = "10.0.0.2" ∧ (v = "10.0.0.1" ∨ v = "10.0.0.3")).

(** What is known, read off the lists the getters give. *)
Lemma knows_lists link now id nm ns ths :
  GetNeighbors [] nm = ns → range [] (GetTwoHopNeighbors [] now nm) = ths →
  (∀ v, (∃ n, n ∈ ns ∧ neigh_NeighborIP n = v) ↔ link id v) →
  (∀ u v, (∃ kv, kv ∈ ths ∧ u = kv.1 ∧ v ∈ kv.2) ↔ link id u ∧ link u v ∧ v ≠ id) → knows link now id nm.
Proof.
  intros <- <- Hn Ht. split.
  - intros v. by rewrite <-(GetNeighbors_listed []).
  - intros u v. by rewrite <-(GetTwoHopNeighbors_listed [] []).
Qed.

Lemma row_1_knows : knows link_in_row Second "10.0.0.1" (nm_in_row "10.0.0.1").
Proof.
  eapply (knows_lists _ _ _ _ [MkNeighborTuple "10.0.0.2" true 3] [("10.0.0.2", ["10.0.0.3"])]);
    [vm_compute; reflexivity|vm_compute; reflexivity|..].
  - intros v. setoid_rewrite list_elem_of_singleton. unfold link_in_row. split.
    + intros (n & -> & <-). left. auto.
    + intros [[-> _]|[E _]]; [eauto|discriminate E].
  - intros u v. setoid_rewrite list_elem_of_singleton. unfold link_in_row. split.
    + intros (kv & -> & -> & ->%list_elem_of_singleton). simpl. split; [auto|]. split; [auto|discriminate].
    + intros ([[-> _]|[E _]] & [[_ [E1|E1]]|[_ [->| ->]]] & Hne); try discriminate E1; try discriminate E; try done.
      exists ("10.0.0.2", ["10.0.0.3"]). split; [done|]. split; [done|]. by apply list_elem_of_singleton.
Qed.

Lemma row_2_knows : knows link_in_row Second "10.0.0.2" (nm_in_row "10.0.0.2").
Proof.
  eapply (knows_lists _ _ _ _ [MkNeighborTuple "10.0.0.3" true 3; MkNeighborTuple "10.0.0.1" true 3] []);
    [vm_compute; reflexivity|vm_compute; reflexivity|..].
  - intros v. unfold link_in_row. split.
    + intros (n & Hn & <-). right. split; [done|]. apply elem_of_cons in Hn as [->|Hn]; [by right|].
      apply list_elem_of_singleton in Hn as ->. by left.
    + intros [[-> [E|E]]|[_ [->| ->]]]; try discriminate E.
      * eexists. split; [right; by left|done].
      * eexists. split; [by left|done].
  - intros u v. unfold link_in_row. split; [intros (kv & []%elem_of_nil & _)|].
    intros (H1 & H2 & Hne). destruct H1 as [[_ [E|E]]|[_ Hu]]; [discriminate E..|].
    destruct H2 as [[-> _]|[-> _]]; [done|]. destruct Hu as [E|E]; discriminate E.
Qed.

Lemma row_topology_true : topology_true link_in_row tm_in_row.
Proof.
  assert (map_Forall (λ _ lasts, map_Forall (λ _ t, link_in_row (LastIP t) (DestIP t)) lasts) (topology tm_in_row)) as H.
  { unfold link_in_row. apply (bool_decide_unpack _). vm_compute. exact I. }
  intros t d l Ht. unfold topo_at in Ht. destruct (topology tm_in_row !! d) as [lasts|] eqn:E; [|discriminate Ht].
  exact (H d lasts E l t Ht).
Qed.

Lemma row_unshadowed id : unshadowed id "10.0.0.3" (GetHNAEntries [4%positive] hm_in_row).
Proof.
  intros e He _ _ Hp. exfalso. revert Hp.
  assert (Forall (λ e, IPNet_String (Network e) ≠ "10.0.0.3" +:+ "/32") (GetHNAEntries [4%positive] hm_in_row)) as H
    by (apply (bool_decide_unpack _); vm_compute; exact I).
  exact (proj1 (Forall_forall _ _) H e He).
Qed.

Lemma forwarding_delivers_witness :
  forward table_in_row 2 "10.0.0.1" "10.0.0.3" = Some "10.0.0.3" ∧
  ∃ h, link_in_row "10.0.0.1" h ∧ link_in_row h "10.0.0.3".
Proof.
  assert (∀ id, id = "10.0.0.1" ∨ link_in_row "10.0.0.1" id → calculated link_in_row "10.0.0.3" id (table_in_row id)) as Hc.
  { intros id Hid. assert (knows link_in_row Second id (nm_in_row id)) as Hk.
    { destruct Hid as [->|[[-> _]|[E _]]]; [exact row_1_knows|exact row_2_knows|discriminate E]. }
    destruct (computeRoutes_best [] (MkLookup id (λ _, 0)) Second (nm_in_row id) tm_in_row hm_in_row) as (routes & E & _).
    apply (calculated_by _ _ _ _ [] (MkLookup id (λ _, 0)) Second (nm_in_row id) tm_in_row hm_in_row);
      [reflexivity|exact Hk|exact row_topology_true|apply row_unshadowed|].
    unfold table_in_row. by rewrite E. }
  assert (∀ u w, link_in_row u w → link_in_row w u) as Hsym by (unfold link_in_row; tauto).
  destruct (forwarding_delivers link_in_row table_in_row "10.0.0.1" "10.0.0.3" Hsym Hc ltac:(discriminate)
    ltac:(right; exists "10.0.0.2"; unfold link_in_row; auto)) as (H2 & _ & H).
  split; [exact H2|]. destruct H as (h & H1 & H3 & _); [intros [[E _]|[E _]]; discriminate E|]. exists h. exact (conj H1 H3).
Defined.
