(* ===== verification/Locking.v ===== *)
(** * The locks of the daemon (all packages)

    Each manager has a mutex, held for a whole operation, and operations call
    each other and publish events while they hold theirs.  The model of a
    goroutine is the sequence of its lock and channel operations and of its
    accesses to the fields that a mutex guards; a mutex is Go's [RWMutex] (or
    [Mutex], always locked exclusively): a writer that waits keeps new readers
    out.  A send to a full channel gives up after the bus's timeout.  What the
    operations compute is in the other files. *)

From S2P Require Import Prelude Events.

(** The mutexes, by the type that has them. *)
Inductive Lock :=
  | LConfig | LMonitor | LNeighbor | LTopology | LHna | LMolsr | LSpf | LBus | LSeq | LApi | LZapi | LMroute | LLoopPrev.

#[export] Instance Lock_eq_dec : EqDecision Lock.
Proof. solve_decision. Defined.

(** [RLock] or [Lock]; a read or a write. *)
Inductive Mode := Shared | Exclusive.

#[export] Instance Mode_eq_dec : EqDecision Mode.
Proof. solve_decision. Defined.

Inductive Act :=
  | Acquire (m : Mode) (l : Lock)
  | Release (m : Mode) (l : Lock)
  | Access (m : Mode) (l : Lock)        (* of the fields next to the mutex [l] *)
  | Send (ty : EventType).

#[export] Instance Act_eq_dec : EqDecision Act.
Proof. solve_decision. Defined.

(** ** The operations *)

(** [mu.Lock(); defer mu.Unlock()] around a body, or the shared form. *)
Definition guarded (m : Mode) (l : Lock) (body : list Act) : list Act :=
  Acquire m l :: body ++ [Release m l].

(** The types [run] subscribes to, once each. *)
Definition has_subscriber (ty : EventType) : bool :=
  bool_decide (ty ∈ [EventRouteInstall; EventNeighborUpdate; EventTopologyUpdate; EventSPFTrigger]).

(** [EventBus.Publish]: the list of subscribers is copied under the lock, the
    sends come after it. *)
Definition Publish_locks (ty : EventType) : list Act :=
  guarded Shared LBus [Access Shared LBus] ++ (if has_subscriber ty then [Send ty] else []).

Definition publishes (tys : list EventType) : list Act := ty ← tys; Publish_locks ty.

(** The loops that compare an old table with a new one: the old one is read
    before each event. *)
Definition publishes_differences (l : Lock) (tys : list EventType) : list Act :=
  ty ← tys; Access Shared l :: Publish_locks ty.

(** [Subscribe] and [Unsubscribe] *)
Definition Subscribe_locks : list Act := guarded Exclusive LBus [Access Exclusive LBus].

(** An operation of one of the four managers, with the events it publishes. *)
Definition manager_op_locks (l : Lock) (tys : list EventType) : list Act :=
  guarded Exclusive l (Access Exclusive l :: publishes tys).

(** A getter. *)
Definition getter_locks (l : Lock) : list Act := guarded Shared l [Access Shared l].

(** How [findOutgoingInterface] ends: the next hop is no address, an interface in
    its subnet, the first configured one. *)
Inductive Lookup := NoAddress | InSubnet | FirstConfigured.

(** The lookup of an interface: [findOutgoingInterface], then [GetIfaceIndex]. *)
Definition lookup_locks (l : Lookup) : list Act :=
  match l with
  | NoAddress => []
  | InSubnet => getter_locks LMonitor
  | FirstConfigured => getter_locks LMonitor ++ getter_locks LConfig
  end ++ getter_locks LMonitor.

(** [CalculateRoutes]: the three reads of [buildAdjacencyList], the lookups of
    the host routes, the gateways and their lookups, the differences, the new
    table, the metrics event. *)
Definition CalculateRoutes_locks (hosts gateways : list Lookup) (tys : list EventType) : list Act :=
  guarded Exclusive LSpf
    (getter_locks LNeighbor ++ getter_locks LNeighbor ++ getter_locks LTopology ++
     (hosts ≫= lookup_locks) ++ getter_locks LHna ++ (gateways ≫= lookup_locks) ++
     publishes_differences LSpf tys ++ [Access Exclusive LSpf] ++ Publish_locks EventSPFTrigger).

(** [RecalculateMroutes]: the next hops come from the engine. *)
Definition RecalculateMroutes_locks (lookups : nat) (tys : list EventType) : list Act :=
  guarded Exclusive LMolsr
    ((replicate lookups () ≫= λ _, Access Shared LMolsr :: getter_locks LSpf) ++
     publishes_differences LMolsr tys ++ [Access Exclusive LMolsr]).

(** The loop-prevention manager locks for its map, and the nftables one again for
    its rules. *)
Definition OnMulticastRoute_locks (nftables : bool) : list Act :=
  guarded Exclusive LLoopPrev [Access Exclusive LLoopPrev] ++
  (if nftables then guarded Exclusive LLoopPrev [Access Shared LLoopPrev] else []).

(** What becomes of a route's loop prevention: there is no manager; no next hop
    or hardware address is known; the manager of one kind takes the route. *)
Inductive Prevention := NoManager | Unresolved | Registered (nftables : bool).

(** The kernel router has a mutex, the vtysh router has none. *)
Definition router_locks (linux : bool) : list Act := 
  if linux then guarded Exclusive LMroute [Access Exclusive LMroute] else [].

(** [handleMulticastAdd]: the router, the next hop, the manager. *)
Definition handleMulticastAdd_locks (linux : bool) (lp : Prevention) : list Act :=
  router_locks linux ++
  match lp with
  | NoManager => []
  | Unresolved => getter_locks LSpf
  | Registered nftables => getter_locks LSpf ++ OnMulticastRoute_locks nftables
  end.

Definition handleMulticastDelete_locks (linux : bool) (manager : option bool) : list Act :=
  router_locks linux ++ match manager with Some nftables => OnMulticastRoute_locks nftables | None => [] end.

(** [ZAPIClient.send], and with the same lock the parts of the connection loop
    and the read loop. *)
Definition send_locks : list Act := guarded Exclusive LZapi [Access Exclusive LZapi].

(** The turn of the connection loop that connected: the flag, the event, and the
    synchronization of the routes. *)
Definition connected_locks (routes : nat) : list Act :=
  send_locks ++ Publish_locks EventRouteInstall ++ getter_locks LSpf ++ (replicate routes () ≫= λ _, send_locks).

(** The next packet and message numbers. *)
Definition next_seq_locks : list Act := guarded Exclusive LSeq [Access Exclusive LSeq].

(** The numbers are taken before the links are listed; [broadcastPacket] reads
    the configuration again. *)
Definition sendHello_locks : list Act :=
  getter_locks LConfig ++ next_seq_locks ++ getter_locks LNeighbor ++ getter_locks LConfig.

(** [sendTC] and [sendHNA], which send nothing when the list is empty. *)
Definition sendTC_locks (sent : bool) : list Act :=
  getter_locks LConfig ++ getter_locks LNeighbor ++ (if sent then next_seq_locks ++ getter_locks LConfig else []).
Definition sendHNA_locks (sent : bool) : list Act :=
  getter_locks LConfig ++ getter_locks LHna ++ (if sent then next_seq_locks ++ getter_locks LConfig else []).

(** What a goroutine runs between two of its waits. *)
Inductive operation : list Act → Prop :=
  | op_manager l tys : l ∈ [LNeighbor; LTopology; LHna; LMolsr] → operation (manager_op_locks l tys)
  | op_getter l : l ∈ [LConfig; LMonitor; LNeighbor; LTopology; LHna; LMolsr; LSpf; LLoopPrev] → operation (getter_locks l)
  | op_calculate hosts gateways tys : operation (CalculateRoutes_locks hosts gateways tys)
  | op_not_ready : operation (guarded Exclusive LSpf [])          (* no router ID: an error *)
  | op_mroutes lookups tys : operation (RecalculateMroutes_locks lookups tys)
  | op_multicast_add linux lp : operation (handleMulticastAdd_locks linux lp)
  | op_multicast_delete linux manager : operation (handleMulticastDelete_locks linux manager)
  | op_send : operation send_locks
  | op_connected routes : operation (connected_locks routes)
  | op_hello : operation sendHello_locks
  | op_tc sent : operation (sendTC_locks sent)
  | op_hna sent : operation (sendHNA_locks sent)
  | op_mutex l : l ∈ [LConfig; LMonitor; LApi; LMroute; LLoopPrev] → operation (guarded Exclusive l [Access Exclusive l])
  | op_publish ty : operation (Publish_locks ty)
  | op_subscribe : operation Subscribe_locks.

(** ** The goroutines *)

Record Goroutine := MkGoroutine {
  held : list (Mode * Lock);      (* the latest first *)
  announced : bool;               (* waits in [Lock], new readers are kept out *)
  todo : list Act;                (* empty: it waits for an event, a tick, a packet *)
}.

Record Locked := MkLocked {
  goroutines : list Goroutine;
  fill : EventType → nat;         (* the events in the channel of a type *)
  dropped : EventType → nat;      (* the events whose send timed out *)
}.

Definition holds (l : Lock) (g : Goroutine) : bool := existsb (λ h, bool_decide (h.2 = l)) (held g).
Definition writes (l : Lock) (g : Goroutine) : bool := bool_decide ((Exclusive, l) ∈ held g).
Definition wants (l : Lock) (g : Goroutine) : bool :=
  announced g && bool_decide (head (todo g) = Some (Acquire Exclusive l)).

Section system.
Context (capacity : nat).        (* of each channel *)

Definition set_fill (f : EventType → nat) (ty : EventType) (n : nat) : EventType → nat :=
  λ t, if bool_decide (t = ty) then n else f t.

(** The step of goroutine [i] with something to do; one step at most is possible. *)
Definition work (s : Locked) (i : nat) : option Locked :=
  g ← goroutines s !! i;
  let next g' := Some (MkLocked (<[i := g']> (goroutines s)) (fill s) (dropped s)) in
  match todo g with
  | [] => None
  | Acquire Exclusive l :: rest =>
      if negb (announced g) then next (MkGoroutine (held g) true (todo g))
      else if existsb (holds l) (goroutines s) then None
      else next (MkGoroutine ((Exclusive, l) :: held g) false rest)
  | Acquire Shared l :: rest =>
      if existsb (writes l) (goroutines s) || existsb (wants l) (goroutines s) then None
      else next (MkGoroutine ((Shared, l) :: held g) false rest)
  | Release m l :: rest =>
      match held g with
      | h :: hs => if bool_decide (h = (m, l)) then next (MkGoroutine hs false rest) else None
      | [] => None
      end
  | Access m l :: rest => next (MkGoroutine (held g) false rest)
  | Send ty :: rest =>
      let gs := <[i := MkGoroutine (held g) false rest]> (goroutines s) in
      Some (if (fill s ty <? capacity)%nat
            then MkLocked gs (set_fill (fill s) ty (S (fill s ty))) (dropped s)
            else MkLocked gs (fill s) (set_fill (dropped s) ty (S (dropped s ty))))
  end.

(** A goroutine that waits starts an operation, for a reason of its own or
    because it took an event from a channel. *)
Inductive system_step (s : Locked) : Locked → Prop :=
  | sys_work i s' : work s i = Some s' → system_step s s'
  | sys_start i g p : goroutines s !! i = Some g → todo g = [] → operation p →
      system_step s (MkLocked (<[i := MkGoroutine (held g) false p]> (goroutines s)) (fill s) (dropped s))
  | sys_receive i g ty n p : goroutines s !! i = Some g → todo g = [] → fill s ty = S n → p = [] ∨ operation p →
      system_step s (MkLocked (<[i := MkGoroutine (held g) false p]> (goroutines s)) (set_fill (fill s) ty n) (dropped s)).

(** Goroutines that hold nothing and wait. *)
Definition system_start (n : nat) : Locked := MkLocked (replicate n (MkGoroutine [] false [])) (λ _, O) (λ _, O).

Definition system_reachable (s : Locked) : Prop := ∃ n, rtc system_step (system_start n) s.
End system.
