(* ===== verification/LockingFacts.v ===== *)
(** * No deadlock (all packages)

    Every operation takes its locks in one order: MOLSR manager, engine, the
    other managers, the bus; and it touches the fields of a mutex only while it
    holds it.  Hence there is no data race, no goroutine waits for ever, and all
    that was begun ends.  But the engine publishes route events under its lock,
    which the installer may need before it takes the next event, and then the
    events that find no room are lost. *)

From S2P Require Import Prelude Events Locking.

Definition rank (l : Lock) : nat :=
  match l with LMolsr => 0 | LSpf => 1 | LBus => 3 | _ => 2 end.

(** ** Ordered programs *)

(** The locks allow a read, or a write. *)
Definition may_access (h : list (Mode * Lock)) (m : Mode) (l : Lock) : bool :=
  existsb (λ x, bool_decide (x = (Exclusive, l)) || bool_decide (x = (m, l))) h.

(** What remains to do takes locks upwards and releases the latest first. *)
Fixpoint ordered (h : list (Mode * Lock)) (p : list Act) : bool :=
  match p with
  | [] => bool_decide (h = [])
  | Acquire m l :: p => forallb (λ x, rank x.2 <? rank l)%nat h && ordered ((m, l) :: h) p
  | Release m l :: p => match h with x :: h => bool_decide (x = (m, l)) && ordered h p | [] => false end
  | Access m l :: p => may_access h m l && ordered h p
  | Send _ :: p => ordered h p
  end.

(** A part of a program that runs under the locks [c], and takes locks of rank
    [r] and higher. *)
Definition fits (r : nat) (c : list (Mode * Lock)) (p : list Act) : Prop :=
  ∀ h rest, (∀ x, x ∈ c → x ∈ h) → Forall (λ x, rank x.2 < r)%nat h → ordered h rest = true → ordered h (p ++ rest) = true.

Lemma fits_nil r c : fits r c [].
Proof. by intros h rest. Qed.

Lemma fits_app r c p q : fits r c p → fits r c q → fits r c (p ++ q).
Proof. intros Hp Hq h rest Hc Hh Hr. rewrite <-app_assoc. apply Hp; [done..|]. by apply Hq. Qed.

Lemma fits_cons r c a p : fits r c [a] → fits r c p → fits r c (a :: p).
Proof. intros Ha Hp. exact (fits_app r c [a] p Ha Hp). Qed.

Lemma fits_bind {A} r c (f : A → list Act) l : (∀ x, fits r c (f x)) → fits r c (l ≫= f).
Proof. intros Hf. induction l as [|x l IH]; [apply fits_nil|]. by apply fits_app. Qed.

Lemma fits_send r c ty : fits r c [Send ty].
Proof. by intros h rest. Qed.

Lemma fits_access r c m l : may_access c m l = true → fits r c [Access m l].
Proof.
  intros Hm h rest Hc Hh Hr. simpl. rewrite Hr, andb_true_r. revert Hm. unfold may_access. rewrite !existsb_exists.
  intros (x & Hx%list_elem_of_In & Hb). exists x. split; [|done]. by apply list_elem_of_In, Hc.
Qed.

Lemma fits_guarded r c m l p : (r ≤ rank l)%nat → fits (S (rank l)) ((m, l) :: c) p → fits r c (guarded m l p).
Proof.
  intros Hr Hp h rest Hc Hh Ho. unfold guarded. simpl. apply andb_true_iff. split.
  - rewrite forallb_forall. intros x Hx%list_elem_of_In. rewrite Forall_forall in Hh. apply Nat.ltb_lt.
    specialize (Hh x Hx). lia.
  - rewrite <-app_assoc. apply Hp.
    + intros x [->|Hx]%elem_of_cons; apply elem_of_cons; [by left|right; by apply Hc].
    + apply Forall_cons_2; [simpl; lia|]. eapply Forall_impl; [exact Hh|]. simpl. intros x Hx. lia.
    + simpl. by rewrite bool_decide_true.
Qed.

(** A lock that is taken for one access. *)
Lemma fits_single r c m m' l : (r ≤ rank l)%nat → m' = m ∨ m' = Shared ∧ m = Exclusive → fits r c (guarded m l [Access m' l]).
Proof.
  intros Hr Hm. apply fits_guarded, fits_access; [done|]. simpl.
  destruct Hm as [->|[-> ->]]; [rewrite (bool_decide_true ((m, l) = (m, l)))|rewrite (bool_decide_true ((Exclusive, l) = (Exclusive, l)))]; try done.
  by rewrite orb_true_r.
Qed.

Lemma Publish_fits r c ty : (r ≤ 3)%nat → fits r c (Publish_locks ty).
Proof.
  intros Hr. apply fits_app; [apply fits_single; auto|].
  destruct (has_subscriber ty); [apply fits_send|apply fits_nil].
Qed.

Lemma publishes_fits r c tys : (r ≤ 3)%nat → fits r c (publishes tys).
Proof. intros Hr. apply fits_bind. intros ty. by apply Publish_fits. Qed.

Lemma differences_fits r c l tys : (r ≤ 3)%nat → may_access c Shared l = true → fits r c (publishes_differences l tys).
Proof. intros Hr Hl. apply fits_bind. intros ty. apply fits_cons; [by apply fits_access|by apply Publish_fits]. Qed.

Lemma getter_fits r c l : (r ≤ rank l)%nat → fits r c (getter_locks l).
Proof. intros Hr. apply fits_single; auto. Qed.

Lemma router_fits r c linux : (r ≤ 2)%nat → fits r c (router_locks linux).
Proof. intros Hr. destruct linux; [apply fits_single; auto|apply fits_nil]. Qed.

Ltac solve_fits :=
  repeat first [apply fits_nil | apply publishes_fits; simpl; lia | apply Publish_fits; simpl; lia | apply getter_fits; simpl; lia | apply router_fits; lia
    | apply differences_fits; [simpl; lia|reflexivity] | apply fits_single; [simpl; lia|by auto]
    | match goal with |- fits _ _ (Access _ _ :: _) => apply fits_cons; [apply fits_access; reflexivity|] end
    | apply fits_app | apply fits_bind; intros ?
    | apply fits_guarded; [simpl; lia|] | match goal with |- fits _ _ (if ?b then _ else _) => destruct b | |- fits _ _ (match ?b with _ => _ end) => destruct b end].

(** Every operation of the daemon is ordered. *)
Lemma operation_fits p : operation p → fits 0 [] p.
Proof.
  intros [l tys Hl|l Hl|hosts gateways tys| |lookups tys|linux lp|linux manager| |routes| |sent|sent|l Hl|ty|]; try (solve_fits; fail).
  apply fits_guarded; [lia|]. apply fits_cons.
  - apply fits_access. simpl. by rewrite bool_decide_true.
  - apply publishes_fits. repeat (apply elem_of_cons in Hl as [->|Hl]; [simpl; lia|]). by apply elem_of_nil in Hl.
Qed.

(** ** The invariant *)

Section system.
Context (capacity : nat).

Notation system_step := (system_step capacity).
Notation work := (work capacity).

(** A goroutine by itself: its program is ordered, and it announces the lock it is about to take. *)
Record good (g : Goroutine) : Prop := {
  go_ordered : ordered (held g) (todo g) = true;
  go_announced : announced g = true → ∃ l rest, todo g = Acquire Exclusive l :: rest;
}.

Record system_ok (s : Locked) : Prop := {
  so_good i g : goroutines s !! i = Some g → good g;
  so_excludes i j g g' l : goroutines s !! i = Some g → goroutines s !! j = Some g' → i ≠ j →
    (Exclusive, l) ∈ held g → ∀ m, (m, l) ∉ held g';
  so_room ty : (fill s ty ≤ capacity)%nat;
}.

Lemma holds_spec l g : holds l g = true ↔ ∃ m, (m, l) ∈ held g.
Proof.
  unfold holds. rewrite existsb_exists. split.
  - intros ([m l'] & Hin%list_elem_of_In & E%bool_decide_eq_true). simpl in E. subst l'. by exists m.
  - intros (m & Hin). exists (m, l). split; [by apply list_elem_of_In|by apply bool_decide_eq_true].
Qed.

Lemma writes_spec l g : writes l g = true ↔ (Exclusive, l) ∈ held g.
Proof. apply bool_decide_eq_true. Qed.

Lemma existsb_goroutine (f : Goroutine → bool) s : existsb f (goroutines s) = true ↔ ∃ i g, goroutines s !! i = Some g ∧ f g = true.
Proof.
  rewrite existsb_exists. split.
  - intros (g & Hin%list_elem_of_In & Hf). apply list_elem_of_lookup in Hin as [i Hi]. by exists i, g.
  - intros (i & g & Hi & Hf). exists g. split; [|done]. apply list_elem_of_In. by eapply list_elem_of_lookup_2.
Qed.

Lemma existsb_none (f : Goroutine → bool) s i g : existsb f (goroutines s) = false → goroutines s !! i = Some g → f g = false.
Proof.
  intros Hf Hi. apply not_true_iff_false. intros Ht. apply not_true_iff_false in Hf. apply Hf, existsb_goroutine. by exists i, g.
Qed.

(** One goroutine moves on. *)
Lemma system_ok_update s i g g' f b : system_ok s → goroutines s !! i = Some g → good g' → (∀ ty, f ty ≤ capacity)%nat →
  (∀ m l, (m, l) ∈ held g' → (m, l) ∉ held g → ∀ j gj, goroutines s !! j = Some gj → j ≠ i →
    (∀ m', (m', l) ∈ held gj → m = Shared ∧ m' = Shared)) →
  system_ok (MkLocked (<[i := g']> (goroutines s)) f b).
Proof.
  intros [Hg Hx _] Hi Hg' Hf Hnew. pose proof (lookup_lt_Some _ _ _ Hi) as Hlt. split; cbn [goroutines fill]; [..|done].
  - intros j gj [[<- [-> _]]|[_ Hj]]%list_lookup_insert_Some; [done|by eapply Hg].
  - intros j k gj gk l Hj Hk Hne Hin m Hin'.
    apply list_lookup_insert_Some in Hj as [[<- [-> _]]|[Hij Hj]]; apply list_lookup_insert_Some in Hk as [[<- [-> _]]|[Hik Hk]]; try done.
    + destruct (decide ((Exclusive, l) ∈ held g)) as [Hold|Hold]; [by apply (Hx i k g gk l Hi Hk Hne Hold m)|].
      by destruct (Hnew _ _ Hin Hold k gk Hk (not_eq_sym Hik) m Hin').
    + destruct (decide ((m, l) ∈ held g)) as [Hold|Hold]; [by apply (Hx j i gj g l Hj Hi Hne Hin m)|].
      by destruct (Hnew _ _ Hin' Hold j gj Hj (not_eq_sym Hij) Exclusive Hin).
    + by apply (Hx j k gj gk l Hj Hk Hne Hin m).
Qed.

Lemma work_ok s i s' : system_ok s → work s i = Some s' → system_ok s'.
Proof.
  intros Hok. unfold work. destruct (goroutines s !! i) as [g|] eqn:Hi; [|done]. cbn [mbind option_bind].
  pose proof (so_good _ Hok _ _ Hi) as [Ho Ha]. pose proof (so_room _ Hok) as Hroom.
  destruct (todo g) as [|[[] l|m l|m l|ty] rest] eqn:Et; [done|..].
  - destruct (existsb (writes l) _) eqn:Hw; [done|]. destruct (existsb (wants l) _); [done|]. intros [= <-].
    simpl in Ho. apply andb_true_iff in Ho as [_ Ho]. apply (system_ok_update s i g); [done|done|by split|done|].
    intros m l' [[= -> ->]|Hin]%elem_of_cons Hno; [|done]. intros j gj Hj _ m' Hin. split; [done|].
    destruct m'; [done|]. pose proof (existsb_none _ _ _ _ Hw Hj) as Hf. apply not_true_iff_false in Hf. by apply writes_spec in Hin.
  - destruct (announced g) eqn:Ean; cbn [negb].
    + destruct (existsb (holds l) _) eqn:Hh; [done|]. intros [= <-].
      simpl in Ho. apply andb_true_iff in Ho as [_ Ho]. apply (system_ok_update s i g); [done|done|by split|done|].
      intros m l' [[= -> ->]|Hin]%elem_of_cons Hno; [|done]. intros j gj Hj _ m' Hin.
      pose proof (existsb_none _ _ _ _ Hh Hj) as Hf. apply not_true_iff_false in Hf. destruct Hf. apply holds_spec. by exists m'.
    + intros [= <-]. apply (system_ok_update s i g); [done|done| |done|by intros].
      split; cbn [held todo announced]; [exact Ho|eauto].
  - simpl in Ho. destruct (held g) as [|x h] eqn:Eh; [done|]. apply andb_true_iff in Ho as [Hx Ho].
    rewrite Hx. intros [= <-]. apply (system_ok_update s i g); [done|done|by split|done|].
    intros m' l' Hin Hno. destruct Hno. rewrite Eh. by right.
  - simpl in Ho. apply andb_true_iff in Ho as [_ Ho]. intros [= <-]. apply (system_ok_update s i g); [done|done|by split|done|by intros].
  - intros [= <-]. destruct (Nat.ltb_spec (fill s ty) capacity) as [Hlt|_].
    + apply (system_ok_update s i g); [done|done|by split| |by intros]. intros ty'. unfold set_fill. case_bool_decide; [subst; lia|done].
    + apply (system_ok_update s i g); [done|done|by split|done|by intros].
Qed.

Lemma operation_good h p : h = [] → p = [] ∨ operation p → good (MkGoroutine h false p).
Proof.
  intros -> Hp. split; [|done]. cbn [held todo]. destruct Hp as [->|Hp]; [done|].
  pose proof (operation_fits _ Hp [] []) as H. rewrite app_nil_r in H. by apply H.
Qed.

(** A goroutine that waits holds nothing. *)
Lemma idle_holds_nothing g : good g → todo g = [] → held g = [].
Proof. intros [Ho _] E. rewrite E in Ho. by apply bool_decide_eq_true in Ho. Qed.

Lemma system_step_ok s s' : system_ok s → system_step s s' → system_ok s'.
Proof.
  intros Hok [i s2 Hw|i g p Hi Et Hp|i g ty n p Hi Et Hf Hp].
  - by eapply work_ok.
  - pose proof (idle_holds_nothing _ (so_good _ Hok _ _ Hi) Et) as Eh. apply (system_ok_update s i g); [done|done|apply operation_good; auto|by apply Hok|].
    cbn [held]. by intros.
  - pose proof (idle_holds_nothing _ (so_good _ Hok _ _ Hi) Et) as Eh.
    apply (system_ok_update s i g); [done|done|by apply operation_good| |cbn [held]; by intros].
    intros ty'. pose proof (so_room _ Hok ty'). pose proof (so_room _ Hok ty). unfold set_fill. case_bool_decide; lia.
Qed.

Lemma system_reachable_ok s : system_reachable capacity s → system_ok s.
Proof.
  intros (n & Hr). revert s Hr. apply rtc_ind_r; [|intros s s' _ Hs IH; by eapply system_step_ok].
  split; cbn [system_start goroutines fill]; [..|lia].
  - intros i g [-> _]%lookup_replicate. by split.
  - intros i j g g' l [-> _]%lookup_replicate _ _ Hin. by apply elem_of_nil in Hin.
Qed.

(** ** Data races *)




(** ** Progress *)

(** The lock a goroutine is about to take. *)
Definition next_lock (g : Goroutine) : option Lock :=
  match todo g with Acquire _ l :: _ => Some l | _ => None end.

(** Without a possible step a goroutine waits for a lock, and another goroutine
    holds that lock. *)
Lemma blocked s i g : system_ok s → (∀ j, work s j = None) → goroutines s !! i = Some g → todo g ≠ [] →
  ∃ l, next_lock g = Some l ∧ ∃ j g', goroutines s !! j = Some g' ∧ holds l g' = true.
Proof.
  intros Hok Hno Hi Hne. pose proof (Hno i) as Hw. unfold work in Hw. rewrite Hi in Hw. cbn [mbind option_bind] in Hw.
  pose proof (so_good _ Hok _ _ Hi) as [Ho Ha]. unfold next_lock.
  destruct (todo g) as [|[[] l|m l|m l|ty] rest] eqn:Et; [done|..|done|].
  - exists l. split; [done|]. destruct (existsb (writes l) (goroutines s)) eqn:Ew.
    + apply existsb_goroutine in Ew as (j & g' & Hj & Hg'). exists j, g'. split; [done|].
      apply holds_spec. exists Exclusive. by apply writes_spec.
    + destruct (existsb (wants l) (goroutines s)) eqn:Eq; [|done].
      apply existsb_goroutine in Eq as (j & g' & Hj & Hg'). apply andb_true_iff in Hg' as [Han Hh].
      apply bool_decide_eq_true in Hh. pose proof (Hno j) as Hwj. unfold work in Hwj. rewrite Hj in Hwj.
      cbn [mbind option_bind] in Hwj. destruct (todo g') as [|a rest']; [done|]. injection Hh as ->. rewrite Han in Hwj. cbn [negb] in Hwj.
      destruct (existsb (holds l) (goroutines s)) eqn:Eh; [|done]. by apply existsb_goroutine in Eh.
  - exists l. split; [done|]. destruct (announced g); [|done]. cbn [negb] in Hw.
    destruct (existsb (holds l) (goroutines s)) eqn:Eh; [|done]. by apply existsb_goroutine in Eh.
  - simpl in Ho. destruct (held g) as [|x h]; [done|]. apply andb_true_iff in Ho as [Hx _]. by rewrite Hx in Hw.
  - by destruct (fill s ty <? capacity)%nat.
Qed.

(** A goroutine that waits for a lock holds locks of lower rank only. *)
Lemma holds_lower g l l' : good g → next_lock g = Some l → holds l' g = true → (rank l' < rank l)%nat.
Proof.
  intros [Ho _] Hl [m Hin]%holds_spec. unfold next_lock in Hl. destruct (todo g) as [|[m' l0| | |] rest]; try done.
  injection Hl as ->. simpl in Ho. apply andb_true_iff in Ho as [Hf _]. rewrite forallb_forall in Hf.
  apply Nat.ltb_lt. apply (Hf (m, l')). by apply list_elem_of_In.
Qed.

Lemma stuck_idle s : system_ok s → (∀ j, work s j = None) → ∀ i g, goroutines s !! i = Some g → todo g = [].
Proof.
  intros Hok Hno. assert (∀ n i g l, goroutines s !! i = Some g → next_lock g = Some l → (3 - rank l < n)%nat → False) as Hrank.
  { intros n. induction n as [|n IH]; intros i g l Hi Hl Hn; [lia|].
    assert (todo g ≠ []) as Hne by (intros E; unfold next_lock in Hl; by rewrite E in Hl).
    destruct (blocked s i g Hok Hno Hi Hne) as (l1 & Hl1 & j & g' & Hj & Hh). rewrite Hl in Hl1. injection Hl1 as <-.
    pose proof (so_good _ Hok _ _ Hj) as Hg'.
    assert (todo g' ≠ []) as Hne'.
    { intros E. pose proof (idle_holds_nothing _ Hg' E) as Eh. unfold holds in Hh. by rewrite Eh in Hh. }
    destruct (blocked s j g' Hok Hno Hj Hne') as (l' & Hl' & _).
    pose proof (holds_lower _ _ _ Hg' Hl' Hh). assert (rank l' ≤ 3)%nat by (destruct l'; simpl; lia).
    apply (IH j g' l' Hj Hl'). lia. }
  intros i g Hi. destruct (todo g) as [|a rest] eqn:Et; [done|]. exfalso.
  destruct (blocked s i g Hok Hno Hi) as (l & Hl & _); [by rewrite Et|]. exact (Hrank _ _ _ _ Hi Hl (Nat.lt_succ_diag_r _)).
Qed.

(** ** The work that is left *)

Definition load1 (g : Goroutine) : nat := 2 * length (todo g) - (if announced g then 1 else 0).
Definition load (s : Locked) : nat := sum_list (load1 <$> goroutines s).

Lemma sum_list_insert (l : list nat) i x y : l !! i = Some x → (y < x)%nat → (sum_list (<[i := y]> l) < sum_list l)%nat.
Proof. revert i. induction l as [|a l IH]; intros [|i] Hi Hy; simpl in *; simplify_eq; [lia|]. specialize (IH i Hi Hy). lia. Qed.

Lemma work_load s i s' : system_ok s → work s i = Some s' → (load s' < load s)%nat.
Proof.
  intros Hok Hw. assert (∃ g g' f b, goroutines s !! i = Some g ∧ s' = MkLocked (<[i := g']> (goroutines s)) f b ∧ (load1 g' < load1 g)%nat)
    as (g & g' & f & b & Hi & -> & Hl).
  { unfold work in Hw. destruct (goroutines s !! i) as [g|] eqn:Hi; [|done]. cbn [mbind option_bind] in Hw. exists g.
    pose proof (go_announced _ (so_good _ Hok _ _ Hi)) as Ha. unfold load1.
    destruct (todo g) as [|[[] l|m l|m l|ty] rest] eqn:Et; [done|..].
    - destruct (_ || _); [done|]. injection Hw as <-. eexists _, _, _. split; [done|]. split; [done|]. simpl.
      destruct (announced g); [by destruct (Ha eq_refl) as (? & ? & ?)|]. lia.
    - destruct (announced g); cbn [negb] in Hw.
      + destruct (existsb _ _); [done|]. injection Hw as <-. eexists _, _, _. split; [done|]. split; [done|]. simpl. lia.
      + injection Hw as <-. eexists _, _, _. split; [done|]. split; [done|]. simpl. lia.
    - destruct (held g) as [|h hs]; [done|]. destruct (bool_decide _); [|done]. injection Hw as <-. eexists _, _, _.
      split; [done|]. split; [done|]. simpl. destruct (announced g); [by destruct (Ha eq_refl) as (? & ? & ?)|]. lia.
    - injection Hw as <-. eexists _, _, _. split; [done|]. split; [done|]. simpl.
      destruct (announced g); [by destruct (Ha eq_refl) as (? & ? & ?)|]. lia.
    - injection Hw as <-. assert (announced g = false) as ->
        by (destruct (announced g); [by destruct (Ha eq_refl) as (? & ? & ?)|done]).
      destruct (fill s ty <? capacity)%nat; (eexists _, _, _; split; [done|]; split; [done|]; simpl; lia). }
  unfold load. cbn [goroutines]. rewrite list_fmap_insert. eapply sum_list_insert; [|exact Hl].
  by rewrite list_lookup_fmap, Hi.
Qed.

Lemma idle_all s : system_ok s → (∀ i, work s i = None) → ∀ i g, goroutines s !! i = Some g → todo g = [] ∧ held g = [].
Proof.
  intros Hs Hno i g Hi. pose proof (stuck_idle s Hs Hno i g Hi) as E. split; [done|].
  eapply idle_holds_nothing; [by eapply so_good|done].
Qed.

(** Some goroutine works on, until all are idle. *)
Lemma works_end s : system_ok s → ∃ s', rtc (λ s s', ∃ i, work s i = Some s') s s' ∧
  ∀ i g, goroutines s' !! i = Some g → todo g = [] ∧ held g = [].
Proof.
  intros Hok. remember (load s) as n eqn:En. revert s Hok En. induction (lt_wf n) as [n _ IH]; intros s Hok ->.
  destruct (decide (Exists (λ i, is_Some (work s i)) (seq 0 (length (goroutines s))))) as [He|Hno].
  - apply Exists_exists in He as (i & _ & s1 & Hw).
    destruct (IH _ (work_load _ _ _ Hok Hw) s1 (work_ok _ _ _ Hok Hw) eq_refl) as (s' & Hr & Hs').
    exists s'. split; [|done]. eapply rtc_l; [by exists i|done].
  - exists s. split; [done|]. apply idle_all; [done|]. intros i. destruct (work s i) as [s1|] eqn:Hw; [|done].
    destruct Hno. apply Exists_exists. exists i. split; [|by eexists]. apply elem_of_seq. split; [lia|].
    unfold work in Hw. destruct (goroutines s !! i) eqn:Hi; [|done]. apply lookup_lt_Some in Hi. lia.
Qed.

(** C17. Every operation ends.  From every state that the goroutines can reach: as
    long as some goroutine has begun an operation, one of them can go on; each
    step of one shortens what is left, so that in at most [load s] steps, in
    whatever order they are taken, all operations are over and no lock is
    held.  There is no deadlock. *)
Theorem operations_end s : system_reachable capacity s →
  (∀ n s', nsteps (λ s s', ∃ i, work s i = Some s') n s s' → n ≤ load s)%nat ∧
  (∃ s', rtc (λ s s', ∃ i, work s i = Some s') s s' ∧
     ∀ i g, goroutines s' !! i = Some g → todo g = [] ∧ held g = []) ∧
  ((∀ i, work s i = None) → ∀ i g, goroutines s !! i = Some g → todo g = [] ∧ held g = []).
Proof.
  intros Hok%system_reachable_ok. split; [|split; [by apply works_end|by apply idle_all]].
  intros n. revert s Hok. induction n as [|n IH]; intros s Hok s' Hn; [lia|].
  inversion Hn as [|? ? s1 ? [i Hw] Hn']; subst. pose proof (work_load _ _ _ Hok Hw).
  specialize (IH s1 (work_ok _ _ _ Hok Hw) s' Hn'). lia.
Qed.

(** ** The engine and the installer *)

(** A step, in which an event is taken from the channel of route events only if
    goroutine [j] waits for one: nobody else takes them. *)
Definition only_taker (j : nat) (s s' : Locked) : Prop :=
  system_step s s' ∧
  ((fill s' EventRouteInstall < fill s EventRouteInstall)%nat → ∃ g, goroutines s !! j = Some g ∧ todo g = []).

(** The sends of route events in a program. *)
Definition route_sends (p : list Act) : nat := length (filter (λ a, a = Send EventRouteInstall) p).

Lemma route_sends_app p q : route_sends (p ++ q) = (route_sends p + route_sends q)%nat.
Proof. unfold route_sends. by rewrite filter_app, length_app. Qed.

Lemma route_sends_cons a p : route_sends (a :: p) = ((if decide (a = Send EventRouteInstall) then 1 else 0) + route_sends p)%nat.
Proof. unfold route_sends. rewrite filter_cons. by case_decide. Qed.

(** Part of a calculation: it keeps the engine's lock. *)
Definition keeps_engine (p : list Act) : Prop := Forall (λ a, a ≠ Release Exclusive LSpf) p.

Lemma keeps_engine_bind {A} (f : A → list Act) l : (∀ x, keeps_engine (f x)) → keeps_engine (l ≫= f).
Proof. intros Hf. induction l as [|x l IH]; [by constructor|]. apply Forall_app. split; [apply Hf|exact IH]. Qed.

Lemma route_sends_bind0 {A} (f : A → list Act) l : (∀ x, route_sends (f x) = 0%nat) → route_sends (l ≫= f) = 0%nat.
Proof. intros Hf. induction l as [|x l IH]; [done|]. cbn [mbind list_bind]. by rewrite route_sends_app, Hf, IH. Qed.

Lemma Publish_sends ty : route_sends (Publish_locks ty) = if decide (ty = EventRouteInstall) then 1%nat else 0%nat.
Proof.
  unfold Publish_locks. rewrite route_sends_app. change (route_sends (guarded _ _ _)) with 0%nat.
  destruct (has_subscriber ty) eqn:E.
  - rewrite route_sends_cons. change (route_sends []) with 0%nat. rewrite Nat.add_0_r, Nat.add_0_l.
    apply decide_ext. split; [by intros [= ->]|by intros ->].
  - destruct (decide (ty = EventRouteInstall)) as [->|]; [by vm_compute in E|done].
Qed.

Lemma differences_sends tys :
  route_sends (publishes_differences LSpf tys) = length (filter (λ ty, ty = EventRouteInstall) tys).
Proof.
  unfold publishes_differences. induction tys as [|ty tys IH]; [done|]. cbn [mbind list_bind].
  rewrite route_sends_app, route_sends_cons, Publish_sends, IH, filter_cons, decide_False by done. by case_decide.
Qed.

Lemma lookup_keeps l : keeps_engine (lookup_locks l) ∧ route_sends (lookup_locks l) = 0%nat.
Proof. destruct l; (split; [by repeat constructor|by vm_compute]). Qed.

Lemma Publish_keeps ty : keeps_engine (Publish_locks ty).
Proof. unfold Publish_locks. destruct (has_subscriber ty); by repeat constructor. Qed.

(** A calculation after it took the lock. *)
Lemma calculation_body hosts gateways tys : ∃ q, tail (CalculateRoutes_locks hosts gateways tys) = q ++ [Release Exclusive LSpf] ∧
  keeps_engine q ∧ route_sends q = length (filter (λ ty, ty = EventRouteInstall) tys).
Proof.
  unfold CalculateRoutes_locks, guarded. cbn [tail]. eexists. split; [done|]. split.
  - unfold keeps_engine. rewrite !Forall_app. split_and!; try (by repeat constructor); try apply Publish_keeps;
      try (apply keeps_engine_bind; intros; apply lookup_keeps).
    apply keeps_engine_bind. intros ty. constructor; [done|]. apply Publish_keeps.
  - rewrite !route_sends_app, !route_sends_bind0, differences_sends, Publish_sends by (intros; apply lookup_keeps).
    assert (∀ l, route_sends (getter_locks l) = 0%nat) as -> by done.
    assert (∀ l, route_sends (getter_locks l) = 0%nat) as E by done. rewrite !E. rewrite decide_False by done.
    change (route_sends [Access Exclusive LSpf]) with 0%nat. lia.
Qed.

(** What a step of goroutine [k] does to the others and to the counters. *)
Lemma work_frame s s' k : work s k = Some s' →
  (∃ g, goroutines s' = <[k := g]> (goroutines s)) ∧
  ∀ ty, (fill s ty ≤ fill s' ty ∧ dropped s ty ≤ dropped s' ty)%nat.
Proof.
  unfold work. intros Hw. destruct (goroutines s !! k) as [g|]; [|done]. cbn [mbind option_bind] in Hw.
  assert (∀ (f : EventType → nat) ty t, (f t ≤ set_fill f ty (S (f ty)) t)%nat) as Hset.
  { intros f ty t. unfold set_fill. case_bool_decide; [subst; lia|lia]. }
  destruct (todo g) as [|[[] l|m l|m l|ty] rest]; [done|..].
  - destruct (_ || _); [done|]. injection Hw as <-. eauto.
  - destruct (negb _); [|destruct (existsb _ _); [done|]]; injection Hw as <-; eauto.
  - destruct (held g); [done|]. destruct (bool_decide _); [|done]. injection Hw as <-. eauto.
  - injection Hw as <-. eauto.
  - injection Hw as <-. destruct (fill s ty <? capacity)%nat; cbn [goroutines fill dropped]; split; eauto.
Qed.

(** The calculation goes on, the installer waits, and the events sent, dropped and
    still to come are at least [n]. *)
Definition starved (i j : nat) (gj : Goroutine) (n : nat) (s : Locked) : Prop :=
  ∃ g q, goroutines s !! i = Some g ∧ (Exclusive, LSpf) ∈ held g ∧ todo g = q ++ [Release Exclusive LSpf] ∧ keeps_engine q ∧
    goroutines s !! j = Some gj ∧
    (n ≤ fill s EventRouteInstall + route_sends q + dropped s EventRouteInstall)%nat.

(** The engine's own step. *)
Lemma starved_work s s' i j gj n : system_ok s → starved i j gj n s → i ≠ j → work s i = Some s' →
  starved i j gj n s' ∨ (n ≤ capacity + dropped s' EventRouteInstall)%nat.
Proof.
  intros Hok (g & q & Hi & Hin & Et & Hq & Hj & Hn) Hne Hw. pose proof (lookup_lt_Some _ _ _ Hi) as Hlt.
  pose proof (so_good _ Hok _ _ Hi) as [Ho _]. pose proof (so_room _ Hok EventRouteInstall) as Hroom.
  unfold work in Hw. rewrite Hi in Hw. cbn [mbind option_bind] in Hw.
  destruct q as [|a q].
  { right. rewrite Et in Hw. cbn [app] in Hw. destruct (held g); [done|]. destruct (bool_decide _); [|done]. injection Hw as <-.
    cbn [dropped]. change (route_sends []) with 0%nat in Hn. lia. }
  apply Forall_cons in Hq as [Ha Hq]. rewrite route_sends_cons in Hn.
  assert (∀ g' q' f d, (Exclusive, LSpf) ∈ held g' → todo g' = q' ++ [Release Exclusive LSpf] → keeps_engine q' →
    (n ≤ f EventRouteInstall + route_sends q' + d EventRouteInstall)%nat →
    starved i j gj n (MkLocked (<[i := g']> (goroutines s)) f d)) as Hnext.
  { intros g' q' f d H1 H2 H3 H4. exists g', q'. cbn [goroutines fill dropped]. rewrite list_lookup_insert_eq by done.
    rewrite list_lookup_insert_ne by done. done. }
  rewrite Et in Hw, Ho. cbn [app] in Hw, Ho. destruct a as [[] l|m l|m l|ty].
  - destruct (_ || _); [done|]. injection Hw as <-. left. rewrite decide_False in Hn by done.
    apply (Hnext _ q); [apply elem_of_cons; by right|done..].
  - destruct (negb (announced g)).
    + injection Hw as <-. left. apply (Hnext _ (Acquire Exclusive l :: q)); [done|done|by constructor|]. by rewrite route_sends_cons.
    + destruct (existsb _ _); [done|]. injection Hw as <-. left. rewrite decide_False in Hn by done.
      apply (Hnext _ q); [apply elem_of_cons; by right|done..].
  - simpl in Ho. destruct (held g) as [|x h] eqn:Eh; [done|]. apply andb_true_iff in Ho as [->%bool_decide_eq_true _].
    rewrite bool_decide_true in Hw by done. injection Hw as <-. left. rewrite decide_False in Hn by done.
    apply (Hnext _ q); [|done..]. apply elem_of_cons in Hin as [[= <- <-]|Hin]; [done|exact Hin].
  - injection Hw as <-. left. rewrite decide_False in Hn by done. by apply (Hnext _ q).
  - injection Hw as <-. left. destruct (Nat.ltb_spec (fill s ty) capacity); apply (Hnext _ q); try done;
      unfold set_fill; case_bool_decide as E; destruct (decide (Send ty = Send EventRouteInstall)) as [[= ->]|Hty]; try lia; congruence.
Qed.

Lemma starved_step s s' i j gj rest n : system_ok s → i ≠ j → todo gj = Acquire Shared LSpf :: rest →
  only_taker j s s' → starved i j gj n s → starved i j gj n s' ∨ (n ≤ capacity + dropped s' EventRouteInstall)%nat.
Proof.
  intros Hok Hne Ej [Hs Htake] Hst. pose proof Hst as (g & q & Hi & Hin & Et & Hq & Hj & Hn).
  assert (todo g ≠ []) as Hbusy by (rewrite Et; by destruct q).
  assert (∀ k gk, k ≠ i → k ≠ j → (n ≤ fill s' EventRouteInstall + route_sends q + dropped s' EventRouteInstall)%nat →
    goroutines s' = <[k := gk]> (goroutines s) → starved i j gj n s') as Hother.
  { intros k gk Hki Hkj Hle E. exists g, q. rewrite E, !list_lookup_insert_ne by done. done. }
  destruct Hs as [k s' Hk|k gk p Hk Ek _|k gk ty m p Hk Ek Hf _].
  - destruct (decide (k = i)) as [->|Hki]; [by apply (starved_work s s' i j gj n)|].
    assert (k ≠ j) as Hkj.
    { intros ->. unfold work in Hk. rewrite Hj in Hk. cbn [mbind option_bind] in Hk. rewrite Ej in Hk.
      replace (existsb (writes LSpf) (goroutines s)) with true in Hk; [done|]. symmetry. apply existsb_goroutine.
      exists i, g. split; [done|]. by apply writes_spec. }
    destruct (work_frame _ _ _ Hk) as [[gk E] Hc]. specialize (Hc EventRouteInstall). left. apply (Hother k gk); [done..|lia|done].
  - left. apply (Hother k (MkGoroutine (held gk) false p)); [intros ->; congruence..|done|done].
  - left. apply (Hother k (MkGoroutine (held gk) false p)); [intros ->; congruence..| |done].
    destruct (decide (ty = EventRouteInstall)) as [->|Hty].
    + exfalso. destruct Htake as (g0 & Hg0 & E0); [cbn [fill]; unfold set_fill; rewrite bool_decide_true by done; lia|]. congruence.
    + cbn [fill dropped]. unfold set_fill. by rewrite bool_decide_false by done.
Qed.

(** C23. The installer starves during a calculation.  Goroutine [i] has taken the
    engine's lock in [CalculateRoutes] and will publish route events of the types
    [tys]; goroutine [j], the only one that takes route events, is in
    [handleMulticastAdd], has served the multicast router and asks the engine for
    the next hop.  Then, however the goroutines run: as long as the calculation
    holds the lock the installer stays where it is, and once it has given up the
    lock all its route events beyond the room in the channel are lost.  And it
    does give up the lock. *)
Theorem calculation_starves_installer s i j gi gj hosts gateways tys linux lp :
  system_reachable capacity s → goroutines s !! i = Some gi → goroutines s !! j = Some gj →
  held gi = [(Exclusive, LSpf)] → todo gi = tail (CalculateRoutes_locks hosts gateways tys) →
  lp ≠ NoManager → todo gj = drop (length (router_locks linux)) (handleMulticastAdd_locks linux lp) →
  let events := length (filter (λ ty, ty = EventRouteInstall) tys) in
  let lost s' := (fill s EventRouteInstall + events ≤ capacity + (dropped s' EventRouteInstall - dropped s EventRouteInstall))%nat in
  (∀ s', rtc (only_taker j) s s' →
    ((∃ g, goroutines s' !! i = Some g ∧ (Exclusive, LSpf) ∈ held g) ∧ goroutines s' !! j = Some gj) ∨ lost s') ∧
  ∃ s', rtc (only_taker j) s s' ∧ (∀ k g, goroutines s' !! k = Some g → held g = []) ∧ lost s'.
Proof.
  intros Hok%system_reachable_ok Hi Hj Hh Et Hlp Ej. cbv zeta.
  destruct (calculation_body hosts gateways tys) as (q & Eq & Hq & Hn).
  assert (∃ rest, todo gj = Acquire Shared LSpf :: rest) as [rest Er].
  { unfold handleMulticastAdd_locks in Ej. rewrite drop_app_length in Ej. rewrite Ej. destruct lp; [done|eexists; reflexivity..]. }
  assert (i ≠ j) as Hne by (intros ->; rewrite Hi in Hj; injection Hj as ->; by rewrite Er in Et).
  set (n := (fill s EventRouteInstall + length (filter (λ ty, ty = EventRouteInstall) tys) + dropped s EventRouteInstall)%nat).
  assert (starved i j gj n s) as Hst.
  { exists gi, q. rewrite Hh. split; [done|]. split; [by apply list_elem_of_singleton|]. split; [congruence|]. split; [done|].
    split; [done|]. unfold n. lia. }
  assert (∀ s', rtc (only_taker j) s s' → system_ok s' ∧
    (starved i j gj n s' ∨ (n ≤ capacity + dropped s' EventRouteInstall)%nat) ∧ (dropped s EventRouteInstall ≤ dropped s' EventRouteInstall)%nat) as Hrun.
  { apply (rtc_ind_r (λ s', system_ok s' ∧ (starved i j gj n s' ∨ (n ≤ capacity + dropped s' EventRouteInstall)%nat) ∧
      (dropped s EventRouteInstall ≤ dropped s' EventRouteInstall)%nat)); [by auto|].
    intros x y _ Hxy (Hx & Hs & Hd). pose proof (proj1 Hxy) as Hstep. split; [by eapply system_step_ok|].
    assert (dropped x EventRouteInstall ≤ dropped y EventRouteInstall)%nat as Hmono.
    { destruct Hstep as [k y Hk| |]; [by apply (work_frame _ _ _ Hk)|done|done]. }
    split; [|lia]. destruct Hs as [Hs|Hs]; [by eapply starved_step|right; lia]. }
  assert (∀ s', (n ≤ capacity + dropped s' EventRouteInstall)%nat → (dropped s EventRouteInstall ≤ dropped s' EventRouteInstall)%nat →
    (fill s EventRouteInstall + length (filter (λ ty, ty = EventRouteInstall) tys) ≤
      capacity + (dropped s' EventRouteInstall - dropped s EventRouteInstall))%nat) as Hlost by (unfold n; intros; lia).
  split.
  - intros s' Hr. destruct (Hrun s' Hr) as (_ & [(g & q' & H1 & H2 & _ & _ & H3 & _)|Hl] & Hd); [left|right; by apply Hlost].
    split; [by exists g|done].
  - destruct (works_end s Hok) as (s' & Hr & Hidle). assert (rtc (only_taker j) s s') as Hr'.
    { clear -Hr. induction Hr as [|x y z [k Hk] _ IH]; [done|]. eapply rtc_l; [|exact IH]. split; [by apply (sys_work _ _ k)|].
      pose proof (proj2 (work_frame _ _ _ Hk) EventRouteInstall). lia. }
    exists s'. split; [done|]. split; [intros k g Hk; by apply (Hidle k g)|].
    destruct (Hrun s' Hr') as (_ & [(g & q' & H1 & H2 & _)|Hl] & Hd); [|by apply Hlost].
    destruct (Hidle _ _ H1) as [_ E]. rewrite E in H2. by apply elem_of_nil in H2.
Qed.
End system.

(** ** Concrete schedules *)

(** [n] steps of a goroutine, an operation it starts, an event it takes.  A move
    that is not possible changes nothing. *)
Inductive Move := Works (i n : nat) | Starts (i : nat) (p : list Act) | Takes (i : nat) (ty : EventType) (p : list Act).

Definition begins (i : nat) (p : list Act) (s : Locked) (f : EventType → nat) : Locked :=
  match goroutines s !! i with
  | Some g => if bool_decide (todo g = []) then MkLocked (<[i := MkGoroutine (held g) false p]> (goroutines s)) f (dropped s) else s
  | None => s
  end.

Definition play (capacity : nat) (s : Locked) (m : Move) : Locked :=
  match m with
  | Works i n => Nat.iter n (λ s, default s (work capacity s i)) s
  | Starts i p => begins i p s (fill s)
  | Takes i ty p => match fill s ty with S n => begins i p s (set_fill (fill s) ty n) | O => s end
  end.

Definition allowed (m : Move) : Prop := match m with Works _ _ => True | Starts _ p | Takes _ _ p => operation p end.

Lemma play_steps capacity m s : allowed m → rtc (system_step capacity) s (play capacity s m).
Proof.
  intros Hm. destruct m as [i n|i p|i ty p]; cbn [play].
  - clear Hm. induction n as [|n IH]; [done|]. simpl. destruct (work _ _ _) as [s'|] eqn:E; [|exact IH].
    eapply rtc_r; [exact IH|]. by apply (sys_work _ _ i).
  - unfold begins. destruct (goroutines s !! i) as [g|] eqn:Hi; [|done]. case_bool_decide; [|done]. by apply rtc_once, sys_start.
  - destruct (fill s ty) as [|n] eqn:Ef; [done|]. unfold begins. destruct (goroutines s !! i) as [g|] eqn:Hi; [|done].
    case_bool_decide; [|done]. apply rtc_once. apply sys_receive; auto.
Qed.

Lemma plays_reachable capacity n ms : Forall allowed ms → system_reachable capacity (foldl (play capacity) (system_start n) ms).
Proof.
  intros Hms. exists n. induction ms as [|m ms IH] using rev_ind; [done|]. apply Forall_app in Hms as [Hms Hm].
  rewrite foldl_snoc. etrans; [by apply IH|]. apply play_steps. by inversion Hm.
Qed.

(** The installer has taken a multicast route and served the router; the engine
    has begun a calculation that will find 101 changes. *)
Definition starving : list Move :=
  [ Starts 0 (RecalculateMroutes_locks 0 [EventRouteInstall]); Works 0 9;
    Takes 1 EventRouteInstall (handleMulticastAdd_locks true (Registered false)); Works 1 4;
    Starts 0 (CalculateRoutes_locks [] [] (replicate 101 EventRouteInstall)); Works 0 2 ].

Definition starving_state : Locked := foldl (play 100) (system_start 2) starving.

Lemma starving_reachable : system_reachable 100 starving_state.
Proof. apply plays_reachable. repeat constructor. Qed.

Definition starving_engine : Goroutine :=
  MkGoroutine [(Exclusive, LSpf)] false (tail (CalculateRoutes_locks [] [] (replicate 101 EventRouteInstall))).
Definition starving_installer : Goroutine :=
  MkGoroutine [] false (getter_locks LSpf ++ OnMulticastRoute_locks false).

Lemma starving_engine_at : goroutines starving_state !! 0%nat = Some starving_engine.
Proof. vm_compute. reflexivity. Qed.

Lemma starving_installer_at : goroutines starving_state !! 1%nat = Some starving_installer.
Proof. vm_compute. reflexivity. Qed.

Lemma operations_end_witness :
  load starving_state = 1058%nat ∧ ∃ s', rtc (λ s s', ∃ i, work 100 s i = Some s') starving_state s' ∧
     ∀ i g, goroutines s' !! i = Some g → todo g = [] ∧ held g = [].
Proof.
  split; [vm_compute; reflexivity|]. destruct (operations_end 100 starving_state starving_reachable) as (_ & H & _). exact H.
Defined.

(** The channel has room for 100 of the 101 events. *)
Lemma calculation_starves_installer_witness :
  ∃ s', rtc (only_taker 100 1) starving_state s' ∧ (∀ k g, goroutines s' !! k = Some g → held g = []) ∧
    (1 ≤ dropped s' EventRouteInstall)%nat.
Proof.
  destruct (calculation_starves_installer 100 starving_state 0 1 starving_engine starving_installer [] []
    (replicate 101 EventRouteInstall) true (Registered false) starving_reachable starving_engine_at starving_installer_at
    eq_refl eq_refl ltac:(discriminate) eq_refl) as (_ & s' & Hr & Hh & Hl).
  exists s'. split; [exact Hr|]. split; [exact Hh|].
  assert (length (filter (λ ty, ty = EventRouteInstall) (replicate 101 EventRouteInstall)) = 101%nat) as E by (vm_compute; reflexivity).
  rewrite E in Hl. clear -Hl. lia.
Defined.



