(* ===== verification/Metrics.v ===== *)
(** * The packet counters (internal/metrics/prometheus.go, cmd/olsrd/daemon.go)

    The counters around reception and sending, the gauges of the collector, and
    the one gauge a request changes.  The other gauges are state of the process
    in [Process.v], the Zebra counters are in [Installer.v]. *)

From S2P Require Import Prelude GoNet GoStrings TimeVal Packet Events Neighbor Topology Hna Heap Dijkstra Spf Molsr Config Daemon DaemonFacts Monitor Api Process.

Record Meters := MkMeters {
  HelloRxTotal : Z;
  HelloTxTotal : Z;
  TCRxTotal : Z;
  TCTxTotal : Z;
  PacketParseFailureTotal : Z;
  PacketBacklog : Z;
  QueueDepth : Z;
  GoroutineCount : Z;
  MemoryUsageBytes : Z;
}.

(** [init]: registered counters and gauges start at 0. *)
Definition init_meters : Meters := MkMeters 0 0 0 0 0 0 0 0 0.

Definition rx (hello tc : Z) (m : Meters) : Meters :=
  MkMeters (HelloRxTotal m + hello) (HelloTxTotal m) (TCRxTotal m + tc) (TCTxTotal m) (PacketParseFailureTotal m)
    (PacketBacklog m) (QueueDepth m) (GoroutineCount m) (MemoryUsageBytes m).
Definition tx (hello tc : Z) (m : Meters) : Meters :=
  MkMeters (HelloRxTotal m) (HelloTxTotal m + hello) (TCRxTotal m) (TCTxTotal m + tc) (PacketParseFailureTotal m)
    (PacketBacklog m) (QueueDepth m) (GoroutineCount m) (MemoryUsageBytes m).
Definition parse_failure (m : Meters) : Meters :=
  MkMeters (HelloRxTotal m) (HelloTxTotal m) (TCRxTotal m) (TCTxTotal m) (PacketParseFailureTotal m + 1)
    (PacketBacklog m) (QueueDepth m) (GoroutineCount m) (MemoryUsageBytes m).
Definition backlog (n : Z) (m : Meters) : Meters :=
  MkMeters (HelloRxTotal m) (HelloTxTotal m) (TCRxTotal m) (TCTxTotal m) (PacketParseFailureTotal m)
    (PacketBacklog m + n) (QueueDepth m) (GoroutineCount m) (MemoryUsageBytes m).
Definition queue_depth (m : Meters) : Meters :=
  MkMeters (HelloRxTotal m) (HelloTxTotal m) (TCRxTotal m) (TCTxTotal m) (PacketParseFailureTotal m)
    (PacketBacklog m) (QueueDepth m + 1) (GoroutineCount m) (MemoryUsageBytes m).

(** A tick of [StartSystemMetricsCollector]; the runtime's numbers are given. *)
Definition collect (goroutines alloc : Z) (m : Meters) : Meters :=
  MkMeters (HelloRxTotal m) (HelloTxTotal m) (TCRxTotal m) (TCTxTotal m) (PacketParseFailureTotal m)
    (PacketBacklog m) (QueueDepth m) goroutines alloc.

Section meters.
Context {MO : MapOrder} {FC : FloatConv} {GF : GoFold}.

(** ** Sending *)

(** The counter rises whether or not a datagram left. *)
Definition metered_sendHello (p : list positive) (d : Daemon) (m : Meters) : (Daemon * list Output) * Meters :=
  (sendHello p d, tx 1 0 m).

Definition metered_sendTC (p : list positive) (now : Z) (d : Daemon) (m : Meters) : (Daemon * list Output) * Meters :=
  (sendTC p now d, if (length (GetMPRSelectors p now (neighMgr d)) =? 0)%nat then m else tx 0 1 m).

(** ** Reception *)

Context (clock : list positive → Z).

(** [processHello] and [processTC] count first, and run only for a message that
    is neither the router's own nor a duplicate. *)
Definition meter_message (p : list positive) (d : Daemon) (msg : Message) (m : Meters) : Meters :=
  let h := msg_Header msg in
  if bool_decide (IP_String (OriginatorAddress h) = cfg_RouterID (d_cfg d)) then m
  else if (IsDuplicate (clock (1%positive :: p)) (topoMgr d) (OriginatorAddress h) (SeqNum h) (Vtime h)).2 then m
  else if msg_Type h =? MsgTypeHello then rx 1 0 m
  else if msg_Type h =? MsgTypeTC then rx 0 1 m
  else m.

Fixpoint metered_messages (p : list positive) (raddr : IP) (header : PacketHeader) (d : Daemon) (msgs : list Message)
    (m : Meters) : (Daemon * list Output) * Meters :=
  match msgs with
  | [] => ((d, []), m)
  | msg :: msgs =>
      let q := Pos.of_succ_nat (length msgs) :: p in
      let '(d', out) := process_message clock q raddr header d msg in
      let '((d', out'), m) := metered_messages p raddr header d' msgs (meter_message q d msg m) in
      ((d', out ++ out'), m)
  end.

Definition metered_receive (p : list positive) (d : Daemon) (data : list Z) (raddr : IP) (m : Meters)
    : res ((Daemon * list Output) * Meters) :=
  match DeserializePacket data with
  | Ok pkt => Ok (metered_messages p raddr (pkt_Header pkt) d (Messages pkt) m)
  | Err _ => Ok ((d, []), parse_failure m)
  | Panic => Panic
  | Diverge => Diverge
  end.

(** The body of [udpReceiverLoop] after a read. *)
Definition receive_turn (p : list positive) (d : Daemon) (data : list Z) (raddr : IP) (m : Meters)
    : res ((Daemon * list Output) * Meters) :=
  r ← metered_receive p d data raddr (backlog 1 m);
  Ok (r.1, backlog (-1) r.2).

(** [handleConfirmParents]: the gauge rises with an entry that is registered. *)
Definition metered_confirm_parents (p : list positive) (r : Request) (s : APIServer) (m : Meters)
    : (APIServer * Response) * Meters :=
  let a := handleConfirmParents clock p r s in
  (a, if bool_decide (status a.2 = 201) then queue_depth m else m).

(** ** What they count *)

#[local] Instance known_at_dec now d msg : Decision (known_at now d msg).
Proof.
  destruct (IsDuplicate now (topoMgr d) (OriginatorAddress (msg_Header msg)) (SeqNum (msg_Header msg))
    (Vtime (msg_Header msg))).2 eqn:E; [left|right; intros H]; apply IsDuplicate_known in E || apply IsDuplicate_known in H; congruence.
Defined.
#[local] Instance accepted_dec now d msg : Decision (accepted now d msg).
Proof. unfold accepted, is_own. apply _. Defined.

(** The messages of a packet that are handled, each at its turn. *)
Fixpoint handled_messages (p : list positive) (raddr : IP) (header : PacketHeader) (d : Daemon) (msgs : list Message)
    : list Message :=
  match msgs with
  | [] => []
  | msg :: msgs =>
      let q := Pos.of_succ_nat (length msgs) :: p in
      let l := handled_messages p raddr header (process_message clock q raddr header d msg).1 msgs in
      if decide (accepted (clock (1%positive :: q)) d msg) then msg :: l else l
  end.

Definition of_type (t : Z) (l : list Message) : Z := Z.of_nat (length (filter (λ m, msg_Type (msg_Header m) = t) l)).

Lemma meter_message_spec p d msg m :
  meter_message p d msg m =
    if decide (accepted (clock (1%positive :: p)) d msg)
    then rx (of_type MsgTypeHello [msg]) (of_type MsgTypeTC [msg]) m else m.
Proof.
  unfold meter_message. pose proof (IsDuplicate_known (clock (1%positive :: p)) d msg) as Hk. cbv zeta in Hk |- *.
  case_bool_decide as Hown; [by rewrite decide_False by (intros [Ho _]; by apply Ho)|].
  destruct (IsDuplicate _ _ _ _ _) as [tm []]; cbn [snd] in *; [rewrite decide_False; [done|unfold accepted; tauto]|].
  rewrite decide_True by (split; [done|]; by rewrite <-Hk). unfold of_type. cbn [filter list_filter].
  destruct (Z.eqb_spec (msg_Type (msg_Header msg)) MsgTypeHello) as [E|Hne].
  - by rewrite decide_True, decide_False by (rewrite ?E; done).
  - rewrite (decide_False (P := _ = MsgTypeHello)) by done. destruct (Z.eqb_spec (msg_Type (msg_Header msg)) MsgTypeTC).
    + by rewrite decide_True.
    + rewrite decide_False by done. destruct m; unfold rx; simpl. f_equal; lia.
Qed.

Lemma rx_rx a b c e m : rx a b (rx c e m) = rx (c + a) (e + b) m.
Proof. unfold rx. simpl. f_equal; lia. Qed.

Lemma of_type_cons t msg l : of_type t (msg :: l) = of_type t [msg] + of_type t l.
Proof. unfold of_type. rewrite <-Nat2Z.inj_add, <-length_app, <-filter_app. done. Qed.

Lemma metered_messages_spec p raddr hdr msgs : ∀ d m,
  metered_messages p raddr hdr d msgs m =
    (process_messages clock p raddr hdr d msgs,
     let l := handled_messages p raddr hdr d msgs in rx (of_type MsgTypeHello l) (of_type MsgTypeTC l) m).
Proof.
  cbv zeta. induction msgs as [|msg msgs IH]; intros d m.
  { simpl. f_equal. destruct m; unfold rx, of_type; simpl. f_equal; lia. }
  cbn [metered_messages process_messages handled_messages].
  destruct (process_message _ _ _ _ _ _) as [d' out]. rewrite IH, meter_message_spec. cbn [fst].
  destruct (process_messages _ _ _ _ _ _) as [d2 out']. f_equal. destruct (decide _); [|done].
  by rewrite rx_rx, <-!of_type_cons.
Qed.

(** A turn of the receiver handles the datagram as [processReceivedData] does
    and leaves the backlog as it was.  Bytes that do not parse are counted as a
    failure and nothing else is; otherwise the two reception counters rise by
    the handled messages of their types.  A panic of the parser ends the turn. *)
Theorem receive_turn_spec p d data raddr m :
  receive_turn p d data raddr m =
    (r ← processReceivedData clock p d data raddr;
     Ok (r, match DeserializePacket data with
            | Ok pkt => let l := handled_messages p raddr (pkt_Header pkt) d (Messages pkt) in
                        rx (of_type MsgTypeHello l) (of_type MsgTypeTC l) m
            | _ => parse_failure m
            end)).
Proof.
  unfold receive_turn, metered_receive, processReceivedData. destruct (DeserializePacket data) as [pkt| | |]; [..|done|done].
  - rewrite metered_messages_spec. rewrite !res_bind_Ok. cbn [fst snd]. do 2 f_equal. unfold rx, backlog. simpl. f_equal; lia.
  - rewrite !res_bind_Ok. cbn [fst snd]. do 2 f_equal. unfold parse_failure, backlog. simpl. f_equal; lia.
Qed.

(** The counter of sent HELLOs rises although no interface sends one. *)
Lemma hello_counted_unsent h p d m : broadcast_addrs h (d_cfg d) = [] →
  datagrams h (d_cfg d) (metered_sendHello p d m).1.2 = [] ∧
  HelloTxTotal (metered_sendHello p d m).2 = HelloTxTotal m + 1.
Proof. intros He. unfold datagrams. rewrite He. split; [|done]. by induction (sends _). Qed.
End meters.
